(** * Two-column layout detection: a model of [visualizer-test.py]

    The development embeds [_is_likely_spanning_box], [detect_two_columns],
    [in_same_level], [find_min_width] and the part of the batch driver that
    stamps the debug flag on the layouts of a page, and proves properties of
    them.

    Modelling conventions.
    - Bounding boxes are Python lists of ints ([list[int]] in the source):
      [list Z].  Unpacking [a, b, c, d = bbox] raises [ValueError] unless the
      list has exactly four items.
    - A layout is a dict loaded from JSON; the record [layout] has one
      optional field per key the program ever touches.
    - A Python float is an IEEE 754 double.  A finite double is represented
      by the rational it denotes, and every arithmetic operation rounds its
      exact result to the nearest double, ties to even ([nearest]).  True
      division of two ints and the conversion of an int operand raise
      [OverflowError] when the rounded result leaves the range of doubles;
      [+], [-] and [*] on floats answer an infinity instead.  Comparisons,
      also between an int and a float, compare the exact values.
    - Early [return]s are labelled by the place they occur ([site]); the
      boolean the source returns is [verdict] of that site.
    - The module [Exact] holds the same program over exact rationals.  It is
      a device of proof: on coordinates of magnitude up to [2 ^ 43] no
      operation of the program rounds in a way that changes a comparison,
      the two programs agree (section "Agreement"), and the properties that
      need arithmetic are first shown of the exact program.
    - [np.median] is modelled as numpy computes it on an array of 64-bit
      ints: the middle items are converted to doubles, added, and divided.
    - Properties that depend on the values the arithmetic returns are
      stated for pixel coordinates, of magnitude up to [2 ^ 40]
      ([pixel_box], [pixel_range]); the mirror image of such a layout lies
      below [2 ^ 43].  Further out the centres and medians are rounded, and
      [far_tied_gaps] and [far_overlapping_columns] show the results
      change. *)

From Stdlib Require Import String.
From Stdlib Require Import ZArith QArith Qabs Qround Qpower List Bool Lia Lqa.
From Stdlib Require Import Permutation Sorted.
Import ListNotations.
Open Scope Z_scope.

(** ** Exceptions and the error monad *)

Inductive exn := ValueError | ZeroDivisionError | OverflowError.

Inductive result (A : Type) : Type :=
| Ok (a : A)
| Raise (e : exn).
Arguments Ok {A} a.
Arguments Raise {A} e.

Definition bind {A B} (c : result A) (k : A -> result B) : result B :=
  match c with
  | Ok a => k a
  | Raise e => Raise e
  end.

Notation "x <- c ;; k" := (bind c (fun x => k))
  (at level 61, c at next level, right associativity).
Notation "' pat <- c ;; k" := (bind c (fun x => match x with pat => k end))
  (at level 61, pat pattern, c at next level, right associativity).

(** ** Data *)

Definition BBox := list Z.

Record layout := mkLayout {
  bbox_layout : option BBox;
  bbox_text : option (list BBox);
  label : option string;
  text : option (list string);
  _is_two_column_debug : option bool
}.

(** [a, b, c, d = bbox] *)
Definition unpack4 (b : BBox) : result (Z * Z * Z * Z) :=
  match b with
  | [x_start; y_start; x_end; y_end] => Ok (x_start, y_start, x_end, y_end)
  | _ => Raise ValueError
  end.

(** [b[i]] on a box; every box that reaches an index expression has passed
    the four-item unpacking of [_is_likely_spanning_box] (lemma
    [non_spanning_boxes_wf] below), so the index is in range. *)
Definition item (b : BBox) (i : nat) : Z := nth i b 0.

Definition Qlt_bool (x y : Q) : bool := negb (Qle_bool y x).

(** ** Double precision

    [Qlog2 q] is the integer part of the binary logarithm of a positive
    rational, [round_half_even] rounds to the nearest integer with ties to
    the even one.  A positive rational in the binade [2 ^ k <= q < 2 ^ (k+1)]
    is rounded to a multiple of [2 ^ (k - 52)] (53 significant bits), and
    below the normal range to a multiple of [2 ^ -1074]. *)

Definition Qlog2 (q : Q) : Z :=
  let k := Z.log2 (Qnum q) - Z.log2 (Zpos (Qden q)) in
  if Qle_bool (2 ^ k) q then k else k - 1.

Definition round_half_even (q : Q) : Z :=
  let n := Qfloor q in
  match (q - inject_Z n ?= 1 # 2)%Q with
  | Lt => n
  | Gt => n + 1
  | Eq => if Z.even n then n else n + 1
  end.

Definition binade (q : Q) : Z := Z.max (-1074) (Qlog2 q - 52).

Definition nearest_pos (q : Q) : Q :=
  (inject_Z (round_half_even (q / 2 ^ binade q)) * 2 ^ binade q)%Q.

(** The double nearest to [q], were the exponent unbounded above. *)
Definition nearest (q : Q) : Q :=
  match (q ?= 0)%Q with
  | Eq => 0%Q
  | Gt => Qred (nearest_pos q)
  | Lt => Qred (- nearest_pos (- q))
  end.

(** Beyond the largest double. *)
Definition too_large (q : Q) : bool := Qle_bool (2 ^ 1024) (Qabs q).

(** The values of a float.  The two zeros are not told apart: the program
    never divides by a float zero and never looks at the sign of one. *)
Inductive float :=
| Finite (q : Q)
| Infinity (negative : bool)
| NaN.

(** The result of an operation on floats whose exact value is [q]. *)
Definition rounded (q : Q) : float :=
  let r := nearest q in
  if too_large r then Infinity (Qlt_bool r 0) else Finite r.

Definition fopp (x : float) : float :=
  match x with
  | Finite a => Finite (- a)
  | Infinity s => Infinity (negb s)
  | NaN => NaN
  end.

(** [abs(x)] *)
Definition fabs (x : float) : float :=
  match x with
  | Finite a => Finite (Qabs a)
  | Infinity _ => Infinity false
  | NaN => NaN
  end.

(** [x + y] on floats *)
Definition fadd (x y : float) : float :=
  match x, y with
  | Finite a, Finite b => rounded (a + b)
  | Finite _, Infinity s => Infinity s
  | Infinity s, Finite _ => Infinity s
  | Infinity s, Infinity t => if Bool.eqb s t then Infinity s else NaN
  | _, _ => NaN
  end.

(** [x - y] on floats *)
Definition fsub (x y : float) : float := fadd x (fopp y).

(** [x * y] on floats *)
Definition fmul (x y : float) : float :=
  match x, y with
  | Finite a, Finite b => rounded (a * b)
  | Finite a, Infinity s | Infinity s, Finite a =>
      if Qeq_bool a 0 then NaN else Infinity (xorb s (Qlt_bool a 0))
  | Infinity s, Infinity t => Infinity (xorb s t)
  | _, _ => NaN
  end.

(** The quotient of two floats, the divisor not zero. *)
Definition fdiv (x y : float) : float :=
  match x, y with
  | Finite a, Finite b => rounded (a / b)
  | Finite _, Infinity _ => Finite 0
  | Infinity s, Finite b => Infinity (xorb s (Qlt_bool b 0))
  | _, _ => NaN
  end.

(** [x < y] and [x <= y] on floats *)
Definition flt (x y : float) : bool :=
  match x, y with
  | Finite a, Finite b => Qlt_bool a b
  | Finite _, Infinity s => negb s
  | Infinity s, Finite _ => s
  | Infinity s, Infinity t => s && negb t
  | _, _ => false
  end.

Definition fle (x y : float) : bool :=
  match x, y with
  | Finite a, Finite b => Qle_bool a b
  | Finite _, Infinity s => negb s
  | Infinity s, Finite _ => s
  | Infinity s, Infinity t => s || negb t
  | _, _ => false
  end.

(** A float literal of the source: the double nearest to the decimal. *)
Definition float_literal (q : Q) : float := Finite (nearest q).

(** An int that is compared with a float: Python compares the exact
    values, without converting the int. *)
Definition exact_int (n : Z) : float := Finite (inject_Z n).

(** An int operand of [+], [*] or [/] whose other operand is a float is
    converted to a float first; [OverflowError] if it is too large. *)
Definition float_of_int (n : Z) : result float :=
  let r := nearest (inject_Z n) in
  if too_large r then Raise OverflowError else Ok (Finite r).

(** [a / b] on ints: the correctly rounded quotient. *)
Definition py_div (a b : Z) : result float :=
  if b =? 0 then Raise ZeroDivisionError
  else
    let r := nearest (inject_Z a / inject_Z b) in
    if too_large r then Raise OverflowError else Ok (Finite r).

(** [x / y] on floats *)
Definition float_div (x y : float) : result float :=
  match y with
  | Finite b => if Qeq_bool b 0 then Raise ZeroDivisionError
                else Ok (fdiv x y)
  | _ => Ok (fdiv x y)
  end.

(** [x / n], [n * x], [x * n] and [n + x] with [n] an int and [x] a float *)
Definition float_div_int (x : float) (n : Z) : result float :=
  y <- float_of_int n ;; float_div x y.

Definition int_mul_float (n : Z) (x : float) : result float :=
  y <- float_of_int n ;; Ok (fmul y x).

Definition float_mul_int (x : float) (n : Z) : result float :=
  y <- float_of_int n ;; Ok (fmul x y).

Definition int_add_float (n : Z) (x : float) : result float :=
  y <- float_of_int n ;; Ok (fadd y x).

(** [numpy.float64(n)] of an [int64] item: numpy's cast rounds to the
    nearest double and cannot overflow on that range. *)
Definition np_float64 (n : Z) : float := rounded (inject_Z n).

(** ** Module-level constants *)

Definition SPANNING_BOX_WIDTH_RATIO_THRESHOLD : float := float_literal 0.7.
Definition ABSOLUTE_SPANNING_WIDTH_THRESHOLD : Z := 700.
Definition MIN_BOXES_FOR_COLUMN_CONSIDERATION : nat := 4.
Definition MIN_BOXES_PER_DETECTED_COLUMN : nat := 2.
Definition GUTTER_SEARCH_RANGE_LAYOUT_RATIO : float * float :=
  (float_literal 0.25, float_literal 0.75).
Definition ALLOWED_INTER_COLUMN_MEDIAN_OVERLAP : Z := 20.
Definition MIN_COLUMN_HEIGHT_LAYOUT_RATIO : float := float_literal 0.3.
Definition MIN_VERTICAL_OVERLAP_RATIO_OF_SHORTER_COLUMN : float :=
  float_literal 0.4.
Definition MIN_LAYOUT_HEIGHT_FOR_TWO_COLUMN : Z := 300.

(** ** [_is_likely_spanning_box] (lines 33-54) *)

Definition _is_likely_spanning_box (text_bbox layout_bbox : BBox)
  : result bool :=
  '(box_x_start, _, box_x_end, _) <- unpack4 text_bbox ;;
  '(layout_x_start, _, layout_x_end, _) <- unpack4 layout_bbox ;;
  let box_width := box_x_end - box_x_start in
  let layout_width := layout_x_end - layout_x_start in
  if layout_width =? 0 then Ok false
  else
    ratio <- py_div box_width layout_width ;;
    if flt SPANNING_BOX_WIDTH_RATIO_THRESHOLD ratio then Ok true
    else if ABSOLUTE_SPANNING_WIDTH_THRESHOLD <? box_width then Ok true
    else Ok false.

(** ** Library functions the classifier calls *)

(** [sorted(l, key=...)]: a stable sort, ascending by key; an item goes
    behind the items that are not greater ([<] is the only comparison the
    sort makes). *)
Fixpoint insert_by {A} (key : A -> float) (x : A) (l : list A) : list A :=
  match l with
  | [] => [x]
  | y :: l' =>
      if flt (key y) (key x) then y :: insert_by key x l' else x :: l
  end.

Definition py_sorted {A} (key : A -> float) (l : list A) : list A :=
  fold_right (insert_by key) [] l.

(** [max(l, key=...)] on a non-empty list: the first maximal item. *)
Fixpoint max_from {A} (key : A -> float) (best : A) (l : list A) : A :=
  match l with
  | [] => best
  | x :: l' =>
      max_from key (if flt (key best) (key x) then x else best) l'
  end.

(** [min(...)] and [max(...)] over ints; [ValueError] on an empty
    sequence. *)
Definition py_min (l : list Z) : result Z :=
  match l with
  | [] => Raise ValueError
  | x :: l' => Ok (fold_left Z.min l' x)
  end.

Definition py_max (l : list Z) : result Z :=
  match l with
  | [] => Raise ValueError
  | x :: l' => Ok (fold_left Z.max l' x)
  end.

(** [np.median] of a list of ints: the mean, taken in double precision, of
    the middle item or of the two middle items of the sorted data; [nan] on
    the empty list.  (numpy holds the items as [int64]; a list with an item
    outside that range is stored in another way and is outside the
    model.) *)
Fixpoint insert_Z (x : Z) (l : list Z) : list Z :=
  match l with
  | [] => [x]
  | y :: l' => if x <=? y then x :: l else y :: insert_Z x l'
  end.

Definition sort_Z (l : list Z) : list Z := fold_right insert_Z [] l.

Definition np_median (l : list Z) : float :=
  let s := sort_Z l in
  let n := length s in
  let lower := nth (n / 2 - 1)%nat s 0 in
  let upper := nth (n / 2)%nat s 0 in
  if (n =? 0)%nat then NaN
  else if Nat.even n
  then fdiv (fadd (np_float64 lower) (np_float64 upper)) (Finite 2)
  else fdiv (np_float64 upper) (Finite 1).

(** ** [detect_two_columns] (lines 57-177) *)

(** The [return] statements of [detect_two_columns], in source order. *)
Inductive site :=
| MissingGeometry        (* line 73 *)
| LayoutTooSmall         (* line 80 *)
| TooFewBoxes            (* line 89 *)
| NoGutter               (* line 124 *)
| ColumnTooSmall         (* line 140 *)
| ColumnsOverlap         (* line 148 *)
| EmptyColumn            (* line 152 *)
| ColumnTooShort         (* line 165 *)
| ZeroHeightNoOverlap    (* line 173 *)
| ZeroHeightFallThrough  (* line 171 true, line 172 false, then line 177 *)
| LowVerticalOverlap     (* line 175 *)
| AllChecksPassed.       (* line 177, after the ratio test of line 174 *)

Definition verdict (s : site) : bool :=
  match s with
  | ZeroHeightFallThrough | AllChecksPassed => true
  | _ => false
  end.

(** Step 1: filter out spanning boxes (lines 83-86). *)
Fixpoint non_spanning_boxes (layout_bbox : BBox) (text_bboxes : list BBox)
  : result (list BBox) :=
  match text_bboxes with
  | [] => Ok []
  | bbox :: rest =>
      spanning <- _is_likely_spanning_box bbox layout_bbox ;;
      kept <- non_spanning_boxes layout_bbox rest ;;
      Ok (if spanning then kept else bbox :: kept)
  end.

(** Step 2: candidates for the gutter (lines 94-121). *)
Record centered := mkCentered { cx : float; bbox : BBox }.

Fixpoint centered_boxes (non_spanning : list BBox) : result (list centered) :=
  match non_spanning with
  | [] => Ok []
  | bbox :: rest =>
      center_x <- py_div (item bbox 0 + item bbox 2) 2 ;;
      others <- centered_boxes rest ;;
      Ok (mkCentered center_x bbox :: others)
  end.

Record gutter := mkGutter {
  gutter_x_candidate : float;
  gap_width_centers : float;
  split_index : nat
}.

(** The loop [for i in range(len(sorted_boxes_by_cx) - 1)], started at
    index [i] on the boxes from [i] on. *)
Fixpoint potential_gutters (layout_x_start layout_width : Z) (i : nat)
    (sorted_boxes_by_cx : list centered) : result (list gutter) :=
  match sorted_boxes_by_cx with
  | box_left_of_gap :: ((box_right_of_gap :: _) as rest) =>
      gap_center_midpoint <-
        float_div_int (fadd (cx box_left_of_gap) (cx box_right_of_gap)) 2 ;;
      let gap_width_centers :=
        fsub (cx box_right_of_gap) (cx box_left_of_gap) in
      low <- int_mul_float layout_width
                           (fst GUTTER_SEARCH_RANGE_LAYOUT_RATIO) ;;
      min_gutter_x <- int_add_float layout_x_start low ;;
      high <- int_mul_float layout_width
                            (snd GUTTER_SEARCH_RANGE_LAYOUT_RATIO) ;;
      max_gutter_x <- int_add_float layout_x_start high ;;
      later <- potential_gutters layout_x_start layout_width (S i) rest ;;
      Ok ((if fle min_gutter_x gap_center_midpoint
              && fle gap_center_midpoint max_gutter_x
              && flt (exact_int 0) gap_width_centers
           then [mkGutter gap_center_midpoint gap_width_centers i]
           else [])
          ++ later)
  | _ => Ok []
  end.

(** [height < layout_height * MIN_COLUMN_HEIGHT_LAYOUT_RATIO] *)
Definition column_too_short (height layout_height : Z) : result bool :=
  least <- int_mul_float layout_height MIN_COLUMN_HEIGHT_LAYOUT_RATIO ;;
  Ok (flt (exact_int height) least).

(** Step 4b: vertical cohesion and span (lines 152-177). *)
Definition validate_vertical (left_column_boxes right_column_boxes : list BBox)
    (layout_height : Z) : result site :=
  if (length left_column_boxes =? 0)%nat || (length right_column_boxes =? 0)%nat
  then Ok EmptyColumn
  else
    min_y_L <- py_min (map (fun b => item b 1) left_column_boxes) ;;
    max_y_L <- py_max (map (fun b => item b 3) left_column_boxes) ;;
    let height_L := max_y_L - min_y_L in
    min_y_R <- py_min (map (fun b => item b 1) right_column_boxes) ;;
    max_y_R <- py_max (map (fun b => item b 3) right_column_boxes) ;;
    let height_R := max_y_R - min_y_R in
    short_L <- column_too_short height_L layout_height ;;
    short_R <- (if short_L then Ok true
                else column_too_short height_R layout_height) ;;
    if short_R
    then Ok ColumnTooShort
    else
      let vertical_overlap_amount :=
        Z.max 0 (Z.min max_y_L max_y_R - Z.max min_y_L min_y_R) in
      let shorter_column_height := Z.min height_L height_R in
      if shorter_column_height =? 0 then
        if vertical_overlap_amount =? 0 then Ok ZeroHeightNoOverlap
        else Ok ZeroHeightFallThrough
      else
        ratio <- py_div vertical_overlap_amount shorter_column_height ;;
        if flt ratio MIN_VERTICAL_OVERLAP_RATIO_OF_SHORTER_COLUMN
        then Ok LowVerticalOverlap
        else Ok AllChecksPassed.

(** The difference tested by step 4a. *)
Definition median_separation (left_column_boxes right_column_boxes : list BBox)
  : float :=
  let median_x_end_left :=
    np_median (map (fun b => item b 2) left_column_boxes) in
  let median_x_start_right :=
    np_median (map (fun b => item b 0) right_column_boxes) in
  fsub median_x_start_right median_x_end_left.

(** Step 4: validate the two columns (lines 138-177). *)
Definition validate_columns (left_column_boxes right_column_boxes : list BBox)
    (layout_height : Z) : result site :=
  if (length left_column_boxes <? MIN_BOXES_PER_DETECTED_COLUMN)%nat
     || (length right_column_boxes <? MIN_BOXES_PER_DETECTED_COLUMN)%nat
  then Ok ColumnTooSmall
  else if flt (median_separation left_column_boxes right_column_boxes)
              (exact_int (- ALLOWED_INTER_COLUMN_MEDIAN_OVERLAP))
  then Ok ColumnsOverlap
  else validate_vertical left_column_boxes right_column_boxes layout_height.

(** What steps 1-3 hand to step 4. *)
Record columns := mkColumns {
  left_column_boxes : list BBox;
  right_column_boxes : list BBox;
  layout_height : Z
}.

(** Steps 1-3 (lines 75-135): either an early [return], or the two column
    groups. *)
Definition find_columns (layout_bbox : BBox) (text_bboxes : list BBox)
  : result (site + columns) :=
  '(layout_x_start, layout_y_start, layout_x_end, layout_y_end)
     <- unpack4 layout_bbox ;;
  let layout_width := layout_x_end - layout_x_start in
  let layout_height := layout_y_end - layout_y_start in
  if (layout_height <? MIN_LAYOUT_HEIGHT_FOR_TWO_COLUMN)
     || (layout_width <? 200)
  then Ok (inl LayoutTooSmall)
  else
    non_spanning <- non_spanning_boxes layout_bbox text_bboxes ;;
    if (length non_spanning <? MIN_BOXES_FOR_COLUMN_CONSIDERATION)%nat
    then Ok (inl TooFewBoxes)
    else
      centered <- centered_boxes non_spanning ;;
      let sorted_boxes_by_cx := py_sorted cx centered in
      candidates <- potential_gutters layout_x_start layout_width 0
                                      sorted_boxes_by_cx ;;
      match candidates with
      | [] => Ok (inl NoGutter)
      | first :: others =>
          let best_gutter_candidate :=
            max_from gap_width_centers first others in
          let split_idx := split_index best_gutter_candidate in
          Ok (inr (mkColumns
                     (map bbox (firstn (split_idx + 1) sorted_boxes_by_cx))
                     (map bbox (skipn (split_idx + 1) sorted_boxes_by_cx))
                     layout_height))
      end.

(** The body of [detect_two_columns] once both fields are known to be
    present and non-empty. *)
Definition classify (layout_bbox : BBox) (text_bboxes : list BBox)
  : result site :=
  found <- find_columns layout_bbox text_bboxes ;;
  match found with
  | inl s => Ok s
  | inr c =>
      validate_columns (left_column_boxes c) (right_column_boxes c)
                       (layout_height c)
  end.

(** ** The layout as a mutable object

    A computation on one layout object: it may read and write the object's
    fields and may raise; a write made before an exception stays. *)
Definition M (A : Type) : Type := layout -> result A * layout.

Definition mret {A} (a : A) : M A := fun l => (Ok a, l).

Definition mbind {A B} (c : M A) (k : A -> M B) : M B :=
  fun l =>
    match c l with
    | (Ok a, l') => k a l'
    | (Raise e, l') => (Raise e, l')
    end.

Notation "x <~ c ;; k" := (mbind c (fun x => k))
  (at level 61, c at next level, right associativity).

(** [layout.get(key)] *)
Definition dict_get {A} (field : layout -> option A) : M (option A) :=
  fun l => (Ok (field l), l).

(** [layout_item['_is_two_column_debug'] = b] *)
Definition set_debug_flag (b : bool) : M unit :=
  fun l =>
    (Ok tt,
     mkLayout (bbox_layout l) (bbox_text l) (label l) (text l) (Some b)).

(** A computation that touches no object. *)
Definition pure {A} (c : result A) : M A := fun l => (c, l).

(** [detect_two_columns], with the [return] taken. *)
Definition detect_two_columns_site : M site :=
  layout_bbox <~ dict_get bbox_layout ;;
  text_bboxes <~ dict_get bbox_text ;;
  match layout_bbox, text_bboxes with
  | Some ((_ :: _) as layout_bbox), Some ((_ :: _) as text_bboxes) =>
      pure (classify layout_bbox text_bboxes)
  | _, _ => mret MissingGeometry   (* [not layout_bbox or not text_bboxes] *)
  end.

Definition detect_two_columns : M bool :=
  s <~ detect_two_columns_site ;; mret (verdict s).

(** The driver's treatment of one layout of a page (lines 374 and
    381-383). *)
Definition mark_layout : M unit :=
  _ <~ set_debug_flag false ;;
  lbl <~ dict_get label ;;
  if match lbl with Some s => String.eqb s "Text" | None => false end
  then
    two <~ detect_two_columns ;;
    if two then set_debug_flag true else mret tt
  else mret tt.

(** ** [in_same_level] (lines 181-202) *)

Definition in_same_level (text_box_1 text_box_2 : BBox) (margin : Z)
  : result bool :=
  '(_, y1_start, _, y1_end) <- unpack4 text_box_1 ;;
  '(_, y2_start, _, y2_end) <- unpack4 text_box_2 ;;
  y1_center <- py_div (y1_start + y1_end) 2 ;;
  y2_center <- py_div (y2_start + y2_end) 2 ;;
  let same_level :=
    fle (fabs (fsub y1_center y2_center)) (exact_int margin) in
  '(x1_start, _, x1_end, _) <- unpack4 text_box_1 ;;
  '(x2_start, _, x2_end, _) <- unpack4 text_box_2 ;;
  let x_overlap := Z.max 0 (Z.min x1_end x2_end - Z.max x1_start x2_start) in
  let min_width_of_the_two_boxes :=
    Z.min (x1_end - x1_start) (x2_end - x2_start) in
  different_columns <-
    (if min_width_of_the_two_boxes =? 0 then Ok true
     else
       half <- float_mul_int (float_literal 0.5) min_width_of_the_two_boxes ;;
       Ok (flt (exact_int x_overlap) half)) ;;
  Ok (same_level && different_columns).

(** ** [find_min_width] (lines 205-230) *)

(** [itertools.combinations(l, 2)] *)
Fixpoint combinations2 {A} (l : list A) : list (A * A) :=
  match l with
  | [] => []
  | x :: rest => map (pair x) rest ++ combinations2 rest
  end.

(** The gap between the two boxes of a pair (lines 218-225). *)
Definition pair_gap (text_box_1 text_box_2 : BBox) : result Z :=
  '(b1_x_start, _, b1_x_end, _) <- unpack4 text_box_1 ;;
  '(b2_x_start, _, b2_x_end, _) <- unpack4 text_box_2 ;;
  center_1 <- py_div (b1_x_start + b1_x_end) 2 ;;
  center_2 <- py_div (b2_x_start + b2_x_end) 2 ;;
  if flt center_1 center_2
  then Ok (b2_x_start - b1_x_end)
  else Ok (b1_x_start - b2_x_end).

(** The loop over the pairs (lines 213-228), with the running minimum. *)
Fixpoint scan_pairs (pairs : list (BBox * BBox)) (height_margin : Z)
    (min_width_found : Z) : result Z :=
  match pairs with
  | [] => Ok min_width_found
  | (text_box_1, text_box_2) :: rest =>
      same <- in_same_level text_box_1 text_box_2 height_margin ;;
      if same then
        gap <- pair_gap text_box_1 text_box_2 ;;
        scan_pairs rest height_margin
          (if 0 <? gap then Z.min min_width_found gap else min_width_found)
      else scan_pairs rest height_margin min_width_found
  end.

(** [start_min_width] has the default 900 in the source. *)
Definition find_min_width (height_margin : Z) (start_min_width : Z) : M Z :=
  text_bboxes <~ dict_get bbox_text ;;
  match text_bboxes with
  | None => mret start_min_width
  | Some text_bboxes =>
      if (length text_bboxes <? 2)%nat then mret start_min_width
      else pure (scan_pairs (combinations2 text_bboxes) height_margin
                            start_min_width)
  end.

(** ** The driver's work on one page (lines 373-383)

    The page is the list of its layout objects; the loops write the debug
    flag of each. *)

Definition label_is_text (layout_item : layout) : bool :=
  match label layout_item with
  | Some s => String.eqb s "Text"
  | None => false
  end.

(** First loop: every flag is set to [False]. *)
Definition clear_debug_flags (page : list layout) : list layout :=
  map (fun layout_item => snd (set_debug_flag false layout_item)) page.

(** Second loop, [enumerate] counting from [i]: the indices of the layouts
    found two-column, and the page as the loop leaves it.  An exception
    leaves the loop at once. *)
Fixpoint collect_two_column (i : nat) (page : list layout)
  : result (list nat) * list layout :=
  match page with
  | [] => (Ok [], [])
  | layout_item :: rest =>
      if label_is_text layout_item then
        match detect_two_columns layout_item with
        | (Ok two, layout_item') =>
            let marked :=
              if two then snd (set_debug_flag true layout_item')
              else layout_item' in
            let '(found, rest') := collect_two_column (S i) rest in
            (match found with
             | Ok indices => Ok (if two then i :: indices else indices)
             | Raise e => Raise e
             end, marked :: rest')
        | (Raise e, layout_item') => (Raise e, layout_item' :: rest)
        end
      else
        let '(found, rest') := collect_two_column (S i) rest in
        (found, layout_item :: rest')
  end.

Definition process_page (page : list layout)
  : result (list nat) * list layout :=
  collect_two_column 0 (clear_debug_flags page).

(** ** Notions used to state the properties *)

(** Twice the x-centre of a box: the sum of its two x-coordinates. *)
Definition key2 (b : BBox) : Z := item b 0 + item b 2.

(** Mirroring a layout about its vertical centre line: a point [x] goes to
    [t - x], where [t] is the sum of the layout's two x-coordinates (twice
    the centre). *)
Definition mirror_box (t : Z) (b : BBox) : BBox :=
  match b with
  | [x_start; y_start; x_end; y_end] => [t - x_end; y_start; t - x_start; y_end]
  | _ => b
  end.

Definition mirror_layout (l : layout) : layout :=
  match bbox_layout l with
  | Some [x_start; y_start; x_end; y_end] =>
      let t := x_start + x_end in
      mkLayout (Some (mirror_box t [x_start; y_start; x_end; y_end]))
               (option_map (map (mirror_box t)) (bbox_text l))
               (label l) (text l) (_is_two_column_debug l)
  | _ => l
  end.

(** Moving a box, and a whole layout, by [(dx, dy)]. *)
Definition shift_box (dx dy : Z) (b : BBox) : BBox :=
  match b with
  | [x_start; y_start; x_end; y_end] =>
      [x_start + dx; y_start + dy; x_end + dx; y_end + dy]
  | _ => b
  end.

Definition shift_layout (dx dy : Z) (l : layout) : layout :=
  mkLayout (option_map (shift_box dx dy) (bbox_layout l))
           (option_map (map (shift_box dx dy)) (bbox_text l))
           (label l) (text l) (_is_two_column_debug l).

(** A layout whose boxes all have four coordinates. *)
Definition well_formed (l : layout) : Prop :=
  (forall lb, bbox_layout l = Some lb -> lb = [] \/ length lb = 4%nat)
  /\ (forall tbs, bbox_text l = Some tbs ->
        Forall (fun b => length b = 4%nat) tbs).

(** Coordinates of magnitude at most [bound]. *)
Definition coordinates_below (bound : Z) (b : BBox) : bool :=
  forallb (fun c => Z.abs c <=? bound) b.

Definition layout_below (bound : Z) (l : layout) : bool :=
  match bbox_layout l with
  | Some lb => coordinates_below bound lb
  | None => true
  end
  && match bbox_text l with
     | Some tbs => forallb (coordinates_below bound) tbs
     | None => true
     end.

(** Pixel coordinates: every coordinate of the layout box and of the text
    boxes has magnitude at most [2 ^ 40]. *)
Definition pixel_bound : Z := 2 ^ 40.

Definition pixel_box (b : BBox) : Prop := coordinates_below pixel_bound b = true.

Definition pixel_range (l : layout) : Prop := layout_below pixel_bound l = true.

(** The range on which the double-precision program and the exact program
    are shown to agree. *)
Definition agreement_bound : Z := 2 ^ 43.

(** [reaches l c]: the call on [l] gets through steps 1-3 and hands the
    columns [c] to the validation. *)
Definition reaches (l : layout) (c : columns) : Prop :=
  exists lb tbs,
    bbox_layout l = Some lb /\ bbox_text l = Some tbs
    /\ find_columns lb tbs = Ok (inr c).

(** The candidate contributed by one pass of the loop body. *)
Definition gutter_at (xs W : Z) (i : nat) (a b : centered)
  : result (list gutter) :=
  mid <- float_div_int (fadd (cx a) (cx b)) 2 ;;
  let width := fsub (cx b) (cx a) in
  low <- int_mul_float W (fst GUTTER_SEARCH_RANGE_LAYOUT_RATIO) ;;
  min_gutter_x <- int_add_float xs low ;;
  high <- int_mul_float W (snd GUTTER_SEARCH_RANGE_LAYOUT_RATIO) ;;
  max_gutter_x <- int_add_float xs high ;;
  Ok (if fle min_gutter_x mid && fle mid max_gutter_x
         && flt (exact_int 0) width
      then [mkGutter mid width i] else []).

(** The gutter candidates of a layout, and those of maximal width. *)
Definition gutter_candidates (l : layout) : list gutter :=
  match bbox_layout l, bbox_text l with
  | Some [x_start; y_start; x_end; y_end], Some tbs =>
      match
        (non_spanning <- non_spanning_boxes [x_start; y_start; x_end; y_end]
                                            tbs ;;
         centered <- centered_boxes non_spanning ;;
         potential_gutters x_start (x_end - x_start) 0
                           (py_sorted cx centered))
      with
      | Ok candidates => candidates
      | Raise _ => []
      end
  | _, _ => []
  end.

Definition widest (candidates : list gutter) : list gutter :=
  match candidates with
  | [] => []
  | first :: others =>
      let best := max_from gap_width_centers first others in
      filter (fun g => fle (gap_width_centers best) (gap_width_centers g))
             candidates
  end.


(** [m] is the median of [data]: the middle item of the data in ascending
    order, or the mean of the two middle items. *)
Definition median_of (data : list Z) (m : Q) : Prop :=
  exists s,
    Permutation s data /\ StronglySorted Z.le s
    /\ (m == if Nat.even (length s)
             then (inject_Z (nth (length s / 2 - 1) s 0%Z)
                   + inject_Z (nth (length s / 2) s 0%Z)) / 2
             else inject_Z (nth (length s / 2) s 0%Z))%Q.

(** A float that is the double of value [q]. *)
Definition is_finite (x : float) (q : Q) : Prop :=
  exists r, x = Finite r /\ (r == q)%Q.

(** [a] occurs before [b] in [l]. *)
Definition occurs_before {A} (a b : A) (l : list A) : Prop :=
  exists l1 l2 l3, l = l1 ++ a :: l2 ++ b :: l3.

(** The layout with its debug flag set to [b]. *)
Definition with_debug_flag (b : bool) (l : layout) : layout :=
  mkLayout (bbox_layout l) (bbox_text l) (label l) (text l) (Some b).

(** Whether the driver marks a layout: it is labelled ["Text"] and
    [detect_two_columns] returns [True] on it. *)
Definition marked_two_column (l : layout) : bool :=
  label_is_text l
  && match fst (detect_two_columns l) with
     | Ok two => two
     | Raise _ => false
     end.

(** The indices, counted from [i], of the layouts the driver marks. *)
Fixpoint marked_indices (i : nat) (page : list layout) : list nat :=
  match page with
  | [] => []
  | l :: rest =>
      if marked_two_column l then i :: marked_indices (S i) rest
      else marked_indices (S i) rest
  end.

(** Two layouts that differ at most in the debug flag. *)
Definition same_but_flag (l l' : layout) : Prop :=
  bbox_layout l' = bbox_layout l /\ bbox_text l' = bbox_text l
  /\ label l' = label l /\ text l' = text l.

(** * The program over exact rationals

    The same program with every float replaced by the rational it would be
    without rounding: true division is exact, the float constants are the
    decimal fractions the source writes, and nothing overflows. *)

Module Exact.

(** [a / b] on ints *)
Definition py_div (a b : Z) : result Q :=
  if b =? 0 then Raise ZeroDivisionError
  else Ok (inject_Z a / inject_Z b)%Q.

Definition SPANNING_BOX_WIDTH_RATIO_THRESHOLD : Q := 0.7.
Definition GUTTER_SEARCH_RANGE_LAYOUT_RATIO : Q * Q := (0.25, 0.75)%Q.
Definition MIN_COLUMN_HEIGHT_LAYOUT_RATIO : Q := 0.3.
Definition MIN_VERTICAL_OVERLAP_RATIO_OF_SHORTER_COLUMN : Q := 0.4.

Definition _is_likely_spanning_box (text_bbox layout_bbox : BBox)
  : result bool :=
  '(box_x_start, _, box_x_end, _) <- unpack4 text_bbox ;;
  '(layout_x_start, _, layout_x_end, _) <- unpack4 layout_bbox ;;
  let box_width := box_x_end - box_x_start in
  let layout_width := layout_x_end - layout_x_start in
  if layout_width =? 0 then Ok false
  else
    ratio <- py_div box_width layout_width ;;
    if Qlt_bool SPANNING_BOX_WIDTH_RATIO_THRESHOLD ratio then Ok true
    else if ABSOLUTE_SPANNING_WIDTH_THRESHOLD <? box_width then Ok true
    else Ok false.

(** [sorted(l, key=...)]: a stable sort, ascending by key. *)
Fixpoint insert_by {A} (key : A -> Q) (x : A) (l : list A) : list A :=
  match l with
  | [] => [x]
  | y :: l' =>
      if Qle_bool (key x) (key y) then x :: l else y :: insert_by key x l'
  end.

Definition py_sorted {A} (key : A -> Q) (l : list A) : list A :=
  fold_right (insert_by key) [] l.

(** [max(l, key=...)] on a non-empty list: the first maximal item. *)
Fixpoint max_from {A} (key : A -> Q) (best : A) (l : list A) : A :=
  match l with
  | [] => best
  | x :: l' =>
      max_from key (if Qlt_bool (key best) (key x) then x else best) l'
  end.

(** The median of a list of ints: the middle item of the sorted data, or
    the mean of the two middle items. *)
Definition np_median (l : list Z) : Q :=
  let s := sort_Z l in
  let n := length s in
  let lower := nth (n / 2 - 1)%nat s 0 in
  let upper := nth (n / 2)%nat s 0 in
  if Nat.even n then ((inject_Z lower + inject_Z upper) / 2)%Q
  else inject_Z upper.

(** Step 1: filter out spanning boxes (lines 83-86). *)
Fixpoint non_spanning_boxes (layout_bbox : BBox) (text_bboxes : list BBox)
  : result (list BBox) :=
  match text_bboxes with
  | [] => Ok []
  | bbox :: rest =>
      spanning <- _is_likely_spanning_box bbox layout_bbox ;;
      kept <- non_spanning_boxes layout_bbox rest ;;
      Ok (if spanning then kept else bbox :: kept)
  end.

(** Step 2: candidates for the gutter (lines 94-121). *)
Record centered := mkCentered { cx : Q; bbox : BBox }.

Definition centered_boxes (non_spanning : list BBox) : list centered :=
  map (fun bbox =>
         let center_x := (inject_Z (item bbox 0 + item bbox 2) / 2)%Q in
         mkCentered center_x bbox)
      non_spanning.

Record gutter := mkGutter {
  gutter_x_candidate : Q;
  gap_width_centers : Q;
  split_index : nat
}.

(** The loop [for i in range(len(sorted_boxes_by_cx) - 1)], started at
    index [i] on the boxes from [i] on. *)
Fixpoint potential_gutters (layout_x_start layout_width : Z) (i : nat)
    (sorted_boxes_by_cx : list centered) : list gutter :=
  match sorted_boxes_by_cx with
  | box_left_of_gap :: ((box_right_of_gap :: _) as rest) =>
      let gap_center_midpoint :=
        ((cx box_left_of_gap + cx box_right_of_gap) / 2)%Q in
      let gap_width_centers := (cx box_right_of_gap - cx box_left_of_gap)%Q in
      let min_gutter_x :=
        (inject_Z layout_x_start
         + inject_Z layout_width * fst GUTTER_SEARCH_RANGE_LAYOUT_RATIO)%Q in
      let max_gutter_x :=
        (inject_Z layout_x_start
         + inject_Z layout_width * snd GUTTER_SEARCH_RANGE_LAYOUT_RATIO)%Q in
      (if Qle_bool min_gutter_x gap_center_midpoint
          && Qle_bool gap_center_midpoint max_gutter_x
          && Qlt_bool 0 gap_width_centers
       then [mkGutter gap_center_midpoint gap_width_centers i]
       else [])
      ++ potential_gutters layout_x_start layout_width (S i) rest
  | _ => []
  end.

(** Step 4b: vertical cohesion and span (lines 152-177). *)
Definition validate_vertical (left_column_boxes right_column_boxes : list BBox)
    (layout_height : Z) : result site :=
  if (length left_column_boxes =? 0)%nat || (length right_column_boxes =? 0)%nat
  then Ok EmptyColumn
  else
    min_y_L <- py_min (map (fun b => item b 1) left_column_boxes) ;;
    max_y_L <- py_max (map (fun b => item b 3) left_column_boxes) ;;
    let height_L := max_y_L - min_y_L in
    min_y_R <- py_min (map (fun b => item b 1) right_column_boxes) ;;
    max_y_R <- py_max (map (fun b => item b 3) right_column_boxes) ;;
    let height_R := max_y_R - min_y_R in
    if Qlt_bool (inject_Z height_L)
                (inject_Z layout_height * MIN_COLUMN_HEIGHT_LAYOUT_RATIO)
       || Qlt_bool (inject_Z height_R)
                   (inject_Z layout_height * MIN_COLUMN_HEIGHT_LAYOUT_RATIO)
    then Ok ColumnTooShort
    else
      let vertical_overlap_amount :=
        Z.max 0 (Z.min max_y_L max_y_R - Z.max min_y_L min_y_R) in
      let shorter_column_height := Z.min height_L height_R in
      if shorter_column_height =? 0 then
        if vertical_overlap_amount =? 0 then Ok ZeroHeightNoOverlap
        else Ok ZeroHeightFallThrough
      else
        ratio <- py_div vertical_overlap_amount shorter_column_height ;;
        if Qlt_bool ratio MIN_VERTICAL_OVERLAP_RATIO_OF_SHORTER_COLUMN
        then Ok LowVerticalOverlap
        else Ok AllChecksPassed.

(** The difference tested by step 4a. *)
Definition median_separation (left_column_boxes right_column_boxes : list BBox)
  : Q :=
  let median_x_end_left :=
    np_median (map (fun b => item b 2) left_column_boxes) in
  let median_x_start_right :=
    np_median (map (fun b => item b 0) right_column_boxes) in
  (median_x_start_right - median_x_end_left)%Q.

(** Step 4: validate the two columns (lines 138-177). *)
Definition validate_columns (left_column_boxes right_column_boxes : list BBox)
    (layout_height : Z) : result site :=
  if (length left_column_boxes <? MIN_BOXES_PER_DETECTED_COLUMN)%nat
     || (length right_column_boxes <? MIN_BOXES_PER_DETECTED_COLUMN)%nat
  then Ok ColumnTooSmall
  else if Qlt_bool (median_separation left_column_boxes right_column_boxes)
                   (inject_Z (- ALLOWED_INTER_COLUMN_MEDIAN_OVERLAP))
  then Ok ColumnsOverlap
  else validate_vertical left_column_boxes right_column_boxes layout_height.

(** Steps 1-3 (lines 75-135): either an early [return], or the two column
    groups. *)
Definition find_columns (layout_bbox : BBox) (text_bboxes : list BBox)
  : result (site + columns) :=
  '(layout_x_start, layout_y_start, layout_x_end, layout_y_end)
     <- unpack4 layout_bbox ;;
  let layout_width := layout_x_end - layout_x_start in
  let layout_height := layout_y_end - layout_y_start in
  if (layout_height <? MIN_LAYOUT_HEIGHT_FOR_TWO_COLUMN)
     || (layout_width <? 200)
  then Ok (inl LayoutTooSmall)
  else
    non_spanning <- non_spanning_boxes layout_bbox text_bboxes ;;
    if (length non_spanning <? MIN_BOXES_FOR_COLUMN_CONSIDERATION)%nat
    then Ok (inl TooFewBoxes)
    else
      let sorted_boxes_by_cx := py_sorted cx (centered_boxes non_spanning) in
      match potential_gutters layout_x_start layout_width 0
                              sorted_boxes_by_cx with
      | [] => Ok (inl NoGutter)
      | first :: others =>
          let best_gutter_candidate :=
            max_from gap_width_centers first others in
          let split_idx := split_index best_gutter_candidate in
          Ok (inr (mkColumns
                     (map bbox (firstn (split_idx + 1) sorted_boxes_by_cx))
                     (map bbox (skipn (split_idx + 1) sorted_boxes_by_cx))
                     layout_height))
      end.

(** The body of [detect_two_columns] once both fields are known to be
    present and non-empty. *)
Definition classify (layout_bbox : BBox) (text_bboxes : list BBox)
  : result site :=
  found <- find_columns layout_bbox text_bboxes ;;
  match found with
  | inl s => Ok s
  | inr c =>
      validate_columns (left_column_boxes c) (right_column_boxes c)
                       (layout_height c)
  end.

(** [detect_two_columns], with the [return] taken. *)
Definition detect_two_columns_site : M site :=
  layout_bbox <~ dict_get bbox_layout ;;
  text_bboxes <~ dict_get bbox_text ;;
  match layout_bbox, text_bboxes with
  | Some ((_ :: _) as layout_bbox), Some ((_ :: _) as text_bboxes) =>
      pure (classify layout_bbox text_bboxes)
  | _, _ => mret MissingGeometry   (* [not layout_bbox or not text_bboxes] *)
  end.

Definition detect_two_columns : M bool :=
  s <~ detect_two_columns_site ;; mret (verdict s).

Definition in_same_level (text_box_1 text_box_2 : BBox) (margin : Z)
  : result bool :=
  '(_, y1_start, _, y1_end) <- unpack4 text_box_1 ;;
  '(_, y2_start, _, y2_end) <- unpack4 text_box_2 ;;
  let y1_center := (inject_Z (y1_start + y1_end) / 2)%Q in
  let y2_center := (inject_Z (y2_start + y2_end) / 2)%Q in
  let same_level :=
    Qle_bool (Qabs (y1_center - y2_center)) (inject_Z margin) in
  '(x1_start, _, x1_end, _) <- unpack4 text_box_1 ;;
  '(x2_start, _, x2_end, _) <- unpack4 text_box_2 ;;
  let x_overlap := Z.max 0 (Z.min x1_end x2_end - Z.max x1_start x2_start) in
  let min_width_of_the_two_boxes :=
    Z.min (x1_end - x1_start) (x2_end - x2_start) in
  let different_columns :=
    if min_width_of_the_two_boxes =? 0 then true
    else Qlt_bool (inject_Z x_overlap)
                  (0.5 * inject_Z min_width_of_the_two_boxes) in
  Ok (same_level && different_columns).

(** The gap between the two boxes of a pair (lines 218-225). *)
Definition pair_gap (text_box_1 text_box_2 : BBox) : result Z :=
  '(b1_x_start, _, b1_x_end, _) <- unpack4 text_box_1 ;;
  '(b2_x_start, _, b2_x_end, _) <- unpack4 text_box_2 ;;
  if Qlt_bool (inject_Z (b1_x_start + b1_x_end) / 2)
              (inject_Z (b2_x_start + b2_x_end) / 2)
  then Ok (b2_x_start - b1_x_end)
  else Ok (b1_x_start - b2_x_end).

(** The loop over the pairs (lines 213-228), with the running minimum. *)
Fixpoint scan_pairs (pairs : list (BBox * BBox)) (height_margin : Z)
    (min_width_found : Z) : result Z :=
  match pairs with
  | [] => Ok min_width_found
  | (text_box_1, text_box_2) :: rest =>
      same <- in_same_level text_box_1 text_box_2 height_margin ;;
      if same then
        gap <- pair_gap text_box_1 text_box_2 ;;
        scan_pairs rest height_margin
          (if 0 <? gap then Z.min min_width_found gap else min_width_found)
      else scan_pairs rest height_margin min_width_found
  end.

(** [start_min_width] has the default 900 in the source. *)
Definition find_min_width (height_margin : Z) (start_min_width : Z) : M Z :=
  text_bboxes <~ dict_get bbox_text ;;
  match text_bboxes with
  | None => mret start_min_width
  | Some text_bboxes =>
      if (length text_bboxes <? 2)%nat then mret start_min_width
      else pure (scan_pairs (combinations2 text_bboxes) height_margin
                            start_min_width)
  end.

(** ** Notions used to state and prove the properties of the exact program *)

(** [reaches l c]: the call on [l] gets through steps 1-3 and hands the
    columns [c] to the validation. *)
Definition reaches (l : layout) (c : columns) : Prop :=
  exists lb tbs,
    bbox_layout l = Some lb /\ bbox_text l = Some tbs
    /\ find_columns lb tbs = Ok (inr c).

(** The order [sorted(..., key=...)] sorts by. *)
Definition key_le {A} (key : A -> Q) (a b : A) : Prop := (key a <= key b)%Q.

(** Where a bound tested by the central-band check lies. *)
Definition in_central_band (layout_x_start layout_width : Z) (x : Q) : Prop :=
  (inject_Z layout_x_start
   + inject_Z layout_width * fst GUTTER_SEARCH_RANGE_LAYOUT_RATIO <= x)%Q
  /\ (x <= inject_Z layout_x_start
           + inject_Z layout_width * snd GUTTER_SEARCH_RANGE_LAYOUT_RATIO)%Q.

(** The candidate contributed by one pass of the loop body. *)
Definition gap_between (xs W : Z) (i : nat) (a b : centered) : list gutter :=
  let mid := ((cx a + cx b) / 2)%Q in
  let width := (cx b - cx a)%Q in
  if Qle_bool (inject_Z xs
               + inject_Z W * fst GUTTER_SEARCH_RANGE_LAYOUT_RATIO) mid
     && Qle_bool mid (inject_Z xs
                      + inject_Z W * snd GUTTER_SEARCH_RANGE_LAYOUT_RATIO)
     && Qlt_bool 0 width
  then [mkGutter mid width i] else [].

(** The gutter candidates of a layout, and those of maximal width. *)
Definition gutter_candidates (l : layout) : list gutter :=
  match bbox_layout l, bbox_text l with
  | Some [x_start; y_start; x_end; y_end], Some tbs =>
      match non_spanning_boxes [x_start; y_start; x_end; y_end] tbs with
      | Ok non_spanning =>
          potential_gutters x_start (x_end - x_start) 0
            (py_sorted cx (centered_boxes non_spanning))
      | Raise _ => []
      end
  | _, _ => []
  end.

Definition widest (candidates : list gutter) : list gutter :=
  match candidates with
  | [] => []
  | first :: others =>
      let best := max_from gap_width_centers first others in
      filter (fun g => Qle_bool (gap_width_centers best) (gap_width_centers g))
             candidates
  end.

(** ** Centres as integers

    The centre of a box is half of [key2], the sum of its two
    x-coordinates; comparisons of centres are comparisons of these sums. *)

Definition kc (c : centered) : Z := key2 (bbox c).
Definition centred_ok (c : centered) : Prop :=
  cx c = (inject_Z (kc c) / 2)%Q.

(** [m] is a median of [data]: at least half of the items are at or below
    it and at least half at or above it. *)
Definition is_median (m : Q) (data : list Z) : Prop :=
  (length data
   <= 2 * length (filter (fun x => Qle_bool (inject_Z x) m) data))%nat
  /\ (length data
      <= 2 * length (filter (fun x => Qle_bool m (inject_Z x)) data))%nat.

(** The mirror image of a box with its centre. *)
Definition mirror_centered (t : Z) (c : centered) : centered :=
  mkCentered (inject_Z (key2 (mirror_box t (bbox c))) / 2)%Q
             (mirror_box t (bbox c)).

(** A box moved together with its centre. *)
Definition shift_centered (dx dy : Z) (c : centered) : centered :=
  mkCentered (inject_Z (key2 (shift_box dx dy (bbox c))) / 2)%Q
             (shift_box dx dy (bbox c)).

(** A centred box as step 2 builds it: four coordinates, and the centre
    that belongs to them. *)
Definition sound_centred (c : centered) : Prop :=
  centred_ok c /\ length (bbox c) = 4%nat.

(** Two candidates at the same index with the same gap width. *)
Definition same_gap (g g' : gutter) : Prop :=
  split_index g' = split_index g
  /\ (gap_width_centers g' == gap_width_centers g)%Q.

End Exact.

(** ** Agreement of the two programs: the relations

    A centred box and a gutter candidate of the double-precision program
    agree with those of the exact program when they carry the same box or
    index and their floats are the doubles of the exact values. *)

Definition centre_agrees (c : centered) (c' : Exact.centered) : Prop :=
  bbox c = Exact.bbox c' /\ is_finite (cx c) (Exact.cx c').

Definition gutter_agrees (g : gutter) (g' : Exact.gutter) : Prop :=
  split_index g = Exact.split_index g'
  /\ is_finite (gap_width_centers g) (Exact.gap_width_centers g')
  /\ is_finite (gutter_x_candidate g) (Exact.gutter_x_candidate g').

(** A centred box of the exact program with coordinates in the range of
    agreement. *)
Definition centre_in_range (c' : Exact.centered) : Prop :=
  Exact.centred_ok c'
  /\ coordinates_below agreement_bound (Exact.bbox c') = true.

(** ** Test layouts *)

Definition geometry (lb : BBox) (tbs : list BBox) : layout :=
  mkLayout (Some lb) (Some tbs) (Some "Text"%string) None None.

Definition scenario_A : layout :=
  geometry [0; 0; 1000; 800]
    [[50; 50; 400; 150]; [520; 50; 900; 150];
     [100; 200; 420; 300]; [540; 200; 910; 300];
     [150; 350; 440; 450]; [560; 350; 920; 450];
     [200; 500; 460; 600]; [580; 500; 940; 600];
     [60; 650; 480; 750]; [600; 650; 950; 750]].

Definition scenario_C : layout :=
  geometry [0; 0; 1000; 800]
    [[50; 50; 400; 100]; [60; 150; 420; 200]; [70; 250; 440; 300];
     [560; 500; 900; 550]; [570; 600; 920; 650]; [580; 700; 940; 750]].

Definition short_layout : layout :=
  geometry [0; 0; 1000; 299]
    [[50; 50; 400; 100]; [520; 50; 900; 100];
     [100; 110; 420; 160]; [540; 110; 910; 160];
     [150; 170; 440; 220]; [560; 170; 920; 220]].

Definition no_text_layout : layout :=
  mkLayout (Some [0; 0; 1000; 800]) (Some []) (Some "Text"%string) None None.

Definition scenario_A_relabelled : layout :=
  mkLayout (bbox_layout scenario_A) (bbox_text scenario_A)
           (Some "Figure"%string) (Some ["left"; "right"]%string) (Some false).

Definition three_narrow_boxes : layout :=
  geometry [0; 0; 1000; 800]
    [[50; 50; 950; 100];
     [50; 150; 400; 400]; [520; 150; 900; 400]; [50; 450; 400; 750]].

Definition tied_gaps : layout :=
  geometry [0; 0; 1000; 800]
    [[250; 50; 350; 400]; [250; 400; 350; 750];
     [450; 50; 550; 400]; [450; 400; 550; 750];
     [650; 50; 750; 750]].

Definition tied_gaps_columns : columns :=
  mkColumns
    [[250; 50; 350; 400]; [250; 400; 350; 750]]
    [[450; 50; 550; 400]; [450; 400; 550; 750]; [650; 50; 750; 750]]
    800.

Definition scenario_A_columns : columns :=
  mkColumns
    [[50; 50; 400; 150]; [100; 200; 420; 300]; [60; 650; 480; 750];
     [150; 350; 440; 450]; [200; 500; 460; 600]]
    [[520; 50; 900; 150]; [540; 200; 910; 300]; [560; 350; 920; 450];
     [580; 500; 940; 600]; [600; 650; 950; 750]]
    800.

Definition three_on_a_row : layout :=
  geometry [0; 0; 1000; 800]
    [[0; 0; 100; 20]; [150; 5; 300; 25]; [400; 0; 500; 20]].

Definition mixed_page : list layout :=
  [scenario_A; scenario_C; tied_gaps; scenario_A_relabelled; no_text_layout].

Definition stacked_boxes : layout :=
  geometry [0; 0; 1000; 800]
    [[100; 50; 500; 150]; [150; 200; 450; 300]; [200; 350; 400; 450];
     [50; 500; 550; 600]; [250; 650; 350; 750]].

(** [tied_gaps] moved [10 ^ 17] pixels to the right: from there on doubles
    are 16 apart, and the centres of the boxes are rounded. *)
Definition far_tied_gaps : layout := shift_layout (10 ^ 17) 0 tied_gaps.

(** Two columns near [2 ^ 60], where doubles are 256 apart: the right
    edges of the left column lie 30 pixels to the right of the left edges of
    the right column. *)
Definition far_overlapping_columns : layout :=
  geometry [2 ^ 60 - 600; 0; 2 ^ 60 + 700; 800]
    [[2 ^ 60 - 500; 50; 2 ^ 60 + 100; 400];
     [2 ^ 60 - 500; 400; 2 ^ 60 + 100; 750];
     [2 ^ 60 + 70; 50; 2 ^ 60 + 670; 400];
     [2 ^ 60 + 70; 400; 2 ^ 60 + 670; 750]].

(** * Rounding to the nearest double *)

(** ** Powers of two *)

Lemma pow2_pos (k : Z) : (0 < 2 ^ k)%Q.
Proof. apply Qpower_0_lt. reflexivity. Qed.

Lemma pow2_add (a b : Z) : (2 ^ (a + b) == 2 ^ a * 2 ^ b)%Q.
Proof. apply Qpower_plus. discriminate. Qed.

Lemma pow2_succ (k : Z) : (2 ^ (k + 1) == 2 * 2 ^ k)%Q.
Proof. rewrite pow2_add. change (2 ^ 1)%Q with 2%Q. ring. Qed.

Lemma pow2_pred (k : Z) : (2 * 2 ^ (k - 1) == 2 ^ k)%Q.
Proof.
  rewrite <- (pow2_succ (k - 1)). replace (k - 1 + 1) with k by lia.
  reflexivity.
Qed.

Lemma pow2_le (a b : Z) : a <= b -> (2 ^ a <= 2 ^ b)%Q.
Proof. intros H. apply Qpower_le_compat_l; [exact H | discriminate]. Qed.

Lemma pow2_lt (a b : Z) : a < b -> (2 ^ a < 2 ^ b)%Q.
Proof. intros H. apply Qpower_lt_compat_l; [exact H | reflexivity]. Qed.

Lemma pow2_lt_inv (a b : Z) : (2 ^ a < 2 ^ b)%Q -> a < b.
Proof. intros H. apply (Qpower_lt_compat_l_inv 2); [exact H | reflexivity]. Qed.

Lemma pow2_inject (k : Z) : 0 <= k -> (2 ^ k == inject_Z (2 ^ k))%Q.
Proof. intros H. symmetry. apply (Zpower_Qpower 2 k H). Qed.

Lemma pow2_sub (a b : Z) : (2 ^ (a - b) * 2 ^ b == 2 ^ a)%Q.
Proof. rewrite <- pow2_add. replace (a - b + b) with a by lia. reflexivity. Qed.

(** ** The binary logarithm of a positive rational *)

Lemma Qlog2_spec (q : Q) :
  (0 < q)%Q -> (2 ^ Qlog2 q <= q)%Q /\ (q < 2 ^ (Qlog2 q + 1))%Q.
Proof.
  intros Hq. destruct q as [n d].
  assert (Hn : 0 < n) by (unfold Qlt in Hq; cbn in Hq; lia).
  unfold Qlog2. cbn [Qnum Qden]. cbv zeta.
  set (a := Z.log2 n). set (b := Z.log2 (Z.pos d)).
  destruct (Z.log2_spec n Hn) as [Ha1 Ha2]. fold a in Ha1, Ha2.
  destruct (Z.log2_spec (Z.pos d) eq_refl) as [Hb1 Hb2]. fold b in Hb1, Hb2.
  assert (Ha0 : 0 <= a) by apply Z.log2_nonneg.
  assert (Hb0 : 0 <= b) by apply Z.log2_nonneg.
  assert (HA : (2 ^ a == inject_Z (2 ^ a))%Q) by (apply pow2_inject; lia).
  assert (HB : (2 ^ b == inject_Z (2 ^ b))%Q) by (apply pow2_inject; lia).
  assert (Hk := pow2_sub a b).
  assert (Hq' : ((n # d) * inject_Z (Z.pos d) == inject_Z n)%Q).
  { unfold Qeq, Qmult, inject_Z. cbn. lia. }
  assert (HPk := pow2_pos (a - b)). assert (HPb := pow2_pos b).
  assert (HPk1 := pow2_pos (a - b - 1)).
  assert (Hk1 := pow2_pred (a - b)).
  assert (Hks := pow2_succ (a - b)).
  assert (Hd : (0 < inject_Z (Z.pos d))%Q) by (unfold Qlt; cbn; lia).
  rewrite Z.pow_succ_r in Ha2, Hb2 by lia.
  rewrite Zle_Qle in Ha1, Hb1. rewrite Zlt_Qlt in Ha2, Hb2.
  rewrite inject_Z_mult in Ha2, Hb2.
  rewrite <- HA in Ha1, Ha2. rewrite <- HB in Hb1, Hb2.
  rewrite <- Hq' in Ha1, Ha2. rewrite <- Hk in Ha1, Ha2.
  remember (2 ^ (a - b))%Q as Q2k eqn:EQk. set (Q2b := (2 ^ b)%Q) in *.
  set (D := inject_Z (Z.pos d)) in *. set (x := n # d) in *.
  change (inject_Z 2) with 2%Q in *.
  clearbody Q2b D x. clear HA HB Hq' Hk.
  remember (2 ^ (a - b - 1))%Q as Q2k1 eqn:EQk1.
  assert (Hlow : (Q2k1 < x)%Q).
  { destruct (Qlt_le_dec Q2k1 x) as [|Hc]; [assumption|exfalso].
    assert ((x * D <= Q2k1 * D)%Q)
      by (apply Qmult_le_compat_r; [exact Hc | apply Qlt_le_weak, Hd]).
    assert ((Q2k1 * D < Q2k1 * (2 * Q2b))%Q)
      by (apply Qmult_lt_l; [exact HPk1 | exact Hb2]).
    assert ((Q2k1 * (2 * Q2b) == Q2k * Q2b)%Q) by (rewrite <- Hk1; ring).
    lra. }
  assert (Hhigh : (x < 2 * Q2k)%Q).
  { destruct (Qlt_le_dec x (2 * Q2k)) as [|Hc]; [assumption|exfalso].
    assert ((2 * Q2k * D <= x * D)%Q)
      by (apply Qmult_le_compat_r; [exact Hc | apply Qlt_le_weak, Hd]).
    assert ((2 * Q2k * Q2b <= 2 * Q2k * D)%Q).
    { apply Qmult_le_l; [lra | exact Hb1]. }
    lra. }
  destruct (Qle_bool Q2k x) eqn:E.
  - apply Qle_bool_iff in E. split; [rewrite <- EQk; exact E|].
    rewrite Hks. exact Hhigh.
  - assert (Hlt : (x < Q2k)%Q).
    { apply Qnot_le_lt. intros Hc. apply Qle_bool_iff in Hc. congruence. }
    split; [rewrite <- EQk1; apply Qlt_le_weak; exact Hlow|].
    replace (a - b - 1 + 1) with (a - b) by lia. rewrite <- EQk. exact Hlt.
Qed.

Lemma Qlog2_unique (q : Q) (k : Z) :
  (2 ^ k <= q)%Q -> (q < 2 ^ (k + 1))%Q -> Qlog2 q = k.
Proof.
  intros H1 H2.
  assert (Hq : (0 < q)%Q) by (eapply Qlt_le_trans; [apply (pow2_pos k)|exact H1]).
  destruct (Qlog2_spec q Hq) as [H3 H4].
  assert (k < Qlog2 q + 1).
  { apply pow2_lt_inv. eapply Qle_lt_trans; eassumption. }
  assert (Qlog2 q < k + 1).
  { apply pow2_lt_inv. eapply Qle_lt_trans; eassumption. }
  lia.
Qed.

Lemma Qlog2_comp (x y : Q) : (x == y)%Q -> (0 < x)%Q -> Qlog2 x = Qlog2 y.
Proof.
  intros E Hx. destruct (Qlog2_spec x Hx) as [H1 H2].
  symmetry. apply Qlog2_unique; rewrite <- E; assumption.
Qed.

Lemma Qlog2_le (x y : Q) : (0 < x)%Q -> (x <= y)%Q -> Qlog2 x <= Qlog2 y.
Proof.
  intros Hx Hxy.
  assert (Hy : (0 < y)%Q) by lra.
  destruct (Qlog2_spec x Hx) as [H1 _], (Qlog2_spec y Hy) as [_ H2].
  assert (Qlog2 x < Qlog2 y + 1); [|lia].
  apply pow2_lt_inv. lra.
Qed.


(** ** Rounding to the nearest integer, ties to even *)

Lemma round_half_even_cases (q : Q) :
  round_half_even q = Qfloor q \/ round_half_even q = Qfloor q + 1.
Proof.
  unfold round_half_even.
  destruct (q - inject_Z (Qfloor q) ?= 1 # 2)%Q; [destruct (Z.even _)| |]; auto.
Qed.

Lemma round_half_even_comp (x y : Q) :
  (x == y)%Q -> round_half_even x = round_half_even y.
Proof.
  intros E. unfold round_half_even.
  rewrite (Qfloor_comp _ _ E).
  assert (E' : (x - inject_Z (Qfloor y) == y - inject_Z (Qfloor y))%Q)
    by (rewrite E; reflexivity).
  rewrite (Qcompare_comp _ _ E' (1 # 2) (1 # 2) (Qeq_refl _)). reflexivity.
Qed.

Lemma round_half_even_Z (n : Z) : round_half_even (inject_Z n) = n.
Proof.
  unfold round_half_even. rewrite Qfloor_Z.
  assert (E : (inject_Z n - inject_Z n ?= 1 # 2)%Q = Lt).
  { apply (proj1 (Qlt_alt _ _)). lra. }
  rewrite E. reflexivity.
Qed.

Lemma round_half_even_le (x y : Q) :
  (x <= y)%Q -> round_half_even x <= round_half_even y.
Proof.
  intros Hxy.
  assert (Hf := Qfloor_resp_le _ _ Hxy).
  assert (Hx1 := Qfloor_le x). assert (Hx2 := Qlt_floor x).
  assert (Hy1 := Qfloor_le y). assert (Hy2 := Qlt_floor y).
  destruct (Z.eq_dec (Qfloor x) (Qfloor y)) as [E|N].
  - unfold round_half_even. rewrite <- E.
    destruct (Qcompare_spec (x - inject_Z (Qfloor x)) (1 # 2)) as [Hc|Hc|Hc];
      destruct (Qcompare_spec (y - inject_Z (Qfloor x)) (1 # 2)) as [Hd|Hd|Hd];
      cbv iota; try destruct (Z.even (Qfloor x)); try lia; exfalso; lra.
  - destruct (round_half_even_cases x) as [-> | ->],
             (round_half_even_cases y) as [-> | ->]; lia.
Qed.

Lemma round_half_even_lower (n : Z) (x : Q) :
  (inject_Z n <= x)%Q -> n <= round_half_even x.
Proof.
  intros H. rewrite <- (round_half_even_Z n). apply round_half_even_le, H.
Qed.

Lemma round_half_even_upper (n : Z) (x : Q) :
  (x <= inject_Z n)%Q -> round_half_even x <= n.
Proof.
  intros H. rewrite <- (round_half_even_Z n). apply round_half_even_le, H.
Qed.

(** ** The nearest double *)

Lemma nearest_pos_binade (q : Q) :
  nearest_pos q
  = (inject_Z (round_half_even (q / 2 ^ binade q)) * 2 ^ binade q)%Q.
Proof. reflexivity. Qed.

Lemma scale_le (x y : Q) (e : Z) : (x <= y)%Q -> (x / 2 ^ e <= y / 2 ^ e)%Q.
Proof.
  intros H. unfold Qdiv. apply Qmult_le_compat_r; [exact H|].
  apply Qlt_le_weak, Qinv_lt_0_compat, pow2_pos.
Qed.

Lemma scale_inv (x : Q) (e : Z) : (x / 2 ^ e * 2 ^ e == x)%Q.
Proof.
  field. intros H. pose proof (pow2_pos e) as P. rewrite H in P.
  discriminate P.
Qed.

Lemma scale_pow2 (a e : Z) : (2 ^ a / 2 ^ e == 2 ^ (a - e))%Q.
Proof. symmetry. apply Qpower_minus. discriminate. Qed.

Lemma nearest_pos_comp (x y : Q) :
  (x == y)%Q -> (0 < x)%Q -> (nearest_pos x == nearest_pos y)%Q.
Proof.
  intros E Hx. rewrite !nearest_pos_binade. unfold binade.
  rewrite <- (Qlog2_comp x y E Hx).
  set (e := Z.max (-1074) (Qlog2 x - 52)).
  assert (E' : (x / 2 ^ e == y / 2 ^ e)%Q) by (rewrite E; reflexivity).
  rewrite (round_half_even_comp _ _ E'). reflexivity.
Qed.

Lemma nearest_pos_nonneg (x : Q) : (0 < x)%Q -> (0 <= nearest_pos x)%Q.
Proof.
  intros Hx. rewrite nearest_pos_binade.
  apply Qmult_le_0_compat; [|apply Qlt_le_weak, pow2_pos].
  change 0%Q with (inject_Z 0). rewrite <- Zle_Qle.
  apply round_half_even_lower. change (inject_Z 0) with 0%Q.
  apply Qle_shift_div_l; [apply pow2_pos|]. lra.
Qed.

(** Below [2 ^ (e + 53)] the rounded value stays at or below it, and from
    [2 ^ (e + 52)] on, with [e] the binade, at or above it. *)
Lemma nearest_pos_upper (x : Q) :
  (0 < x)%Q -> (nearest_pos x <= 2 ^ (binade x + 53))%Q.
Proof.
  intros Hx. rewrite nearest_pos_binade. set (e := binade x).
  rewrite pow2_add, (Qmult_comm (2 ^ e) (2 ^ 53)).
  apply Qmult_le_compat_r; [|apply Qlt_le_weak, pow2_pos].
  rewrite (pow2_inject 53) by lia. rewrite <- Zle_Qle.
  apply round_half_even_upper. rewrite <- (pow2_inject 53) by lia.
  apply Qle_shift_div_r; [apply pow2_pos|].
  rewrite <- pow2_add.
  destruct (Qlog2_spec x Hx) as [_ H].
  apply Qlt_le_weak. eapply Qlt_le_trans; [exact H|].
  apply pow2_le. unfold e, binade. lia.
Qed.

Lemma nearest_pos_lower (x : Q) :
  (0 < x)%Q -> -1074 < binade x -> (2 ^ (binade x + 52) <= nearest_pos x)%Q.
Proof.
  intros Hx Hb. rewrite nearest_pos_binade. set (e := binade x).
  rewrite pow2_add, (Qmult_comm (2 ^ e) (2 ^ 52)).
  apply Qmult_le_compat_r; [|apply Qlt_le_weak, pow2_pos].
  rewrite (pow2_inject 52) by lia. rewrite <- Zle_Qle.
  apply round_half_even_lower. rewrite <- (pow2_inject 52) by lia.
  apply Qle_shift_div_l; [apply pow2_pos|].
  rewrite <- pow2_add.
  destruct (Qlog2_spec x Hx) as [H _].
  eapply Qle_trans; [|exact H].
  apply pow2_le. unfold e, binade in *. lia.
Qed.

Lemma nearest_pos_le (x y : Q) :
  (0 < x)%Q -> (x <= y)%Q -> (nearest_pos x <= nearest_pos y)%Q.
Proof.
  intros Hx Hxy. assert (Hy : (0 < y)%Q) by lra.
  assert (Hb : binade x <= binade y).
  { unfold binade. pose proof (Qlog2_le x y Hx Hxy). lia. }
  destruct (Z.eq_dec (binade x) (binade y)) as [E|N].
  - rewrite !nearest_pos_binade, E.
    apply Qmult_le_compat_r; [|apply Qlt_le_weak, pow2_pos].
    rewrite <- Zle_Qle. apply round_half_even_le, scale_le, Hxy.
  - eapply Qle_trans; [apply (nearest_pos_upper x Hx)|].
    eapply Qle_trans; [|apply (nearest_pos_lower y Hy)].
    + apply pow2_le. lia.
    + unfold binade in *. lia.
Qed.

(** A rational with at most 53 significant bits and exponent at least
    -1074 is a double: rounding leaves it as it is. *)
Lemma nearest_pos_exact (x : Q) (m e : Z) :
  0 < m < 2 ^ 53 -> -1074 <= e ->
  (x == inject_Z m * 2 ^ e)%Q -> (nearest_pos x == x)%Q.
Proof.
  intros Hm He E.
  assert (Hm' : (0 < inject_Z m)%Q) by (change 0%Q with (inject_Z 0); rewrite <- Zlt_Qlt; lia).
  assert (Hx : (0 < x)%Q).
  { rewrite E. apply Qmult_lt_0_compat; [exact Hm' | apply pow2_pos]. }
  assert (Hb : binade x <= e).
  { unfold binade. destruct (Qlog2_spec x Hx) as [H _].
    assert (Qlog2 x < e + 53); [|lia].
    apply pow2_lt_inv. eapply Qle_lt_trans; [exact H|].
    rewrite E, pow2_add, Qmult_comm.
    apply Qmult_lt_l; [apply pow2_pos|].
    rewrite (pow2_inject 53) by lia. rewrite <- Zlt_Qlt. lia. }
  rewrite nearest_pos_binade. set (b := binade x) in *.
  assert (Es : (x / 2 ^ b == inject_Z (m * 2 ^ (e - b)))%Q).
  { rewrite inject_Z_mult, <- (pow2_inject (e - b)) by lia.
    rewrite E. unfold Qdiv. rewrite <- Qmult_assoc.
    apply Qmult_comp; [reflexivity|]. apply scale_pow2. }
  rewrite (round_half_even_comp _ _ Es), round_half_even_Z.
  rewrite <- Es. apply scale_inv.
Qed.

Lemma nearest_0 : nearest 0 = 0%Q.
Proof. reflexivity. Qed.

Lemma nearest_comp (x y : Q) : (x == y)%Q -> nearest x = nearest y.
Proof.
  intros E. unfold nearest.
  rewrite (Qcompare_comp _ _ E 0%Q 0%Q (Qeq_refl 0%Q)).
  destruct (Qcompare_spec y 0%Q) as [H|H|H].
  - reflexivity.
  - apply Qred_complete.
    assert (E' : (- x == - y)%Q) by (rewrite E; reflexivity).
    rewrite (nearest_pos_comp _ _ E'); [reflexivity|lra].
  - apply Qred_complete. apply nearest_pos_comp; [exact E|lra].
Qed.

Lemma nearest_pos_of (x : Q) : (0 < x)%Q -> (nearest x == nearest_pos x)%Q.
Proof.
  intros H. unfold nearest. apply (proj1 (Qgt_alt _ _)) in H. rewrite H.
  apply Qred_correct.
Qed.

Lemma nearest_neg_of (x : Q) :
  (x < 0)%Q -> (nearest x == - nearest_pos (- x))%Q.
Proof.
  intros H. unfold nearest. apply (proj1 (Qlt_alt _ _)) in H. rewrite H.
  apply Qred_correct.
Qed.

Lemma nearest_zero_of (x : Q) : (x == 0)%Q -> nearest x = 0%Q.
Proof. intros H. rewrite (nearest_comp _ _ H). reflexivity. Qed.

Lemma nearest_opp (x : Q) : (nearest (- x) == - nearest x)%Q.
Proof.
  destruct (Q_dec x 0%Q) as [[H|H]|H].
  - rewrite (nearest_neg_of x H), (nearest_pos_of (- x)) by lra. ring.
  - rewrite (nearest_pos_of x H), (nearest_neg_of (- x)) by lra.
    rewrite (nearest_pos_comp (- - x) x); [reflexivity|ring|lra].
  - rewrite (nearest_zero_of x H), (nearest_zero_of (- x)); [reflexivity|].
    rewrite H. reflexivity.
Qed.

Lemma nearest_nonneg (x : Q) : (0 <= x)%Q -> (0 <= nearest x)%Q.
Proof.
  intros H. destruct (Qle_lt_or_eq _ _ H) as [P|E].
  - rewrite (nearest_pos_of x P). apply nearest_pos_nonneg, P.
  - rewrite (nearest_zero_of x); [apply Qle_refl | symmetry; exact E].
Qed.

Lemma nearest_nonpos (x : Q) : (x <= 0)%Q -> (nearest x <= 0)%Q.
Proof.
  intros H. assert (P := nearest_nonneg (- x)). rewrite nearest_opp in P.
  lra.
Qed.

(** Rounding is monotone. *)
Lemma nearest_le (x y : Q) : (x <= y)%Q -> (nearest x <= nearest y)%Q.
Proof.
  intros Hxy.
  destruct (Qlt_le_dec 0%Q x) as [Hx|Hx].
  - rewrite (nearest_pos_of x Hx), (nearest_pos_of y) by lra.
    apply nearest_pos_le; assumption.
  - destruct (Qlt_le_dec y 0%Q) as [Hy|Hy].
    + assert (Hx' : (x < 0)%Q) by lra.
      rewrite (nearest_neg_of x Hx'), (nearest_neg_of y Hy).
      apply Qopp_le_compat. apply nearest_pos_le; lra.
    + eapply Qle_trans; [apply nearest_nonpos, Hx | apply nearest_nonneg, Hy].
Qed.

Lemma nearest_exact (x : Q) (m e : Z) :
  Z.abs m < 2 ^ 53 -> -1074 <= e ->
  (x == inject_Z m * 2 ^ e)%Q -> (nearest x == x)%Q.
Proof.
  intros Hm He E.
  destruct (Z.lt_trichotomy m 0) as [Hn|[Hz|Hp]].
  - assert (Hx : (x < 0)%Q).
    { rewrite E. assert (P := pow2_pos e).
      assert ((inject_Z m < 0)%Q)
        by (change 0%Q with (inject_Z 0); rewrite <- Zlt_Qlt; lia).
      setoid_replace (inject_Z m * 2 ^ e)%Q
        with (- ((- inject_Z m) * 2 ^ e))%Q by ring.
      assert ((0 < - inject_Z m * 2 ^ e)%Q)
        by (apply Qmult_lt_0_compat; lra).
      lra. }
    rewrite (nearest_neg_of x Hx).
    rewrite (nearest_pos_exact (- x) (- m) e); [ring|lia|exact He|].
    rewrite E, inject_Z_opp. ring.
  - subst m. rewrite (nearest_zero_of x); rewrite E; ring.
  - assert (Hx : (0 < x)%Q).
    { rewrite E. apply Qmult_lt_0_compat; [|apply pow2_pos].
      change 0%Q with (inject_Z 0); rewrite <- Zlt_Qlt; lia. }
    rewrite (nearest_pos_of x Hx).
    apply (nearest_pos_exact x m e); [lia|exact He|exact E].
Qed.

(** ** Comparisons on rationals *)

Lemma Qlt_bool_iff (x y : Q) : Qlt_bool x y = true <-> (x < y)%Q.
Proof.
  unfold Qlt_bool. rewrite negb_true_iff. split.
  - intros H. apply Qnot_le_lt. intros Hle.
    apply Qle_bool_iff in Hle. congruence.
  - intros H. destruct (Qle_bool y x) eqn:E; [|reflexivity].
    apply Qle_bool_iff in E. exfalso. exact (Qlt_not_le _ _ H E).
Qed.

Lemma Qlt_bool_false (x y : Q) : Qlt_bool x y = false <-> (y <= x)%Q.
Proof.
  unfold Qlt_bool. rewrite negb_false_iff. apply Qle_bool_iff.
Qed.

Lemma Qle_bool_comp (x x' y y' : Q) :
  (x == x')%Q -> (y == y')%Q -> Qle_bool x y = Qle_bool x' y'.
Proof.
  intros Ex Ey. destruct (Qle_bool x y) eqn:E1, (Qle_bool x' y') eqn:E2;
    try reflexivity.
  - apply Qle_bool_iff in E1. rewrite Ex, Ey in E1.
    apply Qle_bool_iff in E1. congruence.
  - apply Qle_bool_iff in E2. rewrite <- Ex, <- Ey in E2.
    apply Qle_bool_iff in E2. congruence.
Qed.

Lemma Qlt_bool_comp (x x' y y' : Q) :
  (x == x')%Q -> (y == y')%Q -> Qlt_bool x y = Qlt_bool x' y'.
Proof.
  intros Ex Ey. unfold Qlt_bool. now rewrite (Qle_bool_comp y y' x x').
Qed.

Lemma Qlt_bool_Z (x y : Z) : Qlt_bool (inject_Z x) (inject_Z y) = (x <? y).
Proof.
  destruct (Z.ltb_spec x y) as [H|H].
  - apply Qlt_bool_iff. now rewrite <- Zlt_Qlt.
  - apply Qlt_bool_false. now rewrite <- Zle_Qle.
Qed.

Lemma Qle_bool_Z (x y : Z) : Qle_bool (inject_Z x) (inject_Z y) = (x <=? y).
Proof.
  destruct (Z.leb_spec x y) as [H|H].
  - apply Qle_bool_iff. now rewrite <- Zle_Qle.
  - destruct (Qle_bool _ _) eqn:E; [|reflexivity].
    apply Qle_bool_iff in E. rewrite <- Zle_Qle in E. lia.
Qed.

(** ** Doubles that are computed exactly *)

Lemma Qabs_Z (n : Z) : Qabs (inject_Z n) = inject_Z (Z.abs n).
Proof. destruct n; reflexivity. Qed.

Lemma too_large_comp (x y : Q) : (x == y)%Q -> too_large x = too_large y.
Proof.
  intros E. unfold too_large. apply Qle_bool_comp; [reflexivity|].
  now rewrite E.
Qed.

Lemma too_large_below (q : Q) (n : Z) :
  (Qabs q <= inject_Z n)%Q -> n < 2 ^ 1024 -> too_large q = false.
Proof.
  intros Hq Hn. unfold too_large.
  destruct (Qle_bool _ _) eqn:E; [exfalso|reflexivity].
  apply Qle_bool_iff in E.
  rewrite (pow2_inject 1024) in E by lia.
  assert (H : (inject_Z (2 ^ 1024) <= inject_Z n)%Q)
    by (eapply Qle_trans; eassumption).
  rewrite <- Zle_Qle in H. lia.
Qed.

(** A rational [n / 2 ^ k] with [|n| < 2 ^ 53] is a double. *)
Lemma nearest_dyadic (q : Q) (n k : Z) :
  Z.abs n < 2 ^ 53 -> 0 <= k <= 1074 ->
  (q == inject_Z n / 2 ^ k)%Q -> (nearest q == q)%Q.
Proof.
  intros Hn Hk E. apply (nearest_exact q n (- k)); [exact Hn|lia|].
  rewrite E, Qpower_opp. reflexivity.
Qed.

Lemma nearest_int (n : Z) :
  Z.abs n < 2 ^ 53 -> (nearest (inject_Z n) == inject_Z n)%Q.
Proof.
  intros Hn. apply (nearest_dyadic _ n 0); [exact Hn|lia|].
  change (2 ^ 0)%Q with 1%Q. field.
Qed.

(** Rounding does not carry a value across an integer it can represent. *)
Lemma nearest_above_int (x : Q) (n : Z) :
  Z.abs n < 2 ^ 53 -> (inject_Z n <= x)%Q -> (inject_Z n <= nearest x)%Q.
Proof.
  intros Hn H. rewrite <- (nearest_int n Hn). apply nearest_le, H.
Qed.

Lemma nearest_below_int (x : Q) (n : Z) :
  Z.abs n < 2 ^ 53 -> (x <= inject_Z n)%Q -> (nearest x <= inject_Z n)%Q.
Proof.
  intros Hn H. rewrite <- (nearest_int n Hn). apply nearest_le, H.
Qed.

Lemma nearest_abs_below (x : Q) (n : Z) :
  0 <= n < 2 ^ 53 -> (Qabs x <= inject_Z n)%Q ->
  (Qabs (nearest x) <= inject_Z n)%Q.
Proof.
  intros Hn H. apply Qabs_Qle_condition in H as [H1 H2].
  apply Qabs_Qle_condition. split.
  - rewrite <- inject_Z_opp. apply nearest_above_int; [lia|].
    now rewrite inject_Z_opp.
  - apply nearest_below_int; [lia|exact H2].
Qed.

Lemma is_finite_comp (x : float) (q q' : Q) :
  (q == q')%Q -> is_finite x q -> is_finite x q'.
Proof.
  intros E (r & -> & Er). exists r. split; [reflexivity|].
  now rewrite Er.
Qed.

Lemma dyadic_abs (q : Q) (n k : Z) :
  0 <= k -> (q == inject_Z n / 2 ^ k)%Q -> (Qabs q <= inject_Z (Z.abs n))%Q.
Proof.
  intros Hk E. rewrite E. unfold Qdiv. rewrite Qabs_Qmult, Qabs_Z.
  assert (P := pow2_pos k).
  assert (H1 : (1 <= 2 ^ k)%Q).
  { change 1%Q with (2 ^ 0)%Q. apply pow2_le, Hk. }
  rewrite (Qabs_pos (/ 2 ^ k)) by (apply Qlt_le_weak, Qinv_lt_0_compat, P).
  assert (H2 : (/ 2 ^ k <= 1)%Q).
  { apply Qle_shift_inv_r; [exact P|]. lra. }
  assert (H3 : (0 <= inject_Z (Z.abs n))%Q).
  { change 0%Q with (inject_Z 0). rewrite <- Zle_Qle. lia. }
  setoid_replace (inject_Z (Z.abs n)) with (1 * inject_Z (Z.abs n))%Q at 2
    by ring.
  rewrite (Qmult_comm (inject_Z (Z.abs n)) (/ 2 ^ k)).
  apply Qmult_le_compat_r; assumption.
Qed.

Lemma rounded_dyadic (q : Q) (n k : Z) :
  Z.abs n < 2 ^ 53 -> 0 <= k <= 1074 ->
  (q == inject_Z n / 2 ^ k)%Q -> is_finite (rounded q) q.
Proof.
  intros Hn Hk E. pose proof (nearest_dyadic q n k Hn Hk E) as Eq.
  unfold rounded. cbv zeta.
  rewrite (too_large_comp _ _ Eq).
  rewrite (too_large_below q (Z.abs n)).
  - exists (nearest q). split; [reflexivity|exact Eq].
  - apply (dyadic_abs q n k); [lia|exact E].
  - assert (2 ^ 53 < 2 ^ 1024) by (apply Z.pow_lt_mono_r; lia). lia.
Qed.

(** ** Operations on doubles whose exact result is a double *)

Lemma exact_int_finite (n : Z) : is_finite (exact_int n) (inject_Z n).
Proof. exists (inject_Z n). split; reflexivity. Qed.

Lemma flt_finite (x y : float) (qx qy : Q) :
  is_finite x qx -> is_finite y qy -> flt x y = Qlt_bool qx qy.
Proof.
  intros (rx & -> & Ex) (ry & -> & Ey). cbn [flt].
  now apply Qlt_bool_comp.
Qed.

Lemma fle_finite (x y : float) (qx qy : Q) :
  is_finite x qx -> is_finite y qy -> fle x y = Qle_bool qx qy.
Proof.
  intros (rx & -> & Ex) (ry & -> & Ey). cbn [fle].
  now apply Qle_bool_comp.
Qed.

Lemma fadd_finite (x y : float) (qx qy : Q) (n k : Z) :
  is_finite x qx -> is_finite y qy ->
  Z.abs n < 2 ^ 53 -> 0 <= k <= 1074 ->
  (qx + qy == inject_Z n / 2 ^ k)%Q ->
  is_finite (fadd x y) (qx + qy).
Proof.
  intros (rx & -> & Ex) (ry & -> & Ey) Hn Hk E. cbn [fadd].
  apply (is_finite_comp _ (rx + ry)); [now rewrite Ex, Ey|].
  apply (rounded_dyadic _ n k); [exact Hn|exact Hk|].
  now rewrite Ex, Ey.
Qed.

Lemma fsub_finite (x y : float) (qx qy : Q) (n k : Z) :
  is_finite x qx -> is_finite y qy ->
  Z.abs n < 2 ^ 53 -> 0 <= k <= 1074 ->
  (qx - qy == inject_Z n / 2 ^ k)%Q ->
  is_finite (fsub x y) (qx - qy).
Proof.
  intros (rx & -> & Ex) (ry & -> & Ey) Hn Hk E. cbn [fsub fopp fadd].
  apply (is_finite_comp _ (rx + - ry)); [rewrite Ex, Ey; reflexivity|].
  apply (rounded_dyadic _ n k); [exact Hn|exact Hk|].
  rewrite Ex, Ey. exact E.
Qed.

Lemma fmul_finite (x y : float) (qx qy : Q) (n k : Z) :
  is_finite x qx -> is_finite y qy ->
  Z.abs n < 2 ^ 53 -> 0 <= k <= 1074 ->
  (qx * qy == inject_Z n / 2 ^ k)%Q ->
  is_finite (fmul x y) (qx * qy).
Proof.
  intros (rx & -> & Ex) (ry & -> & Ey) Hn Hk E. cbn [fmul].
  apply (is_finite_comp _ (rx * ry)); [now rewrite Ex, Ey|].
  apply (rounded_dyadic _ n k); [exact Hn|exact Hk|].
  now rewrite Ex, Ey.
Qed.

Lemma fdiv_finite (x y : float) (qx qy : Q) (n k : Z) :
  is_finite x qx -> is_finite y qy ->
  Z.abs n < 2 ^ 53 -> 0 <= k <= 1074 ->
  (qx / qy == inject_Z n / 2 ^ k)%Q ->
  is_finite (fdiv x y) (qx / qy).
Proof.
  intros (rx & -> & Ex) (ry & -> & Ey) Hn Hk E. cbn [fdiv].
  apply (is_finite_comp _ (rx / ry)); [now rewrite Ex, Ey|].
  apply (rounded_dyadic _ n k); [exact Hn|exact Hk|].
  now rewrite Ex, Ey.
Qed.

Lemma fabs_finite (x : float) (q : Q) :
  is_finite x q -> is_finite (fabs x) (Qabs q).
Proof.
  intros (r & -> & E). exists (Qabs r). split; [reflexivity|].
  now rewrite E.
Qed.

Lemma float_of_int_finite (n : Z) :
  Z.abs n < 2 ^ 53 ->
  exists x, float_of_int n = Ok x /\ is_finite x (inject_Z n).
Proof.
  intros Hn. unfold float_of_int. cbv zeta.
  pose proof (nearest_int n Hn) as E.
  rewrite (too_large_comp _ _ E), (too_large_below _ (Z.abs n)).
  - eexists. split; [reflexivity|]. eexists. split; [reflexivity|exact E].
  - rewrite Qabs_Z. apply Qle_refl.
  - assert (2 ^ 53 < 2 ^ 1024) by (apply Z.pow_lt_mono_r; lia). lia.
Qed.

Lemma float_literal_finite (q : Q) (n k : Z) :
  Z.abs n < 2 ^ 53 -> 0 <= k <= 1074 ->
  (q == inject_Z n / 2 ^ k)%Q -> is_finite (float_literal q) q.
Proof.
  intros Hn Hk E. exists (nearest q). split; [reflexivity|].
  exact (nearest_dyadic q n k Hn Hk E).
Qed.

(** [x / 2] on a float *)
Lemma float_half_finite (x : float) (q : Q) (n k : Z) :
  is_finite x q ->
  Z.abs n < 2 ^ 53 -> 0 <= k <= 1074 ->
  (q / 2 == inject_Z n / 2 ^ k)%Q ->
  exists y, float_div_int x 2 = Ok y /\ is_finite y (q / 2).
Proof.
  intros Hx Hn Hk E. unfold float_div_int.
  destruct (float_of_int_finite 2) as (two & -> & Htwo); [cbn; lia|].
  cbn [bind]. unfold float_div.
  destruct Htwo as (r & -> & Er).
  assert (Qeq_bool r 0 = false) as ->.
  { destruct (Qeq_bool r 0) eqn:Z0; [exfalso|reflexivity].
    apply Qeq_bool_iff in Z0. rewrite Z0 in Er. discriminate Er. }
  eexists. split; [reflexivity|].
  apply (fdiv_finite x (Finite r) q (inject_Z 2) n k);
    [exact Hx|exists r; split; [reflexivity|exact Er]|exact Hn|exact Hk|exact E].
Qed.

Lemma int_mul_float_finite (a : Z) (x : float) (q : Q) (n k : Z) :
  Z.abs a < 2 ^ 53 -> is_finite x q ->
  Z.abs n < 2 ^ 53 -> 0 <= k <= 1074 ->
  (inject_Z a * q == inject_Z n / 2 ^ k)%Q ->
  exists y, int_mul_float a x = Ok y /\ is_finite y (inject_Z a * q).
Proof.
  intros Ha Hx Hn Hk E. unfold int_mul_float.
  destruct (float_of_int_finite a Ha) as (fa & -> & Hfa). cbn [bind].
  eexists. split; [reflexivity|].
  now apply (fmul_finite fa x (inject_Z a) q n k).
Qed.

Lemma float_mul_int_finite (x : float) (a : Z) (q : Q) (n k : Z) :
  Z.abs a < 2 ^ 53 -> is_finite x q ->
  Z.abs n < 2 ^ 53 -> 0 <= k <= 1074 ->
  (q * inject_Z a == inject_Z n / 2 ^ k)%Q ->
  exists y, float_mul_int x a = Ok y /\ is_finite y (q * inject_Z a).
Proof.
  intros Ha Hx Hn Hk E. unfold float_mul_int.
  destruct (float_of_int_finite a Ha) as (fa & -> & Hfa). cbn [bind].
  eexists. split; [reflexivity|].
  now apply (fmul_finite x fa q (inject_Z a) n k).
Qed.

Lemma int_add_float_finite (a : Z) (x : float) (q : Q) (n k : Z) :
  Z.abs a < 2 ^ 53 -> is_finite x q ->
  Z.abs n < 2 ^ 53 -> 0 <= k <= 1074 ->
  (inject_Z a + q == inject_Z n / 2 ^ k)%Q ->
  exists y, int_add_float a x = Ok y /\ is_finite y (inject_Z a + q).
Proof.
  intros Ha Hx Hn Hk E. unfold int_add_float.
  destruct (float_of_int_finite a Ha) as (fa & -> & Hfa). cbn [bind].
  eexists. split; [reflexivity|].
  now apply (fadd_finite fa x (inject_Z a) q n k).
Qed.

Lemma np_float64_finite (n : Z) :
  Z.abs n < 2 ^ 53 -> is_finite (np_float64 n) (inject_Z n).
Proof.
  intros Hn. apply (rounded_dyadic _ n 0); [exact Hn|lia|].
  change (2 ^ 0)%Q with 1%Q. field.
Qed.

(** ** True division of ints *)

Lemma Qabs_quotient (a b : Z) :
  b <> 0 -> (Qabs (inject_Z a / inject_Z b) <= inject_Z (Z.abs a))%Q.
Proof.
  intros Hb. unfold Qdiv. rewrite Qabs_Qmult, Qabs_Z.
  assert (H0 : (0 <= inject_Z (Z.abs a))%Q).
  { change 0%Q with (inject_Z 0). rewrite <- Zle_Qle. lia. }
  assert (H1 : (Qabs (/ inject_Z b) <= 1)%Q).
  { destruct b as [|p|p]; [congruence| |].
    - change (/ inject_Z (Z.pos p))%Q with (1 # p)%Q.
      unfold Qabs, Qle. cbn. lia.
    - change (/ inject_Z (Z.neg p))%Q with (-1 # p)%Q.
      unfold Qabs, Qle. cbn. lia. }
  setoid_replace (inject_Z (Z.abs a)) with (1 * inject_Z (Z.abs a))%Q at 2
    by ring.
  rewrite (Qmult_comm (inject_Z (Z.abs a))).
  apply Qmult_le_compat_r; assumption.
Qed.

(** The quotient of two ints, the dividend below [2 ^ 53] in magnitude,
    does not overflow. *)
Lemma py_div_bounded (a b : Z) :
  b <> 0 -> Z.abs a < 2 ^ 53 ->
  py_div a b = Ok (Finite (nearest (inject_Z a / inject_Z b))).
Proof.
  intros Hb Ha. unfold py_div.
  destruct (Z.eqb_spec b 0) as [|_]; [contradiction|]. cbv zeta.
  rewrite (too_large_below _ (Z.abs a)); [reflexivity| |].
  - apply nearest_abs_below; [lia|]. apply Qabs_quotient, Hb.
  - assert (2 ^ 53 < 2 ^ 1024) by (apply Z.pow_lt_mono_r; lia). lia.
Qed.

Lemma py_div_half (s : Z) :
  Z.abs s < 2 ^ 53 ->
  exists x, py_div s 2 = Ok x /\ is_finite x (inject_Z s / 2).
Proof.
  intros Hs. rewrite py_div_bounded by (lia || exact Hs).
  eexists. split; [reflexivity|]. eexists. split; [reflexivity|].
  apply (nearest_dyadic _ s 1); [exact Hs|lia|]. reflexivity.
Qed.

(** ** The three ratio tests on pixel coordinates

    Each test compares a rounded quotient or product of two ints with the
    double nearest to a decimal constant.  When the exact values differ,
    they differ by more than the rounding can bridge: a double lies between
    them. *)

Ltac Qdecide :=
  unfold Qlt, Qle, Qeq; vm_compute; first [reflexivity | discriminate].

(** [box_width / layout_width > 0.7] *)
Lemma ratio_above_07_pos (bw lw : Z) :
  0 < lw <= 2 ^ 45 ->
  Qlt_bool (nearest 0.7) (nearest (inject_Z bw / inject_Z lw))
  = (7 * lw <? 10 * bw).
Proof.
  intros Hlw.
  assert (Hpos : (0 < inject_Z lw)%Q)
    by (change 0%Q with (inject_Z 0); rewrite <- Zlt_Qlt; lia).
  destruct (Z.ltb_spec (7 * lw) (10 * bw)) as [H|H].
  - apply Qlt_bool_iff.
    set (r := (197032483697460 # 281474976710656)%Q).
    assert (Hr : (nearest r == r)%Q).
    { apply (nearest_dyadic r 197032483697460 48); [cbn; lia|lia|Qdecide]. }
    assert (H1 : (nearest 0.7 < r)%Q) by Qdecide.
    assert (H2 : (r <= inject_Z bw / inject_Z lw)%Q).
    { apply Qle_shift_div_l; [exact Hpos|].
      unfold r, Qle, Qmult, inject_Z. cbn [Qnum Qden]. lia. }
    eapply Qlt_le_trans; [exact H1|]. rewrite <- Hr. apply nearest_le, H2.
  - apply Qlt_bool_false. apply nearest_le.
    apply Qle_shift_div_r; [exact Hpos|].
    unfold Qle, Qmult, inject_Z. cbn [Qnum Qden]. lia.
Qed.

Lemma ratio_above_07 (bw lw : Z) :
  lw <> 0 -> Z.abs lw <= 2 ^ 45 ->
  Qlt_bool (nearest 0.7) (nearest (inject_Z bw / inject_Z lw))
  = if 0 <? lw then 7 * lw <? 10 * bw else 10 * bw <? 7 * lw.
Proof.
  intros Hnz Hlw. destruct (Z.ltb_spec 0 lw) as [Hp|Hn].
  - apply ratio_above_07_pos. lia.
  - assert (E : (inject_Z bw / inject_Z lw
                 == inject_Z (- bw) / inject_Z (- lw))%Q).
    { rewrite !inject_Z_opp. field. intros Hz.
      assert (Hq : (inject_Z lw == inject_Z 0)%Q) by exact Hz.
      rewrite inject_Z_injective in Hq. lia. }
    rewrite (nearest_comp _ _ E), ratio_above_07_pos by lia.
    destruct (Z.ltb_spec (7 * - lw) (10 * - bw)),
             (Z.ltb_spec (10 * bw) (7 * lw)); try reflexivity; lia.
Qed.

(** [overlap / shorter < 0.4] *)
Lemma ratio_below_04 (o s : Z) :
  0 < s <= 2 ^ 45 ->
  Qlt_bool (nearest (inject_Z o / inject_Z s)) (nearest 0.4)
  = (5 * o <? 2 * s).
Proof.
  intros Hs.
  assert (Hpos : (0 < inject_Z s)%Q)
    by (change 0%Q with (inject_Z 0); rewrite <- Zlt_Qlt; lia).
  destruct (Z.ltb_spec (5 * o) (2 * s)) as [H|H].
  - apply Qlt_bool_iff.
    set (r := (56294995342131 # 140737488355328)%Q).
    assert (Hr : (nearest r == r)%Q).
    { apply (nearest_dyadic r 56294995342131 47); [cbn; lia|lia|Qdecide]. }
    assert (H1 : (r < nearest 0.4)%Q) by Qdecide.
    assert (H2 : (inject_Z o / inject_Z s <= r)%Q).
    { apply Qle_shift_div_r; [exact Hpos|].
      unfold r, Qle, Qmult, inject_Z. cbn [Qnum Qden].
      lia. }
    eapply Qle_lt_trans; [|exact H1]. rewrite <- Hr. apply nearest_le, H2.
  - apply Qlt_bool_false. apply nearest_le.
    apply Qle_shift_div_l; [exact Hpos|].
    unfold Qle, Qmult, inject_Z. cbn [Qnum Qden]. lia.
Qed.

(** [height < layout_height * 0.3] *)
Lemma product_above_03 (h lh : Z) (r : Q) :
  0 < lh <= 2 ^ 45 -> Z.abs h <= 2 ^ 45 -> (r == inject_Z lh)%Q ->
  Qlt_bool (inject_Z h) (nearest (r * nearest 0.3)) = (10 * h <? 3 * lh).
Proof.
  intros Hlh Hh Er.
  assert (E : (r * nearest 0.3 == inject_Z lh * nearest 0.3)%Q)
    by now rewrite Er.
  rewrite (nearest_comp _ _ E).
  assert (Hpos : (0 < inject_Z lh)%Q)
    by (change 0%Q with (inject_Z 0); rewrite <- Zlt_Qlt; lia).
  assert (E03 : nearest 0.3 = (5404319552844595 # 18014398509481984)%Q)
    by (vm_compute; reflexivity).
  rewrite E03.
  assert (B : 2 ^ 45 = 35184372088832) by reflexivity.
  destruct (Z.ltb_spec (10 * h) (3 * lh)) as [H|H].
  - apply Qlt_bool_iff.
    set (t := (inject_Z (16 * h + 1) / 2 ^ 4)%Q).
    assert (Ht : (nearest t == t)%Q).
    { apply (nearest_dyadic t (16 * h + 1) 4); [|lia|reflexivity].
      assert (2 ^ 53 = 9007199254740992) by reflexivity. lia. }
    assert (H1 : (inject_Z h < t)%Q).
    { unfold t. change (2 ^ 4)%Q with 16%Q.
      apply Qlt_shift_div_l; [reflexivity|].
      unfold Qlt, Qmult, inject_Z. cbn [Qnum Qden]. lia. }
    assert (H2 : (t <= inject_Z lh * (5404319552844595 # 18014398509481984))%Q).
    { unfold t. change (2 ^ 4)%Q with 16%Q.
      apply Qle_shift_div_r; [reflexivity|].
      unfold Qle, Qmult, inject_Z. cbn [Qnum Qden]. lia. }
    eapply Qlt_le_trans; [exact H1|]. rewrite <- Ht. apply nearest_le, H2.
  - apply Qlt_bool_false. apply nearest_below_int.
    + assert (2 ^ 53 = 9007199254740992) by reflexivity. lia.
    + unfold Qle, Qmult, inject_Z. cbn [Qnum Qden]. lia.
Qed.

Lemma product_03_bounded (lh : Z) (r : Q) :
  0 < lh <= 2 ^ 45 -> (r == inject_Z lh)%Q ->
  too_large (nearest (r * nearest 0.3)) = false.
Proof.
  intros Hlh Er.
  assert (E : (r * nearest 0.3 == inject_Z lh * nearest 0.3)%Q)
    by now rewrite Er.
  rewrite (nearest_comp _ _ E).
  assert (E03 : nearest 0.3 = (5404319552844595 # 18014398509481984)%Q)
    by (vm_compute; reflexivity).
  rewrite E03.
  assert (B : 2 ^ 45 = 35184372088832) by reflexivity.
  assert (B53 : 2 ^ 53 = 9007199254740992) by reflexivity.
  apply (too_large_below _ lh).
  - apply nearest_abs_below; [lia|].
    apply Qabs_Qle_condition. split.
    + unfold Qle, Qmult, Qopp, inject_Z. cbn [Qnum Qden]. lia.
    + unfold Qle, Qmult, inject_Z. cbn [Qnum Qden]. lia.
  - assert (2 ^ 53 < 2 ^ 1024) by (apply Z.pow_lt_mono_r; lia). lia.
Qed.

(** * Properties of the exact program *)

Module ExactFacts.
Import Exact.

(** ** Basic facts about the top level *)

Lemma detect_two_columns_site_run (l : layout) :
  detect_two_columns_site l =
  (match bbox_layout l, bbox_text l with
   | Some ((_ :: _) as lb), Some ((_ :: _) as tbs) => classify lb tbs
   | _, _ => Ok MissingGeometry
   end, l).
Proof.
  unfold detect_two_columns_site, mbind, dict_get, pure, mret.
  destruct (bbox_layout l) as [[|? ?]|], (bbox_text l) as [[|? ?]|];
    reflexivity.
Qed.

Lemma detect_two_columns_run (l : layout) :
  detect_two_columns l =
  (match fst (detect_two_columns_site l) with
   | Ok s => Ok (verdict s)
   | Raise e => Raise e
   end, l).
Proof.
  unfold detect_two_columns, mbind, mret.
  rewrite detect_two_columns_site_run. cbn [fst].
  destruct (match bbox_layout l with Some _ => _ | None => _ end);
    reflexivity.
Qed.

Lemma unpack4_Ok (b : BBox) (t : Z * Z * Z * Z) :
  unpack4 b = Ok t ->
  exists x_start y_start x_end y_end,
    b = [x_start; y_start; x_end; y_end] /\ t = (x_start, y_start, x_end, y_end).
Proof.
  destruct b as [|a [|b0 [|c [|d [|? ?]]]]]; cbn; try discriminate.
  intros [= <-]. now exists a, b0, c, d.
Qed.

Lemma classify_too_small (x_start y_start x_end y_end : Z) (tbs : list BBox) :
  y_end - y_start < 300 \/ x_end - x_start < 200 ->
  classify [x_start; y_start; x_end; y_end] tbs = Ok LayoutTooSmall.
Proof.
  intros H. unfold classify, find_columns. cbn [unpack4 bind].
  unfold MIN_LAYOUT_HEIGHT_FOR_TWO_COLUMN.
  destruct (Z.ltb_spec (y_end - y_start) 300),
           (Z.ltb_spec (x_end - x_start) 200); cbn; try reflexivity; lia.
Qed.

(** ** The spanning-box filter *)

Lemma spanning_Ok_inv (text_bbox layout_bbox : BBox) (b : bool) :
  _is_likely_spanning_box text_bbox layout_bbox = Ok b ->
  length text_bbox = 4%nat /\ length layout_bbox = 4%nat.
Proof.
  unfold _is_likely_spanning_box.
  destruct (unpack4 text_bbox) as [t|e] eqn:Et; [|discriminate].
  destruct (unpack4 layout_bbox) as [u|e] eqn:Eu.
  - apply unpack4_Ok in Et as (? & ? & ? & ? & -> & _).
    apply unpack4_Ok in Eu as (? & ? & ? & ? & -> & _). now split.
  - cbn. destruct t as [[[? ?] ?] ?]. cbn. discriminate.
Qed.

Lemma non_spanning_boxes_wf (layout_bbox : BBox) (text_bboxes kept : list BBox) :
  non_spanning_boxes layout_bbox text_bboxes = Ok kept ->
  Forall (fun b => length b = 4%nat) kept
  /\ (length kept <= length text_bboxes)%nat
  /\ (text_bboxes <> [] -> length layout_bbox = 4%nat).
Proof.
  revert kept. induction text_bboxes as [|t tbs IH]; intros kept.
  - cbn. intros [= <-]. repeat split; auto. congruence.
  - cbn [non_spanning_boxes].
    destruct (_is_likely_spanning_box t layout_bbox) as [sp|e] eqn:Es;
      [|discriminate].
    apply spanning_Ok_inv in Es as [Ht Hl]. cbn [bind].
    destruct (non_spanning_boxes layout_bbox tbs) as [k|e]; [|discriminate].
    cbn [bind]. intros [= <-].
    destruct (IH k eq_refl) as (Hk & Hlen & _).
    destruct sp; repeat split; cbn; auto; lia.
Qed.

(** ** Reaching the column validation *)

Lemma find_columns_inr (lb : BBox) (tbs : list BBox) (c : columns) :
  find_columns lb tbs = Ok (inr c) ->
  exists x_start y_start x_end y_end non_spanning first others,
    lb = [x_start; y_start; x_end; y_end]
    /\ 300 <= y_end - y_start /\ 200 <= x_end - x_start
    /\ non_spanning_boxes lb tbs = Ok non_spanning
    /\ (4 <= length non_spanning)%nat
    /\ potential_gutters x_start (x_end - x_start) 0
         (py_sorted cx (centered_boxes non_spanning)) = first :: others
    /\ c = let sorted_boxes_by_cx :=
             py_sorted cx (centered_boxes non_spanning) in
           let split_idx :=
             split_index (max_from gap_width_centers first others) in
           mkColumns (map bbox (firstn (split_idx + 1) sorted_boxes_by_cx))
                     (map bbox (skipn (split_idx + 1) sorted_boxes_by_cx))
                     (y_end - y_start).
Proof.
  unfold find_columns.
  destruct (unpack4 lb) as [t|e] eqn:Eu; [|discriminate].
  apply unpack4_Ok in Eu as (xs & ys & xe & ye & -> & ->). cbn [bind].
  unfold MIN_LAYOUT_HEIGHT_FOR_TWO_COLUMN, MIN_BOXES_FOR_COLUMN_CONSIDERATION.
  destruct (Z.ltb_spec (ye - ys) 300); [discriminate|].
  destruct (Z.ltb_spec (xe - xs) 200); [discriminate|]. cbn [orb].
  destruct (non_spanning_boxes _ tbs) as [ns|e] eqn:En; [|discriminate].
  cbn [bind].
  destruct (Nat.ltb_spec (length ns) 4); [discriminate|].
  destruct (potential_gutters _ _ _ _) as [|first others] eqn:Ep;
    [discriminate|].
  intros [= <-]. exists xs, ys, xe, ye, ns, first, others.
  repeat split; auto.
Qed.

Lemma find_columns_few_boxes (lb : BBox) (tbs kept : list BBox) :
  non_spanning_boxes lb tbs = Ok kept ->
  (length kept < 4)%nat ->
  length lb = 4%nat ->
  exists s, find_columns lb tbs = Ok (inl s).
Proof.
  intros Hk Hlen Hlb.
  destruct lb as [|xs [|ys [|xe [|ye [|? ?]]]]]; try discriminate.
  unfold find_columns. cbn [unpack4 bind].
  destruct (_ || _); [eauto|]. rewrite Hk. cbn [bind].
  unfold MIN_BOXES_FOR_COLUMN_CONSIDERATION.
  destruct (Nat.ltb_spec (length kept) 4); [eauto|lia].
Qed.

Lemma find_columns_inl_verdict (lb : BBox) (tbs : list BBox) (s : site) :
  find_columns lb tbs = Ok (inl s) -> verdict s = false.
Proof.
  unfold find_columns.
  destruct (unpack4 lb) as [[[[xs ys] xe] ye]|e]; [|discriminate].
  cbn [bind]. destruct (_ || _); [now intros [= <-]|].
  destruct (non_spanning_boxes _ tbs) as [ns|e]; [|discriminate].
  cbn [bind]. destruct (_ <? _)%nat; [now intros [= <-]|].
  destruct (potential_gutters _ _ _ _); [now intros [= <-]|discriminate].
Qed.

Lemma reaches_validate (l : layout) (c : columns) :
  reaches l c ->
  fst (detect_two_columns_site l)
  = validate_columns (left_column_boxes c) (right_column_boxes c)
                     (layout_height c).
Proof.
  intros (lb & tbs & Hb & Ht & Hf).
  rewrite detect_two_columns_site_run, Hb, Ht. cbn [fst].
  pose proof Hf as Hf'.
  apply find_columns_inr in Hf'
    as (xs & ys & xe & ye & ns & g & gs & -> & _ & _ & Hns & Hlen & _).
  destruct (non_spanning_boxes_wf _ _ _ Hns) as (_ & Hle & _).
  destruct tbs as [|t tbs']; [cbn in Hle; lia|].
  unfold classify. now rewrite Hf.
Qed.

Lemma reaches_height (l : layout) (c : columns) :
  reaches l c -> 300 <= layout_height c.
Proof.
  intros (lb & tbs & _ & _ & Hf).
  apply find_columns_inr in Hf
    as (xs & ys & xe & ye & ns & g & gs & _ & Hh & _ & _ & _ & _ & ->).
  exact Hh.
Qed.

(** ** The vertical-overlap division *)

Lemma unpack4_Raise (b : BBox) (e : exn) :
  unpack4 b = Raise e -> e = ValueError.
Proof.
  destruct b as [|? [|? [|? [|? [|? ?]]]]]; cbn; congruence.
Qed.

Lemma spanning_Raise (text_bbox layout_bbox : BBox) (e : exn) :
  _is_likely_spanning_box text_bbox layout_bbox = Raise e -> e = ValueError.
Proof.
  unfold _is_likely_spanning_box.
  destruct (unpack4 text_bbox) as [[[[a ?] b] ?]|e'] eqn:Et; cbn [bind].
  2: { apply unpack4_Raise in Et. congruence. }
  destruct (unpack4 layout_bbox) as [[[[xs ?] xe] ?]|e'] eqn:El; cbn [bind].
  2: { apply unpack4_Raise in El. congruence. }
  unfold py_div. destruct (xe - xs =? 0); [discriminate|]. cbn [bind].
  destruct (Qlt_bool _ _); [discriminate|].
  destruct (_ <? _); discriminate.
Qed.

Lemma non_spanning_boxes_Raise (lb : BBox) (tbs : list BBox) (e : exn) :
  non_spanning_boxes lb tbs = Raise e -> e = ValueError.
Proof.
  induction tbs as [|t tbs IH]; cbn [non_spanning_boxes]; [discriminate|].
  destruct (_is_likely_spanning_box t lb) as [sp|e'] eqn:Es; cbn [bind].
  - destruct (non_spanning_boxes lb tbs) as [k|e'']; cbn [bind];
      [discriminate|]. intros [= <-]. now apply IH.
  - intros [= <-]. now apply spanning_Raise in Es.
Qed.

Lemma find_columns_Raise (lb : BBox) (tbs : list BBox) (e : exn) :
  find_columns lb tbs = Raise e -> e = ValueError.
Proof.
  unfold find_columns.
  destruct (unpack4 lb) as [[[[xs ys] xe] ye]|e'] eqn:Eu; cbn [bind].
  2: { apply unpack4_Raise in Eu. congruence. }
  destruct (_ || _); [discriminate|].
  destruct (non_spanning_boxes lb tbs) as [ns|e'] eqn:En; cbn [bind].
  2: { intros [= <-]. now apply non_spanning_boxes_Raise in En. }
  destruct (_ <? _)%nat; [discriminate|].
  destruct (potential_gutters _ _ _ _); discriminate.
Qed.

Lemma py_min_nonempty (l : list Z) : l <> [] -> exists m, py_min l = Ok m.
Proof. destruct l; [congruence|]. cbn. eauto. Qed.

Lemma py_max_nonempty (l : list Z) : l <> [] -> exists m, py_max l = Ok m.
Proof. destruct l; [congruence|]. cbn. eauto. Qed.

Lemma height_ratio_passes (height layout_height : Z) :
  Qlt_bool (inject_Z height)
           (inject_Z layout_height * MIN_COLUMN_HEIGHT_LAYOUT_RATIO) = false ->
  3 * layout_height <= 10 * height.
Proof.
  intros H. apply Qlt_bool_false in H.
  unfold Qle, MIN_COLUMN_HEIGHT_LAYOUT_RATIO in H. cbn in H. lia.
Qed.

(** What the vertical checks do on a layout at least 300 pixels high: both
    extents are computed, and either a column is too short or the shorter
    height is positive and the ratio test decides. *)
Lemma validate_vertical_cases (L R : list BBox) (H : Z) :
  300 <= H -> L <> [] -> R <> [] ->
  exists min_y_L max_y_L min_y_R max_y_R,
    py_min (map (fun b => item b 1) L) = Ok min_y_L
    /\ py_max (map (fun b => item b 3) L) = Ok max_y_L
    /\ py_min (map (fun b => item b 1) R) = Ok min_y_R
    /\ py_max (map (fun b => item b 3) R) = Ok max_y_R
    /\ let shorter_column_height :=
         Z.min (max_y_L - min_y_L) (max_y_R - min_y_R) in
       let vertical_overlap_amount :=
         Z.max 0 (Z.min max_y_L max_y_R - Z.max min_y_L min_y_R) in
       validate_vertical L R H = Ok ColumnTooShort
       \/ (0 < shorter_column_height
           /\ exists ratio,
               py_div vertical_overlap_amount shorter_column_height = Ok ratio
               /\ validate_vertical L R H
                  = Ok (if Qlt_bool ratio
                             MIN_VERTICAL_OVERLAP_RATIO_OF_SHORTER_COLUMN
                        then LowVerticalOverlap else AllChecksPassed)).
Proof.
  intros HH HL HR.
  destruct (py_min_nonempty (map (fun b => item b 1) L)) as [minL EminL].
  { destruct L; [congruence|discriminate]. }
  destruct (py_max_nonempty (map (fun b => item b 3) L)) as [maxL EmaxL].
  { destruct L; [congruence|discriminate]. }
  destruct (py_min_nonempty (map (fun b => item b 1) R)) as [minR EminR].
  { destruct R; [congruence|discriminate]. }
  destruct (py_max_nonempty (map (fun b => item b 3) R)) as [maxR EmaxR].
  { destruct R; [congruence|discriminate]. }
  exists minL, maxL, minR, maxR. repeat (split; [assumption|]). cbn zeta.
  unfold validate_vertical.
  destruct L as [|l0 L']; [congruence|]. destruct R as [|r0 R']; [congruence|].
  cbn [length Nat.eqb orb]. rewrite EminL, EmaxL, EminR, EmaxR. cbn [bind].
  destruct (Qlt_bool (inject_Z (maxL - minL)) _) eqn:E1; [now left|].
  destruct (Qlt_bool (inject_Z (maxR - minR)) _) eqn:E2; [now left|].
  cbn [orb]. apply height_ratio_passes in E1, E2. right.
  assert (Hpos : 0 < Z.min (maxL - minL) (maxR - minR)) by lia.
  split; [exact Hpos|].
  unfold py_div.
  destruct (Z.eqb_spec (Z.min (maxL - minL) (maxR - minR)) 0); [lia|].
  cbn [bind]. eexists. split; [reflexivity|].
  destruct (Qlt_bool _ _); reflexivity.
Qed.

Lemma validate_columns_cases (L R : list BBox) (H : Z) :
  300 <= H ->
  validate_columns L R H = Ok ColumnTooSmall
  \/ validate_columns L R H = Ok ColumnsOverlap
  \/ (L <> [] /\ R <> [] /\ validate_columns L R H = validate_vertical L R H).
Proof.
  intros HH. unfold validate_columns, MIN_BOXES_PER_DETECTED_COLUMN.
  destruct (Nat.ltb_spec (length L) 2); [now left|].
  destruct (Nat.ltb_spec (length R) 2); [now left|]. cbn [orb].
  destruct (Qlt_bool _ _); [now right; left|].
  right. right. repeat split; try reflexivity.
  - destruct L; cbn in *; [lia|discriminate].
  - destruct R; cbn in *; [lia|discriminate].
Qed.

(** ** Sorting and the choice of the gutter *)

Section Sorting.
Context {A : Type} (key : A -> Q).

Lemma insert_by_perm (x : A) (l : list A) :
  Permutation (x :: l) (insert_by key x l).
Proof.
  induction l as [|y l IH]; cbn; [reflexivity|].
  destruct (Qle_bool (key x) (key y)); [reflexivity|].
  rewrite perm_swap. now apply perm_skip.
Qed.

Lemma py_sorted_perm (l : list A) : Permutation l (py_sorted key l).
Proof.
  induction l as [|x l IH]; cbn; [reflexivity|].
  rewrite <- insert_by_perm. now apply perm_skip.
Qed.

Lemma insert_by_sorted (x : A) (l : list A) :
  StronglySorted (key_le key) l -> StronglySorted (key_le key) (insert_by key x l).
Proof.
  induction 1 as [|y l Hs IH Hall]; cbn.
  - repeat constructor.
  - destruct (Qle_bool (key x) (key y)) eqn:E.
    + apply Qle_bool_iff in E. constructor; [now constructor|].
      constructor; [exact E|].
      eapply Forall_impl; [|exact Hall].
      intros z Hz. unfold key_le in *. eapply Qle_trans; eassumption.
    + constructor; [exact IH|].
      apply (Permutation_Forall (insert_by_perm x l)).
      constructor; [|exact Hall].
      apply Qlt_le_weak, Qlt_bool_iff. unfold Qlt_bool. now rewrite E.
Qed.

Lemma py_sorted_sorted (l : list A) : StronglySorted (key_le key) (py_sorted key l).
Proof.
  induction l as [|x l IH]; cbn; [constructor|].
  now apply insert_by_sorted.
Qed.

(** [max_from] returns the first item of maximal key. *)
Lemma max_from_first (first : A) (others : list A) :
  exists before after,
    first :: others = before ++ max_from key first others :: after
    /\ Forall (fun x => (key x < key (max_from key first others))%Q) before
    /\ Forall (fun x => (key x <= key (max_from key first others))%Q) after.
Proof.
  revert first. induction others as [|x l IH]; intros b; cbn [max_from].
  - exists [], []. repeat split; constructor.
  - destruct (Qlt_bool (key b) (key x)) eqn:E.
    + destruct (IH x) as (pre & post & Heq & Hpre & Hpost).
      exists (b :: pre), post. split; [cbn; now rewrite Heq|].
      split; [|exact Hpost]. constructor; [|exact Hpre].
      apply Qlt_bool_iff in E.
      assert (Hx : (key x <= key (max_from key x l))%Q).
      { assert (Hin : In x (pre ++ max_from key x l :: post)).
        { rewrite <- Heq. now left. }
        apply in_app_or in Hin as [Hin | [Hx | Hin]].
        - apply Qlt_le_weak. exact (proj1 (Forall_forall _ _) Hpre _ Hin).
        - rewrite Hx. apply Qle_refl.
        - exact (proj1 (Forall_forall _ _) Hpost _ Hin). }
      eapply Qlt_le_trans; eassumption.
    + apply Qlt_bool_false in E.
      destruct (IH b) as (pre & post & Heq & Hpre & Hpost).
      destruct pre as [|p pre'].
      * cbn in Heq. injection Heq as Hb Hl.
        exists [], (x :: post). split; [cbn; congruence|].
        split; [constructor|]. constructor; [|exact Hpost].
        now rewrite <- Hb.
      * cbn in Heq. injection Heq as Hb Hl. subst p.
        exists (b :: x :: pre'), post. split; [cbn; congruence|].
        split; [|exact Hpost].
        inversion Hpre as [|? ? Hb' Hpre']; subst.
        constructor; [exact Hb'|]. constructor; [|exact Hpre'].
        eapply Qle_lt_trans; eassumption.
Qed.

Lemma max_from_In (first : A) (others : list A) :
  In (max_from key first others) (first :: others).
Proof.
  destruct (max_from_first first others) as (pre & post & -> & _).
  apply in_or_app. right. now left.
Qed.

Lemma max_from_max (first : A) (others : list A) (x : A) :
  In x (first :: others) -> (key x <= key (max_from key first others))%Q.
Proof.
  destruct (max_from_first first others) as (pre & post & -> & Hpre & Hpost).
  intros Hin. apply in_app_or in Hin as [Hin | [<- | Hin]].
  - apply Qlt_le_weak. exact (proj1 (Forall_forall _ _) Hpre _ Hin).
  - apply Qle_refl.
  - exact (proj1 (Forall_forall _ _) Hpost _ Hin).
Qed.
End Sorting.

Lemma potential_gutters_step (xs W : Z) (i : nat) (a b : centered)
    (rest : list centered) :
  potential_gutters xs W i (a :: b :: rest)
  = gap_between xs W i a b ++ potential_gutters xs W (S i) (b :: rest).
Proof. reflexivity. Qed.

Lemma gap_between_In (xs W : Z) (i : nat) (a b : centered) (g : gutter) :
  In g (gap_between xs W i a b) <->
  g = mkGutter ((cx a + cx b) / 2)%Q (cx b - cx a)%Q i
  /\ in_central_band xs W ((cx a + cx b) / 2)%Q
  /\ (0 < cx b - cx a)%Q.
Proof.
  unfold gap_between, in_central_band. cbn zeta.
  destruct (Qle_bool _ _) eqn:E1; cbn [andb].
  2: { split; [intros []|]. intros (_ & [H _] & _).
       apply Qle_bool_iff in H. congruence. }
  destruct (Qle_bool ((cx a + cx b) / 2) _) eqn:E2; cbn [andb].
  2: { split; [intros []|]. intros (_ & [_ H] & _).
       apply Qle_bool_iff in H. congruence. }
  destruct (Qlt_bool 0 _) eqn:E3.
  2: { split; [intros []|]. intros (_ & _ & H).
       apply Qlt_bool_iff in H. congruence. }
  apply Qle_bool_iff in E1, E2. apply Qlt_bool_iff in E3.
  split.
  - intros [<- | []]. auto.
  - intros (-> & _). now left.
Qed.




Lemma StronglySorted_middle {A} (R : A -> A -> Prop) (pre post : list A)
    (x : A) :
  StronglySorted R (pre ++ x :: post) ->
  Forall (fun y => R y x) pre /\ Forall (R x) post.
Proof.
  induction pre as [|p pre IH]; cbn; intros Hs.
  - apply StronglySorted_inv in Hs as [_ Hall]. split; [constructor|exact Hall].
  - apply StronglySorted_inv in Hs as [Hs Hall].
    destruct (IH Hs) as [H1 H2]. split; [|exact H2].
    constructor; [|exact H1].
    rewrite Forall_forall in Hall. apply Hall, in_or_app. right. now left.
Qed.


(** ** Sorted integers, medians and extrema *)

Lemma insert_Z_perm (x : Z) (l : list Z) : Permutation (x :: l) (insert_Z x l).
Proof.
  induction l as [|y l IH]; cbn; [reflexivity|].
  destruct (x <=? y); [reflexivity|].
  rewrite perm_swap. now apply perm_skip.
Qed.

Lemma sort_Z_perm (l : list Z) : Permutation l (sort_Z l).
Proof.
  induction l as [|x l IH]; cbn; [reflexivity|].
  rewrite <- insert_Z_perm. now apply perm_skip.
Qed.

Lemma insert_Z_sorted (x : Z) (l : list Z) :
  StronglySorted Z.le l -> StronglySorted Z.le (insert_Z x l).
Proof.
  induction 1 as [|y l Hs IH Hall]; cbn.
  - repeat constructor.
  - destruct (Z.leb_spec x y).
    + constructor; [now constructor|]. constructor; [assumption|].
      eapply Forall_impl; [|exact Hall]. cbn. intros; lia.
    + constructor; [exact IH|].
      apply (Permutation_Forall (insert_Z_perm x l)).
      constructor; [lia|exact Hall].
Qed.

Lemma sort_Z_sorted (l : list Z) : StronglySorted Z.le (sort_Z l).
Proof.
  induction l as [|x l IH]; cbn; [constructor|]. now apply insert_Z_sorted.
Qed.

Lemma sorted_Z_unique (l1 l2 : list Z) :
  StronglySorted Z.le l1 -> StronglySorted Z.le l2 ->
  Permutation l1 l2 -> l1 = l2.
Proof.
  intros H1. revert l2. induction H1 as [|x l1 Hs1 IH Hall1]; intros l2 H2 Hp.
  - apply Permutation_nil in Hp. now subst.
  - destruct H2 as [|y l2 Hs2 Hall2].
    + apply Permutation_sym, Permutation_nil in Hp. discriminate.
    + assert (Hxy : x = y).
      { assert (Hx : In x (y :: l2)).
        { apply (Permutation_in _ Hp). now left. }
        assert (Hy : In y (x :: l1)).
        { apply (Permutation_in _ (Permutation_sym Hp)). now left. }
        rewrite Forall_forall in Hall1, Hall2.
        destruct Hx as [Hx | Hx]; [now subst|].
        destruct Hy as [Hy | Hy]; [now subst|].
        specialize (Hall1 _ Hy). specialize (Hall2 _ Hx). lia. }
      subst y. f_equal. apply IH; [assumption|].
      now apply Permutation_cons_inv in Hp.
Qed.

Lemma sort_Z_Permutation (l1 l2 : list Z) :
  Permutation l1 l2 -> sort_Z l1 = sort_Z l2.
Proof.
  intros Hp. apply sorted_Z_unique; try apply sort_Z_sorted.
  now rewrite <- !sort_Z_perm.
Qed.

Lemma sort_Z_length (l : list Z) : length (sort_Z l) = length l.
Proof. symmetry. apply Permutation_length, sort_Z_perm. Qed.

Lemma StronglySorted_snoc {A} (R : A -> A -> Prop) (l : list A) (x : A) :
  StronglySorted R l -> Forall (fun y => R y x) l ->
  StronglySorted R (l ++ [x]).
Proof.
  induction 1 as [|y l Hs IH Hall]; cbn; intros Hx.
  - repeat constructor.
  - inversion Hx as [|? ? Hyx Hlx]; subst.
    constructor; [now apply IH|].
    apply Forall_app. split; [exact Hall|]. now constructor.
Qed.

Lemma inject_Z_sub (x y : Z) : inject_Z (x - y) = (inject_Z x - inject_Z y)%Q.
Proof.
  unfold Z.sub, Qminus. now rewrite inject_Z_plus, inject_Z_opp.
Qed.

(** Reflecting the data in a point reverses the sorted sequence. *)
Lemma sort_Z_reflect (t : Z) (l : list Z) :
  sort_Z (map (fun x => t - x) l) = rev (map (fun x => t - x) (sort_Z l)).
Proof.
  apply sorted_Z_unique.
  - apply sort_Z_sorted.
  - pose proof (sort_Z_sorted l) as Hs.
    induction Hs as [|y s Hs IH Hall]; cbn; [constructor|].
    apply StronglySorted_snoc; [exact IH|].
    apply Forall_rev, Forall_map.
    eapply Forall_impl; [|exact Hall]. cbn. intros; lia.
  - rewrite <- sort_Z_perm, <- Permutation_rev.
    apply Permutation_map, sort_Z_perm.
Qed.

Lemma np_median_Permutation (l1 l2 : list Z) :
  Permutation l1 l2 -> np_median l1 = np_median l2.
Proof.
  intros Hp. unfold np_median. now rewrite (sort_Z_Permutation l1 l2 Hp).
Qed.

Lemma np_median_reflect (t : Z) (l : list Z) :
  l <> [] ->
  (np_median (map (fun x => (t - x)%Z) l) == inject_Z t - np_median l)%Q.
Proof.
  intros Hne. unfold np_median. rewrite sort_Z_reflect.
  set (s := sort_Z l).
  assert (Hlen : length s = length l) by apply sort_Z_length.
  assert (Hpos : (0 < length s)%nat).
  { destruct l; [congruence|]. rewrite Hlen. cbn. lia. }
  rewrite length_rev, length_map.
  set (n := length s) in *.
  assert (Hnth : forall j, (j < n)%nat ->
            nth j (rev (map (fun x => t - x) s)) 0 = t - nth (n - 1 - j) s 0).
  { intros j Hj. rewrite rev_nth by (rewrite length_map; exact Hj).
    rewrite length_map. fold n.
    replace (n - S j)%nat with (n - 1 - j)%nat by lia.
    rewrite (nth_indep _ 0 (t - 0)) by (rewrite length_map; fold n; lia).
    apply (map_nth (fun x => t - x)). }
  pose proof (Nat.div_mod_eq n 2) as Hdiv.
  destruct (Nat.even n) eqn:Heven.
  - apply Nat.even_spec in Heven. destruct Heven as [k Hk].
    assert (Hhalf : (n / 2 = k)%nat).
    { rewrite Hk, Nat.mul_comm. apply Nat.div_mul. lia. }
    rewrite Hhalf in *.
    rewrite !Hnth by lia.
    replace (n - 1 - (k - 1))%nat with k by lia.
    replace (n - 1 - k)%nat with (k - 1)%nat by lia.
    rewrite !inject_Z_sub. field.
  - assert (Hodd : Nat.odd n = true).
    { unfold Nat.odd. now rewrite Heven. }
    apply Nat.odd_spec in Hodd. destruct Hodd as [k Hk].
    assert (Hhalf : (n / 2 = k)%nat).
    { rewrite Hk. rewrite Nat.mul_comm, Nat.div_add_l by lia. cbn. lia. }
    rewrite Hhalf in *.
    rewrite Hnth by lia.
    replace (n - 1 - k)%nat with k by lia.
    rewrite inject_Z_sub. reflexivity.
Qed.

Lemma fold_min_spec (l : list Z) (a : Z) :
  let m := fold_left Z.min l a in
  (m = a \/ In m l) /\ m <= a /\ Forall (Z.le m) l.
Proof.
  revert a. induction l as [|x l IH]; intros a; cbn.
  - repeat split; auto; lia.
  - destruct (IH (Z.min a x)) as (Hm & Hle & Hall); cbn in *.
    split; [|split; [lia|constructor; [lia|exact Hall]]].
    destruct Hm as [Hm | Hm]; [|auto]. lia.
Qed.

Lemma fold_max_spec (l : list Z) (a : Z) :
  let m := fold_left Z.max l a in
  (m = a \/ In m l) /\ a <= m /\ Forall (fun x => x <= m) l.
Proof.
  revert a. induction l as [|x l IH]; intros a; cbn.
  - repeat split; auto; lia.
  - destruct (IH (Z.max a x)) as (Hm & Hle & Hall); cbn in *.
    split; [|split; [lia|constructor; [lia|exact Hall]]].
    destruct Hm as [Hm | Hm]; [|auto]. lia.
Qed.

Lemma py_min_spec (l : list Z) (m : Z) :
  py_min l = Ok m -> In m l /\ Forall (Z.le m) l.
Proof.
  destruct l as [|x l]; [discriminate|]. cbn. intros [= <-].
  destruct (fold_min_spec l x) as ([Hm | Hm] & Hle & Hall); cbn in *.
  - split; [now left|]. constructor; [lia|exact Hall].
  - split; [now right|]. constructor; [lia|exact Hall].
Qed.

Lemma py_max_spec (l : list Z) (m : Z) :
  py_max l = Ok m -> In m l /\ Forall (fun x => x <= m) l.
Proof.
  destruct l as [|x l]; [discriminate|]. cbn. intros [= <-].
  destruct (fold_max_spec l x) as ([Hm | Hm] & Hle & Hall); cbn in *.
  - split; [now left|]. constructor; [lia|exact Hall].
  - split; [now right|]. constructor; [lia|exact Hall].
Qed.

Lemma py_min_Permutation (l1 l2 : list Z) :
  Permutation l1 l2 -> py_min l1 = py_min l2.
Proof.
  intros Hp.
  destruct (py_min l1) as [m1|e1] eqn:E1, (py_min l2) as [m2|e2] eqn:E2.
  - apply py_min_spec in E1 as [Hin1 Hall1], E2 as [Hin2 Hall2].
    rewrite Forall_forall in Hall1, Hall2.
    pose proof (Hall1 _ (Permutation_in _ (Permutation_sym Hp) Hin2)).
    pose proof (Hall2 _ (Permutation_in _ Hp Hin1)).
    f_equal. lia.
  - destruct l2; [|discriminate].
    apply Permutation_sym, Permutation_nil in Hp. subst. discriminate.
  - destruct l1; [|discriminate]. apply Permutation_nil in Hp. subst.
    discriminate.
  - destruct l1, l2; cbn in *; congruence.
Qed.

Lemma py_max_Permutation (l1 l2 : list Z) :
  Permutation l1 l2 -> py_max l1 = py_max l2.
Proof.
  intros Hp.
  destruct (py_max l1) as [m1|e1] eqn:E1, (py_max l2) as [m2|e2] eqn:E2.
  - apply py_max_spec in E1 as [Hin1 Hall1], E2 as [Hin2 Hall2].
    rewrite Forall_forall in Hall1, Hall2.
    pose proof (Hall1 _ (Permutation_in _ (Permutation_sym Hp) Hin2)).
    pose proof (Hall2 _ (Permutation_in _ Hp Hin1)).
    f_equal. lia.
  - destruct l2; [|discriminate].
    apply Permutation_sym, Permutation_nil in Hp. subst. discriminate.
  - destruct l1; [|discriminate]. apply Permutation_nil in Hp. subst.
    discriminate.
  - destruct l1, l2; cbn in *; congruence.
Qed.

Lemma mirror_box_layout (x_start y_start x_end y_end : Z) :
  mirror_box (x_start + x_end) [x_start; y_start; x_end; y_end]
  = [x_start; y_start; x_end; y_end].
Proof. cbn. f_equal; [lia|]. f_equal. f_equal. lia. Qed.

Lemma mirror_box_length (t : Z) (b : BBox) :
  length (mirror_box t b) = length b.
Proof. destruct b as [|? [|? [|? [|? [|? ?]]]]]; reflexivity. Qed.

Lemma mirror_box_y (t : Z) (b : BBox) :
  item (mirror_box t b) 1 = item b 1 /\ item (mirror_box t b) 3 = item b 3.
Proof. destruct b as [|? [|? [|? [|? [|? ?]]]]]; split; reflexivity. Qed.

Lemma mirror_box_x (t : Z) (b : BBox) :
  length b = 4%nat ->
  item (mirror_box t b) 0 = t - item b 2
  /\ item (mirror_box t b) 2 = t - item b 0.
Proof.
  destruct b as [|? [|? [|? [|? [|? ?]]]]]; try discriminate.
  split; reflexivity.
Qed.

Lemma mirror_box_involutive (t : Z) (b : BBox) :
  mirror_box t (mirror_box t b) = b.
Proof.
  destruct b as [|x0 [|y0 [|x1 [|y1 [|? ?]]]]]; try reflexivity.
  cbn. f_equal; [lia|]. f_equal. f_equal. lia.
Qed.

Lemma spanning_mirror (t : Z) (b lb : BBox) :
  _is_likely_spanning_box (mirror_box t b) lb = _is_likely_spanning_box b lb.
Proof.
  destruct b as [|x0 [|y0 [|x1 [|y1 [|? ?]]]]]; try reflexivity.
  unfold _is_likely_spanning_box. cbn [mirror_box unpack4 bind].
  destruct (unpack4 lb) as [[[[xs ys] xe] ye]|e]; cbn [bind]; [|reflexivity].
  now replace (t - x0 - (t - x1)) with (x1 - x0) by lia.
Qed.

Lemma non_spanning_mirror (t : Z) (lb : BBox) (tbs : list BBox) :
  non_spanning_boxes lb (map (mirror_box t) tbs)
  = (kept <- non_spanning_boxes lb tbs ;; Ok (map (mirror_box t) kept)).
Proof.
  induction tbs as [|b tbs IH]; [reflexivity|].
  cbn [map non_spanning_boxes]. rewrite spanning_mirror, IH.
  destruct (_is_likely_spanning_box b lb) as [sp|e]; cbn [bind]; [|reflexivity].
  destruct (non_spanning_boxes lb tbs) as [k|e]; cbn [bind]; [|reflexivity].
  destruct sp; reflexivity.
Qed.

(** *** The validation does not tell a column pair from its mirror image *)

Lemma validate_vertical_Permutation (L L' R R' : list BBox) (H : Z) :
  Permutation L L' -> Permutation R R' ->
  validate_vertical L R H = validate_vertical L' R' H.
Proof.
  intros HL HR. unfold validate_vertical.
  rewrite (Permutation_length HL), (Permutation_length HR).
  rewrite (py_min_Permutation _ _ (Permutation_map (fun b => item b 1) HL)).
  rewrite (py_max_Permutation _ _ (Permutation_map (fun b => item b 3) HL)).
  rewrite (py_min_Permutation _ _ (Permutation_map (fun b => item b 1) HR)).
  rewrite (py_max_Permutation _ _ (Permutation_map (fun b => item b 3) HR)).
  reflexivity.
Qed.

Lemma validate_vertical_swap (L R : list BBox) (H : Z) :
  validate_vertical R L H = validate_vertical L R H.
Proof.
  unfold validate_vertical.
  destruct L as [|l0 L']; [now rewrite orb_comm|].
  destruct R as [|r0 R']; [reflexivity|].
  cbn [length Nat.eqb orb].
  destruct (py_min_nonempty (map (fun b => item b 1) (l0 :: L')))
    as [minL ->]; [discriminate|].
  destruct (py_max_nonempty (map (fun b => item b 3) (l0 :: L')))
    as [maxL ->]; [discriminate|].
  destruct (py_min_nonempty (map (fun b => item b 1) (r0 :: R')))
    as [minR ->]; [discriminate|].
  destruct (py_max_nonempty (map (fun b => item b 3) (r0 :: R')))
    as [maxR ->]; [discriminate|].
  cbn [bind].
  rewrite (orb_comm (Qlt_bool (inject_Z (maxR - minR)) _)).
  rewrite (Z.min_comm (maxR - minR)), (Z.min_comm maxR), (Z.max_comm minR).
  reflexivity.
Qed.

Lemma validate_vertical_mirror (t : Z) (L R : list BBox) (H : Z) :
  validate_vertical (map (mirror_box t) L) (map (mirror_box t) R) H
  = validate_vertical L R H.
Proof.
  unfold validate_vertical. rewrite !length_map, !map_map.
  assert (E1 : forall l, map (fun b => item (mirror_box t b) 1) l
                         = map (fun b => item b 1) l).
  { intros l. apply map_ext. intros b. apply mirror_box_y. }
  assert (E3 : forall l, map (fun b => item (mirror_box t b) 3) l
                         = map (fun b => item b 3) l).
  { intros l. apply map_ext. intros b. apply mirror_box_y. }
  now rewrite !E1, !E3.
Qed.

Lemma Qlt_bool_compat (x x' y : Q) :
  (x == x')%Q -> Qlt_bool x y = Qlt_bool x' y.
Proof.
  intros Hx. unfold Qlt_bool. f_equal. now apply Qleb_comp.
Qed.

Lemma median_separation_mirror (t : Z) (L R : list BBox) :
  Forall (fun b => length b = 4%nat) L ->
  Forall (fun b => length b = 4%nat) R ->
  L <> [] -> R <> [] ->
  (median_separation (map (mirror_box t) R) (map (mirror_box t) L)
   == median_separation L R)%Q.
Proof.
  intros HL HR HLne HRne. unfold median_separation. rewrite !map_map.
  assert (E0 : map (fun b => item (mirror_box t b) 0) L
               = map (fun x => t - x) (map (fun b => item b 2) L)).
  { rewrite map_map. apply map_ext_in. intros b Hb.
    rewrite Forall_forall in HL. now apply mirror_box_x, HL. }
  assert (E2 : map (fun b => item (mirror_box t b) 2) R
               = map (fun x => t - x) (map (fun b => item b 0) R)).
  { rewrite map_map. apply map_ext_in. intros b Hb.
    rewrite Forall_forall in HR. now apply mirror_box_x, HR. }
  rewrite E0, E2, !np_median_reflect.
  - ring.
  - destruct R; [congruence|discriminate].
  - destruct L; [congruence|discriminate].
Qed.

Lemma validate_columns_mirror_swap (t : Z) (L R : list BBox) (H : Z) :
  Forall (fun b => length b = 4%nat) L ->
  Forall (fun b => length b = 4%nat) R ->
  validate_columns (map (mirror_box t) R) (map (mirror_box t) L) H
  = validate_columns L R H.
Proof.
  intros HL HR. unfold validate_columns, MIN_BOXES_PER_DETECTED_COLUMN.
  rewrite !length_map.
  rewrite (orb_comm (length R <? 2)%nat).
  destruct (Nat.ltb_spec (length L) 2); [reflexivity|].
  destruct (Nat.ltb_spec (length R) 2); [reflexivity|]. cbn [orb].
  assert (HLne : L <> []) by (destruct L; cbn in *; [lia|discriminate]).
  assert (HRne : R <> []) by (destruct R; cbn in *; [lia|discriminate]).
  rewrite (Qlt_bool_compat _ _ _
             (median_separation_mirror t L R HL HR HLne HRne)).
  now rewrite validate_vertical_mirror, validate_vertical_swap.
Qed.

Lemma validate_columns_Permutation (L L' R R' : list BBox) (H : Z) :
  Permutation L L' -> Permutation R R' ->
  validate_columns L R H = validate_columns L' R' H.
Proof.
  intros HL HR. unfold validate_columns, median_separation.
  rewrite (Permutation_length HL), (Permutation_length HR).
  rewrite (np_median_Permutation _ _ (Permutation_map (fun b => item b 2) HL)).
  rewrite (np_median_Permutation _ _ (Permutation_map (fun b => item b 0) HR)).
  now rewrite (validate_vertical_Permutation L L' R R' H HL HR).
Qed.

Lemma half_le (x y : Z) : (inject_Z x / 2 <= inject_Z y / 2)%Q <-> x <= y.
Proof. unfold Qle. cbn -[Z.mul Z.add]. lia. Qed.

Lemma half_gap_pos (x y : Z) :
  (0 < inject_Z y / 2 - inject_Z x / 2)%Q <-> x < y.
Proof. unfold Qlt. cbn -[Z.mul Z.add]. lia. Qed.

Lemma half_gap (x y : Z) :
  (inject_Z y / 2 - inject_Z x / 2 == inject_Z (y - x) / 2)%Q.
Proof. unfold Qeq. cbn -[Z.mul Z.add Z.sub]. lia. Qed.

Lemma half_band (xs W x y : Z) :
  in_central_band xs W ((inject_Z x / 2 + inject_Z y / 2) / 2)%Q
  <-> 4 * xs + W <= x + y <= 4 * xs + 3 * W.
Proof.
  unfold in_central_band, GUTTER_SEARCH_RANGE_LAYOUT_RATIO, Qle.
  cbn -[Z.mul Z.add]. lia.
Qed.

Lemma centered_boxes_ok (ns : list BBox) : Forall centred_ok (centered_boxes ns).
Proof.
  unfold centered_boxes. apply Forall_map, Forall_forall.
  intros b _. reflexivity.
Qed.

Lemma centered_boxes_bbox (ns : list BBox) : map bbox (centered_boxes ns) = ns.
Proof.
  unfold centered_boxes. rewrite map_map. cbn. apply map_id.
Qed.

Lemma StronglySorted_weaken {A} (R R' : A -> A -> Prop) (P : A -> Prop)
    (l : list A) :
  (forall a b, P a -> P b -> R a b -> R' a b) ->
  Forall P l -> StronglySorted R l -> StronglySorted R' l.
Proof.
  intros HR HP Hs. induction Hs as [|x l Hs IH Hall]; [constructor|].
  inversion HP as [|? ? Hx Hl]; subst.
  constructor; [now apply IH|].
  rewrite Forall_forall in *. intros y Hy. apply HR; auto.
Qed.

Lemma py_sorted_kc (cs : list centered) :
  Forall centred_ok cs ->
  StronglySorted (fun a b => kc a <= kc b) (py_sorted cx cs).
Proof.
  intros Hok.
  apply (StronglySorted_weaken (key_le cx) _ centred_ok).
  - intros a b Ha Hb. unfold key_le. rewrite Ha, Hb.
    exact (proj1 (half_le _ _)).
  - now apply (Permutation_Forall (py_sorted_perm cx cs)).
  - apply py_sorted_sorted.
Qed.

Section Thresholds.
Context {A : Type} (k : A -> Z).

Lemma filter_all (f : A -> bool) (l : list A) :
  Forall (fun x => f x = true) l -> filter f l = l.
Proof.
  induction 1 as [|x l Hx _ IH]; cbn; [reflexivity|]. now rewrite Hx, IH.
Qed.

Lemma filter_none (f : A -> bool) (l : list A) :
  Forall (fun x => f x = false) l -> filter f l = [].
Proof.
  induction 1 as [|x l Hx _ IH]; cbn; [reflexivity|]. now rewrite Hx, IH.
Qed.

Lemma filter_Permutation (f : A -> bool) (l l' : list A) :
  Permutation l l' -> Permutation (filter f l) (filter f l').
Proof.
  induction 1 as [|x l l' _ IH|x y l|l l' l'' _ IH1 _ IH2]; cbn.
  - constructor.
  - destruct (f x); [now constructor|exact IH].
  - destruct (f x), (f y); try reflexivity. apply perm_swap.
  - now rewrite IH1.
Qed.

Lemma filter_map_comm {B} (g : B -> A) (f : A -> bool) (l : list B) :
  filter f (map g l) = map g (filter (fun x => f (g x)) l).
Proof.
  induction l as [|x l IH]; cbn; [reflexivity|].
  destruct (f (g x)); cbn; now rewrite IH.
Qed.

(** In a sorted sequence the two sides of a strict gap are what a threshold
    on the key selects. *)
Lemma sorted_gap_sides (l1 l2 : list A) (a b : A) :
  StronglySorted (fun x y => k x <= k y) (l1 ++ a :: b :: l2) ->
  k a < k b ->
  let s := l1 ++ a :: b :: l2 in
  firstn (length l1 + 1) s = filter (fun c => k c <=? k a) s
  /\ skipn (length l1 + 1) s = filter (fun c => k b <=? k c) s
  /\ (forall c, In c s -> k c <= k a \/ k b <= k c).
Proof.
  intros Hs Hab. cbn zeta.
  pose proof (StronglySorted_middle _ _ _ _ Hs) as [Hl1 Ha].
  assert (Hs' : StronglySorted (fun x y => k x <= k y)
                               ((l1 ++ [a]) ++ b :: l2)).
  { now rewrite <- app_assoc. }
  pose proof (StronglySorted_middle _ _ _ _ Hs') as [Hb Hl2].
  inversion Ha as [|? ? _ Hal2]; subst.
  apply Forall_app in Hb as [Hbl1 _].
  assert (E : l1 ++ a :: b :: l2 = (l1 ++ [a]) ++ b :: l2).
  { now rewrite <- app_assoc. }
  split; [|split].
  - rewrite E at 1. rewrite firstn_app.
    replace (length l1 + 1)%nat with (length (l1 ++ [a]))
      by (rewrite length_app; reflexivity).
    rewrite firstn_all, Nat.sub_diag. cbn [firstn]. rewrite app_nil_r.
    rewrite filter_app. cbn [filter].
    rewrite (filter_all _ l1).
    2: { eapply Forall_impl; [|exact Hl1]. cbn. intros c Hc.
         now apply Z.leb_le. }
    rewrite Z.leb_refl.
    destruct (Z.leb_spec (k b) (k a)); [lia|].
    rewrite (filter_none _ l2); [reflexivity|].
    eapply Forall_impl; [|exact Hl2]. cbn. intros c Hc.
    apply Z.leb_gt. lia.
  - rewrite E at 1. rewrite skipn_app.
    replace (length l1 + 1)%nat with (length (l1 ++ [a]))
      by (rewrite length_app; reflexivity).
    rewrite skipn_all, Nat.sub_diag. cbn [skipn app].
    rewrite filter_app. cbn [filter].
    rewrite (filter_none _ l1).
    2: { eapply Forall_impl; [|exact Hl1]. cbn. intros c Hc.
         apply Z.leb_gt. lia. }
    destruct (Z.leb_spec (k b) (k a)); [lia|].
    rewrite Z.leb_refl. cbn [app]. f_equal.
    symmetry. apply filter_all.
    eapply Forall_impl; [|exact Hl2]. cbn. intros c Hc. now apply Z.leb_le.
  - rewrite Forall_forall in Hl1, Hl2. intros c Hc.
    apply in_app_or in Hc as [Hc | [<- | [<- | Hc]]]; auto; try lia.
Qed.

(** Conversely, two keys of a sorted sequence with no key strictly between
    them are the keys of two neighbours. *)
Lemma sorted_gap_neighbours (s : list A) (p q : Z) :
  StronglySorted (fun x y => k x <= k y) s ->
  p < q ->
  (exists a, In a s /\ k a = p) ->
  (exists b, In b s /\ k b = q) ->
  (forall c, In c s -> k c <= p \/ q <= k c) ->
  exists l1 a b l2, s = l1 ++ a :: b :: l2 /\ k a = p /\ k b = q.
Proof.
  intros Hs Hpq. induction Hs as [|x s Hs IH Hall];
    intros (a & Ha & Hka) (b & Hb & Hkb) Hgap; [destruct Ha|].
  rewrite Forall_forall in Hall.
  assert (Hx : k x <= p).
  { destruct (Hgap x (or_introl eq_refl)) as [H | H]; [exact H|].
    destruct Ha as [<- | Ha]; [lia|]. specialize (Hall a Ha). lia. }
  assert (Hb' : In b s).
  { destruct Hb as [<- | Hb]; [lia|exact Hb]. }
  destruct s as [|y s1]; [destruct Hb'|].
  destruct (Hgap y (or_intror (or_introl eq_refl))) as [Hy | Hy].
  - destruct IH as (l1 & a' & b' & l2 & E & Hka' & Hkb').
    + destruct Ha as [<- | Ha]; [|now exists a].
      exists y. split; [now left|].
      specialize (Hall y (or_introl eq_refl)). lia.
    + now exists b.
    + intros c Hc. apply Hgap. now right.
    + exists (x :: l1), a', b', l2. cbn. now rewrite E.
  - exists [], x, y, s1. split; [reflexivity|]. split.
    + destruct Ha as [<- | Ha]; [exact Hka|].
      apply StronglySorted_inv in Hs as [_ Hys].
      rewrite Forall_forall in Hys.
      destruct Ha as [<- | Ha]; [lia|]. specialize (Hys a Ha). lia.
    + apply StronglySorted_inv in Hs as [_ Hys].
      rewrite Forall_forall in Hys.
      destruct Hb' as [<- | Hb']; [exact Hkb|].
      specialize (Hys b Hb'). lia.
Qed.
End Thresholds.

(** ** Candidates as neighbouring pairs *)

Lemma potential_gutters_split (xs W : Z) (i : nat) (s : list centered)
    (g : gutter) :
  In g (potential_gutters xs W i s) ->
  exists l1 a b l2,
    s = l1 ++ a :: b :: l2
    /\ split_index g = (i + length l1)%nat
    /\ gap_width_centers g = (cx b - cx a)%Q
    /\ in_central_band xs W ((cx a + cx b) / 2)%Q
    /\ (0 < cx b - cx a)%Q.
Proof.
  revert i. induction s as [|a s IH]; intros i; [intros []|].
  destruct s as [|b rest]; [intros []|].
  rewrite potential_gutters_step. intros Hin.
  apply in_app_or in Hin as [Hin | Hin].
  - apply gap_between_In in Hin as (-> & Hband & Hpos).
    exists [], a, b, rest. cbn. repeat split; auto; try lia; apply Hband.
  - destruct (IH (S i) Hin) as (l1 & a' & b' & l2 & E & Hi & Hw & Hband & Hpos).
    exists (a :: l1), a', b', l2. cbn [app length]. rewrite E.
    repeat split; auto; try lia; apply Hband.
Qed.

Lemma potential_gutters_intro (xs W : Z) (i : nat) (l1 l2 : list centered)
    (a b : centered) :
  in_central_band xs W ((cx a + cx b) / 2)%Q ->
  (0 < cx b - cx a)%Q ->
  In (mkGutter ((cx a + cx b) / 2)%Q (cx b - cx a)%Q (i + length l1))
     (potential_gutters xs W i (l1 ++ a :: b :: l2)).
Proof.
  intros Hband Hpos. revert i. induction l1 as [|x l1 IH]; intros i.
  - cbn [app length]. rewrite potential_gutters_step, Nat.add_0_r.
    apply in_or_app. left. apply gap_between_In. auto.
  - assert (E : exists y rest, l1 ++ a :: b :: l2 = y :: rest).
    { destruct l1; cbn; eauto. }
    destruct E as (y & rest & E). cbn [app]. rewrite E.
    rewrite potential_gutters_step, <- E.
    apply in_or_app. right. cbn [length].
    replace (i + S (length l1))%nat with (S i + length l1)%nat by lia.
    apply IH.
Qed.

(** ** The candidates of the mirror image *)

Lemma centered_boxes_mirror (t : Z) (ns : list BBox) :
  centered_boxes (map (mirror_box t) ns)
  = map (mirror_centered t) (centered_boxes ns).
Proof. unfold centered_boxes. rewrite !map_map. reflexivity. Qed.

Lemma kc_mirror (t : Z) (c : centered) :
  length (bbox c) = 4%nat -> kc (mirror_centered t c) = 2 * t - kc c.
Proof.
  intros H. unfold kc, key2. cbn [bbox mirror_centered].
  destruct (mirror_box_x t (bbox c) H) as [-> ->]. lia.
Qed.

Lemma mirror_centered_ok (t : Z) (c : centered) :
  centred_ok (mirror_centered t c).
Proof. reflexivity. Qed.

Lemma mirror_centered_involutive (t : Z) (c : centered) :
  centred_ok c -> mirror_centered t (mirror_centered t c) = c.
Proof.
  destruct c as [x b]. unfold centred_ok, kc, mirror_centered. cbn [cx bbox].
  intros ->. now rewrite mirror_box_involutive.
Qed.

(** Every candidate of a layout has a counterpart of the same width among
    the candidates of the mirror image, and the counterpart's left column is
    the mirror image of the right column, and conversely, up to the order of
    the boxes. *)
Lemma mirrored_candidate (t xs W : Z) (cs : list centered) (g : gutter) :
  t = 2 * xs + W ->
  Forall centred_ok cs ->
  Forall (fun c => length (bbox c) = 4%nat) cs ->
  let s := py_sorted cx cs in
  let s' := py_sorted cx (map (mirror_centered t) cs) in
  In g (potential_gutters xs W 0 s) ->
  exists g',
    In g' (potential_gutters xs W 0 s')
    /\ (gap_width_centers g' == gap_width_centers g)%Q
    /\ Permutation (map bbox (firstn (split_index g' + 1) s'))
         (map (mirror_box t) (map bbox (skipn (split_index g + 1) s)))
    /\ Permutation (map bbox (skipn (split_index g' + 1) s'))
         (map (mirror_box t) (map bbox (firstn (split_index g + 1) s))).
Proof.
  intros Ht Hok Hlen s s' Hg.
  pose proof (py_sorted_perm cx cs) as Hperm. fold s in Hperm.
  pose proof (py_sorted_perm cx (map (mirror_centered t) cs)) as Hperm'.
  fold s' in Hperm'.
  pose proof (py_sorted_kc cs Hok) as Hsorted. fold s in Hsorted.
  assert (Hok' : Forall centred_ok (map (mirror_centered t) cs)).
  { apply Forall_map, Forall_forall. intros c _. apply mirror_centered_ok. }
  pose proof (py_sorted_kc _ Hok') as Hsorted'. fold s' in Hsorted'.
  assert (Hoks : Forall centred_ok s) by now apply (Permutation_Forall Hperm).
  assert (Hoks' : Forall centred_ok s')
    by now apply (Permutation_Forall Hperm').
  rewrite Forall_forall in Hoks, Hoks', Hlen.
  apply potential_gutters_split in Hg
    as (l1 & a & b & l2 & Es & Hi & Hw & Hband & Hpos).
  cbn [Nat.add] in Hi.
  assert (Ha : In a s) by (rewrite Es; apply in_or_app; right; now left).
  assert (Hb : In b s)
    by (rewrite Es; apply in_or_app; right; right; now left).
  pose proof (Hoks a Ha) as Hoka. pose proof (Hoks b Hb) as Hokb.
  assert (Hab : kc a < kc b).
  { rewrite Hoka, Hokb in Hpos. exact (proj1 (half_gap_pos _ _) Hpos). }
  assert (Hbandz : 4 * xs + W <= kc a + kc b <= 4 * xs + 3 * W).
  { rewrite Hoka, Hokb in Hband. exact (proj1 (half_band _ _ _ _) Hband). }
  rewrite Es in Hsorted.
  destruct (sorted_gap_sides kc l1 l2 a b Hsorted Hab)
    as (Hfirst & Hskip & Hgap).
  rewrite <- Es in Hfirst, Hskip, Hgap.
  assert (Hmir : forall c, In c cs ->
            In (mirror_centered t c) s'
            /\ kc (mirror_centered t c) = 2 * t - kc c).
  { intros c Hc. split; [|apply kc_mirror, Hlen, Hc].
    apply (Permutation_in _ Hperm'). now apply in_map. }
  assert (Hcs : forall c, In c s -> In c cs).
  { intros c Hc. now apply (Permutation_in _ (Permutation_sym Hperm)). }
  destruct (sorted_gap_neighbours kc s' (2 * t - kc b) (2 * t - kc a))
    as (l1' & a' & b' & l2' & Es' & Hka' & Hkb').
  { exact Hsorted'. }
  { lia. }
  { exists (mirror_centered t b). exact (Hmir b (Hcs b Hb)). }
  { exists (mirror_centered t a). exact (Hmir a (Hcs a Ha)). }
  { intros c' Hc'.
    apply (Permutation_in _ (Permutation_sym Hperm')) in Hc'.
    apply in_map_iff in Hc' as (c & <- & Hc).
    rewrite (kc_mirror t c (Hlen c Hc)).
    destruct (Hgap c (Permutation_in _ Hperm Hc)); lia. }
  assert (Ha' : In a' s') by (rewrite Es'; apply in_or_app; right; now left).
  assert (Hb' : In b' s')
    by (rewrite Es'; apply in_or_app; right; right; now left).
  pose proof (Hoks' a' Ha') as Hoka'. pose proof (Hoks' b' Hb') as Hokb'.
  exists (mkGutter ((cx a' + cx b') / 2)%Q (cx b' - cx a')%Q (0 + length l1')).
  cbn [gap_width_centers split_index Nat.add].
  split; [|split].
  - rewrite Es'. apply (potential_gutters_intro xs W 0 l1' l2' a' b').
    + rewrite Hoka', Hokb'. apply (proj2 (half_band _ _ _ _)). lia.
    + rewrite Hoka', Hokb'. apply (proj2 (half_gap_pos _ _)). lia.
  - rewrite Hw, Hoka', Hokb', Hoka, Hokb, !half_gap.
    now replace (kc b' - kc a') with (kc b - kc a) by lia.
  - rewrite Es' in Hsorted'.
    destruct (sorted_gap_sides kc l1' l2' a' b' Hsorted')
      as (Hfirst' & Hskip' & _); [lia|].
    rewrite <- Es' in Hfirst', Hskip'.
    rewrite Hi, Hfirst', Hskip', Hfirst, Hskip.
    assert (Hside : forall f f' : centered -> bool,
              (forall c, In c cs -> f' (mirror_centered t c) = f c) ->
              Permutation (map bbox (filter f' s'))
                          (map (mirror_box t) (map bbox (filter f s)))).
    { intros f f' Hff.
      rewrite (filter_Permutation f' _ _ (Permutation_sym Hperm')).
      rewrite filter_map_comm, !map_map. cbn [bbox mirror_centered].
      rewrite (filter_ext_in _ f cs) by exact Hff.
      apply Permutation_map, filter_Permutation, Hperm. }
    split; apply Hside; intros c Hc; rewrite (kc_mirror t c (Hlen c Hc)).
    + rewrite Hka'.
      destruct (Z.leb_spec (2 * t - kc c) (2 * t - kc b)),
               (Z.leb_spec (kc b) (kc c)); try reflexivity; lia.
    + rewrite Hkb'.
      destruct (Z.leb_spec (2 * t - kc a) (2 * t - kc c)),
               (Z.leb_spec (kc c) (kc a)); try reflexivity; lia.
Qed.

(** ** Mirror symmetry of the verdict *)

Lemma filter_at_most_one {A} (f : A -> bool) (l : list A) (a b : A) :
  (length (filter f l) <= 1)%nat ->
  In a l -> f a = true -> In b l -> f b = true -> a = b.
Proof.
  intros Hlen Ha Hfa Hb Hfb.
  assert (Ha' : In a (filter f l)) by now apply filter_In.
  assert (Hb' : In b (filter f l)) by now apply filter_In.
  destruct (filter f l) as [|x [|y r]]; cbn in *; try lia; try tauto.
  destruct Ha' as [<-|[]], Hb' as [<-|[]]. reflexivity.
Qed.

Lemma firstn_incl {A} (n : nat) (l : list A) (x : A) :
  In x (firstn n l) -> In x l.
Proof.
  intros H. rewrite <- (firstn_skipn n l). apply in_or_app. now left.
Qed.

Lemma skipn_incl {A} (n : nat) (l : list A) (x : A) :
  In x (skipn n l) -> In x l.
Proof.
  intros H. rewrite <- (firstn_skipn n l). apply in_or_app. now right.
Qed.

Lemma classify_mirror (x_start y_start x_end y_end : Z) (tbs : list BBox) :
  let lb := [x_start; y_start; x_end; y_end] in
  (length (widest
             match non_spanning_boxes lb tbs with
             | Ok non_spanning =>
                 potential_gutters x_start (x_end - x_start) 0
                   (py_sorted cx (centered_boxes non_spanning))
             | Raise _ => []
             end) <= 1)%nat ->
  classify lb (map (mirror_box (x_start + x_end)) tbs) = classify lb tbs.
Proof.
  intros lb Huniq. subst lb. unfold classify, find_columns.
  cbn [unpack4 bind].
  destruct (_ || _); [reflexivity|].
  rewrite non_spanning_mirror.
  destruct (non_spanning_boxes _ tbs) as [ns|e] eqn:Hns; cbn [bind];
    [|reflexivity].
  rewrite length_map.
  destruct (length ns <? MIN_BOXES_FOR_COLUMN_CONSIDERATION)%nat;
    [reflexivity|].
  rewrite centered_boxes_mirror.
  set (t := x_start + x_end). set (W := x_end - x_start).
  set (cs := centered_boxes ns).
  set (cs' := map (mirror_centered t) cs).
  fold W cs in Huniq.
  assert (Ht : t = 2 * x_start + W) by (unfold t, W; lia).
  assert (Hok : Forall centred_ok cs) by apply centered_boxes_ok.
  assert (Hlen : Forall (fun c => length (bbox c) = 4%nat) cs).
  { apply non_spanning_boxes_wf in Hns as (Hwf & _).
    rewrite <- (centered_boxes_bbox ns) in Hwf. fold cs in Hwf.
    now rewrite Forall_map in Hwf. }
  assert (Hok' : Forall centred_ok cs').
  { apply Forall_map, Forall_forall. intros c _. apply mirror_centered_ok. }
  assert (Hlen' : Forall (fun c => length (bbox c) = 4%nat) cs').
  { apply Forall_map. eapply Forall_impl; [|exact Hlen].
    cbn. intros c Hc. now rewrite mirror_box_length. }
  assert (Hback : map (mirror_centered t) cs' = cs).
  { unfold cs'. rewrite map_map. rewrite <- (map_id cs) at 2.
    apply map_ext_in. intros c Hc. apply mirror_centered_involutive.
    rewrite Forall_forall in Hok. now apply Hok. }
  pose proof (fun g => mirrored_candidate t x_start W cs g Ht Hok Hlen)
    as Hcorr.
  pose proof (fun g => mirrored_candidate t x_start W cs' g Ht Hok' Hlen')
    as Hcorr'.
  cbn zeta in Hcorr, Hcorr'. rewrite Hback in Hcorr'. fold cs' in Hcorr.
  set (s := py_sorted cx cs) in *. set (s' := py_sorted cx cs') in *.
  destruct (potential_gutters x_start W 0 s') as [|first' others'] eqn:Epg'.
  { destruct (potential_gutters x_start W 0 s) as [|first others] eqn:Epg;
      [reflexivity|].
    destruct (Hcorr first (or_introl eq_refl)) as (g' & [] & _). }
  destruct (potential_gutters x_start W 0 s) as [|first others] eqn:Epg.
  { destruct (Hcorr' first' (or_introl eq_refl)) as (g & [] & _). }
  set (best := max_from gap_width_centers first others) in *.
  set (best' := max_from gap_width_centers first' others').
  cbn [bind left_column_boxes right_column_boxes layout_height].
  destruct (Hcorr' best' (max_from_In _ _ _))
    as (g0 & Hg0 & Hw0 & HpermL & HpermR).
  assert (Hg0best : g0 = best).
  { apply (filter_at_most_one _ _ _ _ Huniq Hg0); fold best.
    - apply Qle_bool_iff. rewrite Hw0.
      destruct (Hcorr best (max_from_In _ _ _)) as (h' & Hh' & Hwh' & _).
      rewrite <- Hwh'. now apply max_from_max.
    - apply max_from_In.
    - apply Qle_bool_iff, Qle_refl. }
  subst g0.
  rewrite (validate_columns_Permutation _ _ _ _ _ HpermL HpermR).
  symmetry. apply validate_columns_mirror_swap.
  - apply Forall_map, Forall_forall. intros c Hc.
    apply firstn_incl in Hc.
    apply (Permutation_in _ (Permutation_sym (py_sorted_perm cx cs'))) in Hc.
    rewrite Forall_forall in Hlen'. now apply Hlen'.
  - apply Forall_map, Forall_forall. intros c Hc.
    apply skipn_incl in Hc.
    apply (Permutation_in _ (Permutation_sym (py_sorted_perm cx cs'))) in Hc.
    rewrite Forall_forall in Hlen'. now apply Hlen'.
Qed.

(** Of the exact program: when at most one gutter candidate has the
    maximal gap width, mirroring the text boxes and the layout box about
    the layout's vertical centre line leaves the result unchanged. *)
Theorem mirror_preserves_verdict_without_ties_exact (l : layout) :
  (length (widest (gutter_candidates l)) <= 1)%nat ->
  fst (detect_two_columns_site (mirror_layout l))
  = fst (detect_two_columns_site l)
  /\ fst (detect_two_columns (mirror_layout l)) = fst (detect_two_columns l).
Proof.
  intros Huniq.
  assert (Hsite : fst (detect_two_columns_site (mirror_layout l))
                  = fst (detect_two_columns_site l)).
  { rewrite !detect_two_columns_site_run. cbn [fst].
    unfold mirror_layout, gutter_candidates in *.
    destruct (bbox_layout l) as [lb|] eqn:Hb; [|now rewrite Hb].
    destruct lb as [|xs [|ys [|xe [|ye [|? ?]]]]]; try now rewrite Hb.
    cbn [bbox_layout bbox_text]. rewrite mirror_box_layout.
    destruct (bbox_text l) as [[|b tbs]|]; try reflexivity.
    cbn [option_map].
    change (mirror_box (xs + xe) b :: map (mirror_box (xs + xe)) tbs)
      with (map (mirror_box (xs + xe)) (b :: tbs)).
    cbn [map]. apply (classify_mirror xs ys xe ye (b :: tbs)). exact Huniq. }
  split; [exact Hsite|].
  rewrite !detect_two_columns_run. cbn [fst]. now rewrite Hsite.
Qed.

(** ** [np_median] is a median *)

Lemma mean_above (x lo hi : Z) :
  x <= lo -> lo <= hi -> (inject_Z x <= (inject_Z lo + inject_Z hi) / 2)%Q.
Proof. intros H1 H2. unfold Qle. cbn -[Z.mul Z.add]. lia. Qed.

Lemma mean_below (x lo hi : Z) :
  hi <= x -> lo <= hi -> ((inject_Z lo + inject_Z hi) / 2 <= inject_Z x)%Q.
Proof. intros H1 H2. unfold Qle. cbn -[Z.mul Z.add]. lia. Qed.

Lemma sorted_Z_around (s : list Z) (j : nat) :
  StronglySorted Z.le s -> (j < length s)%nat ->
  exists l1 l2,
    s = l1 ++ nth j s 0 :: l2 /\ length l1 = j
    /\ Forall (fun x => x <= nth j s 0) l1
    /\ Forall (fun x => nth j s 0 <= x) l2.
Proof.
  intros Hs Hj. destruct (nth_split s 0 Hj) as (l1 & l2 & E & Hl1).
  exists l1, l2. split; [exact E|]. split; [exact Hl1|].
  rewrite E in Hs. now apply StronglySorted_middle in Hs.
Qed.

Lemma filter_count_prefix {A} (f : A -> bool) (l1 l2 : list A) :
  Forall (fun x => f x = true) l1 ->
  (length l1 <= length (filter f (l1 ++ l2)))%nat.
Proof.
  intros H. rewrite filter_app, length_app, (filter_all f l1 H). lia.
Qed.

Lemma filter_count_suffix {A} (f : A -> bool) (l1 l2 : list A) :
  Forall (fun x => f x = true) l2 ->
  (length l2 <= length (filter f (l1 ++ l2)))%nat.
Proof.
  intros H. rewrite filter_app, length_app, (filter_all f l2 H). lia.
Qed.

(** At least half of the data lie at or below [np_median], and at least
    half at or above it. *)
Lemma np_median_is_middle (l : list Z) :
  l <> [] -> is_median (np_median l) l.
Proof.
  intros Hne. unfold is_median.
  pose proof (sort_Z_perm l) as Hperm.
  pose proof (sort_Z_sorted l) as Hsorted.
  rewrite (Permutation_length
             (filter_Permutation
                (fun x => Qle_bool (inject_Z x) (np_median l)) _ _ Hperm)).
  rewrite (Permutation_length
             (filter_Permutation
                (fun x => Qle_bool (np_median l) (inject_Z x)) _ _ Hperm)).
  rewrite (Permutation_length Hperm).
  unfold np_median. set (s := sort_Z l) in *. set (n := length s).
  assert (Hn : (0 < n)%nat).
  { unfold n, s. rewrite sort_Z_length. destruct l; [congruence|cbn; lia]. }
  pose proof (Nat.div_mod_eq n 2) as Hdiv.
  pose proof (Nat.mod_upper_bound n 2 ltac:(lia)) as Hmod.
  assert (Hm : (n / 2 < n)%nat) by lia.
  destruct (sorted_Z_around s (n / 2) Hsorted Hm)
    as (l1 & l2 & E & Hl1 & Hlow & Hhigh).
  set (upper := nth (n / 2) s 0) in *.
  destruct (Nat.even n) eqn:Heven.
  - apply Nat.even_spec in Heven as [k Hk].
    assert (Hhalf : (n / 2 = k)%nat) by lia.
    assert (Hk1 : (k - 1 < n)%nat) by lia.
    rewrite Hhalf in *.
    destruct (sorted_Z_around s (k - 1) Hsorted Hk1)
      as (l1' & l2' & E' & Hl1' & Hlow' & _).
    set (lower := nth (k - 1) s 0) in *.
    assert (Hlu : lower <= upper).
    { rewrite Forall_forall in Hlow. apply Hlow.
      assert (Hin : nth (k - 1) (l1 ++ upper :: l2) 0 = lower).
      { unfold lower. now rewrite <- E. }
      rewrite app_nth1 in Hin by lia. rewrite <- Hin. apply nth_In. lia. }
    split.
    + assert (Hc : (length (l1' ++ [lower])
                    <= length (filter
                         (fun x => Qle_bool (inject_Z x)
                            ((inject_Z lower + inject_Z upper) / 2))
                         ((l1' ++ [lower]) ++ l2')))%nat).
      { apply filter_count_prefix, Forall_app. split.
        - eapply Forall_impl; [|exact Hlow']. cbn. intros x Hx.
          apply Qle_bool_iff, mean_above; assumption.
        - constructor; [|constructor].
          apply Qle_bool_iff, mean_above; [lia|assumption]. }
      rewrite <- app_assoc in Hc. cbn [app] in Hc. rewrite <- E' in Hc.
      rewrite length_app in Hc. cbn [length] in Hc. lia.
    + assert (Hc : (length (upper :: l2)
                    <= length (filter
                         (fun x => Qle_bool
                            ((inject_Z lower + inject_Z upper) / 2)
                            (inject_Z x))
                         (l1 ++ upper :: l2)))%nat).
      { apply filter_count_suffix. constructor.
        - apply Qle_bool_iff, mean_below; [lia|assumption].
        - eapply Forall_impl; [|exact Hhigh]. cbn. intros x Hx.
          apply Qle_bool_iff, mean_below; assumption. }
      rewrite <- E in Hc. cbn [length] in Hc.
      assert (Hlen : n = (length l1 + S (length l2))%nat).
      { unfold n. rewrite E at 1. rewrite length_app. reflexivity. }
      lia.
  - assert (Hodd : (n mod 2 = 1)%nat).
    { destruct (Nat.even n) eqn:E2; [discriminate|].
      rewrite <- Nat.negb_odd in E2. apply negb_false_iff in E2.
      apply Nat.odd_spec in E2 as [k Hk]. rewrite Hk.
      rewrite Nat.add_comm, Nat.mul_comm, Nat.Div0.mod_add. reflexivity. }
    assert (Hlen : n = (length l1 + S (length l2))%nat).
    { unfold n. rewrite E at 1. rewrite length_app. reflexivity. }
    split.
    + assert (Hc : (length (l1 ++ [upper])
                    <= length (filter
                         (fun x => Qle_bool (inject_Z x) (inject_Z upper))
                         ((l1 ++ [upper]) ++ l2)))%nat).
      { apply filter_count_prefix, Forall_app. split.
        - eapply Forall_impl; [|exact Hlow]. cbn. intros x Hx.
          apply Qle_bool_iff. now rewrite <- Zle_Qle.
        - constructor; [|constructor]. apply Qle_bool_iff, Qle_refl. }
      rewrite <- app_assoc in Hc. cbn [app] in Hc. rewrite <- E in Hc.
      rewrite length_app in Hc. cbn [length] in Hc. lia.
    + assert (Hc : (length (upper :: l2)
                    <= length (filter
                         (fun x => Qle_bool (inject_Z upper) (inject_Z x))
                         (l1 ++ upper :: l2)))%nat).
      { apply filter_count_suffix. constructor.
        - apply Qle_bool_iff, Qle_refl.
        - eapply Forall_impl; [|exact Hhigh]. cbn. intros x Hx.
          apply Qle_bool_iff. now rewrite <- Zle_Qle. }
      rewrite <- E in Hc. cbn [length] in Hc. lia.
Qed.

(** ** The horizontal-separation check *)

(** Of the exact program: once a split reaches the horizontal-separation check (both columns
    have two boxes or more), the call returns [False] when the median left
    edge of the right column minus the median right edge of the left column
    is below -20, and otherwise goes on to the vertical checks; the two
    statistics are medians of the columns' edges. *)
Theorem horizontal_separation_check_exact (l : layout) (c : columns) :
  reaches l c ->
  (2 <= length (left_column_boxes c))%nat ->
  (2 <= length (right_column_boxes c))%nat ->
  let x_end_left := map (fun b => item b 2) (left_column_boxes c) in
  let x_start_right := map (fun b => item b 0) (right_column_boxes c) in
  let median_x_end_left := np_median x_end_left in
  let median_x_start_right := np_median x_start_right in
  ((median_x_start_right - median_x_end_left < inject_Z (-20))%Q ->
   fst (detect_two_columns_site l) = Ok ColumnsOverlap
   /\ detect_two_columns l = (Ok false, l))
  /\ ((inject_Z (-20) <= median_x_start_right - median_x_end_left)%Q ->
      fst (detect_two_columns_site l)
      = validate_vertical (left_column_boxes c) (right_column_boxes c)
                          (layout_height c))
  /\ is_median median_x_end_left x_end_left
  /\ is_median median_x_start_right x_start_right.
Proof.
  intros Hr HL HR. cbn zeta.
  pose proof (reaches_validate l c Hr) as Hv.
  unfold validate_columns, MIN_BOXES_PER_DETECTED_COLUMN in Hv.
  destruct (Nat.ltb_spec (length (left_column_boxes c)) 2); [lia|].
  destruct (Nat.ltb_spec (length (right_column_boxes c)) 2); [lia|].
  cbn [orb] in Hv.
  unfold median_separation, ALLOWED_INTER_COLUMN_MEDIAN_OVERLAP in Hv.
  cbn [Z.opp] in Hv.
  split; [|split; [|split]].
  - intros Hsep. apply Qlt_bool_iff in Hsep. rewrite Hsep in Hv.
    split; [exact Hv|].
    rewrite detect_two_columns_run, Hv. reflexivity.
  - intros Hsep. apply Qlt_bool_false in Hsep. rewrite Hsep in Hv. exact Hv.
  - apply np_median_is_middle.
    destruct (left_column_boxes c); cbn in *; [lia|discriminate].
  - apply np_median_is_middle.
    destruct (right_column_boxes c); cbn in *; [lia|discriminate].
Qed.

(** ** The spanning test in integers *)

Lemma ratio_above_threshold (box_width layout_width : Z) :
  layout_width <> 0 ->
  Qlt_bool SPANNING_BOX_WIDTH_RATIO_THRESHOLD
           (inject_Z box_width / inject_Z layout_width)
  = if 0 <? layout_width then 7 * layout_width <? 10 * box_width
    else 10 * box_width <? 7 * layout_width.
Proof.
  intros Hne. unfold Qlt_bool, Qle_bool, SPANNING_BOX_WIDTH_RATIO_THRESHOLD.
  destruct layout_width as [|p|p]; [congruence| |];
    cbn -[Z.mul Z.leb Z.ltb].
  - change (0 <? Z.pos p) with true. cbn iota.
    destruct (Z.leb_spec (box_width * 1 * 10) (7 * Z.pos p)),
             (Z.ltb_spec (7 * Z.pos p) (10 * box_width));
      cbn [negb]; try reflexivity; lia.
  - change (0 <? Z.neg p) with false. cbn iota.
    destruct (Z.leb_spec (box_width * -1 * 10) (7 * Z.pos p)),
             (Z.ltb_spec (10 * box_width) (7 * Z.neg p));
      cbn [negb]; try reflexivity; lia.
Qed.

(** Of the exact program: against a layout box of non-zero width a well-formed box is
    spanning exactly when ten times its width exceeds seven times the layout
    width (the inequality turns round for a negative layout width) or its
    width exceeds 700; the test raises nothing. *)
Theorem spanning_box_integer_rule_exact
    (box_x_start box_y_start box_x_end box_y_end : Z)
    (layout_x_start layout_y_start layout_x_end layout_y_end : Z) :
  let box_width := box_x_end - box_x_start in
  let layout_width := layout_x_end - layout_x_start in
  layout_width <> 0 ->
  _is_likely_spanning_box
    [box_x_start; box_y_start; box_x_end; box_y_end]
    [layout_x_start; layout_y_start; layout_x_end; layout_y_end]
  = Ok ((if 0 <? layout_width then 7 * layout_width <? 10 * box_width
         else 10 * box_width <? 7 * layout_width)
        || (700 <? box_width)).
Proof.
  intros box_width layout_width Hne.
  unfold _is_likely_spanning_box. cbn [unpack4 bind]. fold box_width layout_width.
  destruct (Z.eqb_spec layout_width 0); [congruence|].
  unfold py_div. destruct (Z.eqb_spec layout_width 0); [congruence|].
  cbn [bind]. rewrite (ratio_above_threshold _ _ Hne).
  unfold ABSOLUTE_SPANNING_WIDTH_THRESHOLD.
  destruct (if 0 <? layout_width then _ else _); [reflexivity|].
  destruct (700 <? box_width); reflexivity.
Qed.

(** ** [in_same_level] *)

Lemma half_abs_le (a b margin : Z) :
  Qle_bool (Qabs (inject_Z a / 2 - inject_Z b / 2)) (inject_Z margin)
  = (Z.abs (a - b) <=? 2 * margin).
Proof.
  unfold Qle_bool. cbn -[Z.mul Z.add Z.abs Z.leb].
  destruct (Z.leb_spec (Z.abs (a * 1 * 2 + - (b * 1) * 2) * 1) (margin * 4)),
           (Z.leb_spec (Z.abs (a - b)) (2 * margin)); try reflexivity; lia.
Qed.

Lemma half_width_gt (x_overlap min_width : Z) :
  Qlt_bool (inject_Z x_overlap) (0.5 * inject_Z min_width)
  = (2 * x_overlap <? min_width).
Proof.
  unfold Qlt_bool, Qle_bool. cbn -[Z.mul Z.add Z.leb Z.ltb].
  destruct (Z.leb_spec (5 * min_width * 1) (x_overlap * 10)),
           (Z.ltb_spec (2 * x_overlap) min_width); cbn; try reflexivity; lia.
Qed.

(** What [in_same_level] computes on two well-formed boxes, in integers. *)
Lemma in_same_level_wf (x1_start y1_start x1_end y1_end : Z)
    (x2_start y2_start x2_end y2_end margin : Z) :
  in_same_level [x1_start; y1_start; x1_end; y1_end]
                [x2_start; y2_start; x2_end; y2_end] margin
  = let x_overlap :=
      Z.max 0 (Z.min x1_end x2_end - Z.max x1_start x2_start) in
    let min_width := Z.min (x1_end - x1_start) (x2_end - x2_start) in
    Ok ((Z.abs (y1_start + y1_end - (y2_start + y2_end)) <=? 2 * margin)
        && ((min_width =? 0) || (2 * x_overlap <? min_width))).
Proof.
  unfold in_same_level. cbn [unpack4 bind]. cbn zeta.
  rewrite half_abs_le, half_width_gt.
  destruct (Z.min _ _ =? 0); reflexivity.
Qed.

Lemma in_same_level_comm (text_box_1 text_box_2 : BBox) (margin : Z) :
  in_same_level text_box_1 text_box_2 margin
  = in_same_level text_box_2 text_box_1 margin.
Proof.
  destruct (unpack4 text_box_1) as [[[[a1 b1] c1] d1]|e1] eqn:E1.
  - apply unpack4_Ok in E1 as (? & ? & ? & ? & -> & [= <- <- <- <-]).
    destruct (unpack4 text_box_2) as [[[[a2 b2] c2] d2]|e2] eqn:E2.
    + apply unpack4_Ok in E2 as (? & ? & ? & ? & -> & [= <- <- <- <-]).
      rewrite !in_same_level_wf. cbn zeta.
      rewrite (Z.min_comm c1 c2), (Z.max_comm a1 a2),
              (Z.min_comm (c1 - a1) (c2 - a2)).
      replace (Z.abs (b1 + d1 - (b2 + d2))) with (Z.abs (b2 + d2 - (b1 + d1)))
        by lia.
      reflexivity.
    + pose proof (unpack4_Raise _ _ E2) as ->.
      unfold in_same_level. cbn [unpack4 bind]. rewrite E2. reflexivity.
  - pose proof (unpack4_Raise _ _ E1) as ->.
    unfold in_same_level. rewrite E1. cbn [bind].
    destruct (unpack4 text_box_2) as [[[[a2 b2] c2] d2]|e2] eqn:E2;
      cbn [bind]; [reflexivity|].
    now rewrite (unpack4_Raise _ _ E2).
Qed.

Lemma shift_box_wf (dx dy x0 y0 x1 y1 : Z) :
  shift_box dx dy [x0; y0; x1; y1] = [x0 + dx; y0 + dy; x1 + dx; y1 + dy].
Proof. reflexivity. Qed.

Lemma shift_box_malformed (dx dy : Z) (b : BBox) :
  length b <> 4%nat -> shift_box dx dy b = b.
Proof.
  destruct b as [|? [|? [|? [|? [|? ?]]]]]; cbn; try reflexivity; lia.
Qed.

(** Of the exact program: [in_same_level] depends only on the relative position of its two
    boxes: it gives the same answer, an exception included, when the boxes
    are exchanged and when both are moved by the same offset. *)
Theorem in_same_level_relative_exact (text_box_1 text_box_2 : BBox)
    (margin dx dy : Z) :
  in_same_level text_box_1 text_box_2 margin
  = in_same_level text_box_2 text_box_1 margin
  /\ in_same_level (shift_box dx dy text_box_1) (shift_box dx dy text_box_2)
                   margin
     = in_same_level text_box_1 text_box_2 margin.
Proof.
  split; [apply in_same_level_comm|].
  destruct (Nat.eq_dec (length text_box_1) 4) as [H1 | H1].
  - destruct text_box_1 as [|a1 [|b1 [|c1 [|d1 [|? ?]]]]]; try discriminate.
    destruct (Nat.eq_dec (length text_box_2) 4) as [H2 | H2].
    + destruct text_box_2 as [|a2 [|b2 [|c2 [|d2 [|? ?]]]]];
        try discriminate.
      rewrite !shift_box_wf, !in_same_level_wf. cbn zeta.
      replace (b1 + dy + (d1 + dy) - (b2 + dy + (d2 + dy)))
        with (b1 + d1 - (b2 + d2)) by lia.
      replace (Z.min (c1 + dx) (c2 + dx) - Z.max (a1 + dx) (a2 + dx))
        with (Z.min c1 c2 - Z.max a1 a2) by lia.
      replace (c1 + dx - (a1 + dx)) with (c1 - a1) by lia.
      replace (c2 + dx - (a2 + dx)) with (c2 - a2) by lia.
      reflexivity.
    + rewrite (shift_box_malformed dx dy text_box_2 H2), shift_box_wf.
      unfold in_same_level. cbn [unpack4 bind].
      destruct (unpack4 text_box_2) as [t|e] eqn:E2; [|reflexivity].
      apply unpack4_Ok in E2 as (? & ? & ? & ? & -> & _). cbn in H2. lia.
  - rewrite (shift_box_malformed dx dy text_box_1 H1).
    unfold in_same_level.
    destruct (unpack4 text_box_1) as [t|e] eqn:E1; [|reflexivity].
    apply unpack4_Ok in E1 as (? & ? & ? & ? & -> & _). cbn in H1. lia.
Qed.

(** Of the exact program: two well-formed boxes are on the same level exactly when their
    vertical centres are at most [margin] apart and either the narrower box
    has width zero or the horizontal overlap is less than half of its
    width. *)
Theorem in_same_level_integer_rule_exact (x1_start y1_start x1_end y1_end : Z)
    (x2_start y2_start x2_end y2_end margin : Z) :
  let x_overlap := Z.max 0 (Z.min x1_end x2_end - Z.max x1_start x2_start) in
  let min_width := Z.min (x1_end - x1_start) (x2_end - x2_start) in
  in_same_level [x1_start; y1_start; x1_end; y1_end]
                [x2_start; y2_start; x2_end; y2_end] margin = Ok true
  <-> Z.abs (y1_start + y1_end - (y2_start + y2_end)) <= 2 * margin
      /\ (min_width = 0 \/ 2 * x_overlap < min_width).
Proof.
  cbn zeta. rewrite in_same_level_wf. cbn zeta.
  split.
  - intros [= H]. apply andb_prop in H as [H1 H2].
    apply Z.leb_le in H1. apply orb_prop in H2 as [H2 | H2].
    + apply Z.eqb_eq in H2. auto.
    + apply Z.ltb_lt in H2. auto.
  - intros [H1 H2]. f_equal. apply andb_true_intro. split.
    + now apply Z.leb_le.
    + apply orb_true_intro. destruct H2 as [H2 | H2].
      * left. now apply Z.eqb_eq.
      * right. now apply Z.ltb_lt.
Qed.

(** Of the exact program: a box is on the same level as a copy of itself only if its width
    is zero (and the margin is not negative): two copies of a box of
    non-zero width always count as the same column. *)
Theorem in_same_level_same_box_exact (x_start y_start x_end y_end margin : Z) :
  in_same_level [x_start; y_start; x_end; y_end]
                [x_start; y_start; x_end; y_end] margin
  = Ok ((0 <=? margin) && (x_end - x_start =? 0)).
Proof.
  rewrite in_same_level_wf. cbn zeta. f_equal.
  replace (y_start + y_end - (y_start + y_end)) with 0 by lia.
  rewrite Z.min_id, Z.max_id, Z.min_id. cbn [Z.abs].
  destruct (Z.leb_spec 0 (2 * margin)), (Z.leb_spec 0 margin),
           (Z.eqb_spec (x_end - x_start) 0),
           (Z.ltb_spec (2 * Z.max 0 (x_end - x_start)) (x_end - x_start));
    cbn [andb orb]; try reflexivity; lia.
Qed.

(** ** Exceptions of [detect_two_columns] *)

Lemma spanning_total (text_bbox layout_bbox : BBox) :
  length text_bbox = 4%nat -> length layout_bbox = 4%nat ->
  exists b, _is_likely_spanning_box text_bbox layout_bbox = Ok b.
Proof.
  intros Ht Hl.
  destruct text_bbox as [|a [|b0 [|c [|d [|? ?]]]]]; try discriminate.
  destruct layout_bbox as [|xs [|ys [|xe [|ye [|? ?]]]]]; try discriminate.
  unfold _is_likely_spanning_box. cbn [unpack4 bind].
  destruct (xe - xs =? 0) eqn:E; [eauto|].
  unfold py_div. rewrite E. cbn [bind].
  destruct (Qlt_bool _ _); [eauto|]. destruct (_ <? _); eauto.
Qed.

Lemma validate_vertical_total (L R : list BBox) (H : Z) :
  exists s, validate_vertical L R H = Ok s.
Proof.
  unfold validate_vertical.
  destruct L as [|l0 L']; [cbn; eauto|].
  destruct R as [|r0 R']; [cbn; eauto|].
  cbn [length Nat.eqb orb].
  destruct (py_min_nonempty (map (fun b => item b 1) (l0 :: L')))
    as [minL ->]; [discriminate|].
  destruct (py_max_nonempty (map (fun b => item b 3) (l0 :: L')))
    as [maxL ->]; [discriminate|].
  destruct (py_min_nonempty (map (fun b => item b 1) (r0 :: R')))
    as [minR ->]; [discriminate|].
  destruct (py_max_nonempty (map (fun b => item b 3) (r0 :: R')))
    as [maxR ->]; [discriminate|].
  cbn [bind]. destruct (_ || _); [eauto|].
  unfold py_div. destruct (Z.min _ _ =? 0).
  - destruct (_ =? 0); eauto.
  - cbn [bind]. destruct (Qlt_bool _ _); eauto.
Qed.

Lemma validate_columns_total (L R : list BBox) (H : Z) :
  exists s, validate_columns L R H = Ok s.
Proof.
  unfold validate_columns. destruct (_ || _); [eauto|].
  destruct (Qlt_bool _ _); [eauto|]. apply validate_vertical_total.
Qed.

Lemma non_spanning_boxes_total (lb : BBox) (tbs : list BBox) :
  length lb = 4%nat -> Forall (fun b => length b = 4%nat) tbs ->
  exists kept, non_spanning_boxes lb tbs = Ok kept.
Proof.
  intros Hlb. induction 1 as [|b tbs Hb _ IH]; cbn [non_spanning_boxes];
    [eauto|].
  destruct (spanning_total b lb Hb Hlb) as [sp ->].
  destruct IH as [k ->]. cbn [bind]. eauto.
Qed.

Lemma classify_total (lb : BBox) (tbs : list BBox) :
  length lb = 4%nat -> Forall (fun b => length b = 4%nat) tbs ->
  exists s, classify lb tbs = Ok s.
Proof.
  intros Hlb Htbs. unfold classify, find_columns.
  destruct lb as [|xs [|ys [|xe [|ye [|? ?]]]]]; try discriminate.
  cbn [unpack4 bind]. destruct (_ || _); [cbn; eauto|].
  destruct (non_spanning_boxes_total _ tbs Hlb Htbs) as [ns ->].
  cbn [bind]. destruct (_ <? _)%nat; [cbn; eauto|].
  destruct (potential_gutters _ _ _ _); [cbn; eauto|].
  cbn [bind]. apply validate_columns_total.
Qed.

Lemma classify_Raise (lb : BBox) (tbs : list BBox) (e : exn) :
  classify lb tbs = Raise e -> e = ValueError.
Proof.
  unfold classify.
  destruct (find_columns lb tbs) as [[s|c]|e'] eqn:Ef; cbn [bind].
  - discriminate.
  - destruct (validate_columns_total (left_column_boxes c)
                (right_column_boxes c) (layout_height c)) as [s ->].
    discriminate.
  - intros [= <-]. now apply find_columns_Raise in Ef.
Qed.

(** Of the exact program: on a layout whose boxes all have four coordinates
    [detect_two_columns] returns a boolean; whatever the input, the only
    exception it can raise is [ValueError]; and it does raise it when both
    fields are non-empty and the layout box does not have four items. *)
Theorem detect_two_columns_exceptions_exact (l : layout) :
  (well_formed l -> exists b, fst (detect_two_columns l) = Ok b)
  /\ (forall e, fst (detect_two_columns l) = Raise e -> e = ValueError)
  /\ (forall lb tbs,
        bbox_layout l = Some lb -> bbox_text l = Some tbs ->
        lb <> [] -> tbs <> [] -> length lb <> 4%nat ->
        fst (detect_two_columns l) = Raise ValueError).
Proof.
  rewrite detect_two_columns_run, detect_two_columns_site_run. cbn [fst].
  split; [|split].
  - intros [Hwl Hwt].
    destruct (bbox_layout l) as [[|x lb']|] eqn:Hb; try (now eexists).
    destruct (bbox_text l) as [[|t tbs']|] eqn:Ht; try (now eexists).
    destruct (Hwl _ eq_refl) as [|Hlen]; [discriminate|].
    destruct (classify_total _ _ Hlen (Hwt _ eq_refl)) as [s ->]. eauto.
  - intros e.
    destruct (bbox_layout l) as [[|x lb']|]; try discriminate.
    destruct (bbox_text l) as [[|t tbs']|]; try discriminate.
    destruct (classify _ _) as [s|e'] eqn:Ec; [discriminate|].
    intros [= <-]. now apply classify_Raise in Ec.
  - intros lb tbs -> -> Hlb Htbs Hlen.
    destruct lb as [|x lb']; [congruence|].
    destruct tbs as [|t tbs']; [congruence|].
    unfold classify, find_columns.
    destruct (x :: lb') as [|? [|? [|? [|? [|? ?]]]]] eqn:E; cbn in *;
      try reflexivity; lia.
Qed.

(** ** What a [True] verdict means *)

Lemma verdict_true_reaches (l : layout) :
  fst (detect_two_columns l) = Ok true -> exists c, reaches l c.
Proof.
  rewrite detect_two_columns_run, detect_two_columns_site_run. cbn [fst].
  destruct (bbox_layout l) as [[|x lb']|] eqn:Hb; try discriminate.
  destruct (bbox_text l) as [[|t tbs']|] eqn:Ht; try discriminate.
  unfold classify.
  destruct (find_columns _ _) as [[s|c]|e] eqn:Ef; cbn [bind];
    try discriminate.
  - rewrite (find_columns_inl_verdict _ _ _ Ef). discriminate.
  - intros _. exists c, (x :: lb'), (t :: tbs'). auto.
Qed.

Lemma height_ratio_test (height layout_height : Z) :
  Qlt_bool (inject_Z height)
           (inject_Z layout_height * MIN_COLUMN_HEIGHT_LAYOUT_RATIO)
  = (10 * height <? 3 * layout_height).
Proof.
  unfold Qlt_bool, Qle_bool, MIN_COLUMN_HEIGHT_LAYOUT_RATIO.
  cbn -[Z.mul Z.leb Z.ltb].
  destruct (Z.leb_spec (layout_height * 3) (height * 10)),
           (Z.ltb_spec (10 * height) (3 * layout_height));
    cbn [negb]; try reflexivity; lia.
Qed.

Lemma overlap_ratio_test (overlap shorter : Z) :
  0 < shorter ->
  Qlt_bool (inject_Z overlap / inject_Z shorter)
           MIN_VERTICAL_OVERLAP_RATIO_OF_SHORTER_COLUMN
  = (5 * overlap <? 2 * shorter).
Proof.
  intros Hpos.
  unfold Qlt_bool, Qle_bool, MIN_VERTICAL_OVERLAP_RATIO_OF_SHORTER_COLUMN.
  destruct shorter as [|p|p]; try lia.
  cbn -[Z.mul Z.leb Z.ltb].
  destruct (Z.leb_spec (4 * Z.pos p) (overlap * 1 * 10)),
           (Z.ltb_spec (5 * overlap) (2 * Z.pos p));
    cbn [negb]; try reflexivity; lia.
Qed.

(** Of the exact program: [detect_two_columns] returns [True] exactly when a gutter is found
    (steps 1-3 yield two columns), each column has two boxes or more, the
    median separation is at least -20, each column is at least three tenths
    of the layout height tall, and the vertical overlap of the columns is at
    least two fifths of the shorter column's height. *)
Theorem two_column_verdict_rule_exact (l : layout) :
  fst (detect_two_columns l) = Ok true
  <-> exists c min_y_L max_y_L min_y_R max_y_R,
        reaches l c
        /\ (2 <= length (left_column_boxes c))%nat
        /\ (2 <= length (right_column_boxes c))%nat
        /\ (inject_Z (-20)
            <= median_separation (left_column_boxes c)
                                 (right_column_boxes c))%Q
        /\ py_min (map (fun b => item b 1) (left_column_boxes c)) = Ok min_y_L
        /\ py_max (map (fun b => item b 3) (left_column_boxes c)) = Ok max_y_L
        /\ py_min (map (fun b => item b 1) (right_column_boxes c)) = Ok min_y_R
        /\ py_max (map (fun b => item b 3) (right_column_boxes c)) = Ok max_y_R
        /\ 3 * layout_height c <= 10 * (max_y_L - min_y_L)
        /\ 3 * layout_height c <= 10 * (max_y_R - min_y_R)
        /\ 2 * Z.min (max_y_L - min_y_L) (max_y_R - min_y_R)
           <= 5 * Z.max 0 (Z.min max_y_L max_y_R - Z.max min_y_L min_y_R).
Proof.
  split.
  - intros Htrue. destruct (verdict_true_reaches l Htrue) as [c Hr].
    rewrite detect_two_columns_run, (reaches_validate l c Hr) in Htrue.
    cbn [fst] in Htrue.
    pose proof (reaches_height l c Hr) as HH.
    unfold validate_columns, MIN_BOXES_PER_DETECTED_COLUMN in Htrue.
    destruct (Nat.ltb_spec (length (left_column_boxes c)) 2);
      [discriminate|].
    destruct (Nat.ltb_spec (length (right_column_boxes c)) 2);
      [discriminate|].
    cbn [orb] in Htrue.
    unfold ALLOWED_INTER_COLUMN_MEDIAN_OVERLAP in Htrue. cbn [Z.opp] in Htrue.
    destruct (Qlt_bool (median_separation _ _) _) eqn:Esep; [discriminate|].
    apply Qlt_bool_false in Esep.
    assert (HL : left_column_boxes c <> []).
    { destruct (left_column_boxes c); cbn in *; [lia|discriminate]. }
    assert (HR : right_column_boxes c <> []).
    { destruct (right_column_boxes c); cbn in *; [lia|discriminate]. }
    destruct (validate_vertical_cases _ _ _ HH HL HR)
      as (minL & maxL & minR & maxR & E1 & E2 & E3 & E4 & Hv).
    cbn zeta in Hv.
    exists c, minL, maxL, minR, maxR.
    repeat (split; [assumption|]).
    revert Htrue. unfold validate_vertical.
    destruct (left_column_boxes c) as [|l0 L']; [congruence|].
    destruct (right_column_boxes c) as [|r0 R']; [congruence|].
    cbn [length Nat.eqb orb]. rewrite E1, E2, E3, E4. cbn [bind].
    rewrite !height_ratio_test.
    destruct (Z.ltb_spec (10 * (maxL - minL)) (3 * layout_height c));
      [discriminate|].
    destruct (Z.ltb_spec (10 * (maxR - minR)) (3 * layout_height c));
      [discriminate|].
    cbn [orb].
    destruct (Z.eqb_spec (Z.min (maxL - minL) (maxR - minR)) 0); [lia|].
    unfold py_div.
    destruct (Z.eqb_spec (Z.min (maxL - minL) (maxR - minR)) 0); [lia|].
    cbn [bind]. rewrite overlap_ratio_test by lia.
    destruct (Z.ltb_spec
                (5 * Z.max 0 (Z.min maxL maxR - Z.max minL minR))
                (2 * Z.min (maxL - minL) (maxR - minR))); [discriminate|].
    intros _. repeat split; lia.
  - intros (c & minL & maxL & minR & maxR & Hr & HL & HR & Hsep
            & E1 & E2 & E3 & E4 & HhL & HhR & Hov).
    rewrite detect_two_columns_run, (reaches_validate l c Hr). cbn [fst].
    pose proof (reaches_height l c Hr) as HH.
    unfold validate_columns, MIN_BOXES_PER_DETECTED_COLUMN.
    destruct (Nat.ltb_spec (length (left_column_boxes c)) 2); [lia|].
    destruct (Nat.ltb_spec (length (right_column_boxes c)) 2); [lia|].
    cbn [orb].
    unfold ALLOWED_INTER_COLUMN_MEDIAN_OVERLAP. cbn [Z.opp].
    apply Qlt_bool_false in Hsep. rewrite Hsep.
    unfold validate_vertical.
    destruct (left_column_boxes c) as [|l0 L']; [cbn in *; lia|].
    destruct (right_column_boxes c) as [|r0 R']; [cbn in *; lia|].
    cbn [length Nat.eqb orb]. rewrite E1, E2, E3, E4. cbn [bind].
    rewrite !height_ratio_test.
    destruct (Z.ltb_spec (10 * (maxL - minL)) (3 * layout_height c)); [lia|].
    destruct (Z.ltb_spec (10 * (maxR - minR)) (3 * layout_height c)); [lia|].
    cbn [orb].
    destruct (Z.eqb_spec (Z.min (maxL - minL) (maxR - minR)) 0); [lia|].
    unfold py_div.
    destruct (Z.eqb_spec (Z.min (maxL - minL) (maxR - minR)) 0); [lia|].
    cbn [bind]. rewrite overlap_ratio_test by lia.
    destruct (Z.ltb_spec
                (5 * Z.max 0 (Z.min maxL maxR - Z.max minL minR))
                (2 * Z.min (maxL - minL) (maxR - minR))); [lia|].
    reflexivity.
Qed.

(** ** The two columns *)

Lemma firstn_skipn_middle {A} (l1 r : list A) (a : A) :
  firstn (length l1 + 1) (l1 ++ a :: r) = l1 ++ [a]
  /\ skipn (length l1 + 1) (l1 ++ a :: r) = r.
Proof.
  replace (l1 ++ a :: r) with ((l1 ++ [a]) ++ r)
    by (now rewrite <- app_assoc).
  replace (length l1 + 1)%nat with (length (l1 ++ [a]))
    by (rewrite length_app; reflexivity).
  split.
  - rewrite firstn_app, firstn_all, Nat.sub_diag. cbn. apply app_nil_r.
  - rewrite skipn_app, skipn_all, Nat.sub_diag. reflexivity.
Qed.

(** Of the exact program: the two columns handed to the validation split the non-spanning
    boxes between them (every such box is in exactly one column), neither
    is empty, every box of the left column has its centre strictly to the
    left of every box of the right column, and the midpoint between the
    rightmost centre of the left column and the leftmost centre of the
    right column lies in the central half of the layout. *)
Theorem columns_split_the_boxes_exact (l : layout) (c : columns) :
  reaches l c ->
  exists x_start y_start x_end y_end tbs non_spanning,
    bbox_layout l = Some [x_start; y_start; x_end; y_end]
    /\ bbox_text l = Some tbs
    /\ non_spanning_boxes [x_start; y_start; x_end; y_end] tbs
       = Ok non_spanning
    /\ Permutation (left_column_boxes c ++ right_column_boxes c) non_spanning
    /\ (forall a b, In a (left_column_boxes c) -> In b (right_column_boxes c) ->
          item a 0 + item a 2 < item b 0 + item b 2)
    /\ exists a b,
         In a (left_column_boxes c) /\ In b (right_column_boxes c)
         /\ (forall a', In a' (left_column_boxes c) ->
               item a' 0 + item a' 2 <= item a 0 + item a 2)
         /\ (forall b', In b' (right_column_boxes c) ->
               item b 0 + item b 2 <= item b' 0 + item b' 2)
         /\ 4 * x_start + (x_end - x_start)
            <= (item a 0 + item a 2) + (item b 0 + item b 2)
            <= 4 * x_start + 3 * (x_end - x_start).
Proof.
  intros (lb & tbs & Hb & Ht & Hf).
  apply find_columns_inr in Hf
    as (xs & ys & xe & ye & ns & first & others
        & -> & _ & _ & Hns & _ & Hpg & ->).
  exists xs, ys, xe, ye, tbs, ns.
  repeat (split; [assumption|]).
  cbn [left_column_boxes right_column_boxes].
  set (cs := centered_boxes ns) in *. set (s := py_sorted cx cs) in *.
  set (best := max_from gap_width_centers first others).
  assert (Hin : In best (potential_gutters xs (xe - xs) 0 s)).
  { rewrite Hpg. apply max_from_In. }
  apply potential_gutters_split in Hin
    as (l1 & a & b & l2 & Es & Hi & _ & Hband & Hpos).
  cbn [Nat.add] in Hi. rewrite Hi.
  assert (Hok : Forall centred_ok s).
  { apply (Permutation_Forall (py_sorted_perm cx cs)), centered_boxes_ok. }
  pose proof (py_sorted_kc cs (centered_boxes_ok ns)) as Hsorted. fold s in Hsorted.
  rewrite Es in Hsorted, Hok.
  destruct (firstn_skipn_middle l1 (b :: l2) a) as [Hfirst Hskip].
  rewrite Es, Hfirst, Hskip.
  rewrite Forall_forall in Hok.
  assert (Hoka : centred_ok a) by (apply Hok, in_or_app; right; now left).
  assert (Hokb : centred_ok b)
    by (apply Hok, in_or_app; right; right; now left).
  assert (Hab : kc a < kc b).
  { rewrite Hoka, Hokb in Hpos. exact (proj1 (half_gap_pos _ _) Hpos). }
  assert (Hbandz : 4 * xs + (xe - xs) <= kc a + kc b <= 4 * xs + 3 * (xe - xs)).
  { rewrite Hoka, Hokb in Hband. exact (proj1 (half_band _ _ _ _) Hband). }
  pose proof (StronglySorted_middle _ _ _ _ Hsorted) as [Hl1 Ha].
  assert (Hs' : StronglySorted (fun x y => kc x <= kc y)
                               ((l1 ++ [a]) ++ b :: l2)).
  { now rewrite <- app_assoc. }
  pose proof (StronglySorted_middle _ _ _ _ Hs') as [_ Hl2].
  rewrite Forall_forall in Hl1, Hl2.
  assert (HL : forall x, In x (l1 ++ [a]) -> kc x <= kc a).
  { intros x Hx. apply in_app_or in Hx as [Hx | [<- | []]]; [auto|lia]. }
  assert (HR : forall y, In y (b :: l2) -> kc b <= kc y).
  { intros y [<- | Hy]; [lia|auto]. }
  split.
  { rewrite <- map_app, <- app_assoc. cbn [app]. rewrite <- Es.
    rewrite <- (centered_boxes_bbox ns). fold cs.
    apply Permutation_map, Permutation_sym, py_sorted_perm. }
  split.
  { intros a0 b0 Ha0 Hb0.
    apply in_map_iff in Ha0 as (x & <- & Hx).
    apply in_map_iff in Hb0 as (y & <- & Hy).
    specialize (HL x Hx). specialize (HR y Hy). unfold kc, key2 in *. lia. }
  exists (bbox a), (bbox b).
  split; [apply in_map, in_or_app; right; now left|].
  split; [apply in_map; now left|].
  split.
  { intros a' Ha'. apply in_map_iff in Ha' as (x & <- & Hx).
    exact (HL x Hx). }
  split.
  { intros b' Hb'. apply in_map_iff in Hb' as (y & <- & Hy).
    exact (HR y Hy). }
  exact Hbandz.
Qed.

(** ** The order of the text boxes, and the spanning boxes among them *)

Lemma non_spanning_boxes_Permutation (lb : BBox) (tbs tbs' : list BBox) :
  Permutation tbs tbs' ->
  match non_spanning_boxes lb tbs, non_spanning_boxes lb tbs' with
  | Ok kept, Ok kept' => Permutation kept kept'
  | Raise e, Raise e' => e = e'
  | _, _ => False
  end.
Proof.
  induction 1 as [|x l l' _ IH|x y l|l l' l'' _ IH1 _ IH2].
  - cbn. constructor.
  - cbn [non_spanning_boxes].
    destruct (_is_likely_spanning_box x lb) as [sp|e]; cbn [bind];
      [|reflexivity].
    destruct (non_spanning_boxes lb l) as [k|e],
             (non_spanning_boxes lb l') as [k'|e']; cbn [bind];
      try assumption.
    destruct sp; [assumption|now constructor].
  - cbn [non_spanning_boxes].
    destruct (_is_likely_spanning_box x lb) as [spx|ex] eqn:Ex,
             (_is_likely_spanning_box y lb) as [spy|ey] eqn:Ey; cbn [bind].
    + destruct (non_spanning_boxes lb l) as [k|e]; cbn [bind];
        [|reflexivity].
      destruct spx, spy; try reflexivity. apply perm_swap.
    + reflexivity.
    + reflexivity.
    + apply spanning_Raise in Ex, Ey. congruence.
  - destruct (non_spanning_boxes lb l) as [k|e],
             (non_spanning_boxes lb l') as [k'|e'],
             (non_spanning_boxes lb l'') as [k''|e'']; try tauto;
      try congruence.
    now transitivity k'.
Qed.

Lemma StronglySorted_map {A B} (f : A -> B) (R : B -> B -> Prop) (l : list A) :
  StronglySorted (fun x y => R (f x) (f y)) l -> StronglySorted R (map f l).
Proof.
  induction 1 as [|x l _ IH Hall]; cbn; constructor; [exact IH|].
  apply Forall_map. exact Hall.
Qed.

Lemma sorted_centres_of_Permutation (cs cs' : list centered) :
  Forall centred_ok cs -> Forall centred_ok cs' -> Permutation cs cs' ->
  map cx (py_sorted cx cs) = map cx (py_sorted cx cs').
Proof.
  intros Hok Hok' Hp.
  assert (Hk : map kc (py_sorted cx cs) = map kc (py_sorted cx cs')).
  { apply sorted_Z_unique.
    - apply StronglySorted_map, py_sorted_kc, Hok.
    - apply StronglySorted_map, py_sorted_kc, Hok'.
    - apply Permutation_map.
      now rewrite <- !py_sorted_perm. }
  assert (Hcx : forall l, Forall centred_ok l ->
            map cx l = map (fun k => (inject_Z k / 2)%Q) (map kc l)).
  { intros l Hl. rewrite map_map. apply map_ext_in. intros c Hc.
    rewrite Forall_forall in Hl. exact (Hl c Hc). }
  rewrite (Hcx (py_sorted cx cs)), (Hcx (py_sorted cx cs')), Hk;
    [reflexivity| |].
  - now apply (Permutation_Forall (py_sorted_perm cx cs')).
  - now apply (Permutation_Forall (py_sorted_perm cx cs)).
Qed.

Lemma potential_gutters_cx (xs W : Z) (i : nat) (s s' : list centered) :
  map cx s = map cx s' ->
  potential_gutters xs W i s = potential_gutters xs W i s'.
Proof.
  revert i s'. induction s as [|a s IH]; intros i s' E.
  - destruct s'; [reflexivity|discriminate].
  - destruct s' as [|a' s']; [discriminate|].
    cbn [map] in E. injection E as Ea Es.
    destruct s as [|b rest], s' as [|b' rest']; try discriminate;
      [reflexivity|].
    rewrite !potential_gutters_step. rewrite (IH (S i) (b' :: rest') Es).
    cbn [map] in Es. injection Es as Eb _.
    unfold gap_between. now rewrite Ea, Eb.
Qed.

Lemma map_middle_eq {A B} (f : A -> B) (l1 l1' r r' : list A) (a a' : A) :
  map f (l1 ++ a :: r) = map f (l1' ++ a' :: r') ->
  length l1 = length l1' ->
  f a = f a'.
Proof.
  revert l1'. induction l1 as [|x l1 IH]; intros [|x' l1'] E Hl;
    try discriminate.
  - cbn in E. now injection E.
  - cbn in E, Hl. injection E as _ E. injection Hl as Hl. now apply (IH l1').
Qed.

Lemma half_injective (x y : Z) :
  (inject_Z x / 2)%Q = (inject_Z y / 2)%Q -> x = y.
Proof.
  intros E.
  assert (H1 : (inject_Z x / 2 <= inject_Z y / 2)%Q) by (rewrite E; apply Qle_refl).
  assert (H2 : (inject_Z y / 2 <= inject_Z x / 2)%Q) by (rewrite E; apply Qle_refl).
  pose proof (proj1 (half_le _ _) H1). pose proof (proj1 (half_le _ _) H2).
  lia.
Qed.

Lemma classify_Permutation (lb : BBox) (tbs tbs' : list BBox) :
  Permutation tbs tbs' -> classify lb tbs = classify lb tbs'.
Proof.
  intros Hp. unfold classify, find_columns.
  destruct (unpack4 lb) as [[[[xs ys] xe] ye]|e]; cbn [bind]; [|reflexivity].
  destruct (_ || _); [reflexivity|].
  pose proof (non_spanning_boxes_Permutation lb tbs tbs' Hp) as Hns.
  destruct (non_spanning_boxes lb tbs) as [ns|e] eqn:E1,
           (non_spanning_boxes lb tbs') as [ns'|e'] eqn:E2;
    try contradiction; cbn [bind]; [|now subst].
  rewrite (Permutation_length Hns).
  destruct (_ <? _)%nat; [reflexivity|].
  set (cs := centered_boxes ns). set (cs' := centered_boxes ns').
  assert (Hcs : Permutation cs cs') by now apply Permutation_map.
  assert (Hok : Forall centred_ok cs) by apply centered_boxes_ok.
  assert (Hok' : Forall centred_ok cs') by apply centered_boxes_ok.
  pose proof (sorted_centres_of_Permutation cs cs' Hok Hok' Hcs) as Hcx.
  set (s := py_sorted cx cs) in *. set (s' := py_sorted cx cs') in *.
  rewrite <- (potential_gutters_cx xs (xe - xs) 0 s s' Hcx).
  destruct (potential_gutters xs (xe - xs) 0 s) as [|first others] eqn:Epg;
    [reflexivity|].
  cbn [bind left_column_boxes right_column_boxes layout_height].
  set (best := max_from gap_width_centers first others).
  assert (Hin : In best (potential_gutters xs (xe - xs) 0 s)).
  { rewrite Epg. apply max_from_In. }
  pose proof Hin as Hin'.
  rewrite (potential_gutters_cx xs (xe - xs) 0 s s' Hcx) in Hin'.
  apply potential_gutters_split in Hin
    as (l1 & a & b & l2 & Es & Hi & _ & _ & Hpos).
  apply potential_gutters_split in Hin'
    as (l1' & a' & b' & l2' & Es' & Hi' & _ & _ & Hpos').
  cbn [Nat.add] in Hi, Hi'.
  assert (Hps : Permutation s s').
  { unfold s, s'. now rewrite <- !py_sorted_perm. }
  assert (Hoks : Forall centred_ok s)
    by now apply (Permutation_Forall (py_sorted_perm cx cs)).
  assert (Hoks' : Forall centred_ok s')
    by now apply (Permutation_Forall (py_sorted_perm cx cs')).
  pose proof (py_sorted_kc cs Hok) as Hsorted. fold s in Hsorted.
  pose proof (py_sorted_kc cs' Hok') as Hsorted'. fold s' in Hsorted'.
  rewrite Forall_forall in Hoks, Hoks'.
  assert (Hoka : centred_ok a)
    by (apply Hoks; rewrite Es; apply in_or_app; right; now left).
  assert (Hokb : centred_ok b)
    by (apply Hoks; rewrite Es; apply in_or_app; right; right; now left).
  assert (Hoka' : centred_ok a')
    by (apply Hoks'; rewrite Es'; apply in_or_app; right; now left).
  assert (Hokb' : centred_ok b')
    by (apply Hoks'; rewrite Es'; apply in_or_app; right; right; now left).
  assert (Hka : kc a = kc a').
  { apply half_injective. rewrite <- Hoka, <- Hoka'.
    rewrite Es, Es' in Hcx. apply (map_middle_eq cx _ _ _ _ _ _ Hcx). lia. }
  assert (Hkb : kc b = kc b').
  { apply half_injective. rewrite <- Hokb, <- Hokb'.
    rewrite Es, Es' in Hcx.
    replace (l1 ++ a :: b :: l2) with ((l1 ++ [a]) ++ b :: l2) in Hcx
      by (now rewrite <- app_assoc).
    replace (l1' ++ a' :: b' :: l2') with ((l1' ++ [a']) ++ b' :: l2') in Hcx
      by (now rewrite <- app_assoc).
    apply (map_middle_eq cx _ _ _ _ _ _ Hcx). rewrite !length_app. cbn. lia. }
  assert (Hab : kc a < kc b).
  { rewrite Hoka, Hokb in Hpos. exact (proj1 (half_gap_pos _ _) Hpos). }
  rewrite Es in Hsorted. rewrite Es' in Hsorted'.
  destruct (sorted_gap_sides kc l1 l2 a b Hsorted Hab) as (Hf & Hk & _).
  destruct (sorted_gap_sides kc l1' l2' a' b' Hsorted') as (Hf' & Hk' & _);
    [lia|].
  rewrite <- Es in Hf, Hk. rewrite <- Es' in Hf', Hk'.
  assert (Hll : length l1' = length l1) by lia.
  rewrite Hll in Hf', Hk'.
  rewrite Hi, Hf, Hk, Hf', Hk', <- Hka, <- Hkb.
  apply validate_columns_Permutation;
    apply Permutation_map, filter_Permutation, Hps.
Qed.

(** Of the exact program: the order in which the text boxes are listed does not matter: two
    layouts with the same layout box whose text boxes are a rearrangement of
    one another get the same result, an exception included. *)
Theorem text_box_order_is_irrelevant_exact (l l' : layout) (tbs tbs' : list BBox) :
  bbox_layout l = bbox_layout l' ->
  bbox_text l = Some tbs -> bbox_text l' = Some tbs' ->
  Permutation tbs tbs' ->
  fst (detect_two_columns_site l) = fst (detect_two_columns_site l')
  /\ fst (detect_two_columns l) = fst (detect_two_columns l').
Proof.
  intros Hb Ht Ht' Hp.
  assert (Hsite : fst (detect_two_columns_site l)
                  = fst (detect_two_columns_site l')).
  { rewrite !detect_two_columns_site_run. cbn [fst]. rewrite <- Hb, Ht, Ht'.
    destruct (bbox_layout l) as [[|x lb']|]; try reflexivity.
    destruct tbs as [|t r].
    - apply Permutation_nil in Hp. now subst.
    - destruct tbs' as [|t' r'].
      + apply Permutation_sym, Permutation_nil in Hp. discriminate.
      + now apply classify_Permutation. }
  split; [exact Hsite|].
  rewrite !detect_two_columns_run. cbn [fst]. now rewrite Hsite.
Qed.

Lemma non_spanning_boxes_drop (lb b : BBox) (pre post : list BBox) :
  _is_likely_spanning_box b lb = Ok true ->
  non_spanning_boxes lb (pre ++ b :: post) = non_spanning_boxes lb (pre ++ post).
Proof.
  intros Hb. induction pre as [|x pre IH]; cbn [app non_spanning_boxes].
  - rewrite Hb. cbn [bind].
    destruct (non_spanning_boxes lb post); reflexivity.
  - now rewrite IH.
Qed.

(** ** [find_min_width] *)

Lemma occurs_before_cons {A} (a b x : A) (t : list A) :
  occurs_before a b (x :: t) <-> (a = x /\ In b t) \/ occurs_before a b t.
Proof.
  unfold occurs_before. split.
  - intros (l1 & l2 & l3 & E). destruct l1 as [|y l1]; cbn in E.
    + injection E as -> ->. left. split; [reflexivity|].
      apply in_or_app. right. now left.
    + injection E as -> ->. right. now exists l1, l2, l3.
  - intros [[-> Hb] | (l1 & l2 & l3 & ->)].
    + apply in_split in Hb as (l2 & l3 & ->). now exists [], l2, l3.
    + now exists (x :: l1), l2, l3.
Qed.

Lemma combinations2_In {A} (a b : A) (l : list A) :
  In (a, b) (combinations2 l) <-> occurs_before a b l.
Proof.
  induction l as [|x t IH]; cbn [combinations2].
  - split; [intros []|]. intros (l1 & l2 & l3 & E). destruct l1; discriminate.
  - rewrite occurs_before_cons, in_app_iff, IH, in_map_iff. split.
    + intros [(y & [= <- <-] & Hy) | H]; auto.
    + intros [[-> Hb] | H]; auto. left. now exists b.
Qed.

(** What [pair_gap] computes on two well-formed boxes. *)
Lemma pair_gap_wf (b1_x_start b1_y_start b1_x_end b1_y_end : Z)
    (b2_x_start b2_y_start b2_x_end b2_y_end : Z) :
  pair_gap [b1_x_start; b1_y_start; b1_x_end; b1_y_end]
           [b2_x_start; b2_y_start; b2_x_end; b2_y_end]
  = Ok (Z.max (b2_x_start - b1_x_end) (b1_x_start - b2_x_end)).
Proof.
  unfold pair_gap. cbn [unpack4 bind].
  destruct (Qlt_bool _ _) eqn:E; f_equal.
  - apply Qlt_bool_iff in E. unfold Qlt in E. cbn -[Z.mul Z.add] in E. lia.
  - apply Qlt_bool_false in E. unfold Qle in E. cbn -[Z.mul Z.add] in E. lia.
Qed.

Lemma in_same_level_Ok_inv (a b : BBox) (margin : Z) (r : bool) :
  in_same_level a b margin = Ok r -> length a = 4%nat /\ length b = 4%nat.
Proof.
  unfold in_same_level.
  destruct (unpack4 a) as [t|e] eqn:Ea; [|discriminate].
  destruct (unpack4 b) as [u|e] eqn:Eb.
  - apply unpack4_Ok in Ea as (? & ? & ? & ? & -> & _).
    apply unpack4_Ok in Eb as (? & ? & ? & ? & -> & _). now split.
  - destruct t as [[[? ?] ?] ?]. cbn. discriminate.
Qed.

Lemma in_same_level_Raise (a b : BBox) (margin : Z) (e : exn) :
  in_same_level a b margin = Raise e -> e = ValueError.
Proof.
  unfold in_same_level.
  destruct (unpack4 a) as [[[[? ?] ?] ?]|e1] eqn:Ea; cbn [bind].
  - destruct (unpack4 b) as [[[[? ?] ?] ?]|e2] eqn:Eb; cbn [bind].
    + discriminate.
    + intros [= <-]. now apply unpack4_Raise in Eb.
  - intros [= <-]. now apply unpack4_Raise in Ea.
Qed.

Lemma length4_inv (b : BBox) :
  length b = 4%nat -> exists x0 y0 x1 y1, b = [x0; y0; x1; y1].
Proof.
  destruct b as [|x0 [|y0 [|x1 [|y1 [|? ?]]]]]; try discriminate.
  intros _. now exists x0, y0, x1, y1.
Qed.

(** The running minimum of the loop. *)
Lemma scan_pairs_spec (pairs : list (BBox * BBox)) (margin start r : Z) :
  scan_pairs pairs margin start = Ok r ->
  r <= start
  /\ (r = start
      \/ exists a b, In (a, b) pairs /\ in_same_level a b margin = Ok true
                     /\ pair_gap a b = Ok r /\ 0 < r)
  /\ (forall a b g, In (a, b) pairs -> in_same_level a b margin = Ok true ->
        pair_gap a b = Ok g -> 0 < g -> r <= g).
Proof.
  revert start. induction pairs as [|[a b] rest IH]; intros start;
    cbn [scan_pairs].
  - intros [= <-]. split; [lia|]. split; [now left|]. intros ? ? ? [].
  - destruct (in_same_level a b margin) as [same|e] eqn:Es; cbn [bind];
      [|discriminate].
    destruct same.
    + destruct (pair_gap a b) as [gap|e] eqn:Eg; cbn [bind]; [|discriminate].
      intros Hscan. destruct (IH _ Hscan) as (Hle & Hatt & Hmin).
      destruct (Z.ltb_spec 0 gap) as [Hpos | Hneg].
      * split; [lia|]. split.
        -- destruct Hatt as [-> | (a' & b' & Hin & H1 & H2 & H3)].
           ++ destruct (Z.min_spec start gap) as [[_ ->] | [_ ->]];
                [now left|].
              right. exists a, b. repeat split; auto. now left.
           ++ right. exists a', b'. repeat split; auto. now right.
        -- intros a' b' g [[= <- <-] | Hin] H1 H2 H3.
           ++ rewrite Eg in H2. injection H2 as <-. lia.
           ++ eauto.
      * split; [lia|]. split.
        -- destruct Hatt as [-> | (a' & b' & Hin & H1 & H2 & H3)];
             [now left|].
           right. exists a', b'. repeat split; auto. now right.
        -- intros a' b' g [[= <- <-] | Hin] H1 H2 H3.
           ++ rewrite Eg in H2. injection H2 as <-. lia.
           ++ eauto.
    + intros Hscan. destruct (IH _ Hscan) as (Hle & Hatt & Hmin).
      split; [lia|]. split.
      * destruct Hatt as [-> | (a' & b' & Hin & H1 & H2 & H3)];
          [now left|].
        right. exists a', b'. repeat split; auto. now right.
      * intros a' b' g [[= <- <-] | Hin] H1 H2 H3; [congruence|eauto].
Qed.

Lemma occurs_before_length {A} (a b : A) (l : list A) :
  occurs_before a b l -> (2 <= length l)%nat.
Proof.
  intros (l1 & l2 & l3 & ->). rewrite !length_app. cbn.
  rewrite length_app. cbn. lia.
Qed.

(** Of the exact program: the gap of a pair of well-formed boxes is the signed horizontal
    distance between them, the larger of "left edge of one minus right edge
    of the other" taken both ways; it does not depend on the order of the
    two boxes. *)
Theorem pair_gap_is_horizontal_distance_exact
    (b1_x_start b1_y_start b1_x_end b1_y_end : Z)
    (b2_x_start b2_y_start b2_x_end b2_y_end : Z) :
  let box_1 := [b1_x_start; b1_y_start; b1_x_end; b1_y_end] in
  let box_2 := [b2_x_start; b2_y_start; b2_x_end; b2_y_end] in
  pair_gap box_1 box_2
  = Ok (Z.max (b2_x_start - b1_x_end) (b1_x_start - b2_x_end))
  /\ pair_gap box_1 box_2 = pair_gap box_2 box_1.
Proof.
  cbn zeta. rewrite !pair_gap_wf. split; [reflexivity|].
  now rewrite Z.max_comm.
Qed.

Lemma scan_pairs_total (pairs : list (BBox * BBox)) (margin start : Z) :
  (forall a b, In (a, b) pairs -> length a = 4%nat /\ length b = 4%nat) ->
  exists r, scan_pairs pairs margin start = Ok r.
Proof.
  revert start. induction pairs as [|[a b] rest IH]; intros start Hwf;
    cbn [scan_pairs]; [eauto|].
  destruct (Hwf a b (or_introl eq_refl)) as [Ha Hb].
  apply length4_inv in Ha as (? & ? & ? & ? & ->).
  apply length4_inv in Hb as (? & ? & ? & ? & ->).
  rewrite in_same_level_wf, pair_gap_wf. cbn zeta. cbn [bind].
  destruct (_ && _); apply IH; intros; apply Hwf; now right.
Qed.

Lemma scan_pairs_Ok_inv (pairs : list (BBox * BBox)) (margin start r : Z) :
  scan_pairs pairs margin start = Ok r ->
  forall a b, In (a, b) pairs -> length a = 4%nat /\ length b = 4%nat.
Proof.
  revert start. induction pairs as [|[a b] rest IH]; intros start;
    cbn [scan_pairs]; [intros _ ? ? []|].
  destruct (in_same_level a b margin) as [same|e] eqn:Es; cbn [bind];
    [|discriminate].
  pose proof (in_same_level_Ok_inv _ _ _ _ Es) as Hab.
  destruct same.
  - destruct (pair_gap a b) as [gap|e]; cbn [bind]; [|discriminate].
    intros Hscan a' b' [[= <- <-] | Hin]; [exact Hab|].
    exact (IH _ Hscan a' b' Hin).
  - intros Hscan a' b' [[= <- <-] | Hin]; [exact Hab|].
    exact (IH _ Hscan a' b' Hin).
Qed.

Lemma scan_pairs_Raise (pairs : list (BBox * BBox)) (margin start : Z)
    (e : exn) :
  scan_pairs pairs margin start = Raise e -> e = ValueError.
Proof.
  revert start. induction pairs as [|[a b] rest IH]; intros start;
    cbn [scan_pairs]; [discriminate|].
  destruct (in_same_level a b margin) as [same|e'] eqn:Es; cbn [bind].
  - pose proof (in_same_level_Ok_inv _ _ _ _ Es) as [Ha Hb].
    apply length4_inv in Ha as (? & ? & ? & ? & ->).
    apply length4_inv in Hb as (? & ? & ? & ? & ->).
    rewrite pair_gap_wf. cbn [bind]. destruct same; apply IH.
  - intros [= <-]. now apply in_same_level_Raise in Es.
Qed.

Lemma every_box_is_paired {A} (x : A) (l : list A) :
  (2 <= length l)%nat -> In x l ->
  exists y, occurs_before x y l \/ occurs_before y x l.
Proof.
  intros Hlen Hx. apply in_split in Hx as (l1 & l2 & ->).
  destruct l2 as [|y l2].
  - destruct (exists_last (l := l1)) as (l1' & y & ->).
    { intros ->. cbn in Hlen. lia. }
    exists y. right. exists l1', [], []. now rewrite <- app_assoc.
  - exists y. left. now exists l1, [], l2.
Qed.

Lemma scan_combinations_Ok_iff (tbs : list BBox) (margin start : Z) :
  (2 <= length tbs)%nat ->
  (exists r, scan_pairs (combinations2 tbs) margin start = Ok r)
  <-> Forall (fun b => length b = 4%nat) tbs.
Proof.
  intros Hlen. split.
  - intros [r Hr]. apply Forall_forall. intros b Hb.
    destruct (every_box_is_paired b tbs Hlen Hb) as [y [Hy | Hy]];
      apply combinations2_In in Hy;
      now apply (scan_pairs_Ok_inv _ _ _ _ Hr) in Hy.
  - intros Hwf. apply scan_pairs_total. intros a b Hin.
    apply combinations2_In in Hin as (l1 & l2 & l3 & ->).
    rewrite Forall_forall in Hwf. split; apply Hwf.
    + apply in_or_app. right. now left.
    + apply in_or_app. right. right. apply in_or_app. right. now left.
Qed.

(** Of the exact program: [find_min_width] returns the start value when ['bbox_text'] is
    absent or holds fewer than two boxes, whatever the boxes are; with two
    boxes or more it returns exactly when every text box has four items, and
    otherwise raises [ValueError]. *)
Theorem find_min_width_exceptions_exact (l : layout)
    (height_margin start_min_width : Z) :
  (bbox_text l = None ->
   fst (find_min_width height_margin start_min_width l) = Ok start_min_width)
  /\ (forall tbs,
        bbox_text l = Some tbs -> (length tbs < 2)%nat ->
        fst (find_min_width height_margin start_min_width l)
        = Ok start_min_width)
  /\ (forall tbs,
        bbox_text l = Some tbs -> (2 <= length tbs)%nat ->
        ((exists r, fst (find_min_width height_margin start_min_width l) = Ok r)
         <-> Forall (fun b => length b = 4%nat) tbs)
        /\ (fst (find_min_width height_margin start_min_width l)
            = Raise ValueError
            <-> ~ Forall (fun b => length b = 4%nat) tbs)).
Proof.
  unfold find_min_width, mbind, dict_get, mret, pure.
  split; [|split].
  - now intros ->.
  - intros tbs -> Hlen. destruct (Nat.ltb_spec (length tbs) 2); [reflexivity|lia].
  - intros tbs -> Hlen. destruct (Nat.ltb_spec (length tbs) 2); [lia|].
    cbn [fst].
    pose proof (scan_combinations_Ok_iff tbs height_margin start_min_width
                  Hlen) as Hiff.
    split; [exact Hiff|].
    destruct (scan_pairs _ _ _) as [r|e] eqn:Es.
    + split; [discriminate|]. intros Hn. exfalso. apply Hn, Hiff. eauto.
    + apply scan_pairs_Raise in Es as ->. split; [|reflexivity].
      intros _ Hwf. apply Hiff in Hwf as [r Hr]. discriminate.
Qed.

Lemma occurs_before_Permutation {A} (l l' : list A) :
  Permutation l l' ->
  forall a b, occurs_before a b l ->
              occurs_before a b l' \/ occurs_before b a l'.
Proof.
  induction 1 as [|x l l' Hp IH|x y l|l l' l'' _ IH1 _ IH2]; intros a b Hocc.
  - destruct Hocc as (l1 & l2 & l3 & E). destruct l1; discriminate.
  - apply occurs_before_cons in Hocc as [[-> Hb] | Hocc].
    + left. apply occurs_before_cons. left. split; [reflexivity|].
      exact (Permutation_in _ Hp Hb).
    + destruct (IH a b Hocc) as [H | H]; [left | right];
        apply occurs_before_cons; now right.
  - apply occurs_before_cons in Hocc as [[-> Hb] | Hocc].
    + destruct Hb as [<- | Hb].
      * right. apply occurs_before_cons. left. split; [reflexivity|now left].
      * left. apply occurs_before_cons. right.
        apply occurs_before_cons. now left.
    + apply occurs_before_cons in Hocc as [[-> Hb] | Hocc].
      * left. apply occurs_before_cons. left. split; [reflexivity|now right].
      * left. apply occurs_before_cons. right.
        apply occurs_before_cons. now right.
  - destruct (IH1 a b Hocc) as [H | H].
    + exact (IH2 a b H).
    + destruct (IH2 b a H) as [H' | H']; [now right|now left].
Qed.

(** The result of the scan is determined by the set of same-level pairs. *)
Lemma scan_combinations_Permutation (tbs tbs' : list BBox)
    (margin start r r' : Z) :
  Permutation tbs tbs' ->
  scan_pairs (combinations2 tbs) margin start = Ok r ->
  scan_pairs (combinations2 tbs') margin start = Ok r' ->
  r' <= r.
Proof.
  intros Hp Hr Hr'.
  apply scan_pairs_spec in Hr as (Hle & Hatt & _).
  apply scan_pairs_spec in Hr' as (Hle' & _ & Hmin').
  destruct Hatt as [-> | (a & b & Hin & Hsame & Hgap & Hpos)]; [exact Hle'|].
  apply combinations2_In in Hin.
  destruct (occurs_before_Permutation _ _ Hp a b Hin) as [H | H];
    apply combinations2_In in H.
  - exact (Hmin' a b r H Hsame Hgap Hpos).
  - apply (Hmin' b a r H).
    + now rewrite in_same_level_comm.
    + pose proof (in_same_level_Ok_inv _ _ _ _ Hsame) as [Ha Hb].
      apply length4_inv in Ha as (? & ? & ? & ? & ->).
      apply length4_inv in Hb as (? & ? & ? & ? & ->).
      rewrite pair_gap_wf in *. now rewrite Z.max_comm.
    + exact Hpos.
Qed.

(** Of the exact program: [find_min_width] does not depend on the order in which the text
    boxes are listed, nor on any other field of the layout. *)
Theorem find_min_width_order_is_irrelevant_exact (l l' : layout)
    (tbs tbs' : list BBox) (height_margin start_min_width : Z) :
  bbox_text l = Some tbs -> bbox_text l' = Some tbs' ->
  Permutation tbs tbs' ->
  fst (find_min_width height_margin start_min_width l)
  = fst (find_min_width height_margin start_min_width l').
Proof.
  intros Ht Ht' Hp.
  unfold find_min_width, mbind, dict_get, mret, pure. rewrite Ht, Ht'.
  rewrite <- (Permutation_length Hp).
  destruct (Nat.ltb_spec (length tbs) 2) as [Hshort | Hlong]; [reflexivity|].
  cbn [fst].
  pose proof (scan_combinations_Ok_iff tbs height_margin start_min_width
                Hlong) as Hiff.
  assert (Hlong' : (2 <= length tbs')%nat)
    by (rewrite <- (Permutation_length Hp); exact Hlong).
  pose proof (scan_combinations_Ok_iff tbs' height_margin start_min_width
                Hlong') as Hiff'.
  destruct (scan_pairs (combinations2 tbs) _ _) as [r|e] eqn:Er,
           (scan_pairs (combinations2 tbs') _ _) as [r'|e'] eqn:Er'.
  - f_equal.
    pose proof (scan_combinations_Permutation _ _ _ _ _ _ Hp Er Er').
    pose proof (scan_combinations_Permutation _ _ _ _ _ _
                  (Permutation_sym Hp) Er' Er).
    lia.
  - exfalso. assert (Hwf : Forall (fun b => length b = 4%nat) tbs')
      by (apply (Permutation_Forall Hp), Hiff; eauto).
    apply Hiff' in Hwf as [? ?]. discriminate.
  - exfalso. assert (Hwf : Forall (fun b => length b = 4%nat) tbs)
      by (apply (Permutation_Forall (Permutation_sym Hp)), Hiff'; eauto).
    apply Hiff in Hwf as [? ?]. discriminate.
  - apply scan_pairs_Raise in Er, Er'. congruence.
Qed.

(** ** Moving a layout on the page *)

Lemma shift_box_length (dx dy : Z) (b : BBox) :
  length (shift_box dx dy b) = length b.
Proof. destruct b as [|? [|? [|? [|? [|? ?]]]]]; reflexivity. Qed.

Lemma shift_box_items (dx dy : Z) (b : BBox) :
  length b = 4%nat ->
  item (shift_box dx dy b) 0 = item b 0 + dx
  /\ item (shift_box dx dy b) 1 = item b 1 + dy
  /\ item (shift_box dx dy b) 2 = item b 2 + dx
  /\ item (shift_box dx dy b) 3 = item b 3 + dy.
Proof.
  destruct b as [|? [|? [|? [|? [|? ?]]]]]; try discriminate.
  repeat split; reflexivity.
Qed.

Lemma spanning_shift (dx dy : Z) (b lb : BBox) :
  _is_likely_spanning_box (shift_box dx dy b) (shift_box dx dy lb)
  = _is_likely_spanning_box b lb.
Proof.
  destruct (Nat.eq_dec (length b) 4) as [Hb | Hb].
  - apply length4_inv in Hb as (x0 & y0 & x1 & y1 & ->).
    destruct (Nat.eq_dec (length lb) 4) as [Hl | Hl].
    + apply length4_inv in Hl as (xs & ys & xe & ye & ->).
      unfold _is_likely_spanning_box. cbn [shift_box unpack4 bind].
      replace (x1 + dx - (x0 + dx)) with (x1 - x0) by lia.
      replace (xe + dx - (xs + dx)) with (xe - xs) by lia.
      reflexivity.
    + rewrite (shift_box_malformed dx dy lb Hl).
      unfold _is_likely_spanning_box. cbn [shift_box unpack4 bind].
      destruct (unpack4 lb) as [t|e] eqn:E; [|reflexivity].
      apply unpack4_Ok in E as (? & ? & ? & ? & -> & _). cbn in Hl. lia.
  - rewrite (shift_box_malformed dx dy b Hb).
    unfold _is_likely_spanning_box.
    destruct (unpack4 b) as [t|e] eqn:E; [|reflexivity].
    apply unpack4_Ok in E as (? & ? & ? & ? & -> & _). cbn in Hb. lia.
Qed.

Lemma non_spanning_shift (dx dy : Z) (lb : BBox) (tbs : list BBox) :
  non_spanning_boxes (shift_box dx dy lb) (map (shift_box dx dy) tbs)
  = (kept <- non_spanning_boxes lb tbs ;; Ok (map (shift_box dx dy) kept)).
Proof.
  induction tbs as [|b tbs IH]; [reflexivity|].
  cbn [map non_spanning_boxes]. rewrite spanning_shift, IH.
  destruct (_is_likely_spanning_box b lb) as [sp|e]; cbn [bind]; [|reflexivity].
  destruct (non_spanning_boxes lb tbs) as [k|e]; cbn [bind]; [|reflexivity].
  destruct sp; reflexivity.
Qed.

Lemma centered_boxes_shift (dx dy : Z) (ns : list BBox) :
  centered_boxes (map (shift_box dx dy) ns)
  = map (shift_centered dx dy) (centered_boxes ns).
Proof. unfold centered_boxes. rewrite !map_map. reflexivity. Qed.

Lemma kc_shift (dx dy : Z) (c : centered) :
  length (bbox c) = 4%nat -> kc (shift_centered dx dy c) = kc c + 2 * dx.
Proof.
  intros H. unfold kc, key2. cbn [bbox shift_centered].
  destruct (shift_box_items dx dy (bbox c) H) as (-> & _ & -> & _). lia.
Qed.

Lemma centre_le_Z (a b : centered) :
  centred_ok a -> centred_ok b ->
  Qle_bool (cx a) (cx b) = (kc a <=? kc b).
Proof.
  intros Ha Hb. rewrite Ha, Hb.
  destruct (Z.leb_spec (kc a) (kc b)) as [H | H].
  - apply Qle_bool_iff. exact (proj2 (half_le _ _) H).
  - destruct (Qle_bool _ _) eqn:E; [|reflexivity].
    apply Qle_bool_iff in E. pose proof (proj1 (half_le _ _) E). lia.
Qed.

Lemma insert_by_shift (dx dy : Z) (x : centered) (l : list centered) :
  sound_centred x -> Forall sound_centred l ->
  insert_by cx (shift_centered dx dy x) (map (shift_centered dx dy) l)
  = map (shift_centered dx dy) (insert_by cx x l).
Proof.
  intros [Hx Hx4]. induction 1 as [|y l [Hy Hy4] _ IH]; [reflexivity|].
  cbn [map insert_by].
  rewrite (centre_le_Z (shift_centered dx dy x) (shift_centered dx dy y))
    by reflexivity.
  rewrite (centre_le_Z x y Hx Hy), !kc_shift by assumption.
  destruct (Z.leb_spec (kc x + 2 * dx) (kc y + 2 * dx)),
           (Z.leb_spec (kc x) (kc y)); try lia; [reflexivity|].
  cbn [map]. now rewrite IH.
Qed.

Lemma py_sorted_shift (dx dy : Z) (cs : list centered) :
  Forall sound_centred cs ->
  py_sorted cx (map (shift_centered dx dy) cs)
  = map (shift_centered dx dy) (py_sorted cx cs).
Proof.
  induction 1 as [|x l Hx Hl IH]; [reflexivity|].
  cbn [map py_sorted fold_right]. fold (py_sorted cx l).
  fold (py_sorted cx (map (shift_centered dx dy) l)).
  rewrite IH. apply insert_by_shift; [exact Hx|].
  now apply (Permutation_Forall (py_sorted_perm cx l)).
Qed.

Lemma gap_between_shift (dx dy xs W : Z) (i : nat) (a b : centered) :
  sound_centred a -> sound_centred b ->
  Forall2 same_gap
    (gap_between xs W i a b)
    (gap_between (xs + dx) W i (shift_centered dx dy a)
                 (shift_centered dx dy b)).
Proof.
  intros [Ha Ha4] [Hb Hb4].
  pose proof (kc_shift dx dy a Ha4) as Ka.
  pose proof (kc_shift dx dy b Hb4) as Kb.
  assert (Ha' : centred_ok (shift_centered dx dy a)) by reflexivity.
  assert (Hb' : centred_ok (shift_centered dx dy b)) by reflexivity.
  destruct (gap_between xs W i a b) as [|g r] eqn:E,
           (gap_between (xs + dx) W i (shift_centered dx dy a)
                        (shift_centered dx dy b)) as [|g' r'] eqn:E';
    [constructor| | |].
  - exfalso.
    assert (Hin : In g' (gap_between (xs + dx) W i (shift_centered dx dy a)
                                     (shift_centered dx dy b)))
      by (rewrite E'; now left).
    apply gap_between_In in Hin as (_ & Hband & Hpos).
    rewrite Ha', Hb' in Hband, Hpos.
    pose proof (proj1 (half_band _ _ _ _) Hband).
    pose proof (proj1 (half_gap_pos _ _) Hpos).
    assert (Hg : In (mkGutter ((cx a + cx b) / 2)%Q (cx b - cx a)%Q i)
                    (gap_between xs W i a b)).
    { apply gap_between_In. split; [reflexivity|]. rewrite Ha, Hb. split.
      - apply (proj2 (half_band _ _ _ _)). lia.
      - apply (proj2 (half_gap_pos _ _)). lia. }
    rewrite E in Hg. destruct Hg.
  - exfalso.
    assert (Hin : In g (gap_between xs W i a b)) by (rewrite E; now left).
    apply gap_between_In in Hin as (_ & Hband & Hpos).
    rewrite Ha, Hb in Hband, Hpos.
    pose proof (proj1 (half_band _ _ _ _) Hband).
    pose proof (proj1 (half_gap_pos _ _) Hpos).
    assert (Hg : In (mkGutter
                       ((cx (shift_centered dx dy a)
                         + cx (shift_centered dx dy b)) / 2)%Q
                       (cx (shift_centered dx dy b)
                        - cx (shift_centered dx dy a))%Q i)
                    (gap_between (xs + dx) W i (shift_centered dx dy a)
                                 (shift_centered dx dy b))).
    { apply gap_between_In. split; [reflexivity|]. rewrite Ha', Hb'. split.
      - apply (proj2 (half_band _ _ _ _)). lia.
      - apply (proj2 (half_gap_pos _ _)). lia. }
    rewrite E' in Hg. destruct Hg.
  - assert (Hin : In g (gap_between xs W i a b)) by (rewrite E; now left).
    assert (Hin' : In g' (gap_between (xs + dx) W i (shift_centered dx dy a)
                                      (shift_centered dx dy b)))
      by (rewrite E'; now left).
    apply gap_between_In in Hin as (-> & _).
    apply gap_between_In in Hin' as (-> & _).
    assert (Hr : r = []).
    { revert E. unfold gap_between. cbn zeta.
      destruct (_ && _); [intros H0; now inversion H0|discriminate]. }
    assert (Hr' : r' = []).
    { revert E'. unfold gap_between. cbn zeta.
      destruct (_ && _); [intros H0; now inversion H0|discriminate]. }
    subst r r'. constructor; [|constructor].
    split; [reflexivity|]. cbn [gap_width_centers].
    rewrite Ha', Hb', Ha, Hb, !half_gap, Ka, Kb.
    now replace (kc b + 2 * dx - (kc a + 2 * dx)) with (kc b - kc a) by lia.
Qed.

Lemma potential_gutters_shift (dx dy xs W : Z) (i : nat) (s : list centered) :
  Forall sound_centred s ->
  Forall2 same_gap
    (potential_gutters xs W i s)
    (potential_gutters (xs + dx) W i (map (shift_centered dx dy) s)).
Proof.
  intros Hs. revert i. induction Hs as [|a s Ha Hs IH]; intros i;
    [constructor|].
  destruct Hs as [|b rest Hb Hrest]; [constructor|].
  cbn [map]. rewrite !potential_gutters_step.
  apply Forall2_app; [now apply gap_between_shift|].
  apply (IH (S i)).
Qed.

Lemma max_from_same_gap (first first' : gutter) (others others' : list gutter) :
  same_gap first first' -> Forall2 same_gap others others' ->
  same_gap (max_from gap_width_centers first others)
           (max_from gap_width_centers first' others').
Proof.
  intros Hf Ho. revert first first' Hf.
  induction Ho as [|x x' l l' Hx _ IH]; intros b b' Hb; [exact Hb|].
  cbn [max_from]. apply IH.
  assert (E : Qlt_bool (gap_width_centers b') (gap_width_centers x')
              = Qlt_bool (gap_width_centers b) (gap_width_centers x)).
  { unfold Qlt_bool. f_equal. apply Qleb_comp; [apply Hx|apply Hb]. }
  rewrite E. clear E. destruct (Qlt_bool _ _); assumption.
Qed.

Lemma sort_Z_shift (d : Z) (l : list Z) :
  sort_Z (map (fun x => x + d) l) = map (fun x => x + d) (sort_Z l).
Proof.
  apply sorted_Z_unique.
  - apply sort_Z_sorted.
  - apply StronglySorted_map.
    apply (StronglySorted_weaken Z.le _ (fun _ => True)).
    + intros. lia.
    + apply Forall_forall. auto.
    + apply sort_Z_sorted.
  - rewrite <- sort_Z_perm. apply Permutation_map, sort_Z_perm.
Qed.

Lemma np_median_shift (d : Z) (l : list Z) :
  l <> [] ->
  (np_median (map (fun x => (x + d)%Z) l) == np_median l + inject_Z d)%Q.
Proof.
  intros Hne. unfold np_median. rewrite sort_Z_shift, length_map.
  set (s := sort_Z l). set (n := length s).
  assert (Hn : (0 < n)%nat).
  { unfold n, s. rewrite sort_Z_length. destruct l; [congruence|cbn; lia]. }
  pose proof (Nat.div_mod_eq n 2) as Hdiv.
  pose proof (Nat.mod_upper_bound n 2 ltac:(lia)) as Hmod.
  assert (Hnth : forall j, (j < n)%nat ->
            nth j (map (fun x => x + d) s) 0 = nth j s 0 + d).
  { intros j Hj.
    rewrite (nth_indep _ 0 (0 + d)) by (rewrite length_map; exact Hj).
    apply (map_nth (fun x => x + d)). }
  rewrite !Hnth by lia.
  destruct (Nat.even n).
  - rewrite !inject_Z_plus. field.
  - rewrite inject_Z_plus. reflexivity.
Qed.

Lemma fold_min_shift (d : Z) (l : list Z) (a : Z) :
  fold_left Z.min (map (fun y => y + d) l) (a + d) = fold_left Z.min l a + d.
Proof.
  revert a. induction l as [|x l IH]; intros a; [reflexivity|].
  cbn [map fold_left]. rewrite <- IH. f_equal. lia.
Qed.

Lemma fold_max_shift (d : Z) (l : list Z) (a : Z) :
  fold_left Z.max (map (fun y => y + d) l) (a + d) = fold_left Z.max l a + d.
Proof.
  revert a. induction l as [|x l IH]; intros a; [reflexivity|].
  cbn [map fold_left]. rewrite <- IH. f_equal. lia.
Qed.

Lemma py_min_shift (d : Z) (l : list Z) :
  py_min (map (fun y => y + d) l) = (m <- py_min l ;; Ok (m + d)).
Proof.
  destruct l as [|x l]; [reflexivity|]. cbn [map py_min bind].
  now rewrite fold_min_shift.
Qed.

Lemma py_max_shift (d : Z) (l : list Z) :
  py_max (map (fun y => y + d) l) = (m <- py_max l ;; Ok (m + d)).
Proof.
  destruct l as [|x l]; [reflexivity|]. cbn [map py_max bind].
  now rewrite fold_max_shift.
Qed.

Lemma map_item_shift (dx dy : Z) (L : list BBox) :
  Forall (fun b => length b = 4%nat) L ->
  map (fun b => item b 0) (map (shift_box dx dy) L)
  = map (fun x => x + dx) (map (fun b => item b 0) L)
  /\ map (fun b => item b 1) (map (shift_box dx dy) L)
     = map (fun y => y + dy) (map (fun b => item b 1) L)
  /\ map (fun b => item b 2) (map (shift_box dx dy) L)
     = map (fun x => x + dx) (map (fun b => item b 2) L)
  /\ map (fun b => item b 3) (map (shift_box dx dy) L)
     = map (fun y => y + dy) (map (fun b => item b 3) L).
Proof.
  intros HL. rewrite Forall_forall in HL. rewrite !map_map.
  repeat split; apply map_ext_in; intros b Hb;
    destruct (shift_box_items dx dy b (HL b Hb)) as (H0 & H1 & H2 & H3);
    assumption.
Qed.

Lemma validate_vertical_shift (dx dy : Z) (L R : list BBox) (H : Z) :
  Forall (fun b => length b = 4%nat) L ->
  Forall (fun b => length b = 4%nat) R ->
  validate_vertical (map (shift_box dx dy) L) (map (shift_box dx dy) R) H
  = validate_vertical L R H.
Proof.
  intros HL HR. unfold validate_vertical. rewrite !length_map.
  destruct (map_item_shift dx dy L HL) as (_ & -> & _ & ->).
  destruct (map_item_shift dx dy R HR) as (_ & -> & _ & ->).
  rewrite !py_min_shift, !py_max_shift.
  destruct (_ || _); [reflexivity|].
  destruct (py_min (map (fun b => item b 1) L)) as [minL|e]; cbn [bind];
    [|reflexivity].
  destruct (py_max (map (fun b => item b 3) L)) as [maxL|e]; cbn [bind];
    [|reflexivity].
  destruct (py_min (map (fun b => item b 1) R)) as [minR|e]; cbn [bind];
    [|reflexivity].
  destruct (py_max (map (fun b => item b 3) R)) as [maxR|e]; cbn [bind];
    [|reflexivity].
  replace (maxL + dy - (minL + dy)) with (maxL - minL) by lia.
  replace (maxR + dy - (minR + dy)) with (maxR - minR) by lia.
  replace (Z.min (maxL + dy) (maxR + dy) - Z.max (minL + dy) (minR + dy))
    with (Z.min maxL maxR - Z.max minL minR) by lia.
  reflexivity.
Qed.

Lemma validate_columns_shift (dx dy : Z) (L R : list BBox) (H : Z) :
  Forall (fun b => length b = 4%nat) L ->
  Forall (fun b => length b = 4%nat) R ->
  validate_columns (map (shift_box dx dy) L) (map (shift_box dx dy) R) H
  = validate_columns L R H.
Proof.
  intros HL HR. unfold validate_columns, MIN_BOXES_PER_DETECTED_COLUMN.
  rewrite !length_map.
  destruct (Nat.ltb_spec (length L) 2); [reflexivity|].
  destruct (Nat.ltb_spec (length R) 2); [reflexivity|]. cbn [orb].
  assert (Hsep : (median_separation (map (shift_box dx dy) L)
                                    (map (shift_box dx dy) R)
                  == median_separation L R)%Q).
  { unfold median_separation.
    destruct (map_item_shift dx dy L HL) as (_ & _ & -> & _).
    destruct (map_item_shift dx dy R HR) as (-> & _).
    rewrite !np_median_shift.
    - ring.
    - destruct L; cbn in *; [lia|discriminate].
    - destruct R; cbn in *; [lia|discriminate]. }
  rewrite (Qlt_bool_compat _ _ _ Hsep).
  now rewrite validate_vertical_shift.
Qed.

Lemma classify_shift (dx dy x_start y_start x_end y_end : Z)
    (tbs : list BBox) :
  classify (shift_box dx dy [x_start; y_start; x_end; y_end])
           (map (shift_box dx dy) tbs)
  = classify [x_start; y_start; x_end; y_end] tbs.
Proof.
  unfold classify, find_columns.
  rewrite non_spanning_shift. cbn [shift_box unpack4 bind].
  replace (y_end + dy - (y_start + dy)) with (y_end - y_start) by lia.
  replace (x_end + dx - (x_start + dx)) with (x_end - x_start) by lia.
  destruct (_ || _); [reflexivity|].
  destruct (non_spanning_boxes _ tbs) as [ns|e] eqn:Hns; cbn [bind];
    [|reflexivity].
  rewrite length_map.
  destruct (length ns <? MIN_BOXES_FOR_COLUMN_CONSIDERATION)%nat;
    [reflexivity|].
  rewrite centered_boxes_shift.
  set (cs := centered_boxes ns).
  assert (Hsound : Forall sound_centred cs).
  { apply non_spanning_boxes_wf in Hns as (Hwf & _).
    rewrite <- (centered_boxes_bbox ns) in Hwf. fold cs in Hwf.
    rewrite Forall_map in Hwf.
    pose proof (centered_boxes_ok ns) as Hok. fold cs in Hok.
    rewrite Forall_forall in *. intros c Hc. split; auto. }
  rewrite (py_sorted_shift dx dy cs Hsound).
  set (s := py_sorted cx cs).
  assert (Hsounds : Forall sound_centred s)
    by now apply (Permutation_Forall (py_sorted_perm cx cs)).
  pose proof (potential_gutters_shift dx dy x_start (x_end - x_start) 0 s
                Hsounds) as Hpg.
  destruct Hpg as [|first first' others others' Hfirst Hothers]; [reflexivity|].
  cbn [bind left_column_boxes right_column_boxes layout_height].
  destruct (max_from_same_gap _ _ _ _ Hfirst Hothers) as [-> _].
  rewrite firstn_map, skipn_map, !map_map. cbn [bbox shift_centered].
  rewrite <- !(map_map bbox (shift_box dx dy)).
  apply validate_columns_shift.
  - apply Forall_map, Forall_forall. intros c Hc.
    apply firstn_incl in Hc. rewrite Forall_forall in Hsounds.
    now apply Hsounds.
  - apply Forall_map, Forall_forall. intros c Hc.
    apply skipn_incl in Hc. rewrite Forall_forall in Hsounds.
    now apply Hsounds.
Qed.

(** Of the exact program: the result does not depend on where the layout lies on the page:
    moving the layout box and every text box by the same offset gives the
    same result, an exception included. *)
Theorem detect_two_columns_translation_invariant_exact (dx dy : Z) (l : layout) :
  fst (detect_two_columns_site (shift_layout dx dy l))
  = fst (detect_two_columns_site l)
  /\ fst (detect_two_columns (shift_layout dx dy l))
     = fst (detect_two_columns l).
Proof.
  assert (Hsite : fst (detect_two_columns_site (shift_layout dx dy l))
                  = fst (detect_two_columns_site l)).
  { rewrite !detect_two_columns_site_run. cbn [fst].
    unfold shift_layout. cbn [bbox_layout bbox_text].
    destruct (bbox_layout l) as [lb|]; [|reflexivity]. cbn [option_map].
    destruct (Nat.eq_dec (length lb) 4) as [Hlb | Hlb].
    - apply length4_inv in Hlb as (xs & ys & xe & ye & ->).
      destruct (bbox_text l) as [[|t tbs]|]; try reflexivity.
      cbn [option_map].
      change (shift_box dx dy [xs; ys; xe; ye])
        with [xs + dx; ys + dy; xe + dx; ye + dy].
      change (map (shift_box dx dy) (t :: tbs))
        with (shift_box dx dy t :: map (shift_box dx dy) tbs).
      change (shift_box dx dy t :: map (shift_box dx dy) tbs)
        with (map (shift_box dx dy) (t :: tbs)).
      change [xs + dx; ys + dy; xe + dx; ye + dy]
        with (shift_box dx dy [xs; ys; xe; ye]).
      apply classify_shift.
    - rewrite (shift_box_malformed dx dy lb Hlb).
      destruct lb as [|x lb']; [reflexivity|].
      destruct (bbox_text l) as [[|t tbs]|]; try reflexivity.
      cbn [option_map map].
      unfold classify, find_columns.
      destruct (unpack4 (x :: lb')) as [u|e] eqn:E; [|reflexivity].
      apply unpack4_Ok in E as (? & ? & ? & ? & E & _).
      rewrite E in Hlb. cbn in Hlb. lia. }
  split; [exact Hsite|].
  rewrite !detect_two_columns_run. cbn [fst]. now rewrite Hsite.
Qed.

(** ** A single column *)

Lemma non_spanning_boxes_incl (lb : BBox) (tbs kept : list BBox) :
  non_spanning_boxes lb tbs = Ok kept -> forall b, In b kept -> In b tbs.
Proof.
  revert kept. induction tbs as [|t tbs IH]; intros kept; cbn [non_spanning_boxes].
  - intros [= <-] b [].
  - destruct (_is_likely_spanning_box t lb) as [sp|e]; cbn [bind];
      [|discriminate].
    destruct (non_spanning_boxes lb tbs) as [k|e]; cbn [bind]; [|discriminate].
    intros [= <-] b Hb. destruct sp.
    + right. now apply (IH k).
    + destruct Hb as [<- | Hb]; [now left|]. right. now apply (IH k).
Qed.

End ExactFacts.

Import ExactFacts.

(** * Properties of the program *)

Example scenario_A_two_column :
  fst (detect_two_columns scenario_A) = Ok true.
Proof. vm_compute. reflexivity. Qed.

Example scenario_C_not_two_column :
  fst (detect_two_columns_site scenario_C) = Ok LowVerticalOverlap.
Proof. vm_compute. reflexivity. Qed.

(** ** Basic facts about the top level *)

Lemma detect_site_run (l : layout) :
  detect_two_columns_site l =
  (match bbox_layout l, bbox_text l with
   | Some ((_ :: _) as lb), Some ((_ :: _) as tbs) => classify lb tbs
   | _, _ => Ok MissingGeometry
   end, l).
Proof.
  unfold detect_two_columns_site, mbind, dict_get, pure, mret.
  destruct (bbox_layout l) as [[|? ?]|], (bbox_text l) as [[|? ?]|];
    reflexivity.
Qed.

Lemma detect_run (l : layout) :
  detect_two_columns l =
  (match fst (detect_two_columns_site l) with
   | Ok s => Ok (verdict s)
   | Raise e => Raise e
   end, l).
Proof.
  unfold detect_two_columns, mbind, mret.
  rewrite detect_site_run. cbn [fst].
  destruct (match bbox_layout l with Some _ => _ | None => _ end);
    reflexivity.
Qed.

Lemma classify_small_layout (x_start y_start x_end y_end : Z)
    (tbs : list BBox) :
  y_end - y_start < 300 \/ x_end - x_start < 200 ->
  classify [x_start; y_start; x_end; y_end] tbs = Ok LayoutTooSmall.
Proof.
  intros H. unfold classify, find_columns. cbn [unpack4 bind].
  unfold MIN_LAYOUT_HEIGHT_FOR_TWO_COLUMN.
  destruct (Z.ltb_spec (y_end - y_start) 300),
           (Z.ltb_spec (x_end - x_start) 200); cbn; try reflexivity; lia.
Qed.

(** ** The short-circuits *)

(** C1: a layout whose bounding box gives a height below 300 or a width below
    200 is classified not two-column, whatever its text boxes are. *)
Theorem too_small_layout_is_not_two_column
    (l : layout) (x_start y_start x_end y_end : Z) :
  bbox_layout l = Some [x_start; y_start; x_end; y_end] ->
  y_end - y_start < 300 \/ x_end - x_start < 200 ->
  detect_two_columns l = (Ok false, l).
Proof.
  intros Hb Hsmall. rewrite detect_run.
  rewrite detect_site_run, Hb. cbn [fst].
  destruct (bbox_text l) as [[|t tbs]|]; try reflexivity.
  now rewrite classify_small_layout.
Qed.

Lemma too_small_layout_is_not_two_column_witness :
  detect_two_columns short_layout = (Ok false, short_layout).
Proof.
  apply (too_small_layout_is_not_two_column short_layout 0 0 1000 299).
  - reflexivity.
  - left. lia.
Defined.

(** C7: when ['bbox_layout'] is absent or empty, or ['bbox_text'] is absent or
    an empty list, the call returns [False] and raises nothing. *)
Theorem missing_geometry_is_not_two_column (l : layout) :
  bbox_layout l = None \/ bbox_layout l = Some [] \/
  bbox_text l = None \/ bbox_text l = Some [] ->
  detect_two_columns l = (Ok false, l).
Proof.
  intros H. rewrite detect_run, detect_site_run.
  cbn [fst].
  destruct H as [H | [H | [H | H]]]; rewrite H;
    destruct (bbox_layout l) as [[|? ?]|]; reflexivity.
Qed.

Lemma missing_geometry_is_not_two_column_witness :
  detect_two_columns no_text_layout = (Ok false, no_text_layout).
Proof.
  apply (missing_geometry_is_not_two_column no_text_layout).
  right. right. right. reflexivity.
Defined.

(** ** Determinism and frame *)

(** C9: the call leaves the layout object as it found it. *)
Theorem detect_two_columns_mutates_nothing (l : layout) :
  snd (detect_two_columns l) = l
  /\ bbox_layout (snd (detect_two_columns l)) = bbox_layout l
  /\ bbox_text (snd (detect_two_columns l)) = bbox_text l
  /\ label (snd (detect_two_columns l)) = label l
  /\ text (snd (detect_two_columns l)) = text l
  /\ _is_two_column_debug (snd (detect_two_columns l)) = _is_two_column_debug l.
Proof.
  rewrite detect_run. cbn [snd]. repeat split.
Qed.

(** The driver, by contrast, writes the debug flag and nothing else. *)
Lemma mark_layout_writes_only_the_flag (l : layout) :
  let l' := snd (mark_layout l) in
  bbox_layout l' = bbox_layout l /\ bbox_text l' = bbox_text l
  /\ label l' = label l /\ text l' = text l
  /\ exists b, _is_two_column_debug l' = Some b.
Proof.
  unfold mark_layout, mbind, set_debug_flag, dict_get, mret. cbn [label].
  destruct (match label l with Some s => String.eqb s "Text" | None => false end);
    [|cbn; repeat split; eauto].
  rewrite detect_run.
  destruct (fst (detect_two_columns_site _)) as [st|e];
    [destruct (verdict st)|]; cbn; repeat split; eauto.
Qed.

(** C8: the result depends on the geometry only: two layouts with the same
    layout box and the same text boxes get the same result, and a second
    evaluation on the object the first one leaves behind repeats it. *)
Theorem detect_two_columns_deterministic (l1 l2 : layout) :
  bbox_layout l1 = bbox_layout l2 ->
  bbox_text l1 = bbox_text l2 ->
  fst (detect_two_columns l1) = fst (detect_two_columns l2)
  /\ fst (detect_two_columns (snd (detect_two_columns l1)))
     = fst (detect_two_columns l1).
Proof.
  intros Hb Ht. rewrite !detect_run. cbn [fst snd].
  rewrite !detect_site_run. cbn [fst].
  rewrite Hb, Ht. split; reflexivity.
Qed.

Lemma detect_two_columns_deterministic_witness :
  fst (detect_two_columns scenario_A)
  = fst (detect_two_columns scenario_A_relabelled)
  /\ fst (detect_two_columns (snd (detect_two_columns scenario_A)))
     = fst (detect_two_columns scenario_A).
Proof.
  apply (detect_two_columns_deterministic scenario_A scenario_A_relabelled);
    reflexivity.
Defined.

(** ** The spanning-box filter *)

Lemma spanning_returns (text_bbox layout_bbox : BBox) (b : bool) :
  _is_likely_spanning_box text_bbox layout_bbox = Ok b ->
  length text_bbox = 4%nat /\ length layout_bbox = 4%nat.
Proof.
  unfold _is_likely_spanning_box.
  destruct (unpack4 text_bbox) as [t|e] eqn:Et; [|discriminate].
  destruct (unpack4 layout_bbox) as [u|e] eqn:Eu.
  - apply unpack4_Ok in Et as (? & ? & ? & ? & -> & _).
    apply unpack4_Ok in Eu as (? & ? & ? & ? & -> & _). now split.
  - cbn. destruct t as [[[? ?] ?] ?]. cbn. discriminate.
Qed.

Lemma kept_boxes_wf (layout_bbox : BBox) (text_bboxes kept : list BBox) :
  non_spanning_boxes layout_bbox text_bboxes = Ok kept ->
  Forall (fun b => length b = 4%nat) kept
  /\ (length kept <= length text_bboxes)%nat
  /\ (text_bboxes <> [] -> length layout_bbox = 4%nat).
Proof.
  revert kept. induction text_bboxes as [|t tbs IH]; intros kept.
  - cbn. intros [= <-]. repeat split; auto. congruence.
  - cbn [non_spanning_boxes].
    destruct (_is_likely_spanning_box t layout_bbox) as [sp|e] eqn:Es;
      [|discriminate].
    apply spanning_returns in Es as [Ht Hl]. cbn [bind].
    destruct (non_spanning_boxes layout_bbox tbs) as [k|e]; [|discriminate].
    cbn [bind]. intros [= <-].
    destruct (IH k eq_refl) as (Hk & Hlen & _).
    destruct sp; repeat split; cbn; auto; lia.
Qed.

(** C2, as the code has it: against a layout box of width zero no box is
    reported as spanning, however wide it is. *)
Theorem zero_width_layout_has_no_spanning_box
    (box_x_start box_y_start box_x_end box_y_end : Z)
    (layout_x_start layout_y_start layout_x_end layout_y_end : Z) :
  layout_x_end - layout_x_start = 0 ->
  _is_likely_spanning_box
    [box_x_start; box_y_start; box_x_end; box_y_end]
    [layout_x_start; layout_y_start; layout_x_end; layout_y_end]
  = Ok false.
Proof.
  intros H. unfold _is_likely_spanning_box. cbn [unpack4 bind].
  now rewrite H.
Qed.

Lemma zero_width_layout_has_no_spanning_box_witness :
  _is_likely_spanning_box [0; 0; 800; 10] [5; 0; 5; 10] = Ok false.
Proof.
  apply (zero_width_layout_has_no_spanning_box 0 0 800 10 5 0 5 10).
  reflexivity.
Defined.

(** C2 as the specification words it fails: a box 800 pixels wide is not
    reported as spanning against a layout box of width zero. *)
Lemma wide_box_in_zero_width_layout_not_spanning :
  ~ (5 - 5 = 0 ->
     (_is_likely_spanning_box [0; 0; 800; 10] [5; 0; 5; 10] = Ok true
      <-> 800 - 0 > 700)).
Proof.
  intros H. destruct (H eq_refl) as [_ H2].
  assert (Hw : 800 - 0 > 700) by lia.
  specialize (H2 Hw). vm_compute in H2. discriminate.
Qed.

(** ** Reaching the column validation *)

Lemma columns_found (lb : BBox) (tbs : list BBox) (c : columns) :
  find_columns lb tbs = Ok (inr c) ->
  exists x_start y_start x_end y_end non_spanning centered first others,
    lb = [x_start; y_start; x_end; y_end]
    /\ 300 <= y_end - y_start /\ 200 <= x_end - x_start
    /\ non_spanning_boxes lb tbs = Ok non_spanning
    /\ (4 <= length non_spanning)%nat
    /\ centered_boxes non_spanning = Ok centered
    /\ potential_gutters x_start (x_end - x_start) 0 (py_sorted cx centered)
       = Ok (first :: others)
    /\ c = let sorted_boxes_by_cx := py_sorted cx centered in
           let split_idx :=
             split_index (max_from gap_width_centers first others) in
           mkColumns (map bbox (firstn (split_idx + 1) sorted_boxes_by_cx))
                     (map bbox (skipn (split_idx + 1) sorted_boxes_by_cx))
                     (y_end - y_start).
Proof.
  unfold find_columns.
  destruct (unpack4 lb) as [t|e] eqn:Eu; [|discriminate].
  apply unpack4_Ok in Eu as (xs & ys & xe & ye & -> & ->). cbn [bind].
  unfold MIN_LAYOUT_HEIGHT_FOR_TWO_COLUMN, MIN_BOXES_FOR_COLUMN_CONSIDERATION.
  destruct (Z.ltb_spec (ye - ys) 300); [discriminate|].
  destruct (Z.ltb_spec (xe - xs) 200); [discriminate|]. cbn [orb].
  destruct (non_spanning_boxes _ tbs) as [ns|e] eqn:En; [|discriminate].
  cbn [bind].
  destruct (Nat.ltb_spec (length ns) 4); [discriminate|].
  destruct (centered_boxes ns) as [cs|e] eqn:Ec; [|discriminate].
  cbn [bind].
  destruct (potential_gutters _ _ _ _) as [[|first others]|e] eqn:Ep;
    [discriminate| |discriminate].
  cbn [bind]. intros [= <-]. exists xs, ys, xe, ye, ns, cs, first, others.
  repeat split; auto.
Qed.

Lemma few_boxes_found (lb : BBox) (tbs kept : list BBox) :
  non_spanning_boxes lb tbs = Ok kept ->
  (length kept < 4)%nat ->
  length lb = 4%nat ->
  exists s, find_columns lb tbs = Ok (inl s).
Proof.
  intros Hk Hlen Hlb.
  destruct lb as [|xs [|ys [|xe [|ye [|? ?]]]]]; try discriminate.
  unfold find_columns. cbn [unpack4 bind].
  destruct (_ || _); [eauto|]. rewrite Hk. cbn [bind].
  unfold MIN_BOXES_FOR_COLUMN_CONSIDERATION.
  destruct (Nat.ltb_spec (length kept) 4); [eauto|lia].
Qed.

Lemma early_site_verdict (lb : BBox) (tbs : list BBox) (s : site) :
  find_columns lb tbs = Ok (inl s) -> verdict s = false.
Proof.
  unfold find_columns.
  destruct (unpack4 lb) as [[[[xs ys] xe] ye]|e]; [|discriminate].
  cbn [bind]. destruct (_ || _); [now intros [= <-]|].
  destruct (non_spanning_boxes _ tbs) as [ns|e]; [|discriminate].
  cbn [bind]. destruct (_ <? _)%nat; [now intros [= <-]|].
  destruct (centered_boxes ns) as [cs|e]; [|discriminate]. cbn [bind].
  destruct (potential_gutters _ _ _ _) as [[|? ?]|e];
    [now intros [= <-]|discriminate|discriminate].
Qed.

(** C5: when fewer than four boxes remain after the spanning boxes are
    removed the layout is classified not two-column; put the other way
    round, a layout classified two-column has at least four non-spanning
    boxes. *)
Theorem too_few_boxes_is_not_two_column (l : layout) :
  (forall lb tbs kept,
     bbox_layout l = Some lb -> bbox_text l = Some tbs ->
     non_spanning_boxes lb tbs = Ok kept ->
     (length kept < 4)%nat ->
     detect_two_columns l = (Ok false, l))
  /\ (fst (detect_two_columns l) = Ok true ->
      exists lb tbs kept,
        bbox_layout l = Some lb /\ bbox_text l = Some tbs
        /\ non_spanning_boxes lb tbs = Ok kept
        /\ (4 <= length kept)%nat).
Proof.
  split.
  - intros lb tbs kept Hb Ht Hk Hlen.
    rewrite detect_run, detect_site_run, Hb, Ht.
    cbn [fst]. destruct lb as [|x lb']; [reflexivity|].
    destruct tbs as [|t tbs']; [reflexivity|].
    destruct (kept_boxes_wf _ _ _ Hk) as (_ & _ & Hlb).
    destruct (few_boxes_found _ _ _ Hk Hlen) as [s Hs].
    { apply Hlb. discriminate. }
    unfold classify. rewrite Hs. cbn [bind].
    now rewrite (early_site_verdict _ _ _ Hs).
  - rewrite detect_run, detect_site_run. cbn [fst].
    destruct (bbox_layout l) as [[|x lb']|] eqn:Hb; try discriminate.
    destruct (bbox_text l) as [[|t tbs']|] eqn:Ht; try discriminate.
    unfold classify.
    destruct (find_columns _ _) as [[s|c]|e] eqn:Ef; cbn [bind];
      try discriminate.
    + rewrite (early_site_verdict _ _ _ Ef). discriminate.
    + intros _.
      apply columns_found in Ef
        as (xs & ys & xe & ye & ns & cs & g & gs & E & _ & _ & Hns & Hlen & _).
      exists (x :: lb'), (t :: tbs'), ns. auto.
Qed.

Lemma too_few_boxes_is_not_two_column_witness :
  detect_two_columns three_narrow_boxes = (Ok false, three_narrow_boxes).
Proof.
  apply (proj1 (too_few_boxes_is_not_two_column three_narrow_boxes)
               [0; 0; 1000; 800]
               [[50; 50; 950; 100];
                [50; 150; 400; 400]; [520; 150; 900; 400]; [50; 450; 400; 750]]
               [[50; 150; 400; 400]; [520; 150; 900; 400]; [50; 450; 400; 750]]).
  - reflexivity.
  - reflexivity.
  - vm_compute. reflexivity.
  - cbn. lia.
Defined.

Lemma reaches_validation (l : layout) (c : columns) :
  reaches l c ->
  fst (detect_two_columns_site l)
  = validate_columns (left_column_boxes c) (right_column_boxes c)
                     (layout_height c).
Proof.
  intros (lb & tbs & Hb & Ht & Hf).
  rewrite detect_site_run, Hb, Ht. cbn [fst].
  pose proof Hf as Hf'.
  apply columns_found in Hf'
    as (xs & ys & xe & ye & ns & cs & g & gs & -> & _ & _ & Hns & Hlen & _).
  destruct (kept_boxes_wf _ _ _ Hns) as (_ & Hle & _).
  destruct tbs as [|t tbs']; [cbn in Hle; lia|].
  unfold classify. now rewrite Hf.
Qed.

Lemma reaches_tall_layout (l : layout) (c : columns) :
  reaches l c -> 300 <= layout_height c.
Proof.
  intros (lb & tbs & _ & _ & Hf).
  apply columns_found in Hf
    as (xs & ys & xe & ye & ns & cs & g & gs & _ & Hh & _ & _ & _ & _ & _ & ->).
  exact Hh.
Qed.

(** ** The exceptions of the arithmetic *)

Lemma float_of_int_Raise (n : Z) (e : exn) :
  float_of_int n = Raise e -> e = OverflowError.
Proof.
  unfold float_of_int. cbv zeta. destruct (too_large _); congruence.
Qed.

Lemma py_div_Raise (a b : Z) (e : exn) :
  py_div a b = Raise e ->
  (b = 0 /\ e = ZeroDivisionError) \/ (b <> 0 /\ e = OverflowError).
Proof.
  unfold py_div. destruct (Z.eqb_spec b 0) as [->|Hb].
  - intros [= <-]. now left.
  - cbv zeta. destruct (too_large _); [|discriminate].
    intros [= <-]. now right.
Qed.

Lemma py_div_Ok (a b : Z) (x : float) :
  py_div a b = Ok x ->
  b <> 0 /\ x = Finite (nearest (inject_Z a / inject_Z b)).
Proof.
  unfold py_div. destruct (Z.eqb_spec b 0) as [->|Hb]; [discriminate|].
  cbv zeta. destruct (too_large _); [discriminate|].
  intros [= <-]. now split.
Qed.

Lemma float_of_int_2 : float_of_int 2 = Ok (Finite 2).
Proof. vm_compute. reflexivity. Qed.

Lemma float_half (x : float) : float_div_int x 2 = Ok (fdiv x (Finite 2)).
Proof. unfold float_div_int. rewrite float_of_int_2. reflexivity. Qed.

Lemma int_mul_float_Raise (n : Z) (x : float) (e : exn) :
  int_mul_float n x = Raise e -> e = OverflowError.
Proof.
  unfold int_mul_float. destruct (float_of_int n) eqn:E; cbn [bind];
    [discriminate|]. intros [= <-]. now apply float_of_int_Raise in E.
Qed.

Lemma float_mul_int_Raise (x : float) (n : Z) (e : exn) :
  float_mul_int x n = Raise e -> e = OverflowError.
Proof.
  unfold float_mul_int. destruct (float_of_int n) eqn:E; cbn [bind];
    [discriminate|]. intros [= <-]. now apply float_of_int_Raise in E.
Qed.

Lemma int_add_float_Raise (n : Z) (x : float) (e : exn) :
  int_add_float n x = Raise e -> e = OverflowError.
Proof.
  unfold int_add_float. destruct (float_of_int n) eqn:E; cbn [bind];
    [discriminate|]. intros [= <-]. now apply float_of_int_Raise in E.
Qed.

(** ** The exceptions of the classifier *)

(** The spanning test raises [ValueError] exactly on a box that does not
    have four items, and otherwise at most [OverflowError]. *)
Lemma spanning_raises (text_bbox layout_bbox : BBox) (e : exn) :
  _is_likely_spanning_box text_bbox layout_bbox = Raise e ->
  (e = ValueError
   /\ ~ (length text_bbox = 4%nat /\ length layout_bbox = 4%nat))
  \/ (e = OverflowError
      /\ length text_bbox = 4%nat /\ length layout_bbox = 4%nat).
Proof.
  unfold _is_likely_spanning_box.
  destruct text_bbox as [|a [|b0 [|c [|d [|? ?]]]]];
    try (cbn; intros [= <-]; left; split; [reflexivity|];
         intros [? ?]; discriminate).
  destruct layout_bbox as [|xs [|ys [|xe [|ye [|? ?]]]]];
    try (cbn; intros [= <-]; left; split; [reflexivity|];
         intros [? ?]; discriminate).
  cbn [unpack4 bind]. destruct (xe - xs =? 0) eqn:E0; [discriminate|].
  destruct (py_div _ _) as [r|e'] eqn:Ed; cbn [bind].
  - destruct (flt _ _); [discriminate|]. destruct (_ <? _); discriminate.
  - intros [= <-]. apply py_div_Raise in Ed as [[Hz _]|[_ ->]].
    + apply Z.eqb_neq in E0. contradiction.
    + right. repeat split.
Qed.

Lemma kept_boxes_raises (lb : BBox) (tbs : list BBox) (e : exn) :
  non_spanning_boxes lb tbs = Raise e -> e = ValueError \/ e = OverflowError.
Proof.
  induction tbs as [|t tbs IH]; cbn [non_spanning_boxes]; [discriminate|].
  destruct (_is_likely_spanning_box t lb) as [sp|e'] eqn:Es; cbn [bind].
  - destruct (non_spanning_boxes lb tbs) as [k|e'']; cbn [bind];
      [discriminate|]. intros [= <-]. now apply IH.
  - intros [= <-]. apply spanning_raises in Es as [[-> _]|[-> _]]; auto.
Qed.

Lemma centered_boxes_raises (ns : list BBox) (e : exn) :
  centered_boxes ns = Raise e -> e = OverflowError.
Proof.
  induction ns as [|b ns IH]; cbn [centered_boxes]; [discriminate|].
  destruct (py_div _ 2) as [x|e'] eqn:Ed; cbn [bind].
  - destruct (centered_boxes ns) as [cs|e'']; cbn [bind]; [discriminate|].
    intros [= <-]. now apply IH.
  - intros [= <-]. apply py_div_Raise in Ed as [[Hz _]|[_ ->]];
      [discriminate|reflexivity].
Qed.

Lemma potential_gutters_pass (xs W : Z) (i : nat) (a b : centered)
    (rest : list centered) :
  potential_gutters xs W i (a :: b :: rest)
  = (here <- gutter_at xs W i a b ;;
     later <- potential_gutters xs W (S i) (b :: rest) ;;
     Ok (here ++ later)).
Proof.
  change (potential_gutters xs W i (a :: b :: rest))
    with (gap_center_midpoint <- float_div_int (fadd (cx a) (cx b)) 2 ;;
          low <- int_mul_float W (fst GUTTER_SEARCH_RANGE_LAYOUT_RATIO) ;;
          min_gutter_x <- int_add_float xs low ;;
          high <- int_mul_float W (snd GUTTER_SEARCH_RANGE_LAYOUT_RATIO) ;;
          max_gutter_x <- int_add_float xs high ;;
          later <- potential_gutters xs W (S i) (b :: rest) ;;
          Ok ((if fle min_gutter_x gap_center_midpoint
                  && fle gap_center_midpoint max_gutter_x
                  && flt (exact_int 0) (fsub (cx b) (cx a))
               then [mkGutter gap_center_midpoint (fsub (cx b) (cx a)) i]
               else [])
              ++ later)).
  unfold gutter_at.
  destruct (float_div_int _ 2); cbn [bind]; [|reflexivity].
  destruct (int_mul_float W (fst _)); cbn [bind]; [|reflexivity].
  destruct (int_add_float xs _); cbn [bind]; [|reflexivity].
  destruct (int_mul_float W (snd _)); cbn [bind]; [|reflexivity].
  destruct (int_add_float xs _); cbn [bind]; reflexivity.
Qed.

Lemma gutter_at_raises (xs W : Z) (i : nat) (a b : centered) (e : exn) :
  gutter_at xs W i a b = Raise e -> e = OverflowError.
Proof.
  unfold gutter_at. rewrite float_half. cbn [bind].
  destruct (int_mul_float W (fst _)) as [low|e1] eqn:E1; cbn [bind];
    [|intros [= <-]; now apply int_mul_float_Raise in E1].
  destruct (int_add_float xs low) as [lo|e2] eqn:E2; cbn [bind];
    [|intros [= <-]; now apply int_add_float_Raise in E2].
  destruct (int_mul_float W (snd _)) as [high|e3] eqn:E3; cbn [bind];
    [|intros [= <-]; now apply int_mul_float_Raise in E3].
  destruct (int_add_float xs high) as [hi|e4] eqn:E4; cbn [bind];
    [discriminate|intros [= <-]; now apply int_add_float_Raise in E4].
Qed.

Lemma potential_gutters_raises (xs W : Z) (i : nat) (s : list centered)
    (e : exn) :
  potential_gutters xs W i s = Raise e -> e = OverflowError.
Proof.
  revert i. induction s as [|a s IH]; intros i; [discriminate|].
  destruct s as [|b s']; [discriminate|].
  rewrite potential_gutters_pass.
  destruct (gutter_at xs W i a b) as [here|e1] eqn:E1; cbn [bind];
    [|intros [= <-]; now apply gutter_at_raises in E1].
  destruct (potential_gutters xs W (S i) (b :: s')) as [later|e5] eqn:E5;
    cbn [bind]; [discriminate|].
  intros [= <-]. now apply (IH (S i)).
Qed.

Lemma find_columns_raises (lb : BBox) (tbs : list BBox) (e : exn) :
  find_columns lb tbs = Raise e -> e = ValueError \/ e = OverflowError.
Proof.
  unfold find_columns.
  destruct (unpack4 lb) as [[[[xs ys] xe] ye]|e'] eqn:Eu; cbn [bind].
  2: { apply unpack4_Raise in Eu. intros [= <-]. now left. }
  destruct (_ || _); [discriminate|].
  destruct (non_spanning_boxes lb tbs) as [ns|e'] eqn:En; cbn [bind].
  2: { intros [= <-]. now apply kept_boxes_raises in En. }
  destruct (_ <? _)%nat; [discriminate|].
  destruct (centered_boxes ns) as [cs|e'] eqn:Ec; cbn [bind].
  2: { intros [= <-]. right. now apply centered_boxes_raises in Ec. }
  destruct (potential_gutters _ _ _ _) as [[|? ?]|e'] eqn:Ep; cbn [bind];
    try discriminate.
  intros [= <-]. right. now apply potential_gutters_raises in Ep.
Qed.

(** ** The vertical-overlap division *)

Lemma py_min_Raise (l : list Z) (e : exn) : py_min l = Raise e -> e = ValueError.
Proof. destruct l; cbn; congruence. Qed.

Lemma py_max_Raise (l : list Z) (e : exn) : py_max l = Raise e -> e = ValueError.
Proof. destruct l; cbn; congruence. Qed.

Lemma column_too_short_Raise (height layout_height : Z) (e : exn) :
  column_too_short height layout_height = Raise e -> e = OverflowError.
Proof.
  unfold column_too_short.
  destruct (int_mul_float _ _) as [x|e'] eqn:E; cbn [bind]; [discriminate|].
  intros [= <-]. now apply int_mul_float_Raise in E.
Qed.

(** A column that passes the height test in a layout at least 300 high is
    at least 89 high. *)
Lemma column_tall_enough (height layout_height : Z) :
  300 <= layout_height ->
  column_too_short height layout_height = Ok false -> 89 <= height.
Proof.
  intros HH. unfold column_too_short, int_mul_float, float_of_int. cbv zeta.
  destruct (too_large (nearest (inject_Z layout_height))); [discriminate|].
  cbn [bind]. unfold MIN_COLUMN_HEIGHT_LAYOUT_RATIO, float_literal.
  cbn [fmul]. unfold rounded. cbv zeta.
  set (p := nearest (nearest (inject_Z layout_height) * nearest 0.3)).
  assert (Hp : (inject_Z 89 <= p)%Q).
  { apply nearest_above_int; [cbn; lia|].
    assert (H300 : (inject_Z 300 <= nearest (inject_Z layout_height))%Q).
    { apply nearest_above_int; [cbn; lia|]. now rewrite <- Zle_Qle. }
    assert (E03 : nearest 0.3 = (5404319552844595 # 18014398509481984)%Q)
      by (vm_compute; reflexivity).
    rewrite E03.
    assert (H89 : (inject_Z 89
                   <= inject_Z 300 * (5404319552844595 # 18014398509481984))%Q)
      by Qdecide.
    eapply Qle_trans; [exact H89|].
    apply Qmult_le_compat_r; [exact H300|Qdecide]. }
  destruct (too_large p).
  - assert (Qlt_bool p 0 = false) as ->.
    { apply Qlt_bool_false. eapply Qle_trans; [|exact Hp]. Qdecide. }
    cbn. discriminate.
  - cbn [flt exact_int]. intros [= Hlt]. apply Qlt_bool_false in Hlt.
    assert (H : (inject_Z 89 <= inject_Z height)%Q)
      by (eapply Qle_trans; eassumption).
    now rewrite <- Zle_Qle in H.
Qed.

(** What the vertical validation can answer in a layout at least 300
    high. *)
Lemma validate_vertical_outcome (L R : list BBox) (H : Z) :
  300 <= H ->
  validate_vertical L R H = Ok EmptyColumn
  \/ validate_vertical L R H = Ok ColumnTooShort
  \/ validate_vertical L R H = Raise ValueError
  \/ validate_vertical L R H = Raise OverflowError
  \/ exists min_y_L max_y_L min_y_R max_y_R,
       py_min (map (fun b => item b 1) L) = Ok min_y_L
       /\ py_max (map (fun b => item b 3) L) = Ok max_y_L
       /\ py_min (map (fun b => item b 1) R) = Ok min_y_R
       /\ py_max (map (fun b => item b 3) R) = Ok max_y_R
       /\ 89 <= max_y_L - min_y_L /\ 89 <= max_y_R - min_y_R
       /\ validate_vertical L R H
          = (ratio <- py_div
                        (Z.max 0 (Z.min max_y_L max_y_R
                                  - Z.max min_y_L min_y_R))
                        (Z.min (max_y_L - min_y_L) (max_y_R - min_y_R)) ;;
             if flt ratio MIN_VERTICAL_OVERLAP_RATIO_OF_SHORTER_COLUMN
             then Ok LowVerticalOverlap
             else Ok AllChecksPassed).
Proof.
  intros HH. unfold validate_vertical.
  destruct (_ || _); [now left|].
  destruct (py_min (map _ L)) as [minL|e] eqn:E1; cbn [bind].
  2: { apply py_min_Raise in E1 as ->. now right; right; left. }
  destruct (py_max (map _ L)) as [maxL|e] eqn:E2; cbn [bind].
  2: { apply py_max_Raise in E2 as ->. now right; right; left. }
  destruct (py_min (map _ R)) as [minR|e] eqn:E3; cbn [bind].
  2: { apply py_min_Raise in E3 as ->. now right; right; left. }
  destruct (py_max (map _ R)) as [maxR|e] eqn:E4; cbn [bind].
  2: { apply py_max_Raise in E4 as ->. now right; right; left. }
  destruct (column_too_short (maxL - minL) H) as [[|]|e] eqn:EL; cbn [bind].
  - now right; left.
  - destruct (column_too_short (maxR - minR) H) as [[|]|e] eqn:ER;
      cbn [bind].
    + now right; left.
    + pose proof (column_tall_enough _ _ HH EL) as HtL.
      pose proof (column_tall_enough _ _ HH ER) as HtR.
      right; right; right; right. exists minL, maxL, minR, maxR.
      repeat split; auto.
      destruct (Z.eqb_spec (Z.min (maxL - minL) (maxR - minR)) 0);
        [lia|reflexivity].
    + apply column_too_short_Raise in ER as ->. now right; right; right; left.
  - apply column_too_short_Raise in EL as ->. now right; right; right; left.
Qed.

Lemma validate_columns_outcome (L R : list BBox) (H : Z) :
  validate_columns L R H = Ok ColumnTooSmall
  \/ validate_columns L R H = Ok ColumnsOverlap
  \/ ((2 <= length L)%nat /\ (2 <= length R)%nat
      /\ validate_columns L R H = validate_vertical L R H).
Proof.
  unfold validate_columns, MIN_BOXES_PER_DETECTED_COLUMN.
  destruct (Nat.ltb_spec (length L) 2); [now left|].
  destruct (Nat.ltb_spec (length R) 2); [now left|]. cbn [orb].
  destruct (flt _ _); [now right; left|].
  right; right. auto.
Qed.

(** Where the call ends: at an early [return], with an exception of the
    first three steps, or in the validation of two columns. *)
Lemma detect_site_cases (l : layout) :
  (exists c, reaches l c)
  \/ (exists s, fst (detect_two_columns_site l) = Ok s
                /\ (s = MissingGeometry \/ s = LayoutTooSmall
                    \/ s = TooFewBoxes \/ s = NoGutter))
  \/ fst (detect_two_columns_site l) = Raise ValueError
  \/ fst (detect_two_columns_site l) = Raise OverflowError.
Proof.
  rewrite detect_site_run. cbn [fst]. unfold reaches.
  destruct (bbox_layout l) as [[|x lb']|] eqn:Hb;
    try (right; left; eexists; split; [reflexivity|auto]).
  destruct (bbox_text l) as [[|t tbs']|] eqn:Ht;
    try (right; left; eexists; split; [reflexivity|auto]).
  unfold classify.
  destruct (find_columns (x :: lb') (t :: tbs')) as [[s|c]|e] eqn:Ef;
    cbn [bind].
  - right. left. exists s. split; [reflexivity|].
    revert Ef. unfold find_columns.
    destruct (unpack4 (x :: lb')) as [[[[xs ys] xe] ye]|e]; [|discriminate].
    cbn [bind]. destruct (_ || _); [intros [= <-]; auto|].
    destruct (non_spanning_boxes _ _) as [ns|e]; [|discriminate].
    cbn [bind]. destruct (_ <? _)%nat; [intros [= <-]; auto|].
    destruct (centered_boxes ns) as [cs|e]; [|discriminate]. cbn [bind].
    destruct (potential_gutters _ _ _ _) as [[|? ?]|e];
      [intros [= <-]; auto 6|discriminate|discriminate].
  - left. exists c, (x :: lb'), (t :: tbs'). auto.
  - apply find_columns_raises in Ef as [-> | ->]; auto.
Qed.

(** C10: the call never takes the zero-height branch of line 171 and never
    divides by zero; whenever it gets to the ratio test of line 174 the
    divisor [shorter_column_height] is strictly positive. *)
Theorem overlap_divisor_is_positive (l : layout) :
  fst (detect_two_columns_site l) <> Ok ZeroHeightNoOverlap
  /\ fst (detect_two_columns_site l) <> Ok ZeroHeightFallThrough
  /\ fst (detect_two_columns_site l) <> Raise ZeroDivisionError
  /\ (fst (detect_two_columns_site l) = Ok LowVerticalOverlap
      \/ fst (detect_two_columns_site l) = Ok AllChecksPassed ->
      exists c min_y_L max_y_L min_y_R max_y_R ratio,
        reaches l c
        /\ py_min (map (fun b => item b 1) (left_column_boxes c)) = Ok min_y_L
        /\ py_max (map (fun b => item b 3) (left_column_boxes c)) = Ok max_y_L
        /\ py_min (map (fun b => item b 1) (right_column_boxes c)) = Ok min_y_R
        /\ py_max (map (fun b => item b 3) (right_column_boxes c)) = Ok max_y_R
        /\ 0 < Z.min (max_y_L - min_y_L) (max_y_R - min_y_R)
        /\ py_div (Z.max 0 (Z.min max_y_L max_y_R - Z.max min_y_L min_y_R))
                  (Z.min (max_y_L - min_y_L) (max_y_R - min_y_R))
           = Ok ratio).
Proof.
  destruct (detect_site_cases l)
    as [[c Hr] | [(s & Hs & Hearly) | [Hraise | Hraise]]].
  - rewrite (reaches_validation l c Hr).
    pose proof (reaches_tall_layout l c Hr) as HH.
    destruct (validate_columns_outcome (left_column_boxes c)
                (right_column_boxes c) (layout_height c))
      as [E | [E | (HL & HR & E)]].
    + rewrite E. repeat split; try discriminate.
      intros [?|?]; discriminate.
    + rewrite E. repeat split; try discriminate.
      intros [?|?]; discriminate.
    + rewrite E.
      destruct (validate_vertical_outcome (left_column_boxes c)
                  (right_column_boxes c) (layout_height c) HH)
        as [V | [V | [V | [V | (minL & maxL & minR & maxR & E1 & E2 & E3
                                & E4 & HtL & HtR & V)]]]];
        rewrite V; try (repeat split; try discriminate;
                        intros [?|?]; discriminate).
      destruct (py_div _ _) as [ratio|e] eqn:Ed; cbn [bind].
      * assert (Hsite : forall s,
                  (if flt ratio MIN_VERTICAL_OVERLAP_RATIO_OF_SHORTER_COLUMN
                   then Ok LowVerticalOverlap else Ok AllChecksPassed)
                  = Ok s -> s = LowVerticalOverlap \/ s = AllChecksPassed).
        { intros s. destruct (flt _ _); intros [= <-]; auto. }
        repeat split.
        -- intros Hc. apply Hsite in Hc as [?|?]; discriminate.
        -- intros Hc. apply Hsite in Hc as [?|?]; discriminate.
        -- destruct (flt _ _); discriminate.
        -- intros _. exists c, minL, maxL, minR, maxR, ratio.
           repeat split; auto. lia.
      * apply py_div_Raise in Ed as [[Hz _]|[_ ->]]; [lia|].
        repeat split; try discriminate. intros [?|?]; discriminate.
  - rewrite Hs. repeat split.
    + destruct Hearly as [-> | [-> | [-> | ->]]]; discriminate.
    + destruct Hearly as [-> | [-> | [-> | ->]]]; discriminate.
    + discriminate.
    + destruct Hearly as [-> | [-> | [-> | ->]]]; intros [?|?]; discriminate.
  - rewrite Hraise. repeat split; try discriminate.
    intros [?|?]; discriminate.
  - rewrite Hraise. repeat split; try discriminate.
    intros [?|?]; discriminate.
Qed.

Lemma overlap_divisor_is_positive_witness :
  exists c min_y_L max_y_L min_y_R max_y_R ratio,
    reaches scenario_A c
    /\ py_min (map (fun b => item b 1) (left_column_boxes c)) = Ok min_y_L
    /\ py_max (map (fun b => item b 3) (left_column_boxes c)) = Ok max_y_L
    /\ py_min (map (fun b => item b 1) (right_column_boxes c)) = Ok min_y_R
    /\ py_max (map (fun b => item b 3) (right_column_boxes c)) = Ok max_y_R
    /\ 0 < Z.min (max_y_L - min_y_L) (max_y_R - min_y_R)
    /\ py_div (Z.max 0 (Z.min max_y_L max_y_R - Z.max min_y_L min_y_R))
              (Z.min (max_y_L - min_y_L) (max_y_R - min_y_R))
       = Ok ratio.
Proof.
  apply (proj2 (proj2 (proj2 (overlap_divisor_is_positive scenario_A)))).
  right. vm_compute. reflexivity.
Defined.

(** ** Spanning boxes among the text boxes *)

Lemma kept_boxes_drop (lb b : BBox) (pre post : list BBox) :
  _is_likely_spanning_box b lb = Ok true ->
  non_spanning_boxes lb (pre ++ b :: post) = non_spanning_boxes lb (pre ++ post).
Proof.
  intros Hb. induction pre as [|x pre IH]; cbn [app non_spanning_boxes].
  - rewrite Hb. cbn [bind].
    destruct (non_spanning_boxes lb post); reflexivity.
  - now rewrite IH.
Qed.

(** X10: a box that the spanning test reports as spanning has no influence
    on the result: the layout with the box and the layout without it get
    the same boolean. *)
Theorem spanning_boxes_are_ignored (l l' : layout) (lb b : BBox)
    (pre post : list BBox) :
  bbox_layout l = Some lb -> bbox_layout l' = Some lb ->
  bbox_text l = Some (pre ++ b :: post) ->
  bbox_text l' = Some (pre ++ post) ->
  _is_likely_spanning_box b lb = Ok true ->
  fst (detect_two_columns l) = fst (detect_two_columns l').
Proof.
  intros Hb Hb' Ht Ht' Hsp.
  assert (Hc : classify lb (pre ++ b :: post) = classify lb (pre ++ post)).
  { unfold classify, find_columns.
    now rewrite (kept_boxes_drop lb b pre post Hsp). }
  rewrite !detect_run, !detect_site_run. cbn [fst].
  rewrite Hb, Hb', Ht, Ht'.
  pose proof (spanning_returns _ _ _ Hsp) as [_ Hlb].
  destruct lb as [|xs [|ys [|xe [|ye [|? ?]]]]]; try discriminate.
  destruct (pre ++ b :: post) as [|t r] eqn:E1.
  { destruct pre; discriminate. }
  rewrite Hc.
  destruct (pre ++ post) as [|t' r'] eqn:E2; [|reflexivity].
  unfold classify, find_columns. cbn [unpack4 bind non_spanning_boxes].
  destruct (_ || _); reflexivity.
Qed.

Lemma spanning_boxes_are_ignored_witness :
  fst (detect_two_columns
         (geometry [0; 0; 1000; 800]
            ([[250; 50; 350; 400]; [250; 400; 350; 750]]
             ++ [50; 10; 950; 40]
             :: [[450; 50; 550; 400]; [450; 400; 550; 750];
                 [650; 50; 750; 750]])))
  = fst (detect_two_columns tied_gaps).
Proof.
  apply (spanning_boxes_are_ignored _ tied_gaps [0; 0; 1000; 800]
           [50; 10; 950; 40]
           [[250; 50; 350; 400]; [250; 400; 350; 750]]
           [[450; 50; 550; 400]; [450; 400; 550; 750]; [650; 50; 750; 750]]).
  - reflexivity.
  - reflexivity.
  - reflexivity.
  - reflexivity.
  - vm_compute. reflexivity.
Defined.

(** ** The running minimum of [find_min_width] *)

(** The running minimum of the loop. *)
Lemma scan_pairs_least (pairs : list (BBox * BBox)) (margin start r : Z) :
  scan_pairs pairs margin start = Ok r ->
  r <= start
  /\ (r = start
      \/ exists a b, In (a, b) pairs /\ in_same_level a b margin = Ok true
                     /\ pair_gap a b = Ok r /\ 0 < r)
  /\ (forall a b g, In (a, b) pairs -> in_same_level a b margin = Ok true ->
        pair_gap a b = Ok g -> 0 < g -> r <= g).
Proof.
  revert start. induction pairs as [|[a b] rest IH]; intros start;
    cbn [scan_pairs].
  - intros [= <-]. split; [lia|]. split; [now left|]. intros ? ? ? [].
  - destruct (in_same_level a b margin) as [same|e] eqn:Es; cbn [bind];
      [|discriminate].
    destruct same.
    + destruct (pair_gap a b) as [gap|e] eqn:Eg; cbn [bind]; [|discriminate].
      intros Hscan. destruct (IH _ Hscan) as (Hle & Hatt & Hmin).
      destruct (Z.ltb_spec 0 gap) as [Hpos | Hneg].
      * split; [lia|]. split.
        -- destruct Hatt as [-> | (a' & b' & Hin & H1 & H2 & H3)].
           ++ destruct (Z.min_spec start gap) as [[_ ->] | [_ ->]];
                [now left|].
              right. exists a, b. repeat split; auto. now left.
           ++ right. exists a', b'. repeat split; auto. now right.
        -- intros a' b' g [[= <- <-] | Hin] H1 H2 H3.
           ++ rewrite Eg in H2. injection H2 as <-. lia.
           ++ eauto.
      * split; [lia|]. split.
        -- destruct Hatt as [-> | (a' & b' & Hin & H1 & H2 & H3)];
             [now left|].
           right. exists a', b'. repeat split; auto. now right.
        -- intros a' b' g [[= <- <-] | Hin] H1 H2 H3.
           ++ rewrite Eg in H2. injection H2 as <-. lia.
           ++ eauto.
    + intros Hscan. destruct (IH _ Hscan) as (Hle & Hatt & Hmin).
      split; [lia|]. split.
      * destruct Hatt as [-> | (a' & b' & Hin & H1 & H2 & H3)];
          [now left|].
        right. exists a', b'. repeat split; auto. now right.
      * intros a' b' g [[= <- <-] | Hin] H1 H2 H3; [congruence|eauto].
Qed.

(** X11: when [find_min_width] returns, its result is the smaller of
    [start_min_width] and the least positive gap between two text boxes that
    are on the same level: it never exceeds the start value, it is the start
    value or the gap of such a pair, no such pair has a smaller positive
    gap, and it is positive when the start value is. *)
Theorem find_min_width_is_least_gap (l : layout)
    (height_margin start_min_width r : Z) :
  fst (find_min_width height_margin start_min_width l) = Ok r ->
  r <= start_min_width
  /\ (r = start_min_width
      \/ exists tbs a b,
           bbox_text l = Some tbs /\ occurs_before a b tbs
           /\ in_same_level a b height_margin = Ok true
           /\ pair_gap a b = Ok r /\ 0 < r)
  /\ (forall tbs a b g,
        bbox_text l = Some tbs -> occurs_before a b tbs ->
        in_same_level a b height_margin = Ok true ->
        pair_gap a b = Ok g -> 0 < g -> r <= g)
  /\ (0 < start_min_width -> 0 < r).
Proof.
  unfold find_min_width, mbind, dict_get, mret, pure.
  destruct (bbox_text l) as [tbs|] eqn:Ht; cbn [fst].
  2: { intros [= <-]. split; [lia|]. split; [now left|].
       split; [discriminate|auto]. }
  destruct (Nat.ltb_spec (length tbs) 2) as [Hshort | Hlong]; cbn [fst].
  - intros [= <-]. split; [lia|]. split; [now left|]. split; [|auto].
    intros tbs' a b g [= <-] Hocc. apply occurs_before_length in Hocc. lia.
  - intros Hscan. apply scan_pairs_least in Hscan as (Hle & Hatt & Hmin).
    split; [exact Hle|]. split; [|split].
    + destruct Hatt as [-> | (a & b & Hin & H1 & H2 & H3)]; [now left|].
      right. exists tbs, a, b. apply combinations2_In in Hin. auto.
    + intros tbs' a b g [= <-] Hocc. apply (Hmin a b g).
      now apply combinations2_In.
    + intros Hpos. destruct Hatt as [-> | (a & b & _ & _ & _ & H3)]; lia.
Qed.

Lemma find_min_width_is_least_gap_witness :
  50 <= 900
  /\ (50 = 900
      \/ exists tbs a b,
           bbox_text three_on_a_row = Some tbs /\ occurs_before a b tbs
           /\ in_same_level a b 10 = Ok true
           /\ pair_gap a b = Ok 50 /\ 0 < 50)
  /\ (forall tbs a b g,
        bbox_text three_on_a_row = Some tbs -> occurs_before a b tbs ->
        in_same_level a b 10 = Ok true ->
        pair_gap a b = Ok g -> 0 < g -> 50 <= g)
  /\ (0 < 900 -> 0 < 50).
Proof.
  apply (find_min_width_is_least_gap three_on_a_row 10 900 50).
  vm_compute. reflexivity.
Defined.

(** ** The driver's loops over a page *)

Lemma detect_leaves_layout (l : layout) : snd (detect_two_columns l) = l.
Proof. now rewrite detect_run. Qed.

Lemma detect_ignores_flag (b : bool) (l : layout) :
  fst (detect_two_columns (with_debug_flag b l)) = fst (detect_two_columns l).
Proof.
  rewrite !detect_run, !detect_site_run. reflexivity.
Qed.

Lemma marked_ignores_flag (b : bool) (l : layout) :
  marked_two_column (with_debug_flag b l) = marked_two_column l.
Proof.
  unfold marked_two_column. now rewrite detect_ignores_flag.
Qed.

Lemma collect_two_column_Ok (i : nat) (page : list layout) :
  (forall l, In l page -> label_is_text l = true ->
             exists b, fst (detect_two_columns l) = Ok b) ->
  collect_two_column i page
  = (Ok (marked_indices i page),
     map (fun l => if marked_two_column l then with_debug_flag true l else l)
         page).
Proof.
  revert i. induction page as [|l rest IH]; intros i Hok; [reflexivity|].
  cbn [collect_two_column marked_indices map].
  rewrite (IH (S i)) by (intros; apply Hok; [now right|assumption]).
  destruct (label_is_text l) eqn:El.
  - destruct (Hok l (or_introl eq_refl) El) as [b Hb].
    assert (Hm : marked_two_column l = b).
    { unfold marked_two_column. now rewrite El, Hb. }
    rewrite Hm, (surjective_pairing (detect_two_columns l)), Hb,
            detect_leaves_layout.
    destruct b; reflexivity.
  - assert (Hm : marked_two_column l = false).
    { unfold marked_two_column. now rewrite El. }
    now rewrite Hm.
Qed.

Lemma collect_two_column_Raise (i : nat) (page : list layout) (e : exn) :
  fst (collect_two_column i page) = Raise e ->
  exists l, In l page /\ label_is_text l = true
            /\ fst (detect_two_columns l) = Raise e.
Proof.
  revert i. induction page as [|l rest IH]; intros i; [discriminate|].
  cbn [collect_two_column].
  destruct (label_is_text l) eqn:El.
  - rewrite (surjective_pairing (detect_two_columns l)).
    destruct (fst (detect_two_columns l)) as [two|e'] eqn:Ed.
    + rewrite (surjective_pairing (collect_two_column (S i) rest)).
      cbn [fst].
      destruct (fst (collect_two_column (S i) rest)) as [idx|e''] eqn:Ec;
        [discriminate|].
      intros [= <-]. destruct (IH (S i) Ec) as (l' & Hin & H1 & H2).
      exists l'. auto using in_cons.
    + cbn [fst]. intros [= <-].
      exists l. split; [now left|auto].
  - rewrite (surjective_pairing (collect_two_column (S i) rest)). cbn [fst].
    intros Hc. destruct (IH (S i) Hc) as (l' & Hin & H1 & H2).
    exists l'. auto using in_cons.
Qed.

Lemma collect_two_column_frame (i : nat) (page : list layout) :
  Forall2 (fun l l' =>
             same_but_flag l l'
             /\ (_is_two_column_debug l' = _is_two_column_debug l
                 \/ _is_two_column_debug l' = Some true))
          page (snd (collect_two_column i page)).
Proof.
  assert (Hrefl : forall p : list layout,
            Forall2 (fun l l' =>
                       same_but_flag l l'
                       /\ (_is_two_column_debug l' = _is_two_column_debug l
                           \/ _is_two_column_debug l' = Some true)) p p).
  { induction p; constructor; [|assumption].
    unfold same_but_flag. auto 6. }
  revert i. induction page as [|l rest IH]; intros i; [constructor|].
  cbn [collect_two_column].
  destruct (label_is_text l).
  - rewrite (surjective_pairing (detect_two_columns l)),
            detect_leaves_layout.
    destruct (fst (detect_two_columns l)) as [two|e'].
    + rewrite (surjective_pairing (collect_two_column (S i) rest)).
      cbn [snd]. constructor; [|apply IH].
      destruct two; unfold same_but_flag; cbn; auto 6.
    + cbn [snd]. apply Hrefl.
  - rewrite (surjective_pairing (collect_two_column (S i) rest)). cbn [snd].
    constructor; [|apply IH]. unfold same_but_flag. auto 6.
Qed.

Lemma marked_indices_In (i j : nat) (page : list layout) :
  In j (marked_indices i page)
  <-> (i <= j)%nat
      /\ exists l, nth_error page (j - i) = Some l
                   /\ marked_two_column l = true.
Proof.
  revert i. induction page as [|l rest IH]; intros i; cbn [marked_indices].
  - split; [intros []|]. intros (_ & l & H & _).
    destruct (j - i)%nat; discriminate.
  - assert (Hrest : In j (marked_indices (S i) rest)
                    <-> (i < j)%nat
                        /\ exists l', nth_error (l :: rest) (j - i) = Some l'
                                      /\ marked_two_column l' = true).
    { rewrite IH. split.
      - intros (Hle & l' & Hn & Hm). split; [lia|]. exists l'.
        replace (j - i)%nat with (S (j - S i)) by lia. auto.
      - intros (Hlt & l' & Hn & Hm). split; [lia|]. exists l'.
        replace (j - i)%nat with (S (j - S i)) in Hn by lia. auto. }
    destruct (marked_two_column l) eqn:Em.
    + cbn [In]. rewrite Hrest. split.
      * intros [<- | (Hlt & H)].
        -- split; [lia|]. exists l. rewrite Nat.sub_diag. auto.
        -- split; [lia|exact H].
      * intros (Hle & l' & Hn & Hm).
        destruct (Nat.eq_dec i j) as [-> | Hne]; [now left|].
        right. split; [lia|]. eauto.
    + rewrite Hrest. split.
      * intros (Hlt & H). split; [lia|exact H].
      * intros (Hle & l' & Hn & Hm).
        destruct (Nat.eq_dec i j) as [-> | Hne].
        -- rewrite Nat.sub_diag in Hn. cbn in Hn. congruence.
        -- split; [lia|]. eauto.
Qed.

Lemma marked_indices_ascending (i : nat) (page : list layout) :
  StronglySorted lt (marked_indices i page)
  /\ Forall (fun j => (i <= j)%nat) (marked_indices i page).
Proof.
  revert i. induction page as [|l rest IH]; intros i; cbn [marked_indices].
  - split; constructor.
  - destruct (IH (S i)) as [Hs Hall].
    assert (Hall' : Forall (fun j => (i < j)%nat) (marked_indices (S i) rest)).
    { eapply Forall_impl; [|exact Hall]. cbn. intros; lia. }
    destruct (marked_two_column l).
    + split; [now constructor|]. constructor; [lia|].
      eapply Forall_impl; [|exact Hall]. cbn. intros; lia.
    + split; [exact Hs|]. eapply Forall_impl; [|exact Hall]. cbn. intros; lia.
Qed.

Lemma marked_indices_flags (f : layout -> bool) (i : nat)
    (page : list layout) :
  marked_indices i (map (fun l => with_debug_flag (f l) l) page)
  = marked_indices i page.
Proof.
  revert i. induction page as [|l rest IH]; intros i; [reflexivity|].
  cbn [map marked_indices]. now rewrite marked_ignores_flag, IH.
Qed.

Lemma marked_indices_clear (i : nat) (page : list layout) :
  marked_indices i (map (with_debug_flag false) page) = marked_indices i page.
Proof. exact (marked_indices_flags (fun _ => false) i page). Qed.

Lemma process_page_Ok (page : list layout) :
  (forall l, In l page -> label_is_text l = true ->
             exists b, fst (detect_two_columns l) = Ok b) ->
  process_page page
  = (Ok (marked_indices 0 page),
     map (fun l => with_debug_flag (marked_two_column l) l) page).
Proof.
  intros Hok. unfold process_page, clear_debug_flags.
  change (fun layout_item => snd (set_debug_flag false layout_item))
    with (with_debug_flag false).
  rewrite collect_two_column_Ok.
  - rewrite marked_indices_clear, map_map. f_equal.
    apply map_ext. intros l. rewrite marked_ignores_flag.
    destruct (marked_two_column l); reflexivity.
  - intros l' Hin Hl'. apply in_map_iff in Hin as (l & <- & Hin).
    rewrite detect_ignores_flag. apply Hok; assumption.
Qed.

Lemma process_page_Ok_inv (page : list layout) (indices : list nat) :
  fst (process_page page) = Ok indices ->
  forall l, In l page -> label_is_text l = true ->
            exists b, fst (detect_two_columns l) = Ok b.
Proof.
  intros Hp l Hin Hl.
  destruct (fst (detect_two_columns l)) as [b|e] eqn:Ed; [eauto|].
  exfalso.
  assert (Hall : forall i p,
            In (with_debug_flag false l) p ->
            exists e', fst (collect_two_column i p) = Raise e').
  { intros i p. revert i. induction p as [|x p IH]; intros i; [intros []|].
    intros [-> | Hin']; cbn [collect_two_column].
    - change (label_is_text (with_debug_flag false l)) with (label_is_text l).
      rewrite Hl, (surjective_pairing (detect_two_columns _)),
              detect_ignores_flag, Ed. cbn. eauto.
    - destruct (IH (S i) Hin') as [e' He'].
      destruct (label_is_text x).
      + rewrite (surjective_pairing (detect_two_columns x)).
        destruct (fst (detect_two_columns x)); [|cbn; eauto].
        rewrite (surjective_pairing (collect_two_column (S i) p)), He'.
        cbn. eauto.
      + rewrite (surjective_pairing (collect_two_column (S i) p)), He'.
        cbn. eauto. }
  destruct (Hall 0%nat (clear_debug_flags page)) as [e' He'].
  { unfold clear_debug_flags. apply in_map_iff. now exists l. }
  unfold process_page in Hp. congruence.
Qed.

(** X15: when no layout labelled ["Text"] makes [detect_two_columns] raise,
    the two loops end with every layout's debug flag set to whether the
    layout is labelled ["Text"] and classified two-column, every other field
    untouched, and with the list of exactly the indices of those layouts, in
    ascending order. *)
Theorem process_page_marks_two_column_layouts (page : list layout) :
  (forall l, In l page -> label_is_text l = true ->
             exists b, fst (detect_two_columns l) = Ok b) ->
  exists indices,
    process_page page
    = (Ok indices,
       map (fun l => with_debug_flag (marked_two_column l) l) page)
    /\ (forall i, In i indices
                  <-> exists l, nth_error page i = Some l
                                /\ marked_two_column l = true)
    /\ StronglySorted lt indices.
Proof.
  intros Hok. exists (marked_indices 0 page).
  split; [now apply process_page_Ok|]. split.
  - intros i. rewrite marked_indices_In, Nat.sub_0_r. split.
    + now intros [_ H].
    + intros H. split; [lia|exact H].
  - apply marked_indices_ascending.
Qed.

Lemma process_page_marks_two_column_layouts_witness :
  exists indices,
    process_page mixed_page
    = (Ok indices,
       map (fun l => with_debug_flag (marked_two_column l) l) mixed_page)
    /\ (forall i, In i indices
                  <-> exists l, nth_error mixed_page i = Some l
                                /\ marked_two_column l = true)
    /\ StronglySorted lt indices.
Proof.
  apply (process_page_marks_two_column_layouts mixed_page).
  intros l Hin _.
  repeat (destruct Hin as [<- | Hin]; [vm_compute; eauto|]).
  destruct Hin.
Defined.

(** X16: the loops complete exactly when [detect_two_columns] raises on
    no layout labelled ["Text"]; a layout with any other label is never
    classified.  When they raise, the exception is the one that
    [detect_two_columns] raises on such a layout.  Whether they raise or
    not, they change no field but the debug flag, and leave a flag on every
    layout. *)
Theorem process_page_exceptions_and_frame (page : list layout) :
  ((exists indices, fst (process_page page) = Ok indices)
   <-> forall l, In l page -> label_is_text l = true ->
                 exists b, fst (detect_two_columns l) = Ok b)
  /\ (forall e, fst (process_page page) = Raise e ->
        exists l, In l page /\ label_is_text l = true
                  /\ fst (detect_two_columns l) = Raise e)
  /\ Forall2 (fun l l' =>
                same_but_flag l l'
                /\ exists b, _is_two_column_debug l' = Some b)
             page (snd (process_page page)).
Proof.
  split; [split|split].
  - intros [indices Hp]. exact (process_page_Ok_inv page indices Hp).
  - intros Hok. rewrite (process_page_Ok page Hok). cbn. eauto.
  - intros e He. unfold process_page in He.
    apply collect_two_column_Raise in He as (l' & Hin & Hl & Hd).
    unfold clear_debug_flags in Hin. apply in_map_iff in Hin as (l & <- & Hin).
    exists l. split; [exact Hin|]. split; [exact Hl|].
    change (snd (set_debug_flag false l)) with (with_debug_flag false l) in Hd.
    now rewrite detect_ignores_flag in Hd.
  - unfold process_page.
    pose proof (collect_two_column_frame 0 (clear_debug_flags page)) as Hf.
    remember (snd (collect_two_column 0 (clear_debug_flags page))) as page'.
    clear Heqpage'. unfold clear_debug_flags in Hf.
    change (fun layout_item => snd (set_debug_flag false layout_item))
      with (with_debug_flag false) in Hf.
    revert page' Hf. induction page as [|l rest IH]; intros page' Hf;
      cbn [map] in Hf.
    + inversion Hf. constructor.
    + inversion Hf as [|? l' ? rest' [(H1 & H2 & H3 & H4) Hflag] Hrest];
        subst.
      constructor; [|now apply IH].
      cbn in H1, H2, H3, H4, Hflag.
      split; [unfold same_but_flag; auto|].
      destruct Hflag as [-> | ->]; eauto.
Qed.

Lemma process_page_exceptions_and_frame_witness :
  exists indices, fst (process_page mixed_page) = Ok indices.
Proof.
  apply (proj2 (proj1 (process_page_exceptions_and_frame mixed_page))).
  intros l Hin _.
  repeat (destruct Hin as [<- | Hin]; [vm_compute; eauto|]).
  destruct Hin.
Defined.

(** X17: running the loops again on the page they left gives the same
    indices and leaves the page as it is. *)
Theorem process_page_idempotent (page page' : list layout)
    (indices : list nat) :
  process_page page = (Ok indices, page') ->
  process_page page' = (Ok indices, page').
Proof.
  intros Hp.
  assert (Hok : forall l, In l page -> label_is_text l = true ->
                          exists b, fst (detect_two_columns l) = Ok b).
  { apply (process_page_Ok_inv page indices). now rewrite Hp. }
  rewrite (process_page_Ok page Hok) in Hp. injection Hp as <- <-.
  rewrite process_page_Ok.
  - rewrite (marked_indices_flags marked_two_column), map_map. f_equal.
    apply map_ext. intros l. now rewrite marked_ignores_flag.
  - intros l' Hin Hl'. apply in_map_iff in Hin as (l & <- & Hin).
    rewrite detect_ignores_flag. apply Hok; assumption.
Qed.

Lemma process_page_idempotent_witness :
  process_page (snd (process_page mixed_page))
  = (Ok [0; 2]%nat, snd (process_page mixed_page)).
Proof.
  apply (process_page_idempotent mixed_page).
  vm_compute. reflexivity.
Defined.

(** ** Boxes that share one centre *)

Lemma verdict_true_found (l : layout) :
  fst (detect_two_columns l) = Ok true -> exists c, reaches l c.
Proof.
  rewrite detect_run. cbn [fst].
  destruct (detect_site_cases l)
    as [H | [(s & Hs & He) | [H | H]]]; [auto| | |].
  - rewrite Hs. destruct He as [-> | [-> | [-> | ->]]]; discriminate.
  - rewrite H. discriminate.
  - rewrite H. discriminate.
Qed.

Lemma kept_boxes_incl (lb : BBox) (tbs kept : list BBox) :
  non_spanning_boxes lb tbs = Ok kept -> forall b, In b kept -> In b tbs.
Proof.
  revert kept. induction tbs as [|t tbs IH]; intros kept;
    cbn [non_spanning_boxes].
  - intros [= <-] b [].
  - destruct (_is_likely_spanning_box t lb) as [sp|e]; cbn [bind];
      [|discriminate].
    destruct (non_spanning_boxes lb tbs) as [k|e]; cbn [bind]; [|discriminate].
    intros [= <-] b Hb. destruct sp.
    + right. now apply (IH k).
    + destruct Hb as [<- | Hb]; [now left|]. right. now apply (IH k).
Qed.

Lemma centered_boxes_centres (ns : list BBox) (cs : list centered) :
  centered_boxes ns = Ok cs ->
  map bbox cs = ns
  /\ Forall (fun c => py_div (key2 (bbox c)) 2 = Ok (cx c)) cs.
Proof.
  revert cs. induction ns as [|b ns IH]; intros cs; cbn [centered_boxes].
  - intros [= <-]. split; [reflexivity|constructor].
  - destruct (py_div _ 2) as [x|e] eqn:Ex; cbn [bind]; [|discriminate].
    destruct (centered_boxes ns) as [cs'|e]; cbn [bind]; [|discriminate].
    intros [= <-]. destruct (IH cs' eq_refl) as [E F]. cbn [map bbox].
    rewrite E. split; [reflexivity|]. constructor; [exact Ex|exact F].
Qed.

Lemma float_insert_perm {A} (key : A -> float) (x : A) (l : list A) :
  Permutation (x :: l) (insert_by key x l).
Proof.
  induction l as [|y l IH]; cbn; [reflexivity|].
  destruct (flt _ _); [|reflexivity].
  rewrite perm_swap. now constructor.
Qed.

Lemma float_sorted_perm {A} (key : A -> float) (l : list A) :
  Permutation l (py_sorted key l).
Proof.
  induction l as [|x l IH]; cbn; [constructor|].
  rewrite <- float_insert_perm. now constructor.
Qed.

(** The difference of a double and itself is zero. *)
Lemma fsub_self (r : Q) : fsub (Finite r) (Finite r) = Finite 0.
Proof.
  cbn [fsub fopp fadd]. unfold rounded. cbv zeta.
  rewrite (nearest_zero_of (r + - r)) by ring. reflexivity.
Qed.

Lemma gutter_at_same_centre (xs W : Z) (i : nat) (a b : centered) (r : Q)
    (gs : list gutter) :
  cx a = Finite r -> cx b = Finite r ->
  gutter_at xs W i a b = Ok gs -> gs = [].
Proof.
  intros Ea Eb. unfold gutter_at. rewrite Ea, Eb, fsub_self.
  destruct (float_div_int _ 2); cbn [bind]; [|discriminate].
  destruct (int_mul_float W (fst _)); cbn [bind]; [|discriminate].
  destruct (int_add_float xs _); cbn [bind]; [|discriminate].
  destruct (int_mul_float W (snd _)); cbn [bind]; [|discriminate].
  destruct (int_add_float xs _); cbn [bind]; [|discriminate].
  change (flt (exact_int 0) (Finite 0)) with false.
  rewrite !andb_false_r. now intros [= <-].
Qed.

Lemma potential_gutters_same_centre (xs W : Z) (i : nat) (s : list centered)
    (r : Q) (gs : list gutter) :
  Forall (fun c => cx c = Finite r) s ->
  potential_gutters xs W i s = Ok gs -> gs = [].
Proof.
  intros H. revert i gs. induction H as [|a s Ha Hs IH]; intros i gs.
  - now intros [= <-].
  - destruct Hs as [|b s Hb Hs]; [now intros [= <-]|].
    rewrite potential_gutters_pass.
    destruct (gutter_at xs W i a b) as [here|e] eqn:Eh; cbn [bind];
      [|discriminate].
    apply (gutter_at_same_centre _ _ _ _ _ r) in Eh as ->; auto.
    destruct (potential_gutters xs W (S i) (b :: s)) as [later|e] eqn:El;
      cbn [bind]; [|discriminate].
    intros [= <-]. now apply (IH (S i)).
Qed.

(** X19: a layout whose text boxes all have the same horizontal centre is
    never classified two-column. *)
Theorem single_centre_is_not_two_column (l : layout) (tbs : list BBox)
    (twice_centre : Z) :
  bbox_text l = Some tbs ->
  (forall b, In b tbs -> item b 0 + item b 2 = twice_centre) ->
  fst (detect_two_columns l) <> Ok true.
Proof.
  intros Ht Hsame Htrue.
  destruct (verdict_true_found l Htrue) as (c & lb & tbs' & _ & Ht' & Hf).
  rewrite Ht in Ht'. injection Ht' as <-.
  apply columns_found in Hf
    as (xs & ys & xe & ye & ns & cs & first & others
        & -> & _ & _ & Hns & _ & Hcs & Hpg & _).
  destruct (centered_boxes_centres ns cs Hcs) as [Eb Hc].
  assert (Hall : Forall (fun c => cx c
                   = Finite (nearest (inject_Z twice_centre / inject_Z 2)))
                   (py_sorted cx cs)).
  { apply (Permutation_Forall (float_sorted_perm cx cs)).
    apply Forall_forall. intros x Hx.
    pose proof (proj1 (Forall_forall _ _) Hc x Hx) as Hd. cbv beta in Hd.
    assert (Hk : key2 (bbox x) = twice_centre).
    { apply Hsame, (kept_boxes_incl _ _ _ Hns). rewrite <- Eb.
      now apply in_map. }
    rewrite Hk in Hd. apply py_div_Ok in Hd as [_ ->]. reflexivity. }
  apply (potential_gutters_same_centre _ _ _ _ _ _ Hall) in Hpg.
  discriminate.
Qed.

Lemma single_centre_is_not_two_column_witness :
  fst (detect_two_columns stacked_boxes) <> Ok true.
Proof.
  apply (single_centre_is_not_two_column stacked_boxes
           [[100; 50; 500; 150]; [150; 200; 450; 300]; [200; 350; 400; 450];
            [50; 500; 550; 600]; [250; 650; 350; 750]] 600).
  - reflexivity.
  - intros b Hb.
    repeat (destruct Hb as [<- | Hb]; [reflexivity|]). destruct Hb.
Defined.


(** * Agreement of the double-precision program with the exact program

    On coordinates of magnitude at most [agreement_bound] every centre,
    midpoint, band limit and median is a multiple of 1/4 below [2 ^ 53] in
    magnitude, which a double holds exactly, and the three ratio tests come
    out as in exact arithmetic.  The two programs then return the same
    result. *)

Lemma agreement_bound_value : agreement_bound = 8796093022208.
Proof. reflexivity. Qed.

Lemma two_53_value : 2 ^ 53 = 9007199254740992.
Proof. reflexivity. Qed.

Lemma two_45_value : 2 ^ 45 = 35184372088832.
Proof. reflexivity. Qed.

Lemma coordinates_below_4 (B a b c d : Z) :
  coordinates_below B [a; b; c; d] = true ->
  Z.abs a <= B /\ Z.abs b <= B /\ Z.abs c <= B /\ Z.abs d <= B.
Proof.
  unfold coordinates_below. cbn [forallb].
  rewrite !andb_true_iff, !Z.leb_le. tauto.
Qed.

Lemma item_below (B : Z) (b : BBox) (i : nat) :
  0 <= B -> coordinates_below B b = true -> Z.abs (item b i) <= B.
Proof.
  unfold coordinates_below, item. intros HB H.
  rewrite forallb_forall in H.
  destruct (nth_in_or_default i b 0) as [Hin | ->].
  - apply H in Hin. now apply Z.leb_le.
  - cbn. lia.
Qed.

Lemma key2_below (b : BBox) :
  coordinates_below agreement_bound b = true ->
  Z.abs (key2 b) <= 2 * agreement_bound.
Proof.
  intros H. unfold key2.
  pose proof (item_below agreement_bound b 0) as H0.
  pose proof (item_below agreement_bound b 2) as H2.
  rewrite agreement_bound_value in *. specialize (H0 ltac:(lia) H).
  specialize (H2 ltac:(lia) H). lia.
Qed.

(** ** The spanning-box filter *)

Lemma spanning_agrees (text_bbox layout_bbox : BBox) :
  coordinates_below agreement_bound text_bbox = true ->
  coordinates_below agreement_bound layout_bbox = true ->
  _is_likely_spanning_box text_bbox layout_bbox
  = Exact._is_likely_spanning_box text_bbox layout_bbox.
Proof.
  intros Ht Hl.
  unfold _is_likely_spanning_box, Exact._is_likely_spanning_box.
  destruct (unpack4 text_bbox) as [t|e] eqn:Et; cbn [bind]; [|reflexivity].
  apply unpack4_Ok in Et as (a & a1 & b & b1 & -> & ->).
  destruct (unpack4 layout_bbox) as [t|e] eqn:El; cbn [bind]; [|reflexivity].
  apply unpack4_Ok in El as (xs & ys & xe & ye & -> & ->).
  apply coordinates_below_4 in Ht as (Ha & _ & Hb & _).
  apply coordinates_below_4 in Hl as (Hxs & _ & Hxe & _).
  rewrite agreement_bound_value in *.
  destruct (Z.eqb_spec (xe - xs) 0) as [|Hne]; [reflexivity|].
  rewrite py_div_bounded by (rewrite ?two_53_value; lia).
  unfold Exact.py_div. rewrite (proj2 (Z.eqb_neq _ _) Hne). cbn [bind].
  unfold SPANNING_BOX_WIDTH_RATIO_THRESHOLD, float_literal. cbn [flt].
  rewrite ratio_above_07 by (rewrite ?two_45_value; lia).
  rewrite (ratio_above_threshold _ _ Hne). reflexivity.
Qed.

Lemma non_spanning_agrees (lb : BBox) (tbs : list BBox) :
  coordinates_below agreement_bound lb = true ->
  forallb (coordinates_below agreement_bound) tbs = true ->
  non_spanning_boxes lb tbs = Exact.non_spanning_boxes lb tbs.
Proof.
  intros Hl. induction tbs as [|t tbs IH]; [reflexivity|].
  cbn [forallb]. rewrite andb_true_iff. intros [Ht Hts].
  cbn [non_spanning_boxes Exact.non_spanning_boxes].
  rewrite (spanning_agrees t lb Ht Hl), (IH Hts). reflexivity.
Qed.

(** ** Centres, their order and the gutter candidates *)

Lemma centered_agrees (ns : list BBox) :
  forallb (coordinates_below agreement_bound) ns = true ->
  exists cs, centered_boxes ns = Ok cs
             /\ Forall2 centre_agrees cs (Exact.centered_boxes ns).
Proof.
  induction ns as [|b ns IH]; [exists []; split; [reflexivity|constructor]|].
  cbn [forallb]. rewrite andb_true_iff. intros [Hb Hns].
  destruct (IH Hns) as (cs & Ecs & Hcs).
  pose proof (key2_below b Hb) as Hk. unfold key2 in Hk.
  rewrite agreement_bound_value in Hk.
  destruct (py_div_half (item b 0 + item b 2)) as (x & Ex & Hx).
  { rewrite two_53_value. lia. }
  cbn [centered_boxes]. rewrite Ex, Ecs. cbn [bind].
  eexists. split; [reflexivity|].
  cbn [Exact.centered_boxes map]. constructor; [|exact Hcs].
  split; [reflexivity|exact Hx].
Qed.

Lemma centered_in_range (ns : list BBox) :
  forallb (coordinates_below agreement_bound) ns = true ->
  Forall centre_in_range (Exact.centered_boxes ns).
Proof.
  intros H. rewrite forallb_forall in H.
  apply Forall_forall. intros c Hc.
  split.
  - exact (proj1 (Forall_forall _ _) (centered_boxes_ok ns) c Hc).
  - unfold Exact.centered_boxes in Hc. apply in_map_iff in Hc as (b & <- & Hb).
    cbn. now apply H.
Qed.

Lemma insert_by_agrees (x : centered) (x' : Exact.centered)
    (l : list centered) (l' : list Exact.centered) :
  centre_agrees x x' -> Forall2 centre_agrees l l' ->
  Forall2 centre_agrees (insert_by cx x l)
                        (Exact.insert_by Exact.cx x' l').
Proof.
  intros Hx. induction 1 as [|y y' l l' Hy Hl IH].
  - cbn. constructor; [exact Hx|constructor].
  - cbn [insert_by Exact.insert_by].
    rewrite (flt_finite _ _ _ _ (proj2 Hy) (proj2 Hx)). unfold Qlt_bool.
    destruct (Qle_bool (Exact.cx x') (Exact.cx y')); cbn [negb].
    + constructor; [exact Hx|]. constructor; assumption.
    + constructor; assumption.
Qed.

Lemma py_sorted_agrees (l : list centered) (l' : list Exact.centered) :
  Forall2 centre_agrees l l' ->
  Forall2 centre_agrees (py_sorted cx l) (Exact.py_sorted Exact.cx l').
Proof.
  induction 1 as [|x x' l l' Hx Hl IH]; [constructor|].
  cbn. now apply insert_by_agrees.
Qed.

Lemma quarter_power : (2 ^ 2 == 4)%Q.
Proof. reflexivity. Qed.

Lemma gutter_at_agrees (xs W : Z) (i : nat) (a b : centered)
    (a' b' : Exact.centered) :
  Z.abs xs <= agreement_bound -> Z.abs W <= 2 * agreement_bound ->
  centre_agrees a a' -> centre_agrees b b' ->
  centre_in_range a' -> centre_in_range b' ->
  exists gs, gutter_at xs W i a b = Ok gs
             /\ Forall2 gutter_agrees gs (Exact.gap_between xs W i a' b').
Proof.
  intros Hxs HW [_ Ha] [_ Hb] [Ca Ra] [Cb Rb].
  apply key2_below in Ra, Rb. fold (Exact.kc a') in Ra. fold (Exact.kc b') in Rb.
  unfold Exact.centred_ok in Ca, Cb.
  rewrite agreement_bound_value in *.
  set (ka := Exact.kc a') in *. set (kb := Exact.kc b') in *.
  assert (Hsum : is_finite (fadd (cx a) (cx b)) (Exact.cx a' + Exact.cx b')).
  { apply (fadd_finite _ _ _ _ (ka + kb) 1); auto;
      [rewrite two_53_value; lia|lia|].
    rewrite Ca, Cb, inject_Z_plus. change (2 ^ 1)%Q with 2%Q. field. }
  destruct (float_half_finite _ _ (ka + kb) 2 Hsum) as (mid & Emid & Hmid);
    [rewrite two_53_value; lia|lia| |].
  { rewrite Ca, Cb, inject_Z_plus, quarter_power. field. }
  assert (Hwidth : is_finite (fsub (cx b) (cx a)) (Exact.cx b' - Exact.cx a')).
  { apply (fsub_finite _ _ _ _ (kb - ka) 1); auto;
      [rewrite two_53_value; lia|lia|].
    rewrite Ca, Cb. unfold Z.sub. rewrite inject_Z_plus, inject_Z_opp.
    change (2 ^ 1)%Q with 2%Q. field. }
  assert (H25 : is_finite (float_literal 0.25) 0.25).
  { apply (float_literal_finite _ 1 2); [cbn; lia|lia|].
    rewrite quarter_power. reflexivity. }
  assert (H75 : is_finite (float_literal 0.75) 0.75).
  { apply (float_literal_finite _ 3 2); [cbn; lia|lia|].
    rewrite quarter_power. reflexivity. }
  destruct (int_mul_float_finite W _ _ W 2 ltac:(rewrite two_53_value; lia)
              H25 ltac:(rewrite two_53_value; lia) ltac:(lia))
    as (low & Elow & Hlow).
  { rewrite quarter_power. field. }
  destruct (int_add_float_finite xs _ _ (4 * xs + W) 2
              ltac:(rewrite two_53_value; lia) Hlow
              ltac:(rewrite two_53_value; lia) ltac:(lia))
    as (lo & Elo & Hlo).
  { rewrite inject_Z_plus, inject_Z_mult, quarter_power. field. }
  destruct (int_mul_float_finite W _ _ (3 * W) 2
              ltac:(rewrite two_53_value; lia)
              H75 ltac:(rewrite two_53_value; lia) ltac:(lia))
    as (high & Ehigh & Hhigh).
  { rewrite inject_Z_mult, quarter_power. field. }
  destruct (int_add_float_finite xs _ _ (4 * xs + 3 * W) 2
              ltac:(rewrite two_53_value; lia) Hhigh
              ltac:(rewrite two_53_value; lia) ltac:(lia))
    as (hi & Ehi & Hhi).
  { rewrite inject_Z_plus, !inject_Z_mult, quarter_power. field. }
  unfold gutter_at, GUTTER_SEARCH_RANGE_LAYOUT_RATIO. cbn [fst snd].
  rewrite Emid. cbn [bind]. rewrite Elow. cbn [bind]. rewrite Elo.
  cbn [bind]. rewrite Ehigh. cbn [bind]. rewrite Ehi. cbn [bind].
  eexists. split; [reflexivity|].
  rewrite (fle_finite _ _ _ _ Hlo Hmid), (fle_finite _ _ _ _ Hmid Hhi).
  rewrite (flt_finite _ _ _ _ (exact_int_finite 0) Hwidth).
  unfold Exact.gap_between, Exact.GUTTER_SEARCH_RANGE_LAYOUT_RATIO.
  cbn [fst snd]. change (inject_Z 0) with 0%Q.
  destruct (_ && _); constructor; [|constructor].
  split; [reflexivity|]. cbn. split; assumption.
Qed.

Lemma potential_gutters_agrees (xs W : Z) (i : nat) (s : list centered)
    (s' : list Exact.centered) :
  Z.abs xs <= agreement_bound -> Z.abs W <= 2 * agreement_bound ->
  Forall2 centre_agrees s s' -> Forall centre_in_range s' ->
  exists gs, potential_gutters xs W i s = Ok gs
             /\ Forall2 gutter_agrees gs (Exact.potential_gutters xs W i s').
Proof.
  intros Hxs HW Hs. revert i.
  induction Hs as [|a a' s s' Ha Hs IH]; intros i Hr.
  - exists []. split; [reflexivity|constructor].
  - destruct Hs as [|b b' s s' Hb Hs].
    + exists []. split; [reflexivity|constructor].
    + rewrite potential_gutters_pass, potential_gutters_step.
      inversion Hr as [|? ? Ra Hr']; subst.
      pose proof Hr' as Hr''. inversion Hr'' as [|? ? Rb _]; subst.
      destruct (gutter_at_agrees xs W i a b a' b' Hxs HW Ha Hb Ra Rb)
        as (here & -> & Hhere).
      destruct (IH (S i) Hr') as (later & -> & Hlater). cbn [bind].
      eexists. split; [reflexivity|]. now apply Forall2_app.
Qed.

Lemma max_from_agrees (first : gutter) (first' : Exact.gutter)
    (others : list gutter) (others' : list Exact.gutter) :
  gutter_agrees first first' -> Forall2 gutter_agrees others others' ->
  gutter_agrees (max_from gap_width_centers first others)
                (Exact.max_from Exact.gap_width_centers first' others').
Proof.
  intros Hf Ho. revert first first' Hf.
  induction Ho as [|x x' l l' Hx Hl IH]; intros first first' Hf;
    [exact Hf|].
  cbn [max_from Exact.max_from]. apply IH.
  rewrite (flt_finite _ _ _ _ (proj1 (proj2 Hf)) (proj1 (proj2 Hx))).
  destruct (Qlt_bool _ _); assumption.
Qed.

Lemma Forall2_bbox (l : list centered) (l' : list Exact.centered) (n : nat) :
  Forall2 centre_agrees l l' ->
  map bbox (firstn n l) = map Exact.bbox (firstn n l')
  /\ map bbox (skipn n l) = map Exact.bbox (skipn n l').
Proof.
  intros H. revert n. induction H as [|x x' l l' Hx Hl IH]; intros n.
  - destruct n; split; reflexivity.
  - destruct n as [|n].
    + cbn. destruct (IH 0%nat) as [_ E]. cbn in E.
      rewrite (proj1 Hx), E. split; reflexivity.
    + cbn. destruct (IH n) as [E1 E2].
      rewrite (proj1 Hx), E1, E2. split; reflexivity.
Qed.

Lemma find_columns_agrees (lb : BBox) (tbs : list BBox) :
  coordinates_below agreement_bound lb = true ->
  forallb (coordinates_below agreement_bound) tbs = true ->
  find_columns lb tbs = Exact.find_columns lb tbs.
Proof.
  intros Hl Ht. unfold find_columns, Exact.find_columns.
  destruct (unpack4 lb) as [t|e] eqn:El; cbn [bind]; [|reflexivity].
  pose proof El as El'.
  apply unpack4_Ok in El' as (xs & ys & xe & ye & -> & ->).
  destruct (_ || _); [reflexivity|].
  rewrite (non_spanning_agrees _ _ Hl Ht).
  destruct (Exact.non_spanning_boxes _ tbs) as [ns|e] eqn:En; cbn [bind];
    [|reflexivity].
  destruct (_ <? _)%nat; [reflexivity|].
  assert (Hns : forallb (coordinates_below agreement_bound) ns = true).
  { apply forallb_forall. intros b Hb.
    apply (proj1 (forallb_forall _ _) Ht).
    exact (non_spanning_boxes_incl _ _ _ En b Hb). }
  destruct (centered_agrees ns Hns) as (cs & -> & Hcs). cbn [bind].
  pose proof (py_sorted_agrees _ _ Hcs) as Hsorted.
  assert (Hrange : Forall centre_in_range
                     (Exact.py_sorted Exact.cx (Exact.centered_boxes ns))).
  { eapply Permutation_Forall; [apply py_sorted_perm|].
    now apply centered_in_range. }
  apply coordinates_below_4 in Hl as (Hxs & _ & Hxe & _).
  destruct (potential_gutters_agrees xs (xe - xs) 0 _ _
              ltac:(lia) ltac:(lia) Hsorted Hrange) as (gs & -> & Hgs).
  cbn [bind].
  destruct Hgs as [|g g' gs gs' Hg Hgs]; [reflexivity|].
  destruct (max_from_agrees _ _ _ _ Hg Hgs) as (-> & _).
  destruct (Forall2_bbox _ _
              (Exact.split_index
                 (Exact.max_from Exact.gap_width_centers g' gs') + 1)
              Hsorted) as [-> ->].
  reflexivity.
Qed.

(** ** The medians and the validation of the columns *)

Lemma nth_below (B : Z) (l : list Z) (i : nat) :
  0 <= B -> Forall (fun x => Z.abs x <= B) l -> Z.abs (nth i l 0) <= B.
Proof.
  intros HB H. destruct (nth_in_or_default i l 0) as [Hin | ->].
  - exact (proj1 (Forall_forall _ _) H _ Hin).
  - cbn. lia.
Qed.

(** The exact median is half of an integer. *)
Lemma exact_median_half (B : Z) (data : list Z) :
  0 <= B -> Forall (fun x => Z.abs x <= B) data ->
  exists m, Z.abs m <= 2 * B /\ (Exact.np_median data == inject_Z m / 2)%Q.
Proof.
  intros HB H. unfold Exact.np_median. cbv zeta.
  assert (Hs : Forall (fun x => Z.abs x <= B) (sort_Z data)).
  { eapply Permutation_Forall; [apply sort_Z_perm|exact H]. }
  set (s := sort_Z data) in *.
  pose proof (nth_below B s (length s / 2 - 1) HB Hs) as Hlo.
  pose proof (nth_below B s (length s / 2) HB Hs) as Hup.
  destruct (Nat.even (length s)).
  - exists (nth (length s / 2 - 1) s 0 + nth (length s / 2) s 0).
    split; [lia|]. now rewrite inject_Z_plus.
  - exists (2 * nth (length s / 2) s 0). split; [lia|].
    rewrite inject_Z_mult. field.
Qed.

Lemma np_median_agrees (data : list Z) :
  data <> [] -> Forall (fun x => Z.abs x <= agreement_bound) data ->
  is_finite (np_median data) (Exact.np_median data).
Proof.
  intros Hne H. unfold np_median, Exact.np_median. cbv zeta.
  assert (Hs : Forall (fun x => Z.abs x <= agreement_bound) (sort_Z data)).
  { eapply Permutation_Forall; [apply sort_Z_perm|exact H]. }
  assert (Hlen : length (sort_Z data) <> 0%nat).
  { rewrite sort_Z_length. destruct data; [congruence|discriminate]. }
  set (s := sort_Z data) in *.
  assert (HB : 0 <= agreement_bound) by (rewrite agreement_bound_value; lia).
  pose proof (nth_below _ s (length s / 2 - 1) HB Hs) as Hlo.
  pose proof (nth_below _ s (length s / 2) HB Hs) as Hup.
  rewrite agreement_bound_value in *.
  set (lower := nth (length s / 2 - 1) s 0) in *.
  set (upper := nth (length s / 2) s 0) in *.
  destruct (Nat.eqb_spec (length s) 0) as [|_]; [contradiction|].
  assert (Hl : is_finite (np_float64 lower) (inject_Z lower))
    by (apply np_float64_finite; rewrite two_53_value; lia).
  assert (Hu : is_finite (np_float64 upper) (inject_Z upper))
    by (apply np_float64_finite; rewrite two_53_value; lia).
  destruct (Nat.even (length s)).
  - apply (fdiv_finite _ (Finite 2) _ 2 (lower + upper) 1);
      [|exists 2%Q; split; reflexivity|rewrite two_53_value; lia|lia|].
    + apply (fadd_finite _ _ _ _ (lower + upper) 0); auto;
        [rewrite two_53_value; lia|lia|].
      rewrite inject_Z_plus. change (2 ^ 0)%Q with 1%Q. field.
    + rewrite inject_Z_plus. reflexivity.
  - apply (is_finite_comp _ (inject_Z upper / 1)); [field|].
    apply (fdiv_finite _ (Finite 1) _ 1 upper 0);
      [exact Hu|exists 1%Q; split; reflexivity
      |rewrite two_53_value; lia|lia|reflexivity].
Qed.

Lemma map_item_below (L : list BBox) (i : nat) :
  forallb (coordinates_below agreement_bound) L = true ->
  Forall (fun x => Z.abs x <= agreement_bound) (map (fun b => item b i) L).
Proof.
  intros H. rewrite forallb_forall in H.
  apply Forall_forall. intros x Hx.
  apply in_map_iff in Hx as (b & <- & Hb).
  apply item_below; [rewrite agreement_bound_value; lia|now apply H].
Qed.

Lemma median_separation_agrees (L R : list BBox) :
  L <> [] -> R <> [] ->
  forallb (coordinates_below agreement_bound) L = true ->
  forallb (coordinates_below agreement_bound) R = true ->
  is_finite (median_separation L R) (Exact.median_separation L R).
Proof.
  intros HL HR BL BR. unfold median_separation, Exact.median_separation.
  cbv zeta.
  pose proof (map_item_below L 2 BL) as DL.
  pose proof (map_item_below R 0 BR) as DR.
  assert (HB : 0 <= agreement_bound) by (rewrite agreement_bound_value; lia).
  destruct (exact_median_half _ _ HB DL) as (mL & BmL & EL).
  destruct (exact_median_half _ _ HB DR) as (mR & BmR & ER).
  rewrite agreement_bound_value in *.
  apply (fsub_finite _ _ _ _ (mR - mL) 1).
  - apply np_median_agrees; [destruct R; [congruence|discriminate]|].
    now rewrite agreement_bound_value.
  - apply np_median_agrees; [destruct L; [congruence|discriminate]|].
    now rewrite agreement_bound_value.
  - rewrite two_53_value. lia.
  - lia.
  - rewrite EL, ER. unfold Z.sub. rewrite inject_Z_plus, inject_Z_opp.
    change (2 ^ 1)%Q with 2%Q. field.
Qed.

Lemma column_too_short_agrees (height layout_height : Z) :
  0 < layout_height <= 2 * agreement_bound ->
  Z.abs height <= 2 * agreement_bound ->
  column_too_short height layout_height
  = Ok (10 * height <? 3 * layout_height).
Proof.
  intros HH Hh. rewrite agreement_bound_value in *.
  unfold column_too_short, int_mul_float.
  destruct (float_of_int_finite layout_height) as (x & -> & r & -> & Er).
  { rewrite two_53_value. lia. }
  cbn [bind]. unfold MIN_COLUMN_HEIGHT_LAYOUT_RATIO, float_literal.
  cbn [fmul]. unfold rounded. cbv zeta.
  rewrite (product_03_bounded layout_height r)
    by (rewrite ?two_45_value; (lia || exact Er)).
  cbn [flt exact_int].
  rewrite (product_above_03 height layout_height r)
    by (rewrite ?two_45_value; (lia || exact Er)).
  reflexivity.
Qed.

Lemma validate_vertical_agrees (L R : list BBox) (H : Z) :
  0 < H <= 2 * agreement_bound ->
  forallb (coordinates_below agreement_bound) L = true ->
  forallb (coordinates_below agreement_bound) R = true ->
  validate_vertical L R H = Exact.validate_vertical L R H.
Proof.
  intros HH BL BR. unfold validate_vertical, Exact.validate_vertical.
  destruct (_ || _); [reflexivity|].
  destruct (py_min (map _ L)) as [minL|e] eqn:E1; cbn [bind]; [|reflexivity].
  destruct (py_max (map _ L)) as [maxL|e] eqn:E2; cbn [bind]; [|reflexivity].
  destruct (py_min (map _ R)) as [minR|e] eqn:E3; cbn [bind]; [|reflexivity].
  destruct (py_max (map _ R)) as [maxR|e] eqn:E4; cbn [bind]; [|reflexivity].
  apply py_min_spec in E1 as [I1 _]. apply py_max_spec in E2 as [I2 _].
  apply py_min_spec in E3 as [I3 _]. apply py_max_spec in E4 as [I4 _].
  pose proof (proj1 (Forall_forall _ _) (map_item_below L 1 BL) _ I1) as B1.
  pose proof (proj1 (Forall_forall _ _) (map_item_below L 3 BL) _ I2) as B2.
  pose proof (proj1 (Forall_forall _ _) (map_item_below R 1 BR) _ I3) as B3.
  pose proof (proj1 (Forall_forall _ _) (map_item_below R 3 BR) _ I4) as B4.
  cbv beta in B1, B2, B3, B4.
  rewrite !column_too_short_agrees by lia. cbn [bind].
  rewrite !height_ratio_test.
  destruct (Z.ltb_spec (10 * (maxL - minL)) (3 * H)) as [|TL]; cbn [bind orb];
    [reflexivity|].
  destruct (Z.ltb_spec (10 * (maxR - minR)) (3 * H)) as [|TR]; [reflexivity|].
  destruct (Z.eqb_spec (Z.min (maxL - minL) (maxR - minR)) 0) as [|Hne];
    [reflexivity|].
  rewrite agreement_bound_value in *.
  rewrite py_div_bounded by (rewrite ?two_53_value; lia).
  unfold Exact.py_div. rewrite (proj2 (Z.eqb_neq _ _) Hne). cbn [bind].
  unfold MIN_VERTICAL_OVERLAP_RATIO_OF_SHORTER_COLUMN, float_literal.
  cbn [flt].
  rewrite ratio_below_04 by (rewrite ?two_45_value; lia).
  rewrite overlap_ratio_test by lia. reflexivity.
Qed.

Lemma validate_columns_agrees (L R : list BBox) (H : Z) :
  0 < H <= 2 * agreement_bound ->
  forallb (coordinates_below agreement_bound) L = true ->
  forallb (coordinates_below agreement_bound) R = true ->
  validate_columns L R H = Exact.validate_columns L R H.
Proof.
  intros HH BL BR. unfold validate_columns, Exact.validate_columns.
  unfold MIN_BOXES_PER_DETECTED_COLUMN.
  destruct (Nat.ltb_spec (length L) 2); [reflexivity|].
  destruct (Nat.ltb_spec (length R) 2); [reflexivity|]. cbn [orb].
  assert (HL : L <> []) by (destruct L; [cbn in *; lia|discriminate]).
  assert (HR : R <> []) by (destruct R; [cbn in *; lia|discriminate]).
  rewrite (flt_finite _ _ _ _ (median_separation_agrees L R HL HR BL BR)
             (exact_int_finite _)).
  rewrite (validate_vertical_agrees L R H HH BL BR). reflexivity.
Qed.

(** ** The whole call *)

Lemma forallb_incl {A} (f : A -> bool) (l l' : list A) :
  (forall x, In x l -> In x l') -> forallb f l' = true -> forallb f l = true.
Proof.
  intros Hi H. rewrite forallb_forall in *. auto.
Qed.

Lemma classify_agrees (lb : BBox) (tbs : list BBox) :
  coordinates_below agreement_bound lb = true ->
  forallb (coordinates_below agreement_bound) tbs = true ->
  classify lb tbs = Exact.classify lb tbs.
Proof.
  intros Hl Ht. unfold classify, Exact.classify.
  rewrite (find_columns_agrees lb tbs Hl Ht).
  destruct (Exact.find_columns lb tbs) as [[s|c]|e] eqn:Ef; cbn [bind];
    try reflexivity.
  apply find_columns_inr in Ef
    as (xs & ys & xe & ye & ns & g & gs & -> & HH & _ & Hns & _ & _ & ->).
  cbv zeta. cbn [left_column_boxes right_column_boxes layout_height].
  apply coordinates_below_4 in Hl as (_ & Hys & _ & Hye).
  set (sorted := Exact.py_sorted Exact.cx (Exact.centered_boxes ns)).
  set (n := (Exact.split_index _ + 1)%nat).
  assert (Hin : forall b, In b (map Exact.bbox sorted) -> In b tbs).
  { intros b Hb. apply (non_spanning_boxes_incl _ _ _ Hns).
    rewrite <- (centered_boxes_bbox ns).
    eapply Permutation_in; [|exact Hb].
    apply Permutation_map, Permutation_sym, py_sorted_perm. }
  apply validate_columns_agrees; [lia| |].
  - apply (forallb_incl _ _ tbs); [|exact Ht].
    intros b Hb. apply Hin. apply in_map_iff in Hb as (c & <- & Hc).
    apply in_map. eapply firstn_incl, Hc.
  - apply (forallb_incl _ _ tbs); [|exact Ht].
    intros b Hb. apply Hin. apply in_map_iff in Hb as (c & <- & Hc).
    apply in_map. eapply skipn_incl, Hc.
Qed.

Lemma layout_below_fields (B : Z) (l : layout) :
  layout_below B l = true ->
  (forall lb, bbox_layout l = Some lb -> coordinates_below B lb = true)
  /\ (forall tbs, bbox_text l = Some tbs ->
        forallb (coordinates_below B) tbs = true).
Proof.
  unfold layout_below. rewrite andb_true_iff. intros [H1 H2]. split.
  - intros lb E. now rewrite E in H1.
  - intros tbs E. now rewrite E in H2.
Qed.

(** On coordinates up to [agreement_bound] the double-precision program
    and the exact program return the same. *)
Lemma detect_site_agrees (l : layout) :
  layout_below agreement_bound l = true ->
  detect_two_columns_site l = Exact.detect_two_columns_site l.
Proof.
  intros H. apply layout_below_fields in H as [Hl Ht].
  rewrite detect_site_run, detect_two_columns_site_run.
  destruct (bbox_layout l) as [[|x lb]|] eqn:El; try reflexivity.
  destruct (bbox_text l) as [[|t tbs]|] eqn:Et; try reflexivity.
  now rewrite (classify_agrees _ _ (Hl _ eq_refl) (Ht _ eq_refl)).
Qed.

Lemma detect_agrees (l : layout) :
  layout_below agreement_bound l = true ->
  detect_two_columns l = Exact.detect_two_columns l.
Proof.
  intros H. rewrite detect_run, detect_two_columns_run.
  now rewrite (detect_site_agrees l H).
Qed.

Lemma reaches_agrees (l : layout) (c : columns) :
  layout_below agreement_bound l = true ->
  reaches l c <-> Exact.reaches l c.
Proof.
  intros H. apply layout_below_fields in H as [Hl Ht].
  unfold reaches, Exact.reaches. split.
  - intros (lb & tbs & E1 & E2 & Ef). exists lb, tbs.
    repeat split; auto.
    now rewrite <- (find_columns_agrees _ _ (Hl _ E1) (Ht _ E2)).
  - intros (lb & tbs & E1 & E2 & Ef). exists lb, tbs.
    repeat split; auto.
    now rewrite (find_columns_agrees _ _ (Hl _ E1) (Ht _ E2)).
Qed.

Lemma coordinates_below_mono (B B' : Z) (b : BBox) :
  B <= B' -> coordinates_below B b = true -> coordinates_below B' b = true.
Proof.
  intros HB. unfold coordinates_below. rewrite !forallb_forall.
  intros H c Hc. specialize (H c Hc). apply Z.leb_le in H. apply Z.leb_le.
  lia.
Qed.

Lemma layout_below_mono (B B' : Z) (l : layout) :
  B <= B' -> layout_below B l = true -> layout_below B' l = true.
Proof.
  intros HB. unfold layout_below. rewrite !andb_true_iff. intros [H1 H2].
  split.
  - destruct (bbox_layout l); [|reflexivity].
    now apply (coordinates_below_mono B B').
  - destruct (bbox_text l) as [tbs|]; [|reflexivity].
    rewrite forallb_forall in *. intros b Hb.
    now apply (coordinates_below_mono B B'), H2.
Qed.

Lemma pixel_range_agreement (l : layout) :
  pixel_range l -> layout_below agreement_bound l = true.
Proof.
  apply layout_below_mono. unfold pixel_bound, agreement_bound.
  apply Z.pow_le_mono_r; lia.
Qed.

(** ** [in_same_level] and [find_min_width] *)

Lemma in_same_level_agrees (text_box_1 text_box_2 : BBox) (margin : Z) :
  coordinates_below agreement_bound text_box_1 = true ->
  coordinates_below agreement_bound text_box_2 = true ->
  in_same_level text_box_1 text_box_2 margin
  = Exact.in_same_level text_box_1 text_box_2 margin.
Proof.
  intros H1 H2. unfold in_same_level, Exact.in_same_level.
  destruct (unpack4 text_box_1) as [t|e] eqn:E1; cbn [bind]; [|reflexivity].
  apply unpack4_Ok in E1 as (x1s & y1s & x1e & y1e & -> & ->).
  destruct (unpack4 text_box_2) as [t|e] eqn:E2; cbn [bind]; [|reflexivity].
  apply unpack4_Ok in E2 as (x2s & y2s & x2e & y2e & -> & ->).
  apply coordinates_below_4 in H1 as (A1 & A2 & A3 & A4).
  apply coordinates_below_4 in H2 as (B1 & B2 & B3 & B4).
  rewrite agreement_bound_value in *.
  destruct (py_div_half (y1s + y1e)) as (c1 & -> & Hc1);
    [rewrite two_53_value; lia|].
  destruct (py_div_half (y2s + y2e)) as (c2 & -> & Hc2);
    [rewrite two_53_value; lia|].
  cbn [bind unpack4].
  assert (Hd : is_finite (fsub c1 c2)
                 (inject_Z (y1s + y1e) / 2 - inject_Z (y2s + y2e) / 2)).
  { apply (fsub_finite _ _ _ _ (y1s + y1e - (y2s + y2e)) 1); auto;
      [rewrite two_53_value; lia|lia|].
    unfold Z.sub. rewrite (inject_Z_plus (y1s + y1e)), inject_Z_opp.
    change (2 ^ 1)%Q with 2%Q. field. }
  rewrite (fle_finite _ _ _ _ (fabs_finite _ _ Hd) (exact_int_finite margin)).
  set (mw := Z.min (x1e - x1s) (x2e - x2s)).
  destruct (Z.eqb_spec mw 0) as [|Hne]; [reflexivity|].
  assert (H05 : is_finite (float_literal 0.5) 0.5).
  { apply (float_literal_finite _ 1 1); [cbn; lia|lia|reflexivity]. }
  destruct (float_mul_int_finite (float_literal 0.5) mw 0.5 mw 1)
    as (half & -> & Hhalf);
    [unfold mw; rewrite two_53_value; lia|exact H05
    |unfold mw; rewrite two_53_value; lia|lia| |].
  { change (2 ^ 1)%Q with 2%Q. field. }
  cbn [bind].
  now rewrite (flt_finite _ _ _ _ (exact_int_finite _) Hhalf).
Qed.

Lemma pair_gap_agrees (text_box_1 text_box_2 : BBox) :
  coordinates_below agreement_bound text_box_1 = true ->
  coordinates_below agreement_bound text_box_2 = true ->
  pair_gap text_box_1 text_box_2 = Exact.pair_gap text_box_1 text_box_2.
Proof.
  intros H1 H2. unfold pair_gap, Exact.pair_gap.
  destruct (unpack4 text_box_1) as [t|e] eqn:E1; cbn [bind]; [|reflexivity].
  apply unpack4_Ok in E1 as (x1s & y1s & x1e & y1e & -> & ->).
  destruct (unpack4 text_box_2) as [t|e] eqn:E2; cbn [bind]; [|reflexivity].
  apply unpack4_Ok in E2 as (x2s & y2s & x2e & y2e & -> & ->).
  apply coordinates_below_4 in H1 as (A1 & A2 & A3 & A4).
  apply coordinates_below_4 in H2 as (B1 & B2 & B3 & B4).
  rewrite agreement_bound_value in *.
  destruct (py_div_half (x1s + x1e)) as (c1 & -> & Hc1);
    [rewrite two_53_value; lia|].
  destruct (py_div_half (x2s + x2e)) as (c2 & -> & Hc2);
    [rewrite two_53_value; lia|].
  cbn [bind]. now rewrite (flt_finite _ _ _ _ Hc1 Hc2).
Qed.

Lemma scan_pairs_agrees (pairs : list (BBox * BBox)) (margin start : Z) :
  Forall (fun p => coordinates_below agreement_bound (fst p) = true
                   /\ coordinates_below agreement_bound (snd p) = true)
         pairs ->
  scan_pairs pairs margin start = Exact.scan_pairs pairs margin start.
Proof.
  intros H. revert start.
  induction H as [|[a b] pairs [Ha Hb] _ IH]; intros start; [reflexivity|].
  cbn [scan_pairs Exact.scan_pairs]. cbn [fst snd] in Ha, Hb.
  rewrite (in_same_level_agrees a b margin Ha Hb).
  destruct (Exact.in_same_level a b margin) as [[|]|e]; cbn [bind];
    [|apply IH|reflexivity].
  rewrite (pair_gap_agrees a b Ha Hb).
  destruct (Exact.pair_gap a b) as [gap|e]; cbn [bind]; [apply IH|reflexivity].
Qed.

Lemma combinations2_Forall {A} (P : A -> Prop) (l : list A) :
  Forall P l -> Forall (fun p => P (fst p) /\ P (snd p)) (combinations2 l).
Proof.
  induction 1 as [|x l Hx Hl IH]; [constructor|].
  cbn [combinations2]. apply Forall_app. split; [|exact IH].
  apply Forall_forall. intros p Hp.
  apply in_map_iff in Hp as (y & <- & Hy). cbn. split; [exact Hx|].
  exact (proj1 (Forall_forall _ _) Hl y Hy).
Qed.

Lemma find_min_width_agrees (l : layout) (margin start : Z) :
  layout_below agreement_bound l = true ->
  find_min_width margin start l = Exact.find_min_width margin start l.
Proof.
  intros H. apply layout_below_fields in H as [_ Ht].
  unfold find_min_width, Exact.find_min_width, mbind, dict_get, pure, mret.
  destruct (bbox_text l) as [tbs|] eqn:E; [|reflexivity].
  destruct (_ <? _)%nat; [reflexivity|].
  rewrite scan_pairs_agrees; [reflexivity|].
  apply (combinations2_Forall
           (fun b => coordinates_below agreement_bound b = true)).
  apply Forall_forall. exact (proj1 (forallb_forall _ _) (Ht _ eq_refl)).
Qed.

(** * Properties on pixel coordinates *)

(** ** The exceptions of the spanning test *)

Lemma pixel_box_agreement (b : BBox) :
  pixel_box b -> coordinates_below agreement_bound b = true.
Proof.
  apply coordinates_below_mono. unfold pixel_bound, agreement_bound.
  apply Z.pow_le_mono_r; lia.
Qed.

(** X2: the spanning test raises [ValueError] exactly when one of the two
    boxes does not have four items; the only other exception it can raise
    is [OverflowError], when the quotient of the widths is too large for a
    float; on four-item boxes it returns a boolean whenever the text box
    has pixel coordinates. *)
Theorem spanning_box_raises_on_malformed (text_bbox layout_bbox : BBox) :
  (_is_likely_spanning_box text_bbox layout_bbox = Raise ValueError
   <-> ~ (length text_bbox = 4%nat /\ length layout_bbox = 4%nat))
  /\ (forall e, _is_likely_spanning_box text_bbox layout_bbox = Raise e ->
        e = ValueError \/ e = OverflowError)
  /\ (length text_bbox = 4%nat -> length layout_bbox = 4%nat ->
      pixel_box text_bbox ->
      exists b, _is_likely_spanning_box text_bbox layout_bbox = Ok b).
Proof.
  split; [split|split].
  - intros H. apply spanning_raises in H as [[_ H]|[H _]];
      [exact H|discriminate].
  - intros Hbad.
    destruct (_is_likely_spanning_box text_bbox layout_bbox) as [b|e] eqn:E.
    + apply spanning_returns in E. contradiction.
    + apply spanning_raises in E as [[-> _]|[_ H]];
        [reflexivity|contradiction].
  - intros e H. apply spanning_raises in H as [[-> _]|[-> _]]; auto.
  - intros Ht Hl Hp.
    apply length4_inv in Ht as (a & a1 & b & b1 & ->).
    apply length4_inv in Hl as (xs & ys & xe & ye & ->).
    apply pixel_box_agreement, coordinates_below_4 in Hp as (Ha & _ & Hb & _).
    rewrite agreement_bound_value in *.
    unfold _is_likely_spanning_box. cbn [unpack4 bind].
    destruct (Z.eqb_spec (xe - xs) 0) as [|Hne]; [eauto|].
    rewrite py_div_bounded by (rewrite ?two_53_value; lia). cbn [bind].
    destruct (flt _ _); [eauto|]. destruct (_ <? _); eauto.
Qed.

Lemma spanning_box_raises_on_malformed_witness :
  exists b, _is_likely_spanning_box [50; 50; 950; 100] [0; 0; 1000; 800] = Ok b.
Proof.
  apply (proj2 (proj2 (spanning_box_raises_on_malformed
                         [50; 50; 950; 100] [0; 0; 1000; 800])));
    reflexivity.
Defined.

(** X1: against a layout box of non-zero width, both boxes in pixel
    coordinates, a box is spanning exactly when ten times its width exceeds
    seven times the layout width (the inequality turns round for a negative
    layout width) or its width exceeds 700; the test raises nothing. *)
Theorem spanning_box_integer_rule
    (box_x_start box_y_start box_x_end box_y_end : Z)
    (layout_x_start layout_y_start layout_x_end layout_y_end : Z) :
  let box_width := box_x_end - box_x_start in
  let layout_width := layout_x_end - layout_x_start in
  pixel_box [box_x_start; box_y_start; box_x_end; box_y_end] ->
  pixel_box [layout_x_start; layout_y_start; layout_x_end; layout_y_end] ->
  layout_width <> 0 ->
  _is_likely_spanning_box
    [box_x_start; box_y_start; box_x_end; box_y_end]
    [layout_x_start; layout_y_start; layout_x_end; layout_y_end]
  = Ok ((if 0 <? layout_width then 7 * layout_width <? 10 * box_width
         else 10 * box_width <? 7 * layout_width)
        || (700 <? box_width)).
Proof.
  intros box_width layout_width Hb Hl Hne.
  rewrite spanning_agrees by now apply pixel_box_agreement.
  now apply spanning_box_integer_rule_exact.
Qed.

Lemma spanning_box_integer_rule_witness :
  _is_likely_spanning_box [50; 50; 950; 100] [0; 0; 1000; 800]
  = Ok ((if 0 <? 1000 - 0 then 7 * (1000 - 0) <? 10 * (950 - 50)
         else 10 * (950 - 50) <? 7 * (1000 - 0))
        || (700 <? 950 - 50)).
Proof.
  apply (spanning_box_integer_rule 50 50 950 100 0 0 1000 800);
    [reflexivity|reflexivity|lia].
Defined.

(** ** [in_same_level] *)

Lemma too_large_opp (x : Q) : too_large (- x) = too_large x.
Proof. unfold too_large. now rewrite Qabs_opp. Qed.

Lemma too_large_nonzero (x : Q) : too_large x = true -> ~ (x == 0)%Q.
Proof.
  unfold too_large. intros H E. apply Qle_bool_iff in H.
  rewrite E in H. cbn in H. pose proof (pow2_pos 1024) as P.
  exact (Qlt_not_le _ _ P H).
Qed.

(** The absolute value of a difference of two doubles does not depend on
    the order of the two. *)
Lemma fabs_fsub_swap (a b : Q) (m : float) :
  fle (fabs (fsub (Finite a) (Finite b))) m
  = fle (fabs (fsub (Finite b) (Finite a))) m.
Proof.
  cbn [fsub fopp fadd]. unfold rounded. cbv zeta.
  assert (E : (nearest (b + - a) == - nearest (a + - b))%Q).
  { rewrite <- nearest_opp. rewrite (nearest_comp (b + - a) (- (a + - b)));
      [reflexivity|ring]. }
  rewrite (too_large_comp _ _ E), too_large_opp.
  destruct (too_large (nearest (a + - b))); cbn [fabs]; [reflexivity|].
  destruct m as [q|s|]; cbn [fle]; try reflexivity.
  apply Qle_bool_comp; [|reflexivity]. rewrite E. now rewrite Qabs_opp.
Qed.

Lemma in_same_level_swap (text_box_1 text_box_2 : BBox) (margin : Z) :
  in_same_level text_box_1 text_box_2 margin
  = in_same_level text_box_2 text_box_1 margin.
Proof.
  unfold in_same_level.
  destruct (unpack4 text_box_1) as [[[[x1s y1s] x1e] y1e]|e1] eqn:E1;
    destruct (unpack4 text_box_2) as [[[[x2s y2s] x2e] y2e]|e2] eqn:E2;
    cbn [bind]; try reflexivity.
  - destruct (py_div (y1s + y1e) 2) as [c1|e1] eqn:D1;
      destruct (py_div (y2s + y2e) 2) as [c2|e2] eqn:D2; cbn [bind];
      try reflexivity.
    + apply py_div_Ok in D1 as [_ ->]. apply py_div_Ok in D2 as [_ ->].
      rewrite (fabs_fsub_swap _ _ (exact_int margin)).
      rewrite (Z.min_comm x1e x2e), (Z.max_comm x1s x2s),
              (Z.min_comm (x1e - x1s) (x2e - x2s)).
      reflexivity.
    + apply py_div_Raise in D1 as [[H _]|[_ ->]]; [discriminate|].
      apply py_div_Raise in D2 as [[H _]|[_ ->]]; [discriminate|].
      reflexivity.
  - apply unpack4_Raise in E1 as ->. apply unpack4_Raise in E2 as ->.
    reflexivity.
Qed.

(** X3: [in_same_level] gives the same answer, an exception included, when
    the two boxes are exchanged; and on pixel coordinates it depends only on
    the relative position of the boxes: moving both by the same offset,
    within the pixel range, leaves the answer as it is. *)
Theorem in_same_level_relative (text_box_1 text_box_2 : BBox)
    (margin dx dy : Z) :
  in_same_level text_box_1 text_box_2 margin
  = in_same_level text_box_2 text_box_1 margin
  /\ (pixel_box text_box_1 -> pixel_box text_box_2 ->
      pixel_box (shift_box dx dy text_box_1) ->
      pixel_box (shift_box dx dy text_box_2) ->
      in_same_level (shift_box dx dy text_box_1) (shift_box dx dy text_box_2)
                    margin
      = in_same_level text_box_1 text_box_2 margin).
Proof.
  split; [apply in_same_level_swap|].
  intros H1 H2 H1' H2'.
  rewrite !in_same_level_agrees by now apply pixel_box_agreement.
  apply in_same_level_relative_exact.
Qed.

Lemma in_same_level_relative_witness :
  in_same_level (shift_box 1000 (-40) [0; 0; 100; 20])
                (shift_box 1000 (-40) [150; 5; 300; 25]) 10
  = in_same_level [0; 0; 100; 20] [150; 5; 300; 25] 10.
Proof.
  apply (proj2 (in_same_level_relative [0; 0; 100; 20] [150; 5; 300; 25]
                  10 1000 (-40))); reflexivity.
Defined.

(** X4: two four-item boxes in pixel coordinates are on the same level
    exactly when their vertical centres are at most [margin] apart and
    either the narrower box has width zero or the horizontal overlap is less
    than half of its width. *)
Theorem in_same_level_integer_rule (x1_start y1_start x1_end y1_end : Z)
    (x2_start y2_start x2_end y2_end margin : Z) :
  let x_overlap := Z.max 0 (Z.min x1_end x2_end - Z.max x1_start x2_start) in
  let min_width := Z.min (x1_end - x1_start) (x2_end - x2_start) in
  pixel_box [x1_start; y1_start; x1_end; y1_end] ->
  pixel_box [x2_start; y2_start; x2_end; y2_end] ->
  (in_same_level [x1_start; y1_start; x1_end; y1_end]
                 [x2_start; y2_start; x2_end; y2_end] margin = Ok true
   <-> Z.abs (y1_start + y1_end - (y2_start + y2_end)) <= 2 * margin
       /\ (min_width = 0 \/ 2 * x_overlap < min_width)).
Proof.
  intros x_overlap min_width H1 H2.
  rewrite in_same_level_agrees by now apply pixel_box_agreement.
  apply in_same_level_integer_rule_exact.
Qed.

Lemma in_same_level_integer_rule_witness :
  in_same_level [0; 0; 100; 20] [150; 5; 300; 25] 10 = Ok true.
Proof.
  apply (proj2 (in_same_level_integer_rule 0 0 100 20 150 5 300 25 10
                  eq_refl eq_refl)).
  cbn. lia.
Defined.

(** X5: a four-item box in pixel coordinates is on the same level as a
    copy of itself only if its width is zero (and the margin is not
    negative): two copies of a box of non-zero width always count as the
    same column. *)
Theorem in_same_level_same_box (x_start y_start x_end y_end margin : Z) :
  pixel_box [x_start; y_start; x_end; y_end] ->
  in_same_level [x_start; y_start; x_end; y_end]
                [x_start; y_start; x_end; y_end] margin
  = Ok ((0 <=? margin) && (x_end - x_start =? 0)).
Proof.
  intros H. rewrite in_same_level_agrees by now apply pixel_box_agreement.
  apply in_same_level_same_box_exact.
Qed.

Lemma in_same_level_same_box_witness :
  in_same_level [150; 5; 300; 25] [150; 5; 300; 25] 10
  = Ok ((0 <=? 10) && (300 - 150 =? 0)).
Proof.
  apply (in_same_level_same_box 150 5 300 25 10). reflexivity.
Defined.

(** ** [find_min_width] *)

(** X12: the gap of a pair of four-item boxes in pixel coordinates is the
    signed horizontal distance between them, the larger of "left edge of
    one minus right edge of the other" taken both ways; it does not depend
    on the order of the two boxes. *)
Theorem pair_gap_is_horizontal_distance
    (b1_x_start b1_y_start b1_x_end b1_y_end : Z)
    (b2_x_start b2_y_start b2_x_end b2_y_end : Z) :
  let box_1 := [b1_x_start; b1_y_start; b1_x_end; b1_y_end] in
  let box_2 := [b2_x_start; b2_y_start; b2_x_end; b2_y_end] in
  pixel_box box_1 -> pixel_box box_2 ->
  pair_gap box_1 box_2
  = Ok (Z.max (b2_x_start - b1_x_end) (b1_x_start - b2_x_end))
  /\ pair_gap box_1 box_2 = pair_gap box_2 box_1.
Proof.
  intros box_1 box_2 H1 H2.
  rewrite !pair_gap_agrees by now apply pixel_box_agreement.
  apply pair_gap_is_horizontal_distance_exact.
Qed.

Lemma pair_gap_is_horizontal_distance_witness :
  pair_gap [0; 0; 100; 20] [150; 5; 300; 25]
  = Ok (Z.max (150 - 100) (0 - 300))
  /\ pair_gap [0; 0; 100; 20] [150; 5; 300; 25]
     = pair_gap [150; 5; 300; 25] [0; 0; 100; 20].
Proof.
  apply (pair_gap_is_horizontal_distance 0 0 100 20 150 5 300 25);
    reflexivity.
Defined.

Lemma find_min_width_text_agrees (l : layout) (tbs : list BBox)
    (margin start : Z) :
  bbox_text l = Some tbs -> Forall pixel_box tbs ->
  find_min_width margin start l = Exact.find_min_width margin start l.
Proof.
  intros Ht Hp.
  unfold find_min_width, Exact.find_min_width, mbind, dict_get, pure, mret.
  rewrite Ht. destruct (_ <? _)%nat; [reflexivity|].
  rewrite scan_pairs_agrees; [reflexivity|].
  apply (combinations2_Forall
           (fun b => coordinates_below agreement_bound b = true)).
  eapply Forall_impl; [|exact Hp]. apply pixel_box_agreement.
Qed.

(** X13: [find_min_width] returns the start value when ['bbox_text'] is
    absent or holds fewer than two boxes, whatever the boxes are; with two
    boxes or more, all in pixel coordinates, it returns exactly when every
    text box has four items, and otherwise raises [ValueError]. *)
Theorem find_min_width_exceptions (l : layout)
    (height_margin start_min_width : Z) :
  (bbox_text l = None ->
   fst (find_min_width height_margin start_min_width l) = Ok start_min_width)
  /\ (forall tbs,
        bbox_text l = Some tbs -> (length tbs < 2)%nat ->
        fst (find_min_width height_margin start_min_width l)
        = Ok start_min_width)
  /\ (forall tbs,
        bbox_text l = Some tbs -> (2 <= length tbs)%nat ->
        Forall pixel_box tbs ->
        ((exists r, fst (find_min_width height_margin start_min_width l) = Ok r)
         <-> Forall (fun b => length b = 4%nat) tbs)
        /\ (fst (find_min_width height_margin start_min_width l)
            = Raise ValueError
            <-> ~ Forall (fun b => length b = 4%nat) tbs)).
Proof.
  split; [|split].
  - intros Ht. unfold find_min_width, mbind, dict_get, mret.
    now rewrite Ht.
  - intros tbs Ht Hlen. unfold find_min_width, mbind, dict_get, mret.
    rewrite Ht. now rewrite (proj2 (Nat.ltb_lt _ _) Hlen).
  - intros tbs Ht Hlen Hp.
    rewrite (find_min_width_text_agrees l tbs _ _ Ht Hp).
    now apply (proj2 (proj2 (find_min_width_exceptions_exact l height_margin
                               start_min_width))).
Qed.

Lemma find_min_width_exceptions_witness :
  (exists r, fst (find_min_width 10 900 three_on_a_row) = Ok r)
  <-> Forall (fun b => length b = 4%nat)
             [[0; 0; 100; 20]; [150; 5; 300; 25]; [400; 0; 500; 20]].
Proof.
  apply (proj2 (proj2 (find_min_width_exceptions three_on_a_row 10 900))
           [[0; 0; 100; 20]; [150; 5; 300; 25]; [400; 0; 500; 20]]).
  - reflexivity.
  - cbn. lia.
  - repeat constructor.
Defined.

(** X14: on text boxes in pixel coordinates [find_min_width] does not
    depend on the order in which the text boxes are listed, nor on any other
    field of the layout. *)
Theorem find_min_width_order_is_irrelevant (l l' : layout)
    (tbs tbs' : list BBox) (height_margin start_min_width : Z) :
  bbox_text l = Some tbs -> bbox_text l' = Some tbs' ->
  Permutation tbs tbs' ->
  Forall pixel_box tbs ->
  fst (find_min_width height_margin start_min_width l)
  = fst (find_min_width height_margin start_min_width l').
Proof.
  intros Ht Ht' Hperm Hp.
  rewrite (find_min_width_text_agrees l tbs _ _ Ht Hp).
  rewrite (find_min_width_text_agrees l' tbs' _ _ Ht'
             (Permutation_Forall Hperm Hp)).
  now apply (find_min_width_order_is_irrelevant_exact l l' tbs tbs').
Qed.

Lemma find_min_width_order_is_irrelevant_witness :
  fst (find_min_width 10 900 three_on_a_row)
  = fst (find_min_width 10 900
           (mkLayout None
              (Some [[400; 0; 500; 20]; [150; 5; 300; 25]; [0; 0; 100; 20]])
              None None None)).
Proof.
  apply (find_min_width_order_is_irrelevant three_on_a_row _
           [[0; 0; 100; 20]; [150; 5; 300; 25]; [400; 0; 500; 20]]
           [[400; 0; 500; 20]; [150; 5; 300; 25]; [0; 0; 100; 20]]).
  - reflexivity.
  - reflexivity.
  - apply (Permutation_rev
             [[0; 0; 100; 20]; [150; 5; 300; 25]; [400; 0; 500; 20]]).
  - repeat constructor.
Defined.

(** ** [detect_two_columns] on pixel coordinates *)

(** X6: a call raises [ValueError] when both fields are non-empty and the
    layout box does not have four items; on pixel coordinates [ValueError]
    is the only exception it can raise, and it returns a boolean when all
    boxes have four items. *)
Theorem detect_two_columns_exceptions (l : layout) :
  (forall lb tbs,
     bbox_layout l = Some lb -> bbox_text l = Some tbs ->
     lb <> [] -> tbs <> [] -> length lb <> 4%nat ->
     fst (detect_two_columns l) = Raise ValueError)
  /\ (pixel_range l ->
      (forall e, fst (detect_two_columns l) = Raise e -> e = ValueError)
      /\ (well_formed l -> exists b, fst (detect_two_columns l) = Ok b)).
Proof.
  split.
  - intros lb tbs Hb Ht Hlb Htbs Hlen.
    rewrite detect_run, detect_site_run, Hb, Ht. cbn [fst].
    destruct lb as [|x lb']; [congruence|].
    destruct tbs as [|t tbs']; [congruence|].
    unfold classify, find_columns.
    destruct (unpack4 (x :: lb')) as [q|e] eqn:Eu.
    + apply unpack4_Ok in Eu as (a & b & c & d & E & _).
      rewrite E in Hlen. cbn in Hlen. lia.
    + apply unpack4_Raise in Eu as ->. reflexivity.
  - intros Hp. rewrite (detect_agrees l (pixel_range_agreement l Hp)).
    destruct (detect_two_columns_exceptions_exact l) as (H1 & H2 & _).
    split; assumption.
Qed.

Lemma detect_two_columns_exceptions_witness :
  exists b, fst (detect_two_columns scenario_A) = Ok b.
Proof.
  apply (proj2 (proj2 (detect_two_columns_exceptions scenario_A) eq_refl)).
  split.
  - intros lb [= <-]. right. reflexivity.
  - intros tbs [= <-]. repeat constructor.
Defined.

(** Outside the pixel range a call on well-formed boxes can raise
    [OverflowError]: the width of a box, divided by the layout width, is
    too large for a double. *)
Lemma detect_two_columns_overflow :
  fst (detect_two_columns
         (geometry [0; 0; 1000; 800] [[0; 0; 2 ^ 1035; 10]]))
  = Raise OverflowError.
Proof. vm_compute. reflexivity. Qed.

(** The columns handed to the validation lie within the layout's range. *)
Lemma columns_below (B : Z) (l : layout) (c : columns) :
  layout_below B l = true -> Exact.reaches l c ->
  forallb (coordinates_below B) (left_column_boxes c) = true
  /\ forallb (coordinates_below B) (right_column_boxes c) = true
  /\ 300 <= layout_height c <= 2 * B.
Proof.
  intros Hbelow (lb & tbs & Hb & Ht & Hf).
  apply layout_below_fields in Hbelow as [Hl Htb].
  specialize (Hl _ Hb). specialize (Htb _ Ht).
  apply find_columns_inr in Hf
    as (xs & ys & xe & ye & ns & g & gs & -> & HH & _ & Hns & _ & _ & ->).
  cbv zeta. cbn [left_column_boxes right_column_boxes layout_height].
  apply coordinates_below_4 in Hl as (_ & Hys & _ & Hye).
  assert (Hin : forall b,
            In b (map Exact.bbox
                    (Exact.py_sorted Exact.cx (Exact.centered_boxes ns))) ->
            In b tbs).
  { intros b Hin. apply (non_spanning_boxes_incl _ _ _ Hns).
    rewrite <- (centered_boxes_bbox ns).
    eapply Permutation_in; [|exact Hin].
    apply Permutation_map, Permutation_sym, py_sorted_perm. }
  split; [|split; [|lia]].
  - apply (forallb_incl _ _ tbs); [|exact Htb].
    intros b Hin'. apply Hin. apply in_map_iff in Hin' as (c & <- & Hc).
    apply in_map. eapply firstn_incl, Hc.
  - apply (forallb_incl _ _ tbs); [|exact Htb].
    intros b Hin'. apply Hin. apply in_map_iff in Hin' as (c & <- & Hc).
    apply in_map. eapply skipn_incl, Hc.
Qed.

(** The median of the exact program is the median of the data. *)
Lemma median_of_exact (data : list Z) (m : Q) :
  median_of data m <-> (m == Exact.np_median data)%Q.
Proof.
  unfold median_of, Exact.np_median. cbv zeta. split.
  - intros (s & Hperm & Hsorted & Hm).
    assert (E : s = sort_Z data).
    { apply sorted_Z_unique; [exact Hsorted|apply sort_Z_sorted|].
      rewrite Hperm. apply sort_Z_perm. }
    rewrite <- E. exact Hm.
  - intros Hm. exists (sort_Z data).
    split; [apply Permutation_sym, sort_Z_perm|].
    split; [apply sort_Z_sorted|exact Hm].
Qed.

Lemma median_of_unique (data : list Z) (m m' : Q) :
  median_of data m -> median_of data m' -> (m == m')%Q.
Proof.
  intros H H'. apply median_of_exact in H, H'. now rewrite H, H'.
Qed.

Lemma item_coordinates (B : Z) (i : nat) (L : list BBox) :
  0 <= B ->
  forallb (coordinates_below B) L = true ->
  Forall (fun x => Z.abs x <= B) (map (fun b => item b i) L).
Proof.
  intros HB H. apply Forall_map, Forall_forall. intros b Hb.
  rewrite forallb_forall in H. now apply item_below, H.
Qed.

(** C6, on pixel coordinates: once a split reaches the
    horizontal-separation check (both columns have two boxes or more), the
    two statistics computed are the medians of the right edges of the left
    column and of the left edges of the right column, without rounding; the
    call returns [False] when the second minus the first is below -20, and
    otherwise goes on to the vertical checks. *)
Theorem horizontal_separation_check (l : layout) (c : columns) :
  pixel_range l ->
  reaches l c ->
  (2 <= length (left_column_boxes c))%nat ->
  (2 <= length (right_column_boxes c))%nat ->
  let x_end_left := map (fun b => item b 2) (left_column_boxes c) in
  let x_start_right := map (fun b => item b 0) (right_column_boxes c) in
  exists median_x_end_left median_x_start_right : Q,
    median_of x_end_left median_x_end_left
    /\ median_of x_start_right median_x_start_right
    /\ is_finite (np_median x_end_left) median_x_end_left
    /\ is_finite (np_median x_start_right) median_x_start_right
    /\ ((median_x_start_right - median_x_end_left < inject_Z (-20))%Q ->
        fst (detect_two_columns_site l) = Ok ColumnsOverlap
        /\ detect_two_columns l = (Ok false, l))
    /\ ((inject_Z (-20) <= median_x_start_right - median_x_end_left)%Q ->
        fst (detect_two_columns_site l)
        = validate_vertical (left_column_boxes c) (right_column_boxes c)
                            (layout_height c)).
Proof.
  intros Hp Hr HL HR. cbv zeta.
  pose proof (pixel_range_agreement l Hp) as Ha.
  apply (reaches_agrees l c Ha) in Hr.
  destruct (columns_below _ l c Ha Hr) as (HbL & HbR & HH).
  destruct (horizontal_separation_check_exact l c Hr HL HR)
    as (Hlow & Hhigh & _).
  assert (HneL : map (fun b => item b 2) (left_column_boxes c) <> []).
  { destruct (left_column_boxes c); cbn in *; [lia|discriminate]. }
  assert (HneR : map (fun b => item b 0) (right_column_boxes c) <> []).
  { destruct (right_column_boxes c); cbn in *; [lia|discriminate]. }
  assert (HB : 0 <= agreement_bound) by (rewrite agreement_bound_value; lia).
  exists (Exact.np_median (map (fun b => item b 2) (left_column_boxes c))),
         (Exact.np_median (map (fun b => item b 0) (right_column_boxes c))).
  split; [now apply median_of_exact|].
  split; [now apply median_of_exact|].
  split; [apply np_median_agrees; [exact HneL|now apply item_coordinates]|].
  split; [apply np_median_agrees; [exact HneR|now apply item_coordinates]|].
  rewrite (detect_site_agrees l Ha), (detect_agrees l Ha).
  split; [exact Hlow|].
  intros Hsep. rewrite (Hhigh Hsep). symmetry.
  apply validate_vertical_agrees; assumption || lia.
Qed.

Lemma horizontal_separation_check_witness :
  exists median_x_end_left median_x_start_right : Q,
    median_of (map (fun b => item b 2)
                   (left_column_boxes scenario_A_columns))
              median_x_end_left
    /\ median_of (map (fun b => item b 0)
                      (right_column_boxes scenario_A_columns))
                 median_x_start_right
    /\ is_finite (np_median (map (fun b => item b 2)
                                 (left_column_boxes scenario_A_columns)))
                 median_x_end_left
    /\ is_finite (np_median (map (fun b => item b 0)
                                 (right_column_boxes scenario_A_columns)))
                 median_x_start_right
    /\ ((median_x_start_right - median_x_end_left < inject_Z (-20))%Q ->
        fst (detect_two_columns_site scenario_A) = Ok ColumnsOverlap
        /\ detect_two_columns scenario_A = (Ok false, scenario_A))
    /\ ((inject_Z (-20) <= median_x_start_right - median_x_end_left)%Q ->
        fst (detect_two_columns_site scenario_A)
        = validate_vertical (left_column_boxes scenario_A_columns)
                            (right_column_boxes scenario_A_columns)
                            (layout_height scenario_A_columns)).
Proof.
  apply (horizontal_separation_check scenario_A scenario_A_columns).
  - reflexivity.
  - exists [0; 0; 1000; 800],
      [[50; 50; 400; 150]; [520; 50; 900; 150];
       [100; 200; 420; 300]; [540; 200; 910; 300];
       [150; 350; 440; 450]; [560; 350; 920; 450];
       [200; 500; 460; 600]; [580; 500; 940; 600];
       [60; 650; 480; 750]; [600; 650; 950; 750]].
    split; [reflexivity|]. split; [reflexivity|]. vm_compute. reflexivity.
  - cbn. lia.
  - cbn. lia.
Defined.

(** Near [2 ^ 60] the medians are rounded to multiples of 256: two columns
    whose medians are 30 pixels the wrong way round pass the check, and the
    call returns [True]. *)
Lemma rounded_medians_hide_an_overlap :
  let c := mkColumns
             [[2 ^ 60 - 500; 50; 2 ^ 60 + 100; 400];
              [2 ^ 60 - 500; 400; 2 ^ 60 + 100; 750]]
             [[2 ^ 60 + 70; 50; 2 ^ 60 + 670; 400];
              [2 ^ 60 + 70; 400; 2 ^ 60 + 670; 750]]
             800 in
  reaches far_overlapping_columns c
  /\ (2 <= length (left_column_boxes c))%nat
  /\ (2 <= length (right_column_boxes c))%nat
  /\ median_of (map (fun b => item b 2) (left_column_boxes c))
               (inject_Z (2 ^ 60 + 100))
  /\ median_of (map (fun b => item b 0) (right_column_boxes c))
               (inject_Z (2 ^ 60 + 70))
  /\ (inject_Z (2 ^ 60 + 70) - inject_Z (2 ^ 60 + 100) < inject_Z (-20))%Q
  /\ fst (detect_two_columns_site far_overlapping_columns)
     = Ok AllChecksPassed
  /\ fst (detect_two_columns far_overlapping_columns) = Ok true.
Proof.
  cbv zeta. split.
  { eexists _, _. split; [reflexivity|]. split; [reflexivity|].
    vm_compute. reflexivity. }
  split; [cbn; lia|]. split; [cbn; lia|].
  split; [apply median_of_exact; vm_compute; reflexivity|].
  split; [apply median_of_exact; vm_compute; reflexivity|].
  split; [vm_compute; reflexivity|].
  split; vm_compute; reflexivity.
Qed.

(** X7: on pixel coordinates [detect_two_columns] returns [True] exactly
    when a gutter is found (steps 1-3 yield two columns), each column has
    two boxes or more, the median left edge of the right column is at most
    20 below the median right edge of the left column, each column is at
    least three tenths of the layout height tall, and the vertical overlap
    of the columns is at least two fifths of the shorter column's height. *)
Theorem two_column_verdict_rule (l : layout) :
  pixel_range l ->
  (fst (detect_two_columns l) = Ok true
   <-> exists c min_y_L max_y_L min_y_R max_y_R
              (median_x_end_left median_x_start_right : Q),
         reaches l c
         /\ (2 <= length (left_column_boxes c))%nat
         /\ (2 <= length (right_column_boxes c))%nat
         /\ median_of (map (fun b => item b 2) (left_column_boxes c))
                      median_x_end_left
         /\ median_of (map (fun b => item b 0) (right_column_boxes c))
                      median_x_start_right
         /\ (inject_Z (-20) <= median_x_start_right - median_x_end_left)%Q
         /\ py_min (map (fun b => item b 1) (left_column_boxes c))
            = Ok min_y_L
         /\ py_max (map (fun b => item b 3) (left_column_boxes c))
            = Ok max_y_L
         /\ py_min (map (fun b => item b 1) (right_column_boxes c))
            = Ok min_y_R
         /\ py_max (map (fun b => item b 3) (right_column_boxes c))
            = Ok max_y_R
         /\ 3 * layout_height c <= 10 * (max_y_L - min_y_L)
         /\ 3 * layout_height c <= 10 * (max_y_R - min_y_R)
         /\ 2 * Z.min (max_y_L - min_y_L) (max_y_R - min_y_R)
            <= 5 * Z.max 0 (Z.min max_y_L max_y_R - Z.max min_y_L min_y_R)).
Proof.
  intros Hp. pose proof (pixel_range_agreement l Hp) as Ha.
  rewrite (detect_agrees l Ha), two_column_verdict_rule_exact.
  split.
  - intros (c & minL & maxL & minR & maxR & Hr & HL & HR & Hsep & Hrest).
    exists c, minL, maxL, minR, maxR,
      (Exact.np_median (map (fun b => item b 2) (left_column_boxes c))),
      (Exact.np_median (map (fun b => item b 0) (right_column_boxes c))).
    split; [now apply (reaches_agrees l c Ha)|].
    split; [exact HL|]. split; [exact HR|].
    split; [now apply median_of_exact|].
    split; [now apply median_of_exact|].
    split; [exact Hsep|exact Hrest].
  - intros (c & minL & maxL & minR & maxR & mL & mR
            & Hr & HL & HR & HmL & HmR & Hsep & Hrest).
    exists c, minL, maxL, minR, maxR.
    split; [now apply (reaches_agrees l c Ha)|].
    split; [exact HL|]. split; [exact HR|].
    split; [|exact Hrest].
    apply median_of_exact in HmL, HmR.
    unfold Exact.median_separation. cbv zeta.
    now rewrite <- HmL, <- HmR.
Qed.

Lemma two_column_verdict_rule_witness :
  exists c min_y_L max_y_L min_y_R max_y_R
         (median_x_end_left median_x_start_right : Q),
    reaches scenario_A c
    /\ (2 <= length (left_column_boxes c))%nat
    /\ (2 <= length (right_column_boxes c))%nat
    /\ median_of (map (fun b => item b 2) (left_column_boxes c))
                 median_x_end_left
    /\ median_of (map (fun b => item b 0) (right_column_boxes c))
                 median_x_start_right
    /\ (inject_Z (-20) <= median_x_start_right - median_x_end_left)%Q
    /\ py_min (map (fun b => item b 1) (left_column_boxes c)) = Ok min_y_L
    /\ py_max (map (fun b => item b 3) (left_column_boxes c)) = Ok max_y_L
    /\ py_min (map (fun b => item b 1) (right_column_boxes c)) = Ok min_y_R
    /\ py_max (map (fun b => item b 3) (right_column_boxes c)) = Ok max_y_R
    /\ 3 * layout_height c <= 10 * (max_y_L - min_y_L)
    /\ 3 * layout_height c <= 10 * (max_y_R - min_y_R)
    /\ 2 * Z.min (max_y_L - min_y_L) (max_y_R - min_y_R)
       <= 5 * Z.max 0 (Z.min max_y_L max_y_R - Z.max min_y_L min_y_R).
Proof.
  apply (proj1 (two_column_verdict_rule scenario_A eq_refl)).
  vm_compute. reflexivity.
Defined.

(** X8: on pixel coordinates the two columns handed to the validation
    split the non-spanning boxes between them (every such box is in exactly
    one column), neither is empty, every box of the left column has its
    centre strictly to the left of every box of the right column, and the
    midpoint between the rightmost centre of the left column and the
    leftmost centre of the right column lies in the central half of the
    layout. *)
Theorem columns_split_the_boxes (l : layout) (c : columns) :
  pixel_range l ->
  reaches l c ->
  exists x_start y_start x_end y_end tbs non_spanning,
    bbox_layout l = Some [x_start; y_start; x_end; y_end]
    /\ bbox_text l = Some tbs
    /\ non_spanning_boxes [x_start; y_start; x_end; y_end] tbs
       = Ok non_spanning
    /\ Permutation (left_column_boxes c ++ right_column_boxes c) non_spanning
    /\ (forall a b, In a (left_column_boxes c) -> In b (right_column_boxes c) ->
          item a 0 + item a 2 < item b 0 + item b 2)
    /\ exists a b,
         In a (left_column_boxes c) /\ In b (right_column_boxes c)
         /\ (forall a', In a' (left_column_boxes c) ->
               item a' 0 + item a' 2 <= item a 0 + item a 2)
         /\ (forall b', In b' (right_column_boxes c) ->
               item b 0 + item b 2 <= item b' 0 + item b' 2)
         /\ 4 * x_start + (x_end - x_start)
            <= (item a 0 + item a 2) + (item b 0 + item b 2)
            <= 4 * x_start + 3 * (x_end - x_start).
Proof.
  intros Hp Hr. pose proof (pixel_range_agreement l Hp) as Ha.
  apply (reaches_agrees l c Ha) in Hr.
  destruct (columns_split_the_boxes_exact l c Hr)
    as (xs & ys & xe & ye & tbs & ns & Hb & Ht & Hns & Hrest).
  exists xs, ys, xe, ye, tbs, ns.
  split; [exact Hb|]. split; [exact Ht|]. split; [|exact Hrest].
  apply layout_below_fields in Ha as [Hl Htb].
  now rewrite (non_spanning_agrees _ _ (Hl _ Hb) (Htb _ Ht)).
Qed.

Lemma columns_split_the_boxes_witness :
  exists x_start y_start x_end y_end tbs non_spanning,
    bbox_layout tied_gaps = Some [x_start; y_start; x_end; y_end]
    /\ bbox_text tied_gaps = Some tbs
    /\ non_spanning_boxes [x_start; y_start; x_end; y_end] tbs
       = Ok non_spanning
    /\ Permutation (left_column_boxes tied_gaps_columns
                    ++ right_column_boxes tied_gaps_columns) non_spanning
    /\ (forall a b,
          In a (left_column_boxes tied_gaps_columns) ->
          In b (right_column_boxes tied_gaps_columns) ->
          item a 0 + item a 2 < item b 0 + item b 2)
    /\ exists a b,
         In a (left_column_boxes tied_gaps_columns)
         /\ In b (right_column_boxes tied_gaps_columns)
         /\ (forall a', In a' (left_column_boxes tied_gaps_columns) ->
               item a' 0 + item a' 2 <= item a 0 + item a 2)
         /\ (forall b', In b' (right_column_boxes tied_gaps_columns) ->
               item b 0 + item b 2 <= item b' 0 + item b' 2)
         /\ 4 * x_start + (x_end - x_start)
            <= (item a 0 + item a 2) + (item b 0 + item b 2)
            <= 4 * x_start + 3 * (x_end - x_start).
Proof.
  apply (columns_split_the_boxes tied_gaps tied_gaps_columns eq_refl).
  exists [0; 0; 1000; 800],
         [[250; 50; 350; 400]; [250; 400; 350; 750];
          [450; 50; 550; 400]; [450; 400; 550; 750];
          [650; 50; 750; 750]].
  split; [reflexivity|]. split; [reflexivity|]. vm_compute. reflexivity.
Defined.

Lemma layout_below_rearranged (B : Z) (l l' : layout) (tbs tbs' : list BBox) :
  bbox_layout l = bbox_layout l' ->
  bbox_text l = Some tbs -> bbox_text l' = Some tbs' ->
  Permutation tbs tbs' ->
  layout_below B l = true -> layout_below B l' = true.
Proof.
  intros Hb Ht Ht' Hperm. unfold layout_below.
  rewrite <- Hb, Ht, Ht', !andb_true_iff. intros [H1 H2].
  split; [exact H1|].
  rewrite forallb_forall in *. intros b Hin. apply H2.
  eapply Permutation_in; [|exact Hin]. now apply Permutation_sym.
Qed.

(** X9: on pixel coordinates the order in which the text boxes are listed
    does not matter: two layouts with the same layout box whose text boxes
    are a rearrangement of one another get the same result, an exception
    included. *)
Theorem text_box_order_is_irrelevant (l l' : layout) (tbs tbs' : list BBox) :
  pixel_range l ->
  bbox_layout l = bbox_layout l' ->
  bbox_text l = Some tbs -> bbox_text l' = Some tbs' ->
  Permutation tbs tbs' ->
  fst (detect_two_columns_site l) = fst (detect_two_columns_site l')
  /\ fst (detect_two_columns l) = fst (detect_two_columns l').
Proof.
  intros Hp Hb Ht Ht' Hperm.
  pose proof (pixel_range_agreement l Hp) as Ha.
  pose proof (layout_below_rearranged _ l l' tbs tbs' Hb Ht Ht' Hperm Ha)
    as Ha'.
  rewrite (detect_site_agrees l Ha), (detect_site_agrees l' Ha'),
          (detect_agrees l Ha), (detect_agrees l' Ha').
  now apply (text_box_order_is_irrelevant_exact l l' tbs tbs').
Qed.

Lemma text_box_order_is_irrelevant_witness :
  fst (detect_two_columns_site tied_gaps)
  = fst (detect_two_columns_site
           (geometry [0; 0; 1000; 800]
              [[650; 50; 750; 750]; [450; 400; 550; 750];
               [450; 50; 550; 400]; [250; 400; 350; 750];
               [250; 50; 350; 400]]))
  /\ fst (detect_two_columns tied_gaps)
     = fst (detect_two_columns
              (geometry [0; 0; 1000; 800]
                 [[650; 50; 750; 750]; [450; 400; 550; 750];
                  [450; 50; 550; 400]; [250; 400; 350; 750];
                  [250; 50; 350; 400]])).
Proof.
  apply (text_box_order_is_irrelevant tied_gaps _
           [[250; 50; 350; 400]; [250; 400; 350; 750];
            [450; 50; 550; 400]; [450; 400; 550; 750];
            [650; 50; 750; 750]]
           [[650; 50; 750; 750]; [450; 400; 550; 750];
            [450; 50; 550; 400]; [250; 400; 350; 750];
            [250; 50; 350; 400]]).
  - reflexivity.
  - reflexivity.
  - reflexivity.
  - reflexivity.
  - apply (Permutation_rev
             [[250; 50; 350; 400]; [250; 400; 350; 750];
              [450; 50; 550; 400]; [450; 400; 550; 750];
              [650; 50; 750; 750]]).
Defined.

(** X18: on pixel coordinates the result does not depend on where the
    layout lies on the page: moving the layout box and every text box by
    the same offset, within the pixel range, gives the same result, an
    exception included. *)
Theorem detect_two_columns_translation_invariant (dx dy : Z) (l : layout) :
  pixel_range l -> pixel_range (shift_layout dx dy l) ->
  fst (detect_two_columns_site (shift_layout dx dy l))
  = fst (detect_two_columns_site l)
  /\ fst (detect_two_columns (shift_layout dx dy l))
     = fst (detect_two_columns l).
Proof.
  intros Hp Hp'.
  pose proof (pixel_range_agreement l Hp) as Ha.
  pose proof (pixel_range_agreement _ Hp') as Ha'.
  rewrite (detect_site_agrees l Ha), (detect_site_agrees _ Ha'),
          (detect_agrees l Ha), (detect_agrees _ Ha').
  apply detect_two_columns_translation_invariant_exact.
Qed.

Lemma detect_two_columns_translation_invariant_witness :
  fst (detect_two_columns_site (shift_layout 12000 (-345) scenario_A))
  = fst (detect_two_columns_site scenario_A)
  /\ fst (detect_two_columns (shift_layout 12000 (-345) scenario_A))
     = fst (detect_two_columns scenario_A).
Proof.
  apply (detect_two_columns_translation_invariant 12000 (-345) scenario_A);
    reflexivity.
Defined.

(** ** Mirror images *)

Lemma gutter_candidates_agree (l : layout) :
  layout_below agreement_bound l = true ->
  Forall2 gutter_agrees (gutter_candidates l) (Exact.gutter_candidates l).
Proof.
  intros H. apply layout_below_fields in H as [Hl Ht].
  unfold gutter_candidates, Exact.gutter_candidates.
  destruct (bbox_layout l) as [lb|] eqn:Hb; [|constructor].
  destruct lb as [|xs [|ys [|xe [|ye [|? ?]]]]]; try constructor.
  destruct (bbox_text l) as [tbs|] eqn:Htb; [|constructor].
  specialize (Hl _ eq_refl). specialize (Ht _ eq_refl).
  rewrite (non_spanning_agrees _ _ Hl Ht).
  destruct (Exact.non_spanning_boxes _ tbs) as [ns|e] eqn:En; cbn [bind];
    [|constructor].
  assert (Hns : forallb (coordinates_below agreement_bound) ns = true).
  { apply forallb_forall. intros b Hin.
    apply (proj1 (forallb_forall _ _) Ht).
    exact (non_spanning_boxes_incl _ _ _ En b Hin). }
  destruct (centered_agrees ns Hns) as (cs & -> & Hcs). cbn [bind].
  pose proof (py_sorted_agrees _ _ Hcs) as Hsorted.
  assert (Hrange : Forall centre_in_range
                     (Exact.py_sorted Exact.cx (Exact.centered_boxes ns))).
  { eapply Permutation_Forall; [apply py_sorted_perm|].
    now apply centered_in_range. }
  apply coordinates_below_4 in Hl as (Hxs & _ & Hxe & _).
  destruct (potential_gutters_agrees xs (xe - xs) 0 _ _
              ltac:(lia) ltac:(lia) Hsorted Hrange) as (gs & -> & Hgs).
  exact Hgs.
Qed.

Lemma filter_length_agrees {A B} (R : A -> B -> Prop) (f : A -> bool)
    (g : B -> bool) (l : list A) (l' : list B) :
  (forall a b, R a b -> f a = g b) ->
  Forall2 R l l' -> length (filter f l) = length (filter g l').
Proof.
  intros Hfg. induction 1 as [|a b l l' Hab Hl IH]; [reflexivity|].
  cbn [filter]. rewrite (Hfg a b Hab).
  destruct (g b); cbn [length]; now rewrite IH.
Qed.

Lemma widest_agrees (gs : list gutter) (gs' : list Exact.gutter) :
  Forall2 gutter_agrees gs gs' ->
  length (widest gs) = length (Exact.widest gs').
Proof.
  intros H. unfold widest, Exact.widest.
  destruct H as [|g g' gs gs' Hg Hgs]; [reflexivity|]. cbv zeta.
  pose proof (max_from_agrees _ _ _ _ Hg Hgs) as (_ & Hbest & _).
  apply (filter_length_agrees gutter_agrees).
  - intros a b (_ & Hab & _). now apply fle_finite.
  - now constructor.
Qed.

Lemma mirror_box_below (t : Z) (b : BBox) :
  Z.abs t <= 2 * pixel_bound ->
  coordinates_below pixel_bound b = true ->
  coordinates_below agreement_bound (mirror_box t b) = true.
Proof.
  intros Ht Hb.
  assert (Hle : pixel_bound <= agreement_bound)
    by (unfold pixel_bound, agreement_bound; apply Z.pow_le_mono_r; lia).
  destruct b as [|xs [|ys [|xe [|ye [|? ?]]]]]; cbn [mirror_box];
    try exact (coordinates_below_mono _ _ _ Hle Hb).
  apply coordinates_below_4 in Hb as (Hxs & Hys & Hxe & Hye).
  unfold coordinates_below. cbn [forallb].
  rewrite !andb_true_iff, !Z.leb_le.
  unfold pixel_bound, agreement_bound in *.
  change (2 ^ 43) with (8 * 2 ^ 40). lia.
Qed.

(** The mirror image of a layout in pixel coordinates lies in the range of
    agreement. *)
Lemma mirror_layout_below (l : layout) :
  pixel_range l -> layout_below agreement_bound (mirror_layout l) = true.
Proof.
  intros Hp. pose proof (pixel_range_agreement l Hp) as Ha.
  unfold mirror_layout.
  destruct (bbox_layout l) as [lb|] eqn:Hb; [|exact Ha].
  destruct lb as [|xs [|ys [|xe [|ye [|? ?]]]]]; try exact Ha.
  apply layout_below_fields in Hp as [Hl Ht].
  specialize (Hl _ Hb).
  assert (Hsum : Z.abs (xs + xe) <= 2 * pixel_bound).
  { apply coordinates_below_4 in Hl as (Hxs & _ & Hxe & _). lia. }
  unfold layout_below. cbn [bbox_layout bbox_text]. cbv zeta.
  apply andb_true_iff. split.
  - now apply mirror_box_below.
  - destruct (bbox_text l) as [tbs|] eqn:Htb; [|reflexivity].
    cbn [option_map]. specialize (Ht _ eq_refl).
    rewrite forallb_forall in *. intros b Hin.
    apply in_map_iff in Hin as (b0 & <- & Hin).
    apply mirror_box_below; [exact Hsum|now apply Ht].
Qed.

(** C4, on pixel coordinates and without ties: when at most one gutter
    candidate has the maximal gap width, mirroring the text boxes and the
    layout box about the layout's vertical centre line leaves the result
    unchanged. *)
Theorem mirror_preserves_verdict_without_ties (l : layout) :
  pixel_range l ->
  (length (widest (gutter_candidates l)) <= 1)%nat ->
  fst (detect_two_columns_site (mirror_layout l))
  = fst (detect_two_columns_site l)
  /\ fst (detect_two_columns (mirror_layout l)) = fst (detect_two_columns l).
Proof.
  intros Hp Huniq.
  pose proof (pixel_range_agreement l Hp) as Ha.
  pose proof (mirror_layout_below l Hp) as Ha'.
  rewrite (detect_site_agrees l Ha), (detect_site_agrees _ Ha'),
          (detect_agrees l Ha), (detect_agrees _ Ha').
  apply mirror_preserves_verdict_without_ties_exact.
  now rewrite <- (widest_agrees _ _ (gutter_candidates_agree l Ha)).
Qed.

Lemma mirror_preserves_verdict_without_ties_witness :
  fst (detect_two_columns_site (mirror_layout scenario_A))
  = fst (detect_two_columns_site scenario_A)
  /\ fst (detect_two_columns (mirror_layout scenario_A))
     = fst (detect_two_columns scenario_A).
Proof.
  apply (mirror_preserves_verdict_without_ties scenario_A).
  - reflexivity.
  - vm_compute. lia.
Defined.

(** With a tie the mirror image can get another verdict: the boxes of
    [tied_gaps] have their centres at 300, 300, 500, 500 and 700, the first
    of the two widest gaps is taken on either side of the mirror, and the
    mirror image is left with a column of one box. *)
Lemma mirror_changes_verdict_on_tie :
  pixel_range tied_gaps
  /\ length (widest (gutter_candidates tied_gaps)) = 2%nat
  /\ fst (detect_two_columns tied_gaps) = Ok true
  /\ fst (detect_two_columns (mirror_layout tied_gaps)) = Ok false
  /\ fst (detect_two_columns (mirror_layout tied_gaps))
     <> fst (detect_two_columns tied_gaps).
Proof.
  split; [reflexivity|].
  repeat split; try (vm_compute; reflexivity).
  vm_compute. discriminate.
Qed.

(** Far from the origin the mirror image can get another verdict without
    a tie: the rounded centres of [far_tied_gaps] leave one widest
    candidate, the call splits four boxes from one, and the mirror image
    three from two. *)
Lemma mirror_changes_verdict_far_away :
  length (widest (gutter_candidates far_tied_gaps)) = 1%nat
  /\ fst (detect_two_columns far_tied_gaps) = Ok false
  /\ fst (detect_two_columns (mirror_layout far_tied_gaps)) = Ok true.
Proof. repeat split; vm_compute; reflexivity. Qed.

(** ** The gutter *)








